(* ===== verification/_CoqProject ===== *)
-Q . S2P
Prelude.v
GoErrors.v
GoStrings.v
GoFloat.v
GoFloatError.v
Authn.v
Runtime.v
Http.v
Response.v
RateLimit.v
RateSpan.v
Mutex.v
Random.v
Storage.v
Service.v
Postgres.v
Cache.v
Interleave.v
Progress.v
Requests.v
Panics.v
Validation.v
Handlers.v
Logging.v
Links.v
Sso.v
Router.v
Schema.v
Throttle.v
Bootstrap.v
Wire.v
Stack.v
Contract.v
Traffic.v
