(* ===== verification/Prelude.v ===== *)
(** * A verified model of the url-shortener service

    The service (Go) stores short links and redirects to them.  An HTTP request
    passes the router and its middleware (request id, access log, rate limiter,
    bearer-token authentication), reaches a handler, and the handler calls the
    service; the service calls a repository, which is a Redis cache in front of
    PostgreSQL.  Accounts live in another service, reached over gRPC.

    ** How the code is modelled

    A function that has effects is a state transformer [M W A := W -> A * W]
    over an abstract world [W].  What is not part of the program (PostgreSQL
    through pgx, Redis through go-redis, singleflight, the JWT library, chi, the
    validator, the JSON body decoder, gRPC, the HTTP server, the configuration
    reader) is a type class of operations over the world, with a second class of
    laws that state documented behaviour; each class has a concrete instance, on
    which the definitions are evaluated.  Go interfaces of the program are type
    classes as well, and their implementations are instances.  Errors are values
    ([GoErrors.error]) that keep the wrapping of [fmt.Errorf], so [errors.Is] is
    a function.  Integers are [Z] with the wrap-around of [int64] where it
    matters ([int64_wrap]), [float64] is binary64 (GoFloat), strings are byte
    strings.  A loop that need not end carries fuel and returns an option.
    Writing log lines is left out of the operations; the loggers and the lines
    of the requests are modelled beside them (Logging).

    ** The files

    - Prelude: the state monad, machine integers, hint databases, tactics.
    - GoErrors: sentinels of all packages (domain/errors.go and others), error
      values, results.
    - GoStrings: prefixes, [strings.TrimSpace], [net.SplitHostPort].
    - GoFloat: binary64 arithmetic on top of SpecFloat, with rounding bounds;
      GoFloatError: how far rounding goes up.
    - Authn: internal/authn, [NewVerifier] and [Verify].
    - Runtime: clock, deadlines and cancellation of contexts.
    - Http: requests, responses, [http.MaxBytesReader].
    - Response: transport/http/response, bodies and [RespondError].
    - RateLimit: middleware/ratelimit, [allow], [sweep], the middleware, each
      call at once; RateSpan: runs of requests and sweeper ticks; Mutex: the
      same code access by access (lock, map of pointers, fields of a bucket) as
      goroutines that interleave.
    - Random: pkg/random, [Generate] by rejection sampling.
    - Storage: the storage interface, the abstract store it promises
      ([StorageSpec], [trace_rel]), and the weaker contract [SafeStorage].
    - Service: internal/service/url, [Save], [Get], [Delete], the retry loop.
    - Postgres: storage/postgres/repository.go over the pool.
    - Cache: storage/redis/cache.go with its breaker, one call at a time.
    - Interleave: the same operations as programs that stop at every shared
      access, and a pool of threads that interleave there; Progress: that no
      thread is stuck; Requests: the operations of the service as such programs;
      Panics: such a program under chi's Recoverer, and pools that threads are
      left out of.
    - Validation: the checks of aliases and schemes, the rules of [SaveRequest].
    - Handlers: handlers/url.go, health.go, the middleware auth, reqid, logger.
    - Logging: pkg/logger/sl, the loggers of the layers, the access log line.
    - Links: the link endpoints over the service and any storage.
    - Sso: internal/ssoclient and handlers/handlers.go.
    - Router: router.go, the route table and the composition of the middleware;
      Schema: types of JSON bodies and the schema of every endpoint; Throttle:
      the auth endpoints behind their limiter.
    - Bootstrap: internal/bootstrap, internal/app, internal/config, cmd, server.go;
      Wire: the provider sets of wire.go, and the plan of calls they ask for.
    - Stack: what [InitializeApp] puts together, as one handler over the table;
      Contract: an abstract HTTP service over a book of links, which it refines.
    - Traffic: the router, the middleware and the handlers of the links as
      programs that interleave: HTTP requests that are served at the same time.

    ** What the theorems show

    - End to end: the started program keeps the table, Redis and the redirects
      good and lets only token holders write ([Stack.deployed_service_safe]); any
      sequence of requests is answered as the abstract service may answer it,
      statuses included ([Contract.service_refines_book]); a created link can be
      followed ([Stack.created_link_followed]); and of the requests of one
      address to the auth endpoints only so many get through
      ([Throttle.auth_endpoints_throttled]).
    - Types: every answer of the router is in the schema of its method and path
      ([Schema.responses_typed]).
    - Safety of the links: whatever the storage does within its contract, a
      redirect goes to a web address ([Links.redirects_safe]); links change only
      for the holder of a token ([Router.only_authenticated_writes],
      [Router.writes_need_a_token], [Handlers.RequireAuth_sound],
      [Authn.Verify_sound], [Authn.NewVerifier_no_bypass]).
    - Refinement: the service, the Postgres repository and the cache implement
      the abstract store ([Service.Save_refines], [Postgres.PostgresRepo_refines],
      [Cache.Cache_refines]); the statuses of the HTTP answers say what happened
      to it ([Links.POST_url_statuses], [Links.GET_after]).
    - The retry loop: it ends, equals a bounded search, retries only collisions,
      and bounds the calls ([Service.Save_terminates] and the three after it).
    - A link between its save and its delete: any calls on the service in
      between keep it ([Service.Save_Get_Delete_roundtrip]).
    - The cache: failures of Redis stay hidden, the open breaker is transparent,
      a delete restores coherence when Redis takes part, and a run in which it
      does not ([Cache.stale_after_delete]).
    - Interleaved requests: in no schedule, whatever fails, does a link appear
      that no token holder posted and that was not there ([Traffic.traffic_safe]),
      and an alias that no token holder deletes keeps its one link, is given to
      at most one post and is never redirected elsewhere
      ([Traffic.traffic_keeps_links]); and every request is answered, those
      included that wait for the lookup of another ([Traffic.traffic_answered]).
      A panic of the generator is answered by the Recoverer for its request, and
      the other requests run as if that request were not there
      ([Traffic.panics_contained]).  As a check of these programs against those
      of Router, a request alone is the sequential one
      ([Traffic.traffic_alone_is_router]).
      Under them lie the same statements for the service (Requests) and the cache
      (Interleave, Progress).  What can go wrong: a schedule with a delete leaves
      the deleted link in Redis ([Interleave.delete_race]), another hands a
      not-found to a client whose link is saved
      ([Interleave.not_found_after_save]).
    - The rate limiter: exact accounting in binary64, the burst bound, the bound
      over a span of time with the rounding of every refill
      ([RateSpan.rate_over_time]), the invariant, and that the sweep cannot be
      noticed.  Under concurrency: its mutex makes the calls atomic in the order
      of real time ([Mutex.limiter_linearizable]), so the bound holds for every
      schedule ([Mutex.concurrent_rate]); no two accesses race and nothing
      deadlocks ([Mutex.limiter_race_free]).
    - Generation: the output is the accepted bytes mapped to the alphabet, and
      every character has the same number of preimages.
    - Errors: what each failure becomes at each boundary, from the driver
      ([Postgres.PostgresRepo_errors]) and the validator, which names exactly the
      wrong fields ([Validation.SaveRequest_valid]), up to the HTTP status.
    - Logs: what is written in which environment, and with which request id
      ([Bootstrap.internal_errors_logged], [Logging.request_id_everywhere]).
    - Start-up and shutdown: what is opened, the instance of the migrations
      included, is closed in reverse order on every path of [main], the server
      shut down first, with one exception that is stated
      ([Bootstrap.main_releases]); wire_gen.go is what wire.go asks for
      ([Wire.wire_gen_follows_sets]).

    ** Fuel

    The retry loop is run with [MaxRetries] rounds (in Requests too), which suffice when
    [MaxRetries] is below the largest [int] ([Service.Save_terminates]).
    [Wire.plan] has enough when it covers the items of the sets.
    [Random.Generate] has enough fuel when it covers the buffers read
    ([Random.Generate_correct]); no bound holds for all entropy, so the service
    sees the generator through an interface.  [Sso.waitUntilReady] has enough
    when the fuel exceeds the state changes before the context is done.

    ** What is not modelled

    Concurrency of the account endpoints, of the probe and of start-up: there an
    operation runs alone, and in Traffic these endpoints and the limiter may
    answer anything.  [sweep]'s ticker: a pass may begin at any time, and passes may
    overlap, which covers the one goroutine of the code.  Of the panics only that
    of the generator, which the configuration can cause; not those of libraries.
    Log lines other than those of a
    request, its errors and the retry loop.  What [url.Parse] checks beyond the
    scheme and the control bytes, and [mail.ParseAddress], are parameters.  That chi
    routes on [URL.RawPath] when a percent-encoded path needs one: a request has
    one path.  A fused multiply-add in the refill of a bucket, which Go permits on
    architectures other than amd64.  The
    [Location] header is the URL handed to [http.Redirect].  How Wire works: only
    what its output has to be.  The struct [domain.URL], which no code uses, and
    the mocks, which are test doubles. *)

From stdpp Require Export base tactics list strings pretty gmap.
From Stdlib Require Export ZArith Lia.

#[global] Set Default Goal Selector "!".
#[global] Set Warnings "-clear-no-such-hyp,-register-all".
#[global] Open Scope Z_scope.

(** ** Effects

    A Go function that talks to the outside world is modelled as a state
    transformer over an abstract world [W].  The world is whatever the caller
    instantiates it with; the components only see it through type classes. *)

Definition M (W A : Type) : Type := W -> A * W.

#[export] Instance M_ret W : MRet (M W) := fun A a w => (a, w).
#[export] Instance M_bind W : MBind (M W) :=
  fun A B k m w => let '(a, w') := m w in k a w'.
#[export] Instance M_fmap W : FMap (M W) :=
  fun A B f m w => let '(a, w') := m w in (f a, w').

(** Run a computation of a sub-world inside a pair. *)
Definition lift_snd {C W A} (m : M W A) : M (C * W) A :=
  fun '(c, w) => let '(a, w') := m w in (a, (c, w')).
Definition get_fst {C W} : M (C * W) C := fun cw => (cw.1, cw).
Definition put_fst {C W} (c : C) : M (C * W) unit := fun cw => (tt, (c, cw.2)).

(** ** Machine integers *)

Definition int64_min : Z := - 2 ^ 63.
Definition int64_max : Z := 2 ^ 63 - 1.
(** Two's-complement wrap-around of Go's [int] and [int64]. *)
Definition int64_wrap (z : Z) : Z := (z + 2 ^ 63) mod 2 ^ 64 - 2 ^ 63.

(** ** Automation *)

Create HintDb go discriminated.
Create Rewrite HintDb go_rw.
#[export] Hint Constants Transparent : go.
#[export] Hint Variables Transparent : go.

(** [destruct_let] splits the pairs bound by the state monad, one call at a
    time, keeping the equation of the call. *)
Ltac destruct_let :=
  match goal with
  | |- context [ match ?m with (_, _) => _ end ] =>
      lazymatch m with
      | (_, _) => fail
      | _ => let a := fresh "a" in let w := fresh "w" in let E := fresh "E" in
             destruct m as [a w] eqn:E
      end
  | H : context [ match ?m with (_, _) => _ end ] |- _ =>
      lazymatch m with
      | (_, _) => fail
      | _ => let a := fresh "a" in let w := fresh "w" in let E := fresh "E" in
             destruct m as [a w] eqn:E
      end
  end.

(** [m_unfold] exposes the state passing of the monad operations. *)
Ltac m_unfold :=
  unfold mbind, mret, fmap, M_bind, M_ret, M_fmap, lift_snd, get_fst, put_fst in *;
  simpl in *.

(** ** Lemmas on machine integers *)

Lemma int64_wrap_id z : int64_min <= z <= int64_max -> int64_wrap z = z.
Proof.
  unfold int64_min, int64_max, int64_wrap. intros H.
  rewrite Z.mod_small; lia.
Qed.

Lemma int64_wrap_range z : int64_min <= int64_wrap z <= int64_max.
Proof.
  unfold int64_min, int64_max, int64_wrap.
  pose proof (Z.mod_pos_bound (z + 2 ^ 63) (2 ^ 64)). lia.
Qed.

#[export] Hint Resolve int64_wrap_range : go.
#[export] Hint Rewrite int64_wrap_id using lia : go_rw.

(** ** Lemmas on the monad *)

Lemma bind_eq {W A B} (m : M W A) (k : A -> M W B) w : (m ≫= k) w = k (m w).1 (m w).2.
Proof. unfold mbind, M_bind. by destruct (m w). Qed.

Lemma M_bind_ret {W A B} (a : A) (k : A -> M W B) w :
  (mret a ≫= k) w = k a w.
Proof. reflexivity. Qed.

Lemma M_bind_assoc {W A B C} (m : M W A) (k : A -> M W B) (h : B -> M W C) w :
  ((m ≫= k) ≫= h) w = (m ≫= (fun a => k a ≫= h)) w.
Proof. unfold mbind, M_bind. by destruct (m w). Qed.

(** ** Lemmas on lists *)

Lemma filter_all {A} (P : A -> Prop) `{forall x, Decision (P x)} l :
  Forall P l -> filter P l = l.
Proof.
  induction 1 as [|x l Hx _ IH]; [done|].
  rewrite filter_cons, decide_True by done. by f_equal.
Qed.
