(* ===== verification/GoErrors.v ===== *)
(** * Go error values

    Package-level sentinels of every package of the service, [fmt.Errorf]
    wrapping, [errors.Is] and [errors.As], and the [(T, error)] results the
    functions return.  A sentinel is a pointer in Go, so two of them are equal
    exactly when they are the same variable: the constructors of the
    enumerations below play the role of those identities. *)

From S2P Require Import Prelude.

(** ** Sentinels *)

(** internal/domain/errors.go *)
Inductive domain_error : Set :=
| ErrURLNotFound
| ErrURLExist
| ErrEmptyAlias
| ErrInvalidURL.

(** internal/service/url/errors.go *)
Inductive service_error : Set :=
| ErrInvalidConfig.

(** internal/authn/authn.go *)
Inductive authn_error : Set :=
| ErrMissingToken
| ErrInvalidToken
| ErrMissingApplicationID
| ErrMissingSecret.

(** internal/ssoclient/ssoclient.go; the application-id sentinel shares its
    Go name with the one of [authn], in another package. *)
Inductive sso_error : Set :=
| ErrInvalidCredentials
| ErrUserExists
| ErrRefreshInvalid
| Sso_ErrMissingApplicationID
| ErrMissingAddress.

(** Sentinels of the standard library and of the packages the service calls
    that its code compares against or returns. *)
Inductive lib_error : Set :=
| Canceled            (* context.Canceled *)
| DeadlineExceeded    (* context.DeadlineExceeded *)
| IoEOF               (* io.EOF *)
| IoUnexpectedEOF     (* io.ErrUnexpectedEOF *)
| PgxErrNoRows        (* pgx.ErrNoRows *)
| RedisNil            (* redis.Nil *)
| HttpErrServerClosed (* http.ErrServerClosed *)
| OsErrNotExist       (* os.ErrNotExist *)
| MigrateErrNoChange. (* migrate.ErrNoChange *)

Inductive sentinel : Set :=
| SDomain (e : domain_error)
| SService (e : service_error)
| SAuthn (e : authn_error)
| SSso (e : sso_error)
| SLib (e : lib_error).

#[export] Instance domain_error_eq_dec : EqDecision domain_error.
Proof. solve_decision. Defined.
#[export] Instance service_error_eq_dec : EqDecision service_error.
Proof. solve_decision. Defined.
#[export] Instance authn_error_eq_dec : EqDecision authn_error.
Proof. solve_decision. Defined.
#[export] Instance sso_error_eq_dec : EqDecision sso_error.
Proof. solve_decision. Defined.
#[export] Instance lib_error_eq_dec : EqDecision lib_error.
Proof. solve_decision. Defined.
#[export] Instance sentinel_eq_dec : EqDecision sentinel.
Proof. solve_decision. Defined.

Definition domain_error_text (e : domain_error) : string :=
  match e with
  | ErrURLNotFound => "url not found"
  | ErrURLExist => "url already exist"
  | ErrEmptyAlias => "empty alias"
  | ErrInvalidURL => "empty url"
  end.

Definition service_error_text (e : service_error) : string :=
  match e with ErrInvalidConfig => "service: invalid config" end.

Definition authn_error_text (e : authn_error) : string :=
  match e with
  | ErrMissingToken => "authn: missing bearer token"
  | ErrInvalidToken => "authn: invalid or expired token"
  | ErrMissingApplicationID => "authn: application id must be non-zero"
  | ErrMissingSecret => "authn: app secret must not be empty"
  end.

Definition sso_error_text (e : sso_error) : string :=
  match e with
  | ErrInvalidCredentials => "sso: invalid email or password"
  | ErrUserExists => "sso: user already exists"
  | ErrRefreshInvalid => "sso: refresh token invalid or expired"
  | Sso_ErrMissingApplicationID => "ssoclient: application id must be non-zero"
  | ErrMissingAddress => "ssoclient: address must not be empty"
  end.

Definition lib_error_text (e : lib_error) : string :=
  match e with
  | Canceled => "context canceled"
  | DeadlineExceeded => "context deadline exceeded"
  | IoEOF => "EOF"
  | IoUnexpectedEOF => "unexpected EOF"
  | PgxErrNoRows => "no rows in result set"
  | RedisNil => "redis: nil"
  | HttpErrServerClosed => "http: Server closed"
  | OsErrNotExist => "file does not exist"
  | MigrateErrNoChange => "no change"
  end.

Definition sentinel_text (s : sentinel) : string :=
  match s with
  | SDomain e => domain_error_text e
  | SService e => service_error_text e
  | SAuthn e => authn_error_text e
  | SSso e => sso_error_text e
  | SLib e => lib_error_text e
  end.

(** ** Error values *)

(** [Errorf before e after] is [fmt.Errorf] with exactly one [%w] verb: the
    text around the verb and the wrapped error.  [ErrorString] is an error
    created on the spot, equal to no sentinel.  [PgError] and [GrpcStatus] are
    the typed errors whose fields the service reads ([*pgconn.PgError] and the
    errors [status.FromError] recognises), with the text their own [Error]
    method gives. *)
Inductive error : Type :=
| Sentinel (s : sentinel)
| Errorf (before : string) (wrapped : error) (after : string)
| ErrorString (msg : string)
| PgError (Code ConstraintName text : string)
| GrpcStatus (code : Z) (msg text : string).

#[export] Instance error_eq_dec : EqDecision error.
Proof. solve_decision. Defined.

(** [err.Error()]. *)
Fixpoint error_text (e : error) : string :=
  match e with
  | Sentinel s => sentinel_text s
  | Errorf before w after => (before +:+ error_text w +:+ after)%string
  | ErrorString msg => msg
  | PgError _ _ text => text
  | GrpcStatus _ _ text => text
  end.

(** [errors.Is(err, target)] for a non-nil [err] and a sentinel target: walk
    the [Unwrap] chain. *)
Fixpoint errors_Is (e : error) (target : sentinel) : bool :=
  match e with
  | Sentinel s => bool_decide (s = target)
  | Errorf _ w _ => errors_Is w target
  | _ => false
  end.

(** [errors.As(err, &pgErr)] for [pgErr *pgconn.PgError]: the first error of
    the chain that has the type, as its code and constraint name. *)
Fixpoint errors_As_PgError (e : error) : option (string * string) :=
  match e with
  | PgError code constraint _ => Some (code, constraint)
  | Errorf _ w _ => errors_As_PgError w
  | _ => None
  end.

(** [fmt.Errorf("%s: %w", op, err)], the shape most wrappers have. *)
Definition wrap_op (op : string) (e : error) : error := Errorf (op +:+ ": ") e "".

(** ** Results *)

(** What a function of type [(T, error)] returns: every caller in the service
    looks at the value only when the error is nil. *)
Inductive result (A : Type) : Type :=
| Ok (a : A)
| Err (e : error).
Arguments Ok {A} a.
Arguments Err {A} e.

#[export] Instance result_eq_dec {A} `{EqDecision A} : EqDecision (result A).
Proof. solve_decision. Defined.

Definition is_ok {A} (r : result A) : bool :=
  match r with Ok _ => true | Err _ => false end.

(** [errors.Is] on the error component; false on nil. *)
Definition result_Is {A} (r : result A) (target : sentinel) : bool :=
  match r with Ok _ => false | Err e => errors_Is e target end.

(** [if err != nil { return ..., wrap(err) }] and go on with the value. *)
Definition check_err {W A B} (wrap : error -> error) (m : M W (result A))
    (k : A -> M W (result B)) : M W (result B) :=
  r ← m; match r with Ok a => k a | Err e => mret (Err (wrap e)) end.

Declare Scope go_scope.
Delimit Scope go_scope with go.
Notation "'try' x <- m 'else' h ; k" := (check_err h m (fun x => k))
  (at level 100, x pattern, m at level 90, h at level 90, k at level 200,
   right associativity) : go_scope.
#[global] Open Scope go_scope.

(** ** Lemmas *)

Lemma errors_Is_Errorf before e after t :
  errors_Is (Errorf before e after) t = errors_Is e t.
Proof. reflexivity. Qed.

Lemma errors_Is_wrap_op op e t : errors_Is (wrap_op op e) t = errors_Is e t.
Proof. reflexivity. Qed.

Lemma errors_Is_Sentinel s : errors_Is (Sentinel s) s = true.
Proof. by apply bool_decide_eq_true. Qed.

(** An error has at most one sentinel in its chain, so the order of a [switch]
    on [errors.Is] cases with distinct targets does not matter. *)
Lemma errors_Is_unique e s t : errors_Is e s = true -> errors_Is e t = true -> s = t.
Proof.
  induction e; simpl; try done.
  intros H1%bool_decide_eq_true H2%bool_decide_eq_true. congruence.
Qed.

Lemma errors_As_no_sentinel e c t :
  errors_As_PgError e = Some c -> errors_Is e t = false.
Proof. induction e; simpl; naive_solver. Qed.

Lemma check_err_ok {W A B} h (m : M W (result A)) (k : A -> M W (result B)) w a w' :
  m w = (Ok a, w') -> check_err h m k w = k a w'.
Proof. intros E. unfold check_err, mbind, M_bind. by rewrite E. Qed.

Lemma check_err_err {W A B} h (m : M W (result A)) (k : A -> M W (result B)) w e w' :
  m w = (Err e, w') -> check_err h m k w = (Err (h e), w').
Proof. intros E. unfold check_err, mbind, M_bind. by rewrite E. Qed.

#[export] Hint Resolve errors_Is_Sentinel : go.
#[export] Hint Rewrite errors_Is_wrap_op errors_Is_Errorf errors_Is_Sentinel : go_rw.
