(* ===== verification/GoStrings.v ===== *)
(** * Go's string functions the service calls

    Go strings are byte strings; here they are [string]s of [ascii], one per
    byte.  [strings.TrimSpace] works on runes, so the multi-byte UTF-8
    encodings of the Unicode white space are spelt out. *)

From S2P Require Import Prelude.
From Stdlib Require Import Ascii.
From Stdlib Require String.

Abbreviation bytes_of := String.list_ascii_of_string.
Abbreviation of_bytes := String.string_of_list_ascii.

(** The value of a byte, [int(b)]. *)
Definition code (c : ascii) : Z := Z.of_N (N_of_ascii c).

(** [strings.HasPrefix], [strings.TrimPrefix] *)
Fixpoint HasPrefix (s prefix : string) : bool :=
  match prefix, s with
  | EmptyString, _ => true
  | String p prefix', String c s' => bool_decide (c = p) && HasPrefix s' prefix'
  | String _ _, EmptyString => false
  end.

Fixpoint drop_bytes (n : nat) (s : string) : string :=
  match n, s with
  | O, _ => s
  | S n', String _ s' => drop_bytes n' s'
  | S _, EmptyString => EmptyString
  end.

Definition TrimPrefix (s prefix : string) : string :=
  if HasPrefix s prefix then drop_bytes (String.length prefix) s else s.

(** [strings.ToLower] on a byte of an ASCII string *)
Definition lower_byte (c : ascii) : ascii :=
  if (65 <=? code c) && (code c <=? 90)
  then ascii_of_N (N_of_ascii c + 32) else c.

Fixpoint ToLower (s : string) : string :=
  match s with
  | EmptyString => EmptyString
  | String c s' => String (lower_byte c) (ToLower s')
  end.

(** ** [strings.TrimSpace] *)

(** [unicode.IsSpace] on the runes of one, two and three bytes. *)
Definition space1 (c : ascii) : bool :=
  ((9 <=? code c) && (code c <=? 13)) || (code c =? 32).
Definition space2 (c1 c2 : ascii) : bool :=
  (code c1 =? 194) && ((code c2 =? 133) || (code c2 =? 160)).
Definition space3 (c1 c2 c3 : ascii) : bool :=
  ((code c1 =? 225) && (code c2 =? 154) && (code c3 =? 128)) ||
  ((code c1 =? 226) && (code c2 =? 128) &&
     (((128 <=? code c3) && (code c3 <=? 138)) ||
      (code c3 =? 168) || (code c3 =? 169) || (code c3 =? 175))) ||
  ((code c1 =? 226) && (code c2 =? 129) && (code c3 =? 159)) ||
  ((code c1 =? 227) && (code c2 =? 128) && (code c3 =? 128)).

Section Trim.
Context (sp2 : ascii -> ascii -> bool) (sp3 : ascii -> ascii -> ascii -> bool).

(** What is left of [l] after one leading space rune, if it starts with one. *)
Definition lead (l : list ascii) : option (list ascii) :=
  match l with
  | [] => None
  | c1 :: l1 =>
      if space1 c1 then Some l1 else
      match l1 with
      | [] => None
      | c2 :: l2 =>
          if sp2 c1 c2 then Some l2 else
          match l2 with
          | [] => None
          | c3 :: l3 => if sp3 c1 c2 c3 then Some l3 else None
          end
      end
  end.

Fixpoint trim_run (l : list ascii) : list ascii :=
  match l with
  | [] => []
  | c1 :: l1 =>
      if space1 c1 then trim_run l1 else
      match l1 with
      | [] => l
      | c2 :: l2 =>
          if sp2 c1 c2 then trim_run l2 else
          match l2 with
          | [] => l
          | c3 :: l3 => if sp3 c1 c2 c3 then trim_run l3 else l
          end
      end
  end.
End Trim.

Definition TrimLeftSpace (l : list ascii) : list ascii := trim_run space2 space3 l.
(** The last rune is a space when the reversed bytes start with the reversed
    encoding. *)
Definition TrimRightSpace (l : list ascii) : list ascii :=
  rev (trim_run (fun c2 c1 => space2 c1 c2) (fun c3 c2 c1 => space3 c1 c2 c3) (rev l)).
Definition TrimSpace (s : string) : string :=
  of_bytes (TrimRightSpace (TrimLeftSpace (bytes_of s))).

(** ** [net.SplitHostPort] *)

Fixpoint index_byte (c : ascii) (l : list ascii) : option nat :=
  match l with
  | [] => None
  | x :: l' => if bool_decide (x = c) then Some O else S <$> index_byte c l'
  end.

Definition last_index_byte (c : ascii) (l : list ascii) : option nat :=
  (fun i => (length l - S i)%nat) <$> index_byte c (rev l).

Definition colon : ascii := ":"%char.
Definition lbracket : ascii := "["%char.
Definition rbracket : ascii := "]"%char.

(** The host and the port, or [None] where the function returns an
    [*net.AddrError]. *)
Definition SplitHostPort (hostport : string) : option (string * string) :=
  let l := bytes_of hostport in
  match last_index_byte colon l with
  | None => None
  | Some i =>
      let parts : option (list ascii * nat * nat) :=
        if bool_decide (head l = Some lbracket) then
          match index_byte rbracket l with
          | None => None
          | Some e =>
              if decide (S e = i) then Some (take (e - 1) (drop 1 l), 1%nat, S e) else None
          end
        else
          let host := take i l in
          match index_byte colon host with
          | Some _ => None
          | None => Some (host, O, O)
          end in
      match parts with
      | None => None
      | Some (host, j, k) =>
          match index_byte lbracket (drop j l), index_byte rbracket (drop k l) with
          | None, None => Some (of_bytes host, of_bytes (drop (S i) l))
          | _, _ => None
          end
      end
  end.

(** ** Lemmas on trimming *)

Section Trim_facts.
Context (sp2 : ascii -> ascii -> bool) (sp3 : ascii -> ascii -> ascii -> bool).
Abbreviation lead := (lead sp2 sp3).
Abbreviation trim_run := (trim_run sp2 sp3).

Lemma trim_run_eq l :
  trim_run l = match lead l with Some r => trim_run r | None => l end.
Proof.
  destruct l as [|c1 l1]; [done|].
  cbn [GoStrings.trim_run GoStrings.lead]. destruct (space1 c1); [done|].
  destruct l1 as [|c2 l2]; [done|]. destruct (sp2 c1 c2); [done|].
  destruct l2 as [|c3 l3]; [done|]. by destruct (sp3 c1 c2 c3).
Qed.

Lemma lead_suffix l r : lead l = Some r -> exists p, p <> [] /\ l = p ++ r.
Proof.
  unfold GoStrings.lead. intros. repeat (case_match; simplify_eq/=).
  - by eexists [_].
  - by eexists [_; _].
  - by eexists [_; _; _].
Qed.

Lemma lead_app l r x : lead l = Some r -> lead (l ++ x) = Some (r ++ x).
Proof. unfold GoStrings.lead. intros. repeat (case_match; simplify_eq/=); done. Qed.

(** Induction along the leading spaces. *)
Lemma trim_run_ind (P : list ascii -> list ascii -> Prop) :
  (forall l, lead l = None -> P l l) ->
  (forall l r t, lead l = Some r -> P r t -> P l t) ->
  forall l, P l (trim_run l).
Proof.
  intros Hn Hs l. remember (length l) as n eqn:En.
  revert l En. induction (lt_wf n) as [n _ IH]. intros l ->.
  rewrite trim_run_eq. destruct (lead l) as [r|] eqn:E; [|by apply Hn].
  apply (Hs l r); [done|]. eapply IH; [|done].
  apply lead_suffix in E as (p & Hp & ->). rewrite length_app.
  destruct p; [done|]. simpl. lia.
Qed.

Lemma trim_run_no_lead l : lead (trim_run l) = None.
Proof. apply (trim_run_ind (fun _ t => lead t = None)); auto. Qed.

Lemma trim_run_id l : lead l = None -> trim_run l = l.
Proof. intros E. by rewrite trim_run_eq, E. Qed.

Lemma trim_run_suffix l : exists p, l = p ++ trim_run l.
Proof.
  apply (trim_run_ind (fun l t => exists p, l = p ++ t)).
  - intros l0 _. by exists [].
  - intros l0 r t (p & _ & ->)%lead_suffix (q & ->).
    exists (p ++ q). by rewrite (assoc_L (++)).
Qed.

Lemma lead_prefix_None l x : lead (l ++ x) = None -> lead l = None.
Proof.
  destruct (lead l) as [r|] eqn:E; [|done].
  by rewrite (lead_app _ _ x E).
Qed.
End Trim_facts.

Lemma TrimRightSpace_prefix l : exists x, l = TrimRightSpace l ++ x.
Proof.
  unfold TrimRightSpace.
  destruct (trim_run_suffix (fun c2 c1 => space2 c1 c2)
              (fun c3 c2 c1 => space3 c1 c2 c3) (rev l)) as [p Hp].
  exists (rev p). apply (f_equal (@rev ascii)) in Hp.
  by rewrite rev_involutive, rev_app_distr in Hp.
Qed.

Lemma TrimRightSpace_idemp l : TrimRightSpace (TrimRightSpace l) = TrimRightSpace l.
Proof.
  unfold TrimRightSpace. rewrite rev_involutive. f_equal.
  apply trim_run_id, trim_run_no_lead.
Qed.

(** Cutting the right end never uncovers a space on the left. *)
Lemma TrimLeft_Right l :
  TrimLeftSpace (TrimRightSpace (TrimLeftSpace l)) = TrimRightSpace (TrimLeftSpace l).
Proof.
  apply trim_run_id.
  destruct (TrimRightSpace_prefix (TrimLeftSpace l)) as [x Hx].
  apply (lead_prefix_None _ _ _ x). rewrite <- Hx. apply trim_run_no_lead.
Qed.

Lemma TrimSpace_idemp s : TrimSpace (TrimSpace s) = TrimSpace s.
Proof.
  unfold TrimSpace. rewrite String.list_ascii_of_string_of_list_ascii.
  by rewrite TrimLeft_Right, TrimRightSpace_idemp.
Qed.
#[export] Hint Rewrite TrimSpace_idemp : go_rw.

(** Trimming keeps a contiguous part of the string. *)
Lemma TrimSpace_infix s : exists p x, bytes_of s = p ++ bytes_of (TrimSpace s) ++ x.
Proof.
  destruct (trim_run_suffix space2 space3 (bytes_of s)) as [p Hp].
  destruct (TrimRightSpace_prefix (TrimLeftSpace (bytes_of s))) as [x Hx].
  exists p, x. unfold TrimSpace. rewrite String.list_ascii_of_string_of_list_ascii.
  by rewrite <- Hx.
Qed.

(** A string with no space byte and no byte above 127 is left alone. *)
Definition plain_byte (c : ascii) : bool := negb (space1 c) && (code c <? 128).

Lemma plain_byte_range_or c1 c2 :
  plain_byte c1 = true \/ plain_byte c2 = true -> code c1 < 128 \/ code c2 < 128.
Proof.
  unfold plain_byte. rewrite !andb_true_iff, !Z.ltb_lt. tauto.
Qed.

Lemma plain_code c : plain_byte c = true -> code c < 128.
Proof. unfold plain_byte. lia. Qed.

Lemma space2_plain c1 c2 : plain_byte c1 = true \/ plain_byte c2 = true -> space2 c1 c2 = false.
Proof. intros H. apply plain_byte_range_or in H. unfold space2. lia. Qed.
Lemma space3_plain c1 c2 c3 :
  plain_byte c1 = true \/ plain_byte c3 = true -> space3 c1 c2 c3 = false.
Proof. intros H. apply plain_byte_range_or in H. unfold space3. lia. Qed.

Lemma trim_run_plain sp2 sp3 c l :
  plain_byte c = true ->
  (forall c', sp2 c c' = false) -> (forall c' c'', sp3 c c' c'' = false) ->
  trim_run sp2 sp3 (c :: l) = c :: l.
Proof.
  intros Hp H2 H3. apply trim_run_id. unfold lead.
  apply andb_true_iff in Hp as [Hs _]. apply negb_true_iff in Hs. rewrite Hs.
  destruct l as [|c2 [|c3 l]]; rewrite ?H2, ?H3; done.
Qed.

Lemma TrimLeftSpace_plain c l :
  plain_byte c = true -> TrimLeftSpace (c :: l) = c :: l.
Proof.
  intros Hp. unfold TrimLeftSpace.
  apply trim_run_plain; [done|..]; intros; [apply space2_plain|apply space3_plain]; auto.
Qed.

Lemma TrimRightSpace_plain l c :
  plain_byte c = true -> TrimRightSpace (l ++ [c]) = l ++ [c].
Proof.
  intros Hp. unfold TrimRightSpace. rewrite rev_app_distr.
  change (rev [c] ++ rev l) with (c :: rev l).
  rewrite trim_run_plain; [| done |..].
  - simpl. by rewrite rev_involutive.
  - intros; apply space2_plain; auto.
  - intros; apply space3_plain; auto.
Qed.

Lemma TrimSpace_plain s :
  Forall (fun c => plain_byte c = true) (bytes_of s) -> TrimSpace s = s.
Proof.
  intros H. unfold TrimSpace.
  destruct (bytes_of s) as [|c l] eqn:E.
  - by destruct s.
  - rewrite TrimLeftSpace_plain by (by inv H).
    destruct (exists_last (l := c :: l)) as (l' & z & Hl); [done|].
    rewrite Hl in *. apply Forall_app in H as [_ Hz]. inv Hz.
    rewrite TrimRightSpace_plain by done.
    rewrite <- E. apply String.string_of_list_ascii_of_string.
Qed.

(** ** Lemmas on host:port strings *)

(** A plain byte stops the trimming. *)
Lemma trim_run_keep sp2 sp3 c :
  plain_byte c = true ->
  (forall x y, x = c \/ y = c -> sp2 x y = false) ->
  (forall x y z, x = c \/ y = c \/ z = c -> sp3 x y z = false) ->
  forall n a b, (length a <= n)%nat -> exists a', trim_run sp2 sp3 (a ++ c :: b) = a' ++ c :: b.
Proof.
  intros Hp H2 H3. induction n as [|n IH]; intros a b Hn.
  - destruct a; [|simpl in Hn; lia]. exists []. apply trim_run_plain; auto.
  - destruct a as [|x a]; [exists []; apply trim_run_plain; auto|].
    destruct a as [|y a].
    + simpl. destruct (space1 x); [exists []; apply trim_run_plain; auto|]. rewrite H2 by auto.
      destruct b as [|z b]; [by exists [x]|]. rewrite H3 by auto. by exists [x].
    + simpl in Hn. destruct (IH (y :: a) b) as [a1 H1]; [simpl; lia|].
      destruct (IH a b) as [a2 Ha2]; [lia|]. cbn [app trim_run].
      destruct (space1 x); [by exists a1|]. destruct (sp2 x y); [by exists a2|].
      destruct a as [|z a]; cbn [app].
      * rewrite H3 by auto. by exists [x; y].
      * simpl in Hn. destruct (IH a b) as [a3 Ha3]; [lia|].
        destruct (sp3 x y z); [by exists a3|by exists (x :: y :: z :: a)].
Qed.

(** [TrimSpace] keeps a plain first byte, everything up to a later plain one,
    and drops at the end only. *)
Lemma TrimSpace_keep s c l d r :
  bytes_of s = c :: l ++ d :: r -> plain_byte c = true -> plain_byte d = true ->
  exists y, bytes_of (TrimSpace s) = c :: l ++ d :: y.
Proof.
  intros Hs Hc Hd. unfold TrimSpace. rewrite Hs, TrimLeftSpace_plain by done.
  rewrite String.list_ascii_of_string_of_list_ascii. unfold TrimRightSpace.
  change (c :: l ++ d :: r) with ((c :: l) ++ d :: r). rewrite rev_app_distr. simpl rev at 2.
  rewrite <- (assoc_L app). change ([d] ++ rev (c :: l)) with (d :: rev (c :: l)).
  destruct (trim_run_keep (fun c2 c1 => space2 c1 c2) (fun c3 c2 c1 => space3 c1 c2 c3) d Hd)
    with (n := length (rev r)) (a := rev r) (b := rev (c :: l)) as [a' Ha'].
  - intros x y Hxy. apply space2_plain. naive_solver.
  - intros x y z Hxyz. apply plain_code in Hd. unfold space3. naive_solver lia.
  - done.
  - rewrite Ha', rev_app_distr.
    change (rev (d :: rev (c :: l))) with (rev (rev (c :: l)) ++ [d]).
    rewrite rev_involutive. exists (rev a'). by rewrite <- !(assoc_L app).
Qed.

(** ** Prefixes *)

Lemma HasPrefix_bytes s p : HasPrefix s p = true <-> exists t, bytes_of s = bytes_of p ++ t.
Proof.
  revert s. induction p as [|c p IH]; intros s.
  { split; [by eexists|by destruct s]. }
  destruct s as [|x s]; simpl; [split; [done|by intros [t ?]]|].
  rewrite andb_true_iff, bool_decide_eq_true, IH. split.
  - intros [-> [t ->]]. by exists t.
  - intros [t [= -> Ht]]. split; [done|by exists t].
Qed.

Lemma ToLower_bytes s : bytes_of (ToLower s) = lower_byte <$> bytes_of s.
Proof. induction s; simpl; [done|]. by f_equal. Qed.

Lemma bytes_of_inj s t : bytes_of s = bytes_of t -> s = t.
Proof.
  intros H. rewrite <- (String.string_of_list_ascii_of_string s), H.
  apply String.string_of_list_ascii_of_string.
Qed.

(** ** Checks over all bytes *)

Definition all_bytes : list ascii := ascii_of_nat <$> seq 0 256.

Lemma all_bytes_complete b : b ∈ all_bytes.
Proof.
  unfold all_bytes. apply list_elem_of_fmap. exists (nat_of_ascii b).
  split; [by rewrite ascii_nat_embedding|].
  apply elem_of_seq. pose proof (nat_ascii_bounded b). lia.
Qed.

Lemma forallb_all_bytes f : forallb f all_bytes = true -> forall b, f b = true.
Proof.
  rewrite forallb_forall. intros Hf b.
  apply Hf, list_elem_of_In, all_bytes_complete.
Qed.

Lemma code_inj a b : code a = code b -> a = b.
Proof.
  unfold code. intros H%N2Z.inj. rewrite <- (ascii_N_embedding a), <- (ascii_N_embedding b).
  by f_equal.
Qed.

Lemma index_byte_None c l : c ∉ l -> index_byte c l = None.
Proof.
  induction l as [|x l IH]; simpl; [done|].
  intros [? ?]%not_elem_of_cons. rewrite bool_decide_eq_false_2 by done. by rewrite IH.
Qed.

Lemma index_byte_app c a b : c ∉ a -> index_byte c (a ++ c :: b) = Some (length a).
Proof.
  induction a as [|x a IH]; simpl; intros Hn.
  - by rewrite bool_decide_eq_true_2.
  - apply not_elem_of_cons in Hn as [? ?].
    rewrite bool_decide_eq_false_2 by done. by rewrite IH.
Qed.

Lemma last_index_byte_app c a b : c ∉ b -> last_index_byte c (a ++ c :: b) = Some (length a).
Proof.
  intros Hb. unfold last_index_byte. rewrite rev_app_distr. simpl. rewrite <- (assoc_L app).
  simpl. rewrite index_byte_app; [|by rewrite list_elem_of_In, <- in_rev, <- list_elem_of_In].
  simpl. f_equal. rewrite length_rev, length_app. simpl. lia.
Qed.

Lemma bytes_of_app s t : bytes_of (s +:+ t) = bytes_of s ++ bytes_of t.
Proof. induction s; simpl; by f_equal. Qed.

(** A string with none of the separators of [SplitHostPort]. *)
Definition no_separator (s : string) : Prop :=
  (colon ∉ bytes_of s) /\ (lbracket ∉ bytes_of s) /\ (rbracket ∉ bytes_of s).

Lemma SplitHostPort_host host port : no_separator host -> no_separator port ->
  SplitHostPort (host +:+ (":" +:+ port)) = Some (host, port).
Proof.
  intros (Hc & Hl & Hr) (Pc & Pl & Pr). unfold SplitHostPort.
  rewrite !bytes_of_app. change (bytes_of ":") with [colon]. simpl app.
  rewrite last_index_byte_app by done.
  assert (Hh : bool_decide (head (bytes_of host ++ colon :: bytes_of port) = Some lbracket) = false).
  { apply bool_decide_eq_false. destruct (bytes_of host) as [|c l]; simpl; [done|].
    intros [= ->]. apply Hl. by left. }
  rewrite Hh, take_app_length, index_byte_None by done.
  rewrite !drop_0, !index_byte_None.
  - rewrite drop_app_ge by lia.
    replace (S (length (bytes_of host)) - length (bytes_of host))%nat with 1%nat by lia.
    simpl. by rewrite drop_0, !String.string_of_list_ascii_of_string.
  - rewrite not_elem_of_app, not_elem_of_cons. done.
  - rewrite not_elem_of_app, not_elem_of_cons. done.
Qed.

(** The bracketed form of an IPv6 host. *)
Lemma SplitHostPort_bracketed host port :
  lbracket ∉ bytes_of host -> rbracket ∉ bytes_of host -> no_separator port ->
  SplitHostPort ("[" +:+ (host +:+ ("]:" +:+ port))) = Some (host, port).
Proof.
  intros Hl Hr (Pc & Pl & Pr). unfold SplitHostPort.
  rewrite !bytes_of_app. change (bytes_of "[") with [lbracket].
  change (bytes_of "]:") with [rbracket; colon].
  set (h := bytes_of host) in *. set (p := bytes_of port) in *.
  assert (Hsplit : [lbracket] ++ h ++ [rbracket; colon] ++ p =
                   ((lbracket :: h) ++ [rbracket]) ++ colon :: p).
  { simpl. by rewrite <- (assoc_L app). }
  assert (Hi : last_index_byte colon ([lbracket] ++ h ++ [rbracket; colon] ++ p) =
               Some (length h + 2)%nat).
  { rewrite Hsplit, last_index_byte_app by done. f_equal. rewrite length_app. simpl. lia. }
  assert (He : index_byte rbracket ([lbracket] ++ h ++ [rbracket; colon] ++ p) =
               Some (S (length h))).
  { rewrite (assoc_L app).
    change ([rbracket; colon] ++ p) with (rbracket :: colon :: p).
    rewrite index_byte_app; [done|]. apply not_elem_of_cons. done. }
  assert (Hk : drop (S (S (length h))) ([lbracket] ++ h ++ [rbracket; colon] ++ p) = colon :: p).
  { rewrite Hsplit. rewrite drop_app_ge by (rewrite length_app; simpl; lia).
    rewrite length_app. simpl. by replace (_ - _)%nat with O by lia. }
  assert (Hd : drop (S (length h + 2)) ([lbracket] ++ h ++ [rbracket; colon] ++ p) = p).
  { replace (S (length h + 2)) with (S (S (length h)) + 1)%nat by lia.
    by rewrite <- drop_drop, Hk. }
  rewrite Hi, He, Hd. cbn [head app]. rewrite bool_decide_eq_true_2 by done.
  rewrite decide_True by lia. change (drop 1 (lbracket :: ?l)) with l.
  replace (S (length h) - 1)%nat with (length h) by lia.
  rewrite take_app_length. cbn [app] in Hk. rewrite Hk.
  rewrite !index_byte_None.
  - unfold h, p. by rewrite !String.string_of_list_ascii_of_string.
  - by rewrite not_elem_of_cons.
  - change (rbracket :: colon :: p) with ([rbracket; colon] ++ p).
    rewrite !not_elem_of_app, !not_elem_of_cons. split_and!; try done. apply not_elem_of_nil.
Qed.
