(* ===== verification/GoFloat.v ===== *)
(** * float64

    Go's [float64] is IEEE 754 binary64.  The operations are the executable
    ones of the Standard Library's [SpecFloat] at precision 53 and maximal
    exponent 1024, rounding to nearest even, so every definition that uses them
    computes the very bits the program computes.  The lemmas below are the part
    of the rounding theory the service's arithmetic needs: results are valid
    floats, rounding is monotone with respect to representable bounds, and
    subtracting one from a number below 2^53 is exact. *)

From S2P Require Import Prelude.
From Stdlib Require Export SpecFloat.

Definition prec : Z := 53.
Definition emax : Z := 1024.

Definition float64 : Set := spec_float.

Definition F_add : float64 -> float64 -> float64 := SFadd prec emax.
Definition F_sub : float64 -> float64 -> float64 := SFsub prec emax.
Definition F_mul : float64 -> float64 -> float64 := SFmul prec emax.
Definition F_div : float64 -> float64 -> float64 := SFdiv prec emax.
Definition F_lt : float64 -> float64 -> bool := SFltb.
Definition F_le : float64 -> float64 -> bool := SFleb.
(** [float64(z)] for an integer [z]. *)
Definition F_of_Z (z : Z) : float64 := binary_normalize prec emax z 0 false.
Definition F_one : float64 := F_of_Z 1.

(** The builtin [min] on floats: NaN wins, and -0 is below +0. *)
Definition F_min (x y : float64) : float64 :=
  match x, y with
  | S754_nan, _ | _, S754_nan => S754_nan
  | S754_zero true, S754_zero _ => x
  | _, _ => if F_lt y x then y else match x, y with
                                   | S754_zero _, S754_zero true => y
                                   | _, _ => x
                                   end
  end.

(** The integer part, truncated towards zero; [None] for NaN and infinities. *)
Definition F_trunc (x : float64) : option Z :=
  match x with
  | S754_zero _ => Some 0
  | S754_finite s m e => Some (cond_Zopp s (Z.shiftl (Zpos m) e))
  | _ => None
  end.

(** A valid binary64 value that is neither negative nor NaN. *)
Definition nonneg_float (x : float64) : Prop :=
  valid_binary prec emax x = true /\
  match x with
  | S754_zero s | S754_infinity s | S754_finite s _ _ => s = false
  | S754_nan => False
  end.

(** ** Scaled values

    [pw e] is [2^(e+4000)]: every exponent the operations meet lies above
    [-4000], so values are compared as integers in units of [2^-4000]. *)

Definition pw (e : Z) : Z := 2 ^ (e + 4000).
Definition fval (x : float64) : Z :=
  match x with
  | S754_finite s m e => cond_Zopp s (Zpos m * pw e)
  | _ => 0
  end.

Lemma pw_pos e : -4000 <= e -> 0 < pw e.
Proof. intros. unfold pw. apply Z.pow_pos_nonneg; lia. Qed.

Lemma pw_add e n : -4000 <= e -> 0 <= n -> pw (e + n) = pw e * 2 ^ n.
Proof. intros. unfold pw. rewrite <- Z.pow_add_r by lia. f_equal. lia. Qed.

Lemma pow2_pos n : 0 <= n -> 0 < 2 ^ n.
Proof. intros. apply Z.pow_pos_nonneg; lia. Qed.

(** ** Digits *)

Lemma digits2_pos_spec m :
  2 ^ (Zpos (digits2_pos m) - 1) <= Zpos m < 2 ^ Zpos (digits2_pos m).
Proof.
  induction m as [m IH|m IH|]; simpl digits2_pos; [| |simpl; lia].
  all: rewrite Pos2Z.inj_succ.
  all: replace (Z.succ (Zpos (digits2_pos m)) - 1) with
         (Zpos (digits2_pos m) - 1 + 1) by lia.
  all: rewrite Z.pow_succ_r, Z.pow_add_r by lia; lia.
Qed.

Lemma Zdigits2_spec m : 0 < m -> 2 ^ (Zdigits2 m - 1) <= m < 2 ^ Zdigits2 m.
Proof. intros. destruct m; try lia. apply digits2_pos_spec. Qed.

Lemma Zdigits2_pos m : 0 < m -> 1 <= Zdigits2 m.
Proof. intros. destruct m; simpl; lia. Qed.

Lemma pow2_lt_inv a b : 0 <= b -> 2 ^ a < 2 ^ b -> a < b.
Proof. intros. destruct (Z.lt_ge_cases a b); [done|].
  pose proof (Z.pow_le_mono_r 2 b a). lia. Qed.

Lemma Zdigits2_unique m d : 0 < m -> 1 <= d -> 2 ^ (d - 1) <= m < 2 ^ d -> Zdigits2 m = d.
Proof.
  intros Hm Hd [Hl Hu]. pose proof (Zdigits2_spec m Hm) as [Hl' Hu'].
  pose proof (Zdigits2_pos m Hm).
  pose proof (pow2_lt_inv (d - 1) (Zdigits2 m)).
  pose proof (pow2_lt_inv (Zdigits2 m - 1) d). lia.
Qed.

Lemma Zdigits2_le m d : 0 <= m -> 0 <= d -> m < 2 ^ d -> Zdigits2 m <= d.
Proof.
  intros Hm Hd Hu. destruct (decide (m = 0)) as [->|]; [simpl; lia|].
  pose proof (Zdigits2_spec m ltac:(lia)).
  pose proof (pow2_lt_inv (Zdigits2 m - 1) d). lia.
Qed.

Lemma Zdigits2_div m n : 0 < m -> 0 <= n -> n < Zdigits2 m -> Zdigits2 (m / 2 ^ n) = Zdigits2 m - n.
Proof.
  intros Hm Hn Hd. pose proof (Zdigits2_spec m Hm) as [Hl Hu].
  pose proof (pow2_pos n Hn).
  assert (2 ^ (Zdigits2 m - n - 1) <= m / 2 ^ n).
  { apply Z.div_le_lower_bound; [lia|]. rewrite <- Z.pow_add_r by lia.
    by replace (n + (Zdigits2 m - n - 1)) with (Zdigits2 m - 1) by lia. }
  apply Zdigits2_unique; [|lia|split; [done|]].
  - pose proof (pow2_pos (Zdigits2 m - n - 1)). lia.
  - apply Z.div_lt_upper_bound; [lia|]. rewrite <- Z.pow_add_r by lia.
    by replace (n + (Zdigits2 m - n)) with (Zdigits2 m) by lia.
Qed.

(** ** Shifting right *)

Definition sticky (r : shr_record) : bool := shr_r r || shr_s r.

(** [n] bits shifted out of [x] give [y]; nothing is lost exactly when the
    bits were zero. *)
Definition shifted (n : Z) (x y : shr_record) : Prop :=
  shr_m y = shr_m x / 2 ^ n /\
  (sticky y = false <-> sticky x = false /\ (2 ^ n | shr_m x)).

Lemma shr_1_shifted x : 0 <= shr_m x -> shifted 1 x (shr_1 x).
Proof.
  destruct x as [m r s]. unfold shifted, sticky. change (2 ^ 1) with 2.
  assert (Hodd : forall p, ~ (2 | Zpos p~1)) by (intros p [k Hk]; lia).
  assert (Heven : forall p, (2 | Zpos p~0)) by (intros p; exists (Zpos p); lia).
  assert (H0 : (2 | 0)) by (by exists 0).
  assert (H1 : ~ (2 | 1)) by (intros [k Hk]; lia).
  destruct m as [|[m|m|]|m]; cbn [shr_1 shr_m shr_r shr_s]; intros; try lia;
    (split; [Z.to_euclidean_division_equations; lia|]).
  all: destruct r, s; simpl; (split; [intros ?|intros [? ?]]); (try done); (try by split; eauto); exfalso;
    match goal with H : (2 | _) |- _ => first [by apply Hodd in H|by apply H1 in H] end.
Qed.

Lemma shifted_trans a b x y z :
  0 <= a -> 0 <= b -> shifted a x y -> shifted b y z -> shifted (a + b) x z.
Proof.
  intros Ha Hb [Hm1 Hs1] [Hm2 Hs2]. pose proof (pow2_pos a Ha). pose proof (pow2_pos b Hb).
  unfold shifted. rewrite Z.pow_add_r by lia. split.
  - by rewrite Hm2, Hm1, Z.div_div by lia.
  - rewrite Hs2, Hs1, Hm1. split.
    + intros [[? [k Hk]] [j Hj]]. split; [done|]. rewrite Hk, Z.div_mul in Hj by lia.
      exists j. rewrite Hk, Hj. ring.
    + intros [? [k Hk]]. replace (k * (2 ^ a * 2 ^ b)) with (k * 2 ^ b * 2 ^ a) in Hk by ring.
      rewrite Hk. split; [split; [done|by exists (k * 2 ^ b)]|].
      rewrite Z.div_mul by lia. by exists k.
Qed.

Lemma iter_shr_shifted p : forall x, 0 <= shr_m x ->
  shifted (Zpos p) x (iter_pos shr_1 p x) /\ 0 <= shr_m (iter_pos shr_1 p x).
Proof.
  assert (Hnn : forall n x y, 0 <= n -> 0 <= shr_m x -> shifted n x y -> 0 <= shr_m y).
  { intros n x y Hn Hx [-> _]. apply Z.div_pos; [done|]. by apply pow2_pos. }
  induction p as [p IH|p IH|]; intros x Hx; simpl.
  - assert (H1 := shr_1_shifted x Hx).
    assert (Hx1 : 0 <= shr_m (shr_1 x)) by (eapply (Hnn 1); eauto with lia).
    destruct (IH _ Hx1) as [H2 Hx2]. destruct (IH _ Hx2) as [H3 Hx3]. split; [|done].
    replace (Zpos p~1) with (1 + (Zpos p + Zpos p)) by lia.
    eapply shifted_trans; [lia|lia|exact H1|]. eapply shifted_trans; [lia|lia|done|done].
  - destruct (IH _ Hx) as [H2 Hx2]. destruct (IH _ Hx2) as [H3 Hx3]. split; [|done].
    replace (Zpos p~0) with (Zpos p + Zpos p) by lia.
    eapply shifted_trans; [lia|lia|done|done].
  - split; [by apply shr_1_shifted|]. eapply (Hnn 1); [lia|done|]. by apply shr_1_shifted.
Qed.

(** ** Rounding *)

Abbreviation fexp64 := (fexp prec emax).

Lemma fexp64_eq x : fexp64 x = Z.max (x - 53) (-1074).
Proof. reflexivity. Qed.

Lemma sticky_loc m l : sticky (shr_record_of_loc m l) = false <-> l = loc_Exact.
Proof. destruct l as [|[]]; simpl; naive_solver. Qed.

Lemma loc_of_sticky x : loc_of_shr_record x = loc_Exact <-> sticky x = false.
Proof. by destruct x as [? [] []]. Qed.

Lemma shr_fexp_shift m e l : 0 <= m -> e <= fexp64 (Zdigits2 m + e) ->
  exists y, shr_fexp prec emax m e l = (y, fexp64 (Zdigits2 m + e)) /\
    shr_m y = m / 2 ^ (fexp64 (Zdigits2 m + e) - e) /\
    (loc_of_shr_record y = loc_Exact <->
       l = loc_Exact /\ (2 ^ (fexp64 (Zdigits2 m + e) - e) | m)).
Proof.
  intros Hm He. unfold shr_fexp, shr.
  remember (fexp64 (Zdigits2 m + e) - e) as n eqn:En.
  replace (fexp64 (Zdigits2 m + e)) with (e + n) by lia.
  assert (Hrm : shr_m (shr_record_of_loc m l) = m) by (by destruct l as [|[]]).
  destruct n as [|p|p]; [| |lia].
  - exists (shr_record_of_loc m l). rewrite loc_of_sticky, sticky_loc, Hrm.
    rewrite Z.pow_0_r, Z.div_1_r, Z.add_0_r. split_and!; [done|done|].
    split; [intros ?; split; [done|apply Z.divide_1_l]|tauto].
  - eexists. split; [done|].
    destruct (iter_shr_shifted p (shr_record_of_loc m l)) as [[Hy Hs] _]; [by rewrite Hrm|].
    rewrite loc_of_sticky. rewrite Hrm, sticky_loc in *. done.
Qed.

Lemma shr_fexp_none m e : 0 <= m -> fexp64 (Zdigits2 m + e) <= e ->
  shr_fexp prec emax m e loc_Exact = (Build_shr_record m false false, e).
Proof.
  intros Hm He. unfold shr_fexp, shr, shr_record_of_loc.
  by destruct (fexp64 (Zdigits2 m + e) - e) eqn:E; try lia.
Qed.

Lemma round_nearest_even_cases q l :
  round_nearest_even q l = q \/ (round_nearest_even q l = q + 1 /\ l <> loc_Exact).
Proof.
  unfold round_nearest_even. destruct l as [|[]]; auto.
  by destruct (Z.even q); auto.
Qed.

(** What rounding makes of an integer [q] of units [2^e]: zero, or the
    canonical float of the same value, or an overflow. *)
Definition finish (s : bool) (q e : Z) (x : float64) : Prop :=
  (q = 0 /\ x = S754_zero s) \/
  exists m e', Zpos m * 2 ^ (e' - e) = q /\ e <= e' /\
    canonical_mantissa prec emax m e' = true /\
    x = if e' <=? 971 then S754_finite s m e' else S754_infinity s.

Lemma canonical_iff m e :
  canonical_mantissa prec emax m e = true <-> fexp64 (Zpos (digits2_pos m) + e) = e.
Proof. unfold canonical_mantissa. apply Z.eqb_eq. Qed.

Lemma finish_small s q e x y :
  0 < q < 2 ^ 53 -> fexp64 (Zdigits2 q + e) = e ->
  shr_fexp prec emax q e loc_Exact = (y, x) ->
  finish s q e (match shr_m y with
                | Z0 => S754_zero s
                | Zpos m => if x <=? emax - prec then S754_finite s m x else S754_infinity s
                | _ => S754_nan
                end).
Proof.
  intros [Hq Hq'] Hc. rewrite shr_fexp_none by lia. intros [= <- <-]. simpl.
  destruct q as [|m|]; try lia. right. exists m, e.
  rewrite Z.sub_diag, Z.pow_0_r, canonical_iff. split_and!; [lia|lia|done|done].
Qed.

Lemma finish_carry s e x y :
  -1074 <= e -> shr_fexp prec emax (2 ^ 53) e loc_Exact = (y, x) ->
  finish s (2 ^ 53) e (match shr_m y with
                | Z0 => S754_zero s
                | Zpos m => if x <=? emax - prec then S754_finite s m x else S754_infinity s
                | _ => S754_nan
                end).
Proof.
  intros He. unfold shr_fexp, shr.
  replace (fexp64 (Zdigits2 (2 ^ 53) + e) - e) with 1.
  2: { rewrite fexp64_eq. change (Zdigits2 (2 ^ 53)) with 54. lia. }
  intros [= <- <-]. simpl. right. exists (2 ^ 52)%positive, (e + 1).
  rewrite canonical_iff, fexp64_eq. split_and!; [|lia| |done].
  - replace (e + 1 - e) with 1 by lia. reflexivity.
  - change (Zpos (digits2_pos (2 ^ 52))) with 53. lia.
Qed.

(** The specification of [binary_round_aux]: the mantissa is cut to a multiple
    of the target unit [2^e'], and raised by one unit only when something was
    lost. *)
Lemma binary_round_aux_spec s m e l :
  0 < m -> e <= fexp64 (Zdigits2 m + e) ->
  let e' := fexp64 (Zdigits2 m + e) in
  exists q, finish s q e' (binary_round_aux prec emax s m e l) /\
    (q = m / 2 ^ (e' - e) \/
     (q = m / 2 ^ (e' - e) + 1 /\ ~ (l = loc_Exact /\ (2 ^ (e' - e) | m)))).
Proof.
  intros Hm He e'. unfold binary_round_aux.
  destruct (shr_fexp_shift m e l) as (y & -> & Hy & Hl); [lia|done|].
  fold e' in Hy, Hl |- *. rewrite Hy.
  set (q := m / 2 ^ (e' - e)) in *. set (n := e' - e) in *.
  pose proof (Zdigits2_spec m Hm) as Hd. pose proof (Zdigits2_pos m Hm).
  assert (He' : e' = Z.max (Zdigits2 m + e - 53) (-1074)) by apply fexp64_eq.
  pose proof (pow2_pos n ltac:(lia)) as Hn.
  assert (Hq0 : 0 <= q) by (apply Z.div_pos; lia).
  assert (Hq : q < 2 ^ 53).
  { apply Z.div_lt_upper_bound; [lia|]. rewrite <- Z.pow_add_r by lia.
    eapply Z.lt_le_trans; [apply Hd|]. apply Z.pow_le_mono_r; lia. }
  assert (Hnorm : e' = -1074 \/ 2 ^ 52 <= q).
  { destruct (decide (e' = -1074)); [by left|right].
    apply Z.div_le_lower_bound; [lia|]. rewrite <- Z.pow_add_r by lia.
    etransitivity; [|apply Hd]. apply Z.pow_le_mono_r; lia. }
  set (q' := round_nearest_even q (loc_of_shr_record y)).
  exists q'. split.
  2: { destruct (round_nearest_even_cases q (loc_of_shr_record y)) as [?|[? Hne]]; [by left|].
       right. split; [done|]. by rewrite <- Hl. }
  assert (Hq' : q <= q' <= q + 1).
  { destruct (round_nearest_even_cases q (loc_of_shr_record y)) as [?|[? _]];
      unfold q'; lia. }
  clearbody q' q. destruct (shr_fexp prec emax q' e' loc_Exact) as [y' x'] eqn:E.
  destruct (decide (q' = 0)) as [->|]; [|destruct (decide (q' = 2 ^ 53)) as [->|]].
  - rewrite shr_fexp_none in E by (rewrite ?fexp64_eq; simpl; lia).
    injection E as <- <-. by left.
  - apply finish_carry; [lia|done].
  - apply finish_small; [lia| |done]. rewrite fexp64_eq.
    pose proof (Zdigits2_le q' 53 ltac:(lia) ltac:(lia) ltac:(lia)).
    destruct Hnorm as [->|Hnorm]; [lia|].
    rewrite (Zdigits2_unique q' 53) by lia. lia.
Qed.

(** ** Order *)

Lemma bounded_facts m e :
  bounded prec emax m e = true ->
  -1074 <= e <= 971 /\ Zpos m < 2 ^ 53 /\ (e = -1074 \/ 2 ^ 52 <= Zpos m).
Proof.
  unfold bounded. rewrite andb_true_iff, canonical_iff, fexp64_eq, Z.leb_le.
  change (emax - prec) with 971. intros [Hc He].
  pose proof (digits2_pos_spec m) as [Hl Hu]. split; [lia|]. split.
  - eapply Z.lt_le_trans; [apply Hu|]. apply Z.pow_le_mono_r; lia.
  - destruct (decide (e = -1074)); [by left|right].
    etransitivity; [|apply Hl]. apply Z.pow_le_mono_r; lia.
Qed.

Lemma finish_nonneg q e x : finish false q e x -> nonneg_float x.
Proof.
  intros [[_ ->]|(m & e' & _ & _ & Hc & ->)]; [done|].
  unfold nonneg_float. destruct (e' <=? 971) eqn:E; [|done].
  split; [|done]. simpl. unfold bounded. by rewrite Hc.
Qed.

Lemma finish_fval q e x : -4000 <= e -> finish false q e x ->
  x = S754_infinity false \/ fval x = q * pw e.
Proof.
  intros He [[-> ->]|(m & e' & Hq & Hle & _ & ->)]; [by right|].
  destruct (e' <=? 971); [right|by left]. simpl.
  replace e' with (e + (e' - e)) at 1 by lia. rewrite pw_add by lia. lia.
Qed.

(** Cutting never falls below a representable lower bound... *)
Lemma cut_lower m e mb eb :
  0 < m -> -4000 <= e -> e <= fexp64 (Zdigits2 m + e) -> bounded prec emax mb eb = true ->
  Zpos mb * pw eb <= m * pw e ->
  Zpos mb * pw eb <= (m / 2 ^ (fexp64 (Zdigits2 m + e) - e)) * pw (fexp64 (Zdigits2 m + e)).
Proof.
  intros Hm He Hfe (Heb & Hmb & _)%bounded_facts Hle.
  assert (Hf := fexp64_eq (Zdigits2 m + e)).
  set (e' := fexp64 (Zdigits2 m + e)) in *.
  pose proof (pow2_pos (e' - e) ltac:(lia)) as Hn. pose proof (pw_pos e He) as Hpe.
  assert (Hpe' : pw e' = pw e * 2 ^ (e' - e)) by (rewrite <- pw_add by lia; f_equal; lia).
  destruct (Z.le_gt_cases e' eb) as [Hc|Hc].
  - assert (Hpb : pw eb = pw e' * 2 ^ (eb - e')) by (rewrite <- pw_add by lia; f_equal; lia).
    pose proof (pow2_pos (eb - e') ltac:(lia)).
    enough (Zpos mb * 2 ^ (eb - e') <= m / 2 ^ (e' - e)) by (rewrite Hpb; nia).
    apply Z.div_le_lower_bound; [lia|].
    rewrite Hpb, Hpe' in Hle. nia.
  - pose proof (Zdigits2_spec m Hm) as [Hd _].
    assert (Hq : 2 ^ 52 <= m / 2 ^ (e' - e)).
    { apply Z.div_le_lower_bound; [lia|]. rewrite <- Z.pow_add_r by lia.
      etransitivity; [|apply Hd]. apply Z.pow_le_mono_r; lia. }
    pose proof (pw_pos eb ltac:(lia)).
    assert (Hpb : pw e' = pw eb * 2 ^ (e' - eb)) by (rewrite <- pw_add by lia; f_equal; lia).
    assert (2 ^ 1 <= 2 ^ (e' - eb)) by (apply Z.pow_le_mono_r; lia).
    rewrite Hpb. change (2 ^ 53) with (2 * 2 ^ 52) in Hmb. nia.
Qed.

(** The value of [x] is at least [v], counting infinity. *)
Definition fge (v : Z) (x : float64) : Prop :=
  x = S754_infinity false \/ v <= fval x.

Lemma round_aux_nonneg m e l :
  0 < m -> e <= fexp64 (Zdigits2 m + e) ->
  nonneg_float (binary_round_aux prec emax false m e l).
Proof.
  intros Hm He. destruct (binary_round_aux_spec false m e l Hm He) as (q & Hf & _).
  by eapply finish_nonneg.
Qed.

Lemma round_aux_lower m e l mb eb :
  0 < m -> -4000 <= e -> e <= fexp64 (Zdigits2 m + e) -> bounded prec emax mb eb = true ->
  Zpos mb * pw eb <= m * pw e ->
  fge (Zpos mb * pw eb) (binary_round_aux prec emax false m e l).
Proof.
  intros Hm He Hfe Hb Hle. pose proof (cut_lower m e mb eb Hm He Hfe Hb Hle).
  destruct (binary_round_aux_spec false m e l Hm Hfe) as (q & Hf & Hq).
  pose proof (fexp64_eq (Zdigits2 m + e)).
  pose proof (pw_pos (fexp64 (Zdigits2 m + e)) ltac:(lia)).
  apply finish_fval in Hf as [->|Hv]; [by left| |lia].
  right. rewrite Hv. destruct Hq as [->|[-> _]]; nia.
Qed.

(** Two representations of one value have the same leading position. *)
Lemma Zdigits2_shift m k : 0 < m -> 0 <= k -> Zdigits2 (m * 2 ^ k) = Zdigits2 m + k.
Proof.
  intros Hm Hk. pose proof (pow2_pos k Hk). pose proof (Zdigits2_spec m Hm).
  pose proof (Zdigits2_pos m Hm).
  apply Zdigits2_unique; [nia|lia|]. split.
  - replace (Zdigits2 m + k - 1) with (Zdigits2 m - 1 + k) by lia.
    rewrite Z.pow_add_r by lia. nia.
  - rewrite Z.pow_add_r by lia. nia.
Qed.

Lemma same_value_shift m e m2 e2 :
  0 < m -> -4000 <= e <= e2 -> m * pw e = m2 * pw e2 -> m = m2 * 2 ^ (e2 - e).
Proof.
  intros Hm He Hv. pose proof (pw_pos e ltac:(lia)).
  replace e2 with (e + (e2 - e)) in Hv at 1 by lia. rewrite pw_add in Hv by lia. nia.
Qed.

Lemma same_value_digits m e m2 e2 :
  0 < m -> 0 < m2 -> -4000 <= e -> -4000 <= e2 -> m * pw e = m2 * pw e2 ->
  Zdigits2 m + e = Zdigits2 m2 + e2.
Proof.
  intros Hm Hm2 He He2 Hv. destruct (Z.le_ge_cases e e2).
  - rewrite (same_value_shift m e m2 e2 Hm ltac:(lia) Hv), Zdigits2_shift by lia. lia.
  - symmetry in Hv.
    rewrite (same_value_shift m2 e2 m e Hm2 ltac:(lia) Hv), Zdigits2_shift by lia. lia.
Qed.

(** Rounding is the identity on representable values. *)
Lemma round_aux_exact s m e mb eb :
  0 < m -> -4000 <= e -> e <= fexp64 (Zdigits2 m + e) -> bounded prec emax mb eb = true ->
  m * pw e = Zpos mb * pw eb ->
  binary_round_aux prec emax s m e loc_Exact = S754_finite s mb eb.
Proof.
  intros Hm He Hfe Hb Hv. pose proof (bounded_facts mb eb Hb) as (Heb & _).
  assert (Hcan : fexp64 (Zpos (digits2_pos mb) + eb) = eb).
  { unfold bounded in Hb. by apply andb_true_iff in Hb as [?%canonical_iff _]. }
  assert (Hd : fexp64 (Zdigits2 m + e) = eb).
  { by rewrite (same_value_digits m e (Zpos mb) eb) by (done || lia). }
  destruct (binary_round_aux_spec s m e loc_Exact Hm Hfe) as (q & Hf & Hq).
  rewrite Hd in *. pose proof (same_value_shift m e (Zpos mb) eb ltac:(lia) ltac:(lia) Hv) as Hmb.
  pose proof (pow2_pos (eb - e) ltac:(lia)).
  assert (Hqv : q = Zpos mb).
  { destruct Hq as [->|[_ []]]; [by rewrite Hmb, Z.div_mul by lia|].
    split; [done|]. by exists (Zpos mb). }
  subst q. destruct Hf as [[? _]|(m' & e' & Hm' & Hle & Hc & ->)]; [done|].
  apply canonical_iff in Hc.
  assert (Hee : e' = eb).
  { rewrite <- Hc, <- Hcan. change (Zpos (digits2_pos ?p)) with (Zdigits2 (Zpos p)).
    rewrite <- Hm', Zdigits2_shift by lia. f_equal. lia. }
  subst e'. rewrite Z.sub_diag, Z.mul_1_r in Hm'. injection Hm' as ->.
  by destruct (Z.leb_spec eb 971); [|lia].
Qed.

(** ** The operations on non-negative floats *)

Lemma iter_xO_spec m d : Zpos (Pos.iter xO m d) = Zpos m * 2 ^ Zpos d.
Proof.
  induction d using Pos.peano_ind; [simpl; lia|].
  rewrite Pos.iter_succ, Pos2Z.inj_xO, IHd, Pos2Z.inj_succ, Z.pow_succ_r by lia. lia.
Qed.

Lemma shl_align_spec m e e' mz ez :
  shl_align m e e' = (mz, ez) -> ez = Z.min e e' /\ Zpos mz = Zpos m * 2 ^ (e - ez).
Proof.
  unfold shl_align. destruct (e' - e) as [|p|p] eqn:E; intros [= <- <-].
  1,2: split; [lia|]; rewrite Z.sub_diag; lia.
  split; [lia|]. rewrite iter_xO_spec. do 2 f_equal. lia.
Qed.

Lemma binary_round_as_aux s m e : -4000 <= e ->
  exists mz ez, binary_round prec emax s m e = binary_round_aux prec emax s (Zpos mz) ez loc_Exact /\
    Zpos mz * pw ez = Zpos m * pw e /\ -4000 <= ez /\ ez <= fexp64 (Zdigits2 (Zpos mz) + ez).
Proof.
  intros He. unfold binary_round.
  destruct (shl_align m e (fexp64 (Zpos (digits2_pos m) + e))) as [mz ez] eqn:E.
  apply shl_align_spec in E as [Hez Hmz]. exists mz, ez.
  pose proof (fexp64_eq (Zpos (digits2_pos m) + e)).
  split; [done|]. split; [|split; [lia|]].
  - rewrite Hmz. replace (pw e) with (pw ez * 2 ^ (e - ez)); [ring|].
    rewrite <- pw_add by lia. f_equal. lia.
  - rewrite Hmz, Zdigits2_shift by lia. simpl Zdigits2.
    replace (Zpos (digits2_pos m) + (e - ez) + ez) with (Zpos (digits2_pos m) + e) by lia. lia.
Qed.

(** Normalising a non-negative integer of units [2^e]. *)
Lemma normalize_nonneg z e : 0 <= z -> -4000 <= e ->
  nonneg_float (binary_normalize prec emax z e false).
Proof.
  intros Hz He. destruct z as [|m|m]; [done| |lia]. simpl.
  destruct (binary_round_as_aux false m e He) as (mz & ez & -> & _ & ? & ?).
  by apply round_aux_nonneg.
Qed.

Lemma normalize_lower z e mb eb : 0 <= z -> -4000 <= e -> bounded prec emax mb eb = true ->
  Zpos mb * pw eb <= z * pw e ->
  fge (Zpos mb * pw eb) (binary_normalize prec emax z e false).
Proof.
  intros Hz He Hb Hle. pose proof (bounded_facts _ _ Hb) as (? & _).
  destruct z as [|m|m]; [pose proof (pw_pos eb); nia| |lia]. simpl.
  destruct (binary_round_as_aux false m e He) as (mz & ez & -> & Hv & ? & ?).
  apply round_aux_lower; try done. by rewrite Hv.
Qed.

Lemma normalize_exact z e mb eb : -4000 <= e -> bounded prec emax mb eb = true ->
  z * pw e = Zpos mb * pw eb ->
  binary_normalize prec emax z e false = S754_finite false mb eb.
Proof.
  intros He Hb Hv. pose proof (bounded_facts _ _ Hb) as (? & _).
  pose proof (pw_pos e He). pose proof (pw_pos eb ltac:(lia)).
  destruct z as [|m|m]; [nia| |nia]. simpl.
  destruct (binary_round_as_aux false m e He) as (mz & ez & -> & Hv' & ? & ?).
  apply round_aux_exact; try done. by rewrite Hv', Hv.
Qed.

(** Every integer below 2^53 at a normal exponent has a float. *)
Lemma representable y e : 0 < y < 2 ^ 53 -> -1074 <= e <= 971 ->
  exists mb eb, bounded prec emax mb eb = true /\ Zpos mb * pw eb = y * pw e.
Proof.
  intros Hy He. set (eb := fexp64 (Zdigits2 y + e)).
  assert (Heb : eb = Z.max (Zdigits2 y + e - 53) (-1074)) by apply fexp64_eq.
  pose proof (Zdigits2_le y 53 ltac:(lia) ltac:(lia) ltac:(lia)).
  pose proof (pow2_pos (e - eb) ltac:(lia)).
  destruct (y * 2 ^ (e - eb)) as [|mb|mb] eqn:Emb; [nia| |nia].
  exists mb, eb. rewrite <- Emb. split.
  - unfold bounded. rewrite andb_true_iff, canonical_iff, Z.leb_le.
    change (emax - prec) with 971. split; [|lia].
    change (Zpos (digits2_pos mb)) with (Zdigits2 (Zpos mb)).
    rewrite <- Emb, Zdigits2_shift by lia. unfold eb. f_equal. lia.
  - replace (pw e) with (pw eb * 2 ^ (e - eb)); [ring|].
    rewrite <- pw_add by lia. f_equal. lia.
Qed.

Lemma F_of_Z_nonneg z : 0 <= z -> nonneg_float (F_of_Z z).
Proof. intros. apply normalize_nonneg; lia. Qed.

Lemma F_of_Z_exact z : 0 < z < 2 ^ 53 ->
  exists mb eb, F_of_Z z = S754_finite false mb eb /\ bounded prec emax mb eb = true /\
    Zpos mb * pw eb = z * pw 0.
Proof.
  intros Hz. destruct (representable z 0 Hz ltac:(lia)) as (mb & eb & Hb & Hv).
  exists mb, eb. split; [|done]. apply normalize_exact; [lia|done|done].
Qed.

Lemma fval_F_of_Z z : 0 <= z < 2 ^ 53 -> fval (F_of_Z z) = z * pw 0.
Proof.
  intros Hz. destruct (decide (z = 0)) as [->|]; [done|].
  destruct (F_of_Z_exact z ltac:(lia)) as (mb & eb & -> & _ & Hv). exact Hv.
Qed.

Lemma F_of_Z_lower z mb eb : 0 <= z -> bounded prec emax mb eb = true ->
  Zpos mb * pw eb <= z * pw 0 -> fge (Zpos mb * pw eb) (F_of_Z z).
Proof. intros. apply normalize_lower; done || lia. Qed.

Lemma aligned_value m e ez : -4000 <= ez <= e ->
  Zpos (fst (shl_align m e ez)) * pw ez = Zpos m * pw e.
Proof.
  intros. destruct (shl_align m e ez) as [mz e'] eqn:E. simpl.
  apply shl_align_spec in E as [-> Hmz]. rewrite Z.min_r in Hmz by lia.
  rewrite Hmz. replace (pw e) with (pw ez * 2 ^ (e - ez)); [ring|].
  rewrite <- pw_add by lia. f_equal. lia.
Qed.

Lemma nonneg_finite_inv s m e : nonneg_float (S754_finite s m e) ->
  s = false /\ bounded prec emax m e = true.
Proof. by intros [? ?]. Qed.

(** The cases of a non-negative float. *)
Ltac nonneg_cases H :=
  lazymatch type of H with
  | nonneg_float ?x =>
      let s := fresh "s" in let m := fresh "m" in let e := fresh "e" in
      destruct x as [s|s| |s m e];
      [ destruct H as [_ ->] | destruct H as [_ ->] | by destruct H
      | let Hb := fresh "Hb" in apply nonneg_finite_inv in H as [-> Hb] ]
  end.

Lemma F_add_nonneg x y : nonneg_float x -> nonneg_float y -> nonneg_float (F_add x y).
Proof.
  intros Hx Hy. nonneg_cases Hx; nonneg_cases Hy; try done.
  pose proof (bounded_facts _ _ Hb) as (? & _). pose proof (bounded_facts _ _ Hb0) as (? & _).
  apply normalize_nonneg; simpl; lia.
Qed.

Lemma F_add_finite m1 e1 m2 e2 :
  -4000 <= e1 -> -4000 <= e2 ->
  exists z e, F_add (S754_finite false m1 e1) (S754_finite false m2 e2) =
      binary_normalize prec emax z e false /\
    0 < z /\ -4000 <= e /\ z * pw e = Zpos m1 * pw e1 + Zpos m2 * pw e2.
Proof.
  intros H1 H2. do 2 eexists. split; [reflexivity|]. simpl cond_Zopp.
  split; [lia|]. split; [lia|]. by rewrite Z.mul_add_distr_r, !aligned_value by lia.
Qed.

Lemma F_add_lower x y mb eb : nonneg_float x -> nonneg_float y -> bounded prec emax mb eb = true ->
  fge (Zpos mb * pw eb) x \/ fge (Zpos mb * pw eb) y \/ Zpos mb * pw eb <= fval x + fval y ->
  fge (Zpos mb * pw eb) (F_add x y).
Proof.
  intros Hx Hy Hb Hle. pose proof (bounded_facts _ _ Hb) as (? & _).
  pose proof (pw_pos eb ltac:(lia)).
  nonneg_cases Hx; nonneg_cases Hy; try (by left).
  4: { pose proof (bounded_facts _ _ Hb0) as (? & _). pose proof (bounded_facts _ _ Hb1) as (? & _).
       pose proof (pw_pos e ltac:(lia)). pose proof (pw_pos e0 ltac:(lia)).
       destruct (F_add_finite m e m0 e0) as (z & ez & -> & ? & ? & Hv); [lia|lia|].
       apply normalize_lower; [lia|done|done|]. rewrite Hv.
       unfold fge in Hle. simpl in Hle. destruct Hle as [[?|?]|[[?|?]|?]]; first [done|nia]. }
  all: right; unfold fge in Hle; simpl in *;
    destruct Hle as [[?|?]|[[?|?]|?]]; first [done|lia].
Qed.

Lemma F_mul_finite m1 e1 m2 e2 :
  bounded prec emax m1 e1 = true -> bounded prec emax m2 e2 = true ->
  -4000 <= e1 + e2 /\ e1 + e2 <= fexp64 (Zdigits2 (Zpos (m1 * m2)) + (e1 + e2)) /\
  Zpos m1 * pw e1 * (Zpos m2 * pw e2) = Zpos (m1 * m2) * pw (e1 + e2) * pw 0.
Proof.
  intros (He1 & Hm1 & Hn1)%bounded_facts (He2 & Hm2 & Hn2)%bounded_facts.
  split; [lia|]. split.
  - rewrite fexp64_eq. destruct (decide (e1 + e2 <= -1074)); [lia|].
    assert (2 ^ 52 <= Zpos (m1 * m2)) by (rewrite Pos2Z.inj_mul; destruct Hn1, Hn2; nia).
    pose proof (Zdigits2_spec (Zpos (m1 * m2)) ltac:(lia)) as [_ Hu].
    pose proof (pow2_lt_inv 52 (Zdigits2 (Zpos (m1 * m2))) ltac:(simpl; lia)). lia.
  - assert (Hpw : pw e1 * pw e2 = pw (e1 + e2) * pw 0).
    { unfold pw. rewrite <- !Z.pow_add_r by lia. f_equal. lia. }
    rewrite Pos2Z.inj_mul, <- !Z.mul_assoc, <- Hpw. ring.
Qed.

(** A non-negative number times a positive finite one. *)
Lemma F_mul_nonneg x m e : nonneg_float x -> bounded prec emax m e = true ->
  nonneg_float (F_mul x (S754_finite false m e)).
Proof.
  intros Hx Hb. nonneg_cases Hx; try done.
  destruct (F_mul_finite m0 e0 m e Hb0 Hb) as (? & ? & _).
  apply round_aux_nonneg; [lia|done].
Qed.

Lemma F_mul_lower x m e mb eb : nonneg_float x -> bounded prec emax m e = true ->
  bounded prec emax mb eb = true ->
  (x = S754_infinity false \/ Zpos mb * pw eb * pw 0 <= fval x * (Zpos m * pw e)) ->
  fge (Zpos mb * pw eb) (F_mul x (S754_finite false m e)).
Proof.
  intros Hx Hb Hbb Hle. pose proof (bounded_facts _ _ Hbb) as (? & _).
  pose proof (pw_pos eb ltac:(lia)). pose proof (pw_pos 0 ltac:(lia)).
  nonneg_cases Hx; [|by left|].
  - destruct Hle as [|Hle]; [done|]. simpl in Hle. nia.
  - destruct Hle as [|Hle]; [done|]. simpl fval in Hle.
    destruct (F_mul_finite m0 e0 m e Hb0 Hb) as (? & ? & Hv). rewrite Hv in Hle.
    apply round_aux_lower; [lia|done|done|done|nia].
Qed.

(** A quotient of finite positive floats whose leading position is normal: the
    mantissa is the quotient cut to an integer. *)
Lemma F_div_finite m1 e1 m2 e2 :
  -2000 <= e1 <= 2000 -> -2000 <= e2 <= 1000 -> Zpos m1 < 2 ^ 53 ->
  -1021 <= Zpos (digits2_pos m1) + e1 - (Zpos (digits2_pos m2) + e2) ->
  exists q e l, F_div (S754_finite false m1 e1) (S754_finite false m2 e2) =
      binary_round_aux prec emax false q e l /\
    0 < q /\ -4000 <= e /\ e <= fexp64 (Zdigits2 q + e) /\
    q * pw e * (Zpos m2 * pw e2) <= Zpos m1 * pw e1 * pw 0.
Proof.
  intros He1 He2 Hm1 Hd. unfold F_div, SFdiv, SFdiv_core_binary.
  set (d1 := Zdigits2 (Zpos m1)). set (d2 := Zdigits2 (Zpos m2)).
  change (Zpos (digits2_pos m1)) with d1 in Hd. change (Zpos (digits2_pos m2)) with d2 in Hd.
  assert (Hf := fexp64_eq (d1 + e1 - (d2 + e2))).
  set (e' := Z.min (fexp64 (d1 + e1 - (d2 + e2))) (e1 - e2)).
  assert (Hm' : match e1 - e2 - e' with
                | 0 => Zpos m1
                | Zpos _ => Z.shiftl (Zpos m1) (e1 - e2 - e')
                | Zneg _ => 0 end = Zpos m1 * 2 ^ (e1 - e2 - e')).
  { destruct (e1 - e2 - e') eqn:E; [rewrite Z.pow_0_r; lia| |lia].
    by rewrite Z.shiftl_mul_pow2 by lia. }
  rewrite Hm'. set (s := e1 - e2 - e') in *.
  destruct (Z.div_eucl (Zpos m1 * 2 ^ s) (Zpos m2)) as [q r] eqn:E.
  assert (Hq : q = Zpos m1 * 2 ^ s / Zpos m2) by (unfold Z.div; by rewrite E).
  pose proof (Zdigits2_spec (Zpos m1) ltac:(lia)) as [Hl1 _].
  pose proof (Zdigits2_spec (Zpos m2) ltac:(lia)) as [_ Hu2].
  pose proof (Zdigits2_pos (Zpos m2) ltac:(lia)).
  pose proof (Zdigits2_le (Zpos m1) 53 ltac:(lia) ltac:(lia) Hm1).
  fold d1 in Hl1, H0. fold d2 in Hu2, H. pose proof (pow2_pos s ltac:(lia)).
  assert (Hlow : 2 ^ (d1 - 1 + s - d2) <= q).
  { rewrite Hq. apply Z.div_le_lower_bound; [lia|].
    transitivity (2 ^ d2 * 2 ^ (d1 - 1 + s - d2)).
    - apply Z.mul_le_mono_nonneg_r; [|lia]. apply Z.pow_nonneg. lia.
    - rewrite <- Z.pow_add_r by lia.
      replace (d2 + (d1 - 1 + s - d2)) with (d1 - 1 + s) by lia.
      rewrite Z.pow_add_r by (unfold d1; pose proof (Zdigits2_pos (Zpos m1)); lia).
      nia. }
  pose proof (pow2_pos (d1 - 1 + s - d2) ltac:(lia)).
  do 3 eexists. split; [reflexivity|]. split; [lia|]. split; [lia|]. split.
  - pose proof (Zdigits2_spec q ltac:(lia)) as [_ Hqu].
    pose proof (pow2_lt_inv (d1 - 1 + s - d2) (Zdigits2 q)).
    pose proof (Zdigits2_pos q ltac:(lia)). rewrite fexp64_eq. lia.
  - assert (Hpw : pw e' * pw e2 * 2 ^ s = pw e1 * pw 0).
    { unfold pw. rewrite <- !Z.pow_add_r by lia. f_equal. lia. }
    assert (q * Zpos m2 <= Zpos m1 * 2 ^ s) by (rewrite Hq, Z.mul_comm; by apply Z.mul_div_le).
    pose proof (pw_pos e' ltac:(lia)). pose proof (pw_pos e2 ltac:(lia)).
    transitivity (Zpos m1 * 2 ^ s * (pw e' * pw e2)); [nia|].
    replace (Zpos m1 * pw e1 * pw 0) with (Zpos m1 * (pw e1 * pw 0)) by ring.
    rewrite <- Hpw. lia.
Qed.

Lemma F_div_nonneg m1 e1 m2 e2 :
  -2000 <= e1 <= 2000 -> -2000 <= e2 <= 1000 -> Zpos m1 < 2 ^ 53 ->
  -1021 <= Zpos (digits2_pos m1) + e1 - (Zpos (digits2_pos m2) + e2) ->
  nonneg_float (F_div (S754_finite false m1 e1) (S754_finite false m2 e2)).
Proof.
  intros He1 He2 Hm1 Hd.
  destruct (F_div_finite m1 e1 m2 e2 He1 He2 Hm1 Hd) as (q & e & l & -> & ? & _ & ? & _).
  by apply round_aux_nonneg.
Qed.

(** Taking one away from a float between 1 and 2^53 is exact. *)
Lemma F_sub_one_exact x : nonneg_float x -> pw 0 <= fval x < 2 ^ 53 * pw 0 ->
  nonneg_float (F_sub x F_one) /\ F_sub x F_one <> S754_infinity false /\
  fval (F_sub x F_one) = fval x - pw 0.
Proof.
  intros Hx Hv. pose proof (pw_pos 0 ltac:(lia)).
  nonneg_cases Hx; cbn [fval cond_Zopp] in *; [lia|lia|].
  destruct (bounded_facts _ _ Hb) as (He & Hm & Hn). pose proof (pw_pos e ltac:(lia)).
  assert (-52 <= e).
  { destruct (Z.le_gt_cases (-52) e); [done|exfalso].
    assert (pw 0 = pw e * 2 ^ (- e)) by (rewrite <- pw_add by lia; f_equal; lia).
    assert (2 ^ 53 <= 2 ^ (- e)) by (apply Z.pow_le_mono_r; lia). nia. }
  assert (e <= 0).
  { destruct (Z.le_gt_cases e 0); [done|exfalso].
    assert (pw e = pw 0 * 2 ^ e) by (rewrite <- pw_add by lia; f_equal; lia).
    assert (2 ^ 1 <= 2 ^ e) by (apply Z.pow_le_mono_r; lia).
    destruct Hn as [|Hn]; [lia|]. change (2 ^ 53) with (2 * 2 ^ 52) in Hv. nia. }
  assert (Hone : F_one = S754_finite false (2 ^ 52) (-52)) by reflexivity.
  set (z := Zpos (fst (shl_align m e (-52))) - 2 ^ 52).
  assert (HF : F_sub (S754_finite false m e) F_one = binary_normalize prec emax z (-52) false).
  { rewrite Hone. unfold F_sub, SFsub. rewrite Z.min_r by lia. reflexivity. }
  rewrite HF.
  assert (Hz : z * pw (-52) = Zpos m * pw e - pw 0).
  { unfold z. rewrite Z.mul_sub_distr_r, aligned_value by lia. reflexivity. }
  assert (Hpe : pw 0 = pw e * 2 ^ (- e)) by (rewrite <- pw_add by lia; f_equal; lia).
  pose proof (pow2_pos (- e) ltac:(lia)). pose proof (pw_pos (-52) ltac:(lia)).
  destruct (decide (Zpos m = 2 ^ (- e))) as [Heq|Hne].
  - assert (z = 0) as -> by nia. split; [done|]. split; [done|].
    cbn [binary_normalize fval]. rewrite Heq, Hpe. ring.
  - destruct (representable (Zpos m - 2 ^ (- e)) e) as (mb & eb & Hbb & Hvb); [nia|lia|].
    rewrite (normalize_exact z (-52) mb eb) by (done || lia || nia).
    split; [done|]. split; [done|]. cbn [fval cond_Zopp]. rewrite Hvb, Hpe. ring.
Qed.

(** Comparison agrees with the values. *)
Lemma finite_pos m e : bounded prec emax m e = true -> 0 < Zpos m * pw e.
Proof. intros (? & _)%bounded_facts. pose proof (pw_pos e ltac:(lia)). nia. Qed.

Lemma fval_nonneg x : nonneg_float x -> 0 <= fval x.
Proof.
  intros Hx. nonneg_cases Hx; cbn [fval cond_Zopp]; [lia|lia|].
  pose proof (finite_pos _ _ Hb). lia.
Qed.

Lemma exponent_order m1 e1 m2 e2 :
  bounded prec emax m1 e1 = true -> bounded prec emax m2 e2 = true -> e1 < e2 ->
  Zpos m1 * pw e1 < Zpos m2 * pw e2.
Proof.
  intros (? & Hm1 & _)%bounded_facts (? & _ & [?|Hm2])%bounded_facts Hlt; [lia|].
  pose proof (pw_pos e1 ltac:(lia)).
  assert (pw e2 = pw e1 * 2 ^ (e2 - e1)) by (rewrite <- pw_add by lia; f_equal; lia).
  assert (2 ^ 1 <= 2 ^ (e2 - e1)) by (apply Z.pow_le_mono_r; lia).
  change (2 ^ 53) with (2 * 2 ^ 52) in Hm1. nia.
Qed.

Lemma F_lt_fval x y : nonneg_float x -> nonneg_float y ->
  F_lt x y = true <-> x <> S754_infinity false /\ (y = S754_infinity false \/ fval x < fval y).
Proof.
  intros Hx Hy. nonneg_cases Hx; nonneg_cases Hy; cbn [fval cond_Zopp].
  all: try (pose proof (finite_pos _ _ Hb)).
  1-8: unfold F_lt, SFltb; cbn; naive_solver lia.
  unfold F_lt, SFltb. simpl SFcompare.
  destruct (Z.compare_spec e e0) as [->|Hlt|Hgt].
  - change (Pos.compare_cont Eq m m0) with (Pos.compare m m0).
    pose proof (bounded_facts _ _ Hb) as (? & _). pose proof (pw_pos e0 ltac:(lia)).
    destruct (Pos.compare_spec m m0) as [->|?|?]; (split; [intros ?|intros [_ [?|?]]]);
      try done; try (split; [done|right]); nia.
  - pose proof (exponent_order _ _ _ _ Hb Hb0 Hlt). naive_solver lia.
  - pose proof (exponent_order _ _ _ _ Hb0 Hb Hgt). naive_solver lia.
Qed.

Lemma F_min_nonneg x y : nonneg_float x -> nonneg_float y -> nonneg_float (F_min x y).
Proof.
  intros Hx Hy. assert (F_min x y = x \/ F_min x y = y) as [->| ->]; [|done|done].
  unfold F_min. destruct x as [[]|?| |? ? ?], y as [[]|?| |? ? ?]; try case_match; auto.
Qed.

(** On non-negative floats [F_min] is the minimum of the values. *)
Lemma F_min_nonneg_eq x y : nonneg_float x -> nonneg_float y ->
  F_min x y = if F_lt y x then y else x.
Proof.
  intros Hx Hy. nonneg_cases Hx; nonneg_cases Hy; try done; unfold F_min; by case_match.
Qed.

Lemma F_min_fval x y : nonneg_float x -> nonneg_float y -> x <> S754_infinity false ->
  F_min x y <> S754_infinity false /\ fval (F_min x y) <= fval x /\
  (y <> S754_infinity false -> fval (F_min x y) <= fval y).
Proof.
  intros Hx Hy Hfin. rewrite F_min_nonneg_eq by done.
  destruct (F_lt y x) eqn:E.
  - apply F_lt_fval in E as [? [?|?]]; try done. split; [done|]. lia.
  - split; [done|]. split; [lia|]. intros Hy'.
    destruct (Z.le_gt_cases (fval x) (fval y)); [done|].
    assert (F_lt y x = true); [|congruence]. apply F_lt_fval; auto with lia.
Qed.

(** When the second argument is at least the first, the minimum is the first. *)
Lemma F_min_ge m e y : bounded prec emax m e = true -> nonneg_float y ->
  fge (Zpos m * pw e) y -> F_min (S754_finite false m e) y = S754_finite false m e.
Proof.
  intros Hb Hy Hge. assert (Hx : nonneg_float (S754_finite false m e)) by done.
  rewrite F_min_nonneg_eq by done. destruct (F_lt y _) eqn:E; [|done].
  apply F_lt_fval in E as [Hni [?|Hlt]]; try done. simpl in Hlt.
  destruct Hge as [?|?]; [done|lia].
Qed.

Lemma F_add_zero_r x : nonneg_float x -> F_add x (S754_zero false) = x.
Proof. intros Hx. by nonneg_cases Hx. Qed.

#[export] Hint Resolve F_add_nonneg F_mul_nonneg F_of_Z_nonneg F_min_nonneg : go.
