(* ===== verification/GoFloatError.v ===== *)
(** * float64: how far rounding goes up

    The upper half of the rounding theory: a result exceeds the exact value by
    at most one part in 2^52, plus [tiny], the smallest positive float.  The
    rate limiter needs it to bound what accumulates over many refills. *)

From S2P Require Import Prelude GoFloat.

(** The smallest positive float. *)
Definition tiny : Z := pw (-1074).

(** [x] is finite and hardly above the value [v]. *)
Definition near (v : Z) (x : float64) : Prop :=
  x <> S754_infinity false /\ 2 ^ 52 * fval x <= (2 ^ 52 + 1) * v + 2 ^ 52 * tiny.

Lemma tiny_pos : 0 < tiny.
Proof. by apply pw_pos. Qed.

Lemma pw_le a b : -4000 <= a <= b -> pw a <= pw b.
Proof. intros. unfold pw. apply Z.pow_le_mono_r; lia. Qed.

Lemma near_eq x : 0 <= fval x -> x <> S754_infinity false -> near (fval x) x.
Proof. intros Hx Hi. split; [done|]. pose proof tiny_pos. lia. Qed.

(** The unit of the result is at most one part in 2^52 of the value. *)
Lemma unit_le m e : 0 < m -> -4000 <= e -> e <= fexp64 (Zdigits2 m + e) ->
  2 ^ 52 * pw (fexp64 (Zdigits2 m + e)) <= m * pw e + 2 ^ 52 * tiny.
Proof.
  intros Hm He Hfe. assert (Hf := fexp64_eq (Zdigits2 m + e)).
  set (e' := fexp64 (Zdigits2 m + e)) in *. pose proof (pw_pos e He). pose proof tiny_pos.
  destruct (decide (e' = -1074)) as [->|Hne]; [unfold tiny; nia|].
  pose proof (Zdigits2_spec m Hm) as [Hd _]. pose proof (Zdigits2_pos m Hm).
  assert (Hpw : 2 ^ 52 * pw e' = 2 ^ (Zdigits2 m - 1) * pw e).
  { unfold pw. rewrite <- !Z.pow_add_r by lia. f_equal. lia. }
  rewrite Hpw. nia.
Qed.

Lemma round_aux_near m e l :
  0 < m -> -4000 <= e -> e <= fexp64 (Zdigits2 m + e) -> m * pw e <= pw 970 ->
  near (m * pw e) (binary_round_aux prec emax false m e l).
Proof.
  intros Hm He Hfe Hle. pose proof (unit_le m e Hm He Hfe) as Hu.
  destruct (binary_round_aux_spec false m e l Hm Hfe) as (q & Hf & Hq).
  assert (Hfx := fexp64_eq (Zdigits2 m + e)).
  set (e' := fexp64 (Zdigits2 m + e)) in *.
  pose proof (pw_pos e He). pose proof (pw_pos e' ltac:(lia)). pose proof tiny_pos.
  assert (Hpe : pw e' = pw e * 2 ^ (e' - e)) by (rewrite <- pw_add by lia; f_equal; lia).
  pose proof (pow2_pos (e' - e) ltac:(lia)).
  assert (Hcut : m / 2 ^ (e' - e) * pw e' <= m * pw e).
  { pose proof (Z.mul_div_le m (2 ^ (e' - e)) ltac:(lia)). rewrite Hpe. nia. }
  assert (Hv : q * pw e' <= m * pw e + pw e') by (destruct Hq as [->|[-> _]]; lia).
  assert (Hni : binary_round_aux prec emax false m e l <> S754_infinity false).
  { destruct Hf as [[_ ->]|(m' & e2 & Hm' & Hle2 & _ & ->)]; [done|].
    destruct (Z.leb_spec e2 971); [done|]. exfalso.
    assert (Hv2 : q * pw e' = Zpos m' * pw e2).
    { rewrite <- Hm'. replace e2 with (e' + (e2 - e')) at 2 by lia. rewrite pw_add by lia. ring. }
    pose proof (pw_le 972 e2 ltac:(lia)). pose proof (pw_le (-1074) 970 ltac:(lia)) as Ht.
    fold tiny in Ht. assert (pw 972 = 4 * pw 970) by reflexivity.
    pose proof (pw_pos 970 ltac:(lia)). nia. }
  split; [done|]. apply finish_fval in Hf as [? | ->]; [done| |lia]. lia.
Qed.

Lemma normalize_near z e : 0 <= z -> -4000 <= e -> z * pw e <= pw 970 ->
  near (z * pw e) (binary_normalize prec emax z e false).
Proof.
  intros Hz He Hle. destruct z as [|m|m]; [by apply near_eq| |lia]. simpl.
  destruct (binary_round_as_aux false m e He) as (mz & ez & -> & Hv & ? & ?).
  rewrite <- Hv in *. by apply round_aux_near.
Qed.

Lemma F_add_near x y : nonneg_float x -> nonneg_float y ->
  x <> S754_infinity false -> y <> S754_infinity false -> fval x + fval y <= pw 970 ->
  near (fval x + fval y) (F_add x y).
Proof.
  intros Hx Hy Hix Hiy Hle. pose proof (fval_nonneg x Hx). pose proof (fval_nonneg y Hy).
  nonneg_cases Hx; nonneg_cases Hy; try done.
  all: change (fval (S754_zero false)) with 0 in *; rewrite ?Z.add_0_r, ?Z.add_0_l in *.
  1-2: by apply near_eq.
  pose proof (bounded_facts _ _ Hb) as (? & _). pose proof (bounded_facts _ _ Hb0) as (? & _).
  destruct (F_add_finite m e m0 e0) as (z & ez & -> & ? & ? & Hv); [lia|lia|].
  cbn [fval cond_Zopp] in *. rewrite <- Hv in *. apply normalize_near; lia.
Qed.

Lemma F_mul_near x m e : nonneg_float x -> x <> S754_infinity false ->
  bounded prec emax m e = true -> fval x * (Zpos m * pw e) <= pw 970 * pw 0 ->
  exists v, v * pw 0 = fval x * (Zpos m * pw e) /\ near v (F_mul x (S754_finite false m e)).
Proof.
  intros Hx Hi Hb Hle. pose proof (pw_pos 0 ltac:(lia)).
  nonneg_cases Hx; [|done|].
  - exists 0. split; [done|]. by apply near_eq.
  - cbn [fval cond_Zopp] in *. destruct (F_mul_finite m0 e0 m e Hb0 Hb) as (? & ? & Hv).
    exists (Zpos (m0 * m) * pw (e0 + e)). split; [lia|].
    apply round_aux_near; [lia|done|done|]. rewrite Hv in Hle. nia.
Qed.

Lemma F_div_near m1 e1 m2 e2 :
  bounded prec emax m1 e1 = true -> bounded prec emax m2 e2 = true ->
  -1021 <= Zpos (digits2_pos m1) + e1 - (Zpos (digits2_pos m2) + e2) ->
  Zpos m1 * pw e1 * pw 0 <= pw 970 * (Zpos m2 * pw e2) ->
  exists v, v * (Zpos m2 * pw e2) <= Zpos m1 * pw e1 * pw 0 /\
    near v (F_div (S754_finite false m1 e1) (S754_finite false m2 e2)).
Proof.
  intros Hb1 Hb2 Hd Hle. pose proof (finite_pos _ _ Hb2).
  pose proof (bounded_facts _ _ Hb1) as (? & ? & _). pose proof (bounded_facts _ _ Hb2) as (? & _).
  destruct (F_div_finite m1 e1 m2 e2) as (q & e & l & -> & ? & ? & ? & Hv); [lia|lia|done|done|].
  exists (q * pw e). split; [done|]. apply round_aux_near; [done..|]. nia.
Qed.
