(* ===== verification/Authn.v ===== *)
(** * internal/authn: local verification of SSO access tokens

    The JWT library ([github.com/golang-jwt/jwt/v5]) is the class [JWT]; what
    its documentation promises of [Parse] is the class [JWTLaws].  Claims arrive
    as decoded JSON, so numbers are [float64]s, as in Go. *)

From S2P Require Import Prelude GoErrors GoFloat.

(** ** Decoded JSON values, as [interface{}] holds them *)

Inductive json : Type :=
| JNull
| JBool (b : bool)
| JNum (f : float64)
| JString (s : string)
| JArray (l : list json)
| JObject (fields : list (string * json)).

(** [v.(float64)] and [v.(string)] with the second result dropped: the zero
    value when the dynamic type is another, or the key is absent. *)
Definition as_float64 (v : option json) : float64 :=
  match v with Some (JNum f) => f | _ => S754_zero false end.
Definition as_string (v : option json) : string :=
  match v with Some (JString s) => s | _ => "" end.

(** ** The JWT library *)

Class JWT : Type := {
  jwt_Token : Type;
  (** the type assertion of [t.Method] to [jwt.SigningMethodHMAC] succeeds *)
  Method_is_HMAC : jwt_Token -> bool;
  (** [t.Header["alg"]] *)
  Header_alg : jwt_Token -> string;
  Token_Valid : jwt_Token -> bool;
  (** the type assertion of [token.Claims] to [jwt.MapClaims] *)
  Token_MapClaims : jwt_Token -> option (gmap string json);
  (** [jwt.Parse(s, keyFunc, jwt.WithValidMethods(methods))] at time [now] *)
  jwt_Parse : Z -> string -> (jwt_Token -> result string) -> list string -> result jwt_Token;
}.

(** What the library documents of a successful [Parse]: the algorithm is one of
    the accepted methods, the key function gave a key, the token's signature
    verifies under that key, and the registered claims ([exp], [nbf]) hold. *)
Class JWTLaws `{JWT} : Type := {
  signature_ok : string -> string -> string -> Prop;
  claims_in_time : jwt_Token -> Z -> Prop;
  jwt_Parse_ok : forall now s kf methods t,
    jwt_Parse now s kf methods = Ok t ->
    Header_alg t ∈ methods /\ claims_in_time t now /\
    exists key, kf t = Ok key /\ signature_ok s (Header_alg t) key;
}.

(** ** Data *)

(** [type Claims struct] *)
Record Claims := { UserID : Z; Email : string }.

(** [type Verifier struct] *)
Record Verifier := { secret : string; applicationID : Z }.

#[export] Instance Claims_eq_dec : EqDecision Claims.
Proof. solve_decision. Defined.

(** ** Operations *)

(** [NewVerifier] *)
Definition NewVerifier (secret : string) (applicationID : Z) : result Verifier :=
  if applicationID =? 0 then Err (Sentinel (SAuthn ErrMissingApplicationID))
  else if bool_decide (secret = "") then Err (Sentinel (SAuthn ErrMissingSecret))
  else Ok {| secret := secret; applicationID := applicationID |}.

Section Verify.
Context `{JWT}.
(** What [uint64(f)] gives for an [f] whose integer part is no [uint64]: the
    language leaves it to the implementation. *)
Context (uint64_oob : float64 -> Z).

(** [uint64(f)] *)
Definition uint64_of_float64 (f : float64) : Z :=
  match F_trunc f with
  | Some z => if (0 <=? z) && (z <? 2 ^ 64) then z else uint64_oob f
  | None => uint64_oob f
  end.

(** The key function [Verify] passes to the parser. *)
Definition keyFunc (v : Verifier) (t : jwt_Token) : result string :=
  if Method_is_HMAC t then Ok (secret v)
  else Err (ErrorString ("unexpected signing method: " +:+ Header_alg t)).

(** [Verify] at time [now] *)
Definition Verify (v : Verifier) (now : Z) (tokenStr : string) : result Claims :=
  if bool_decide (tokenStr = "") then Err (Sentinel (SAuthn ErrMissingToken))
  else
    match jwt_Parse now tokenStr (keyFunc v) ["HS256"] with
    | Err _ => Err (Sentinel (SAuthn ErrInvalidToken))
    | Ok token =>
        if negb (Token_Valid token) then Err (Sentinel (SAuthn ErrInvalidToken))
        else
          match Token_MapClaims token with
          | None => Err (Sentinel (SAuthn ErrInvalidToken))
          | Some claims =>
              let appID := as_float64 (claims !! "app_id") in
              if negb (uint64_of_float64 appID =? applicationID v)
              then Err (Sentinel (SAuthn ErrInvalidToken))
              else
                let uid := as_float64 (claims !! "uid") in
                let email := as_string (claims !! "email") in
                Ok {| UserID := uint64_of_float64 uid; Email := email |}
          end
    end.
End Verify.

(** ** Lemmas *)

Lemma NewVerifier_ok secret appID v :
  NewVerifier secret appID = Ok v <->
  appID <> 0 /\ secret <> "" /\ v = {| secret := secret; applicationID := appID |}.
Proof.
  unfold NewVerifier. destruct (Z.eqb_spec appID 0); [naive_solver|].
  case_bool_decide; naive_solver.
Qed.

Section Verify_facts.
Context `{JWT} (uint64_oob : float64 -> Z).
Abbreviation Verify := (Verify uint64_oob).
Abbreviation uint64_of_float64 := (uint64_of_float64 uint64_oob).

(** Everything a successful verification went through. *)
Lemma Verify_ok_inv v now s c : Verify v now s = Ok c ->
  s <> "" /\ exists t claims,
    jwt_Parse now s (keyFunc v) ["HS256"] = Ok t /\ Token_Valid t = true /\
    Token_MapClaims t = Some claims /\
    uint64_of_float64 (as_float64 (claims !! "app_id")) = applicationID v /\
    c = {| UserID := uint64_of_float64 (as_float64 (claims !! "uid"));
           Email := as_string (claims !! "email") |}.
Proof.
  unfold Authn.Verify. case_bool_decide; [done|].
  destruct (jwt_Parse _ _ _ _) as [t|] eqn:Ep; [|done].
  destruct (Token_Valid t) eqn:Ev; simpl; [|done].
  destruct (Token_MapClaims t) as [claims|] eqn:Ec; [|done].
  destruct (Z.eqb_spec (uint64_of_float64 (as_float64 (claims !! "app_id"))) (applicationID v));
    [|done].
  intros [= <-]. split; [done|]. by exists t, claims.
Qed.

(** The errors of [Verify] are the two sentinels, bare. *)
Lemma Verify_err v now s e : Verify v now s = Err e ->
  e = Sentinel (SAuthn ErrMissingToken) /\ s = "" \/
  e = Sentinel (SAuthn ErrInvalidToken) /\ s <> "".
Proof.
  unfold Authn.Verify. intros. repeat case_match; simplify_eq; try case_bool_decide;
    naive_solver.
Qed.

Lemma uint64_of_float64_zero : uint64_of_float64 (S754_zero false) = 0.
Proof. reflexivity. Qed.
End Verify_facts.

(** No float has an odd integer above 2^53 as its integer part. *)
Lemma F_trunc_odd f z : valid_binary prec emax f = true ->
  F_trunc f = Some z -> 2 ^ 53 < z -> Z.Even z.
Proof.
  destruct f as [s|s| |s m e]; simpl; intros Hb [= <-] Hz; [lia|].
  apply bounded_facts in Hb as (He & Hm & _).
  destruct s; simpl in *.
  { pose proof (Z.shiftl_nonneg (Zpos m) e). lia. }
  destruct (Z.le_gt_cases e 0) as [Hle|Hgt].
  - replace e with (- (- e)) in Hz by lia. rewrite Z.shiftl_opp_r in Hz.
    rewrite Z.shiftr_div_pow2 in Hz by lia.
    pose proof (pow2_pos (- e) ltac:(lia)).
    pose proof (Z.div_le_upper_bound (Zpos m) (2 ^ (- e)) (Zpos m)). nia.
  - rewrite Z.shiftl_mul_pow2 by lia. exists (Zpos m * 2 ^ (e - 1)).
    replace (2 ^ e) with (2 * 2 ^ (e - 1)); [ring|].
    rewrite <- Z.pow_succ_r by lia. f_equal. lia.
Qed.

(** ** A concrete token library

    A finite table of issued tokens, used to evaluate the definitions: a token
    is parsed when it is in the table, its algorithm is accepted, the key
    function's key is the one it was signed with, and it has not expired. *)

Module TableJWT.
Record token := {
  tk_alg : string; tk_hmac : bool; tk_key : string; tk_exp : Z;
  tk_claims : gmap string json }.

Definition parse (table : gmap string token) (now : Z) (s : string)
    (kf : token -> result string) (methods : list string) : result token :=
  match table !! s with
  | None => Err (ErrorString "token is malformed")
  | Some t =>
      if negb (bool_decide (tk_alg t ∈ methods)) then Err (ErrorString "signing method invalid")
      else match kf t with
           | Err e => Err (Errorf "token is unverifiable: " e "")
           | Ok key =>
               if negb (bool_decide (key = tk_key t)) then Err (ErrorString "signature is invalid")
               else if tk_exp t <=? now then Err (ErrorString "token is expired") else Ok t
           end
  end.

Definition jwt (table : gmap string token) : JWT := {|
  jwt_Token := token;
  Method_is_HMAC := tk_hmac;
  Header_alg := tk_alg;
  Token_Valid := fun _ => true;
  Token_MapClaims := fun t => Some (tk_claims t);
  jwt_Parse := parse table |}.

Lemma parse_ok table now s kf methods t : parse table now s kf methods = Ok t ->
  table !! s = Some t /\ tk_alg t ∈ methods /\ kf t = Ok (tk_key t) /\ now < tk_exp t.
Proof.
  unfold parse. destruct (table !! s) as [t'|]; [|done].
  case_bool_decide; simpl; [|done]. destruct (kf t') as [key|] eqn:Ek; [|done].
  case_bool_decide; simpl; [|done]. destruct (Z.leb_spec (tk_exp t') now); [done|].
  intros [= ->]. by subst.
Qed.

#[global] Program Instance laws table : JWTLaws (H := jwt table) := {|
  signature_ok := fun s alg key => exists t, table !! s = Some t /\ tk_alg t = alg /\ tk_key t = key;
  claims_in_time := fun t now => now < tk_exp t;
|}.
Next Obligation.
  intros table now s kf methods t (? & ? & ? & ?)%parse_ok. simpl. eauto 10.
Qed.

(** A token for application 42, user 7. *)
Definition sample : token := {|
  tk_alg := "HS256"; tk_hmac := true; tk_key := "k"; tk_exp := 1000;
  tk_claims := list_to_map [("app_id", JNum (F_of_Z 42)); ("uid", JNum (F_of_Z 7));
                            ("email", JString "u@x")] |}.
Definition table : gmap string token := {[ "tok" := sample ]}.
Definition verifier : Verifier := {| secret := "k"; applicationID := 42 |}.
Definition claims : Claims := {| UserID := 7; Email := "u@x" |}.
End TableJWT.

(** ** Properties *)

Section Properties.
Context `{JWT} (uint64_oob : float64 -> Z).
Abbreviation Verify := (Verify uint64_oob).

(** What a success of [Verify] rests on. *)
Lemma Verify_ok_signed `{!JWTLaws} v now s c :
  Verify v now s = Ok c ->
  signature_ok s "HS256" (secret v) /\
  exists t claims, Token_MapClaims t = Some claims /\ Method_is_HMAC t = true /\
    claims_in_time t now /\
    uint64_of_float64 uint64_oob (as_float64 (claims !! "app_id")) = applicationID v /\
    c = {| UserID := uint64_of_float64 uint64_oob (as_float64 (claims !! "uid"));
           Email := as_string (claims !! "email") |}.
Proof.
  intros (_ & t & claims & Hp & _ & Hc & Happ & ->)%Verify_ok_inv.
  apply jwt_Parse_ok in Hp as (Halg & Htime & key & Hk & Hs).
  apply list_elem_of_singleton in Halg. rewrite Halg in Hs.
  unfold keyFunc in Hk. destruct (Method_is_HMAC t) eqn:Hm; [|done].
  injection Hk as <-. split; [done|]. by exists t, claims.
Qed.

(** C29: a token [Verify] accepts carries a valid HS256 signature under the
    verifier's secret and is within its lifetime, its [app_id] claim is the
    verifier's application, and the claims handed to the handlers are the
    token's own. *)
Theorem Verify_sound `{!JWTLaws} v now s c :
  Verify v now s = Ok c ->
  signature_ok s "HS256" (secret v) /\
  exists t claims, Token_MapClaims t = Some claims /\ Method_is_HMAC t = true /\
    claims_in_time t now /\
    uint64_of_float64 uint64_oob (as_float64 (claims !! "app_id")) = applicationID v /\
    c = {| UserID := uint64_of_float64 uint64_oob (as_float64 (claims !! "uid"));
           Email := as_string (claims !! "email") |}.
Proof. apply Verify_ok_signed. Qed.

(** C30: a verifier that [NewVerifier] was willing to build accepts no token
    whose [app_id] claim is absent, is not a number, or truncates to another
    application: leaving the application id unset fails at construction
    instead of letting tokens without the claim through. *)
Theorem NewVerifier_no_bypass sec appID v now s c :
  NewVerifier sec appID = Ok v -> Verify v now s = Ok c ->
  exists t claims f, Token_MapClaims t = Some claims /\
    claims !! "app_id" = Some (JNum f) /\ uint64_of_float64 uint64_oob f = appID.
Proof.
  intros (Hid & _ & ->)%NewVerifier_ok (_ & t & claims & _ & _ & Hc & Happ & _)%Verify_ok_inv.
  simpl in Happ. exists t, claims.
  destruct (claims !! "app_id") as [[]|]; simpl in Happ;
    try (rewrite uint64_of_float64_zero in Happ; congruence).
  by eexists.
Qed.

(** claims are JSON numbers, so an application id above 2^53 that is odd
    is no token's [app_id]: a verifier for such an id rejects everything. *)
Theorem Verify_rejects_large_odd_id v now s :
  (forall kf t claims f, jwt_Parse now s kf ["HS256"] = Ok t ->
     Token_MapClaims t = Some claims -> claims !! "app_id" = Some (JNum f) ->
     valid_binary prec emax f = true) ->
  (forall f, uint64_oob f <> applicationID v) ->
  2 ^ 53 < applicationID v -> Z.Odd (applicationID v) -> s <> "" ->
  Verify v now s = Err (Sentinel (SAuthn ErrInvalidToken)).
Proof.
  intros Hvalid Hoob Hbig Hodd Hs. destruct (Verify v now s) as [c|e] eqn:E.
  - exfalso. apply Verify_ok_inv in E as (_ & t & claims & Hp & _ & Hc & Happ & _).
    unfold as_float64, uint64_of_float64 in Happ.
    destruct (claims !! "app_id") as [[]|] eqn:Ea; simpl in Happ; try lia.
    destruct (F_trunc f) as [z|] eqn:Ez; [|by apply Hoob in Happ].
    destruct (_ && _) in Happ; [|by apply Hoob in Happ].
    rewrite <- Happ in *. apply (Z.Even_Odd_False z); [|done].
    by apply (F_trunc_odd f); [eapply Hvalid|..].
  - apply Verify_err in E as [[-> ?]|[-> _]]; done.
Qed.
End Properties.

(** Witnesses: the sample token passes, and the table library rejects it for a
    verifier whose id is [2^53 + 1]. *)
Lemma Verify_sound_witness :
  @signature_ok _ (TableJWT.laws TableJWT.table) "tok" "HS256" "k".
Proof.
  exact (proj1 (Verify_sound (H := TableJWT.jwt TableJWT.table) (fun _ => 0) TableJWT.verifier
    10 "tok" TableJWT.claims (ltac:(vm_compute; reflexivity)))).
Defined.

Lemma NewVerifier_no_bypass_witness :
  exists t claims f, TableJWT.tk_claims t = claims /\ claims !! "app_id" = Some (JNum f) /\
    uint64_of_float64 (fun _ => 0) f = 42.
Proof.
  destruct (NewVerifier_no_bypass (H := TableJWT.jwt TableJWT.table) (fun _ => 0) "k" 42
    TableJWT.verifier 10 "tok" TableJWT.claims
    (ltac:(reflexivity)) (ltac:(vm_compute; reflexivity))) as (t & claims & f & Ht & ? & ?).
  exists t, claims, f. split; [|done]. by injection Ht.
Defined.

Lemma Verify_rejects_large_odd_id_witness :
  Verify (H := TableJWT.jwt TableJWT.table) (fun _ => 0)
    {| secret := "k"; applicationID := 2 ^ 53 + 1 |} 10 "tok"
  = Err (Sentinel (SAuthn ErrInvalidToken)).
Proof.
  apply (Verify_rejects_large_odd_id (H := TableJWT.jwt TableJWT.table)).
  - intros kf t claims f (Ht & _)%TableJWT.parse_ok [= <-] Hf.
    assert (t = TableJWT.sample) as ->.
    { change (TableJWT.table !! "tok") with (Some TableJWT.sample) in Ht. congruence. }
    assert (Hf' : TableJWT.tk_claims TableJWT.sample !! "app_id" = Some (JNum (F_of_Z 42)))
      by reflexivity.
    assert (f = F_of_Z 42) as -> by congruence. reflexivity.
  - intros f. vm_compute. discriminate.
  - vm_compute. reflexivity.
  - exists (2 ^ 52). reflexivity.
  - discriminate.
Defined.
