(* ===== verification/Runtime.v ===== *)
(** * Time and request contexts

    What the service uses of packages [time] and [context].  The clock and the
    cancellation of a context by its parent (a client that goes away) belong to
    the world. *)

From S2P Require Import Prelude GoErrors Authn.

(** Durations and instants are nanoseconds. *)
Definition Millisecond : Z := 10 ^ 6.
Definition Second : Z := 10 ^ 9.
Definition Minute : Z := 60 * Second.
Definition Hour : Z := 60 * Minute.

(** A context: the cancellation signal it inherits, its deadline, and the
    values the service stores under its keys. *)
Record context := {
  ctx_signal : nat;
  ctx_deadline : option Z;
  (** chi's [middleware.RequestIDKey], [""] when absent as [GetReqID] reads it *)
  ctx_chi_request_id : string;
  (** [sl.RequestIDKey] *)
  ctx_request_id : option string;
  (** the key of the auth middleware *)
  ctx_user : option Claims;
}.

Definition Background : context :=
  {| ctx_signal := 0; ctx_deadline := None; ctx_chi_request_id := "";
     ctx_request_id := None; ctx_user := None |}.

Class Runtime (W : Type) := {
  time_Now : M W Z;
  ctx_canceled : nat -> M W bool;
}.

Section Context.
Context {W} `{Runtime W}.

(** [context.WithTimeout(ctx, d)]: the earlier of the two deadlines. *)
Definition WithTimeout (ctx : context) (d : Z) : M W context :=
  now ← time_Now;
  mret {| ctx_signal := ctx_signal ctx;
          ctx_deadline := Some (match ctx_deadline ctx with
                                | Some dl => Z.min dl (now + d)
                                | None => now + d
                                end);
          ctx_chi_request_id := ctx_chi_request_id ctx;
          ctx_request_id := ctx_request_id ctx;
          ctx_user := ctx_user ctx |}.

(** [ctx.Err()] *)
Definition ctx_Err (ctx : context) : M W (option error) :=
  canceled ← ctx_canceled (ctx_signal ctx);
  if canceled : bool then mret (Some (Sentinel (SLib Canceled)))
  else match ctx_deadline ctx with
       | None => mret None
       | Some dl =>
           now ← time_Now;
           mret (if dl <=? now then Some (Sentinel (SLib DeadlineExceeded)) else None)
       end.
End Context.

(** [context.WithValue] for the two keys of the service. *)
Definition with_request_id (ctx : context) (id : string) : context :=
  {| ctx_signal := ctx_signal ctx; ctx_deadline := ctx_deadline ctx;
     ctx_chi_request_id := ctx_chi_request_id ctx;
     ctx_request_id := Some id; ctx_user := ctx_user ctx |}.
Definition with_user (ctx : context) (c : Claims) : context :=
  {| ctx_signal := ctx_signal ctx; ctx_deadline := ctx_deadline ctx;
     ctx_chi_request_id := ctx_chi_request_id ctx;
     ctx_request_id := ctx_request_id ctx; ctx_user := Some c |}.

(** A world that is a stopped clock with nothing canceled, for evaluation. *)
#[export] Instance FixedRuntime : Runtime Z :=
  {| time_Now := fun w => (w, w); ctx_canceled := fun _ w => (false, w) |}.

(** ** Lemmas *)

(** The errors of a context are the two sentinels. *)
Lemma ctx_Err_sentinel {W} `{Runtime W} ctx (w w' : W) e :
  ctx_Err ctx w = (Some e, w') ->
  e = Sentinel (SLib Canceled) \/ e = Sentinel (SLib DeadlineExceeded).
Proof.
  unfold ctx_Err. m_unfold. destruct_let. destruct a; [naive_solver|].
  destruct (ctx_deadline ctx); [|naive_solver]. destruct_let. case_match; naive_solver.
Qed.

(** What [ctx.Err()] may answer, whatever the world. *)
Definition ctx_error (e : option error) : bool :=
  bool_decide (e = None) || bool_decide (e = Some (Sentinel (SLib Canceled))) ||
  bool_decide (e = Some (Sentinel (SLib DeadlineExceeded))).

Lemma ctx_error_cases e : ctx_error e = true ->
  e = None \/ e = Some (Sentinel (SLib Canceled)) \/ e = Some (Sentinel (SLib DeadlineExceeded)).
Proof. unfold ctx_error. rewrite !orb_true_iff, !bool_decide_eq_true. tauto. Qed.

Lemma ctx_Err_error {W} `{Runtime W} ctx (w : W) : ctx_error (ctx_Err ctx w).1 = true.
Proof.
  destruct (ctx_Err ctx w) as [[e|] w'] eqn:E; [|done].
  by destruct (ctx_Err_sentinel _ _ _ _ E) as [-> | ->].
Qed.

(** A timeout only ever tightens the deadline. *)
Lemma WithTimeout_tightens {W} `{Runtime W} ctx d (w w' : W) ctx' :
  WithTimeout ctx d w = (ctx', w') ->
  exists dl', ctx_deadline ctx' = Some dl' /\
    match ctx_deadline ctx with Some dl => dl' <= dl | None => True end.
Proof.
  unfold WithTimeout. m_unfold. destruct_let. intros [= <- <-]. simpl.
  eexists. split; [done|]. destruct (ctx_deadline ctx); [lia|done].
Qed.
