(* ===== verification/Http.v ===== *)
(** * Requests, responses and middleware

    The part of [net/http] the handlers and the middleware see.  A response is
    what the handler asked the [ResponseWriter] to send. *)

From S2P Require Import Prelude GoErrors GoStrings GoFloat Authn Runtime.

(** The bytes a request body yields before its reader ends, and the error it
    ends with ([None] is EOF). *)
Record body_reader := { rd_bytes : string; rd_err : option error }.

Record request := {
  Method : string;
  URL_Path : string;
  RemoteAddr : string;
  (** canonical header names; [Header.Get] reads the first value *)
  Header : gmap string string;
  Body : body_reader;
  (** chi's URL parameters *)
  URLParams : gmap string string;
  Context_of : context;
}.

Definition Header_Get (r : request) (key : string) : string :=
  default "" (Header r !! key).
(** [chi.URLParam] *)
Definition URLParam (r : request) (key : string) : string :=
  default "" (URLParams r !! key).
(** [r.WithContext] *)
Definition WithContext (r : request) (ctx : context) : request :=
  {| Method := Method r; URL_Path := URL_Path r; RemoteAddr := RemoteAddr r;
     Header := Header r; Body := Body r; URLParams := URLParams r; Context_of := ctx |}.
Definition WithBody (r : request) (b : body_reader) : request :=
  {| Method := Method r; URL_Path := URL_Path r; RemoteAddr := RemoteAddr r;
     Header := Header r; Body := b; URLParams := URLParams r; Context_of := Context_of r |}.

(** [http.MaxBytesReader]: after [n] bytes the reader fails if more is left. *)
Definition MaxBytesReader (b : body_reader) (n : Z) : body_reader :=
  if Z.of_nat (String.length (rd_bytes b)) <=? n then b
  else {| rd_bytes := String.substring 0 (Z.to_nat n) (rd_bytes b);
          rd_err := Some (ErrorString "http: request body too large") |}.

Inductive response : Type :=
| RespJSON (code : Z) (body : json)       (* response.Respond *)
| RespRedirect (code : Z) (url : string)  (* http.Redirect *)
| RespEmpty (code : Z)                    (* w.WriteHeader *)
| RespText (code : Z) (body : string).    (* w.WriteHeader and w.Write *)

Definition resp_code (r : response) : Z :=
  match r with
  | RespJSON c _ | RespRedirect c _ | RespEmpty c | RespText c _ => c
  end.

Definition Handler (W : Type) : Type := request -> M W response.
Definition Middleware (W : Type) : Type := Handler W -> Handler W.

(** The status codes of [net/http] the service uses. *)
Definition StatusOK : Z := 200.
Definition StatusCreated : Z := 201.
Definition StatusNoContent : Z := 204.
Definition StatusFound : Z := 302.
Definition StatusBadRequest : Z := 400.
Definition StatusUnauthorized : Z := 401.
Definition StatusNotFound : Z := 404.
Definition StatusMethodNotAllowed : Z := 405.
Definition StatusConflict : Z := 409.
Definition StatusTooManyRequests : Z := 429.
Definition StatusInternalServerError : Z := 500.
Definition StatusServiceUnavailable : Z := 503.

(** ** Lemmas *)

Lemma substring_length n s : (String.length (String.substring 0 n s) <= n)%nat.
Proof.
  revert s. induction n as [|n IH]; intros [|c s]; simpl; [lia..|]. specialize (IH s). lia.
Qed.

(** No more than [n] bytes come out of [MaxBytesReader]. *)
Lemma MaxBytesReader_length b n : 0 <= n ->
  Z.of_nat (String.length (rd_bytes (MaxBytesReader b n))) <= n.
Proof.
  intros Hn. unfold MaxBytesReader. destruct (Z.leb_spec (Z.of_nat (String.length (rd_bytes b))) n);
    [done|]. cbn [rd_bytes]. pose proof (substring_length (Z.to_nat n) (rd_bytes b)). lia.
Qed.
