(* ===== verification/Response.v ===== *)
(** * internal/transport/http/response: response bodies and error mapping *)

From S2P Require Import Prelude GoErrors GoStrings GoFloat Authn Runtime Http.

(** ** Data *)

Definition StatusOk : string := "OK".
Definition StatusError : string := "Error".

(** [type ValidationErrorDetail struct] *)
Record ValidationErrorDetail := { Field : string; Message : string }.

(** [type Response struct] *)
Record Response := {
  Status : string;
  Error : string;
  Details : list ValidationErrorDetail;
}.

(** A [validator.FieldError], by the three methods the code calls. *)
Record FieldError := { fe_Field : string; fe_Tag : string; fe_Param : string }.

(** [type ErrCase struct] *)
Record ErrCase := { Target : sentinel; CaseStatus : Z; Msg : string }.

(** ** Operations *)

(** [Ok] *)
Definition Ok_response : Response :=
  {| Status := StatusOk; Error := ""; Details := [] |}.

(** [Error] *)
Definition Error_response (msg : string) : Response :=
  {| Status := StatusError; Error := msg; Details := [] |}.

(** [validationMessage] *)
Definition validationMessage (err : FieldError) : string :=
  if bool_decide (fe_Tag err = "required") then "is required"
  else if bool_decide (fe_Tag err = "url") then "must be a valid URL"
  else if bool_decide (fe_Tag err = "url_scheme") then "must use http or https"
  else if bool_decide (fe_Tag err = "min") then
    "must be at least " +:+ fe_Param err +:+ " characters"
  else if bool_decide (fe_Tag err = "max") then
    "must be at most " +:+ fe_Param err +:+ " characters"
  else if bool_decide (fe_Tag err = "alias") then
    "may contain only letters, numbers, '-' and '_'"
  else "is invalid".

(** [ValidationError] *)
Definition ValidationError (errs : list FieldError) : Response :=
  {| Status := StatusError;
     Error := "validation failed";
     Details := (fun err => {| Field := ToLower (fe_Field err);
                               Message := validationMessage err |}) <$> errs |}.

(** What [encoding/json] makes of the structs: fields tagged [omitempty] are
    left out when empty. *)
Definition Detail_fields (d : ValidationErrorDetail) : json :=
  JObject [("field", JString (Field d)); ("message", JString (Message d))].
Definition Response_fields (r : Response) : list (string * json) :=
  [("status", JString (Status r))]
  ++ (if bool_decide (Error r = "") then [] else [("error", JString (Error r))])
  ++ (match Details r with
      | [] => []
      | ds => [("details", JArray (Detail_fields <$> ds))]
      end).

(** [Respond] for a plain [Response] *)
Definition Respond (code : Z) (v : Response) : response :=
  RespJSON code (JObject (Response_fields v)).

(** [Case] *)
Definition Case (target : sentinel) (status : Z) (msg : string) : ErrCase :=
  {| Target := target; CaseStatus := status; Msg := msg |}.

Inductive level : Set := LevelDebug | LevelInfo | LevelWarn | LevelError.
Record log_entry := { log_level : level; log_msg : string; log_error : string }.

(** [RespondError]: the log line it writes and the response it sends. *)
Fixpoint RespondError (err : error) (fallbackStatus : Z) (fallbackMsg : string)
    (cases : list ErrCase) : log_entry * response :=
  match cases with
  | c :: cases' =>
      if errors_Is err (Target c) then
        ({| log_level := if StatusInternalServerError <=? CaseStatus c
                         then LevelError else LevelDebug;
            log_msg := Msg c; log_error := error_text err |},
         Respond (CaseStatus c) (Error_response (Msg c)))
      else RespondError err fallbackStatus fallbackMsg cases'
  | [] =>
      ({| log_level := LevelError; log_msg := fallbackMsg; log_error := error_text err |},
       Respond fallbackStatus (Error_response fallbackMsg))
  end.

(** ** Lemmas *)

Lemma RespondError_resp_code err st msg cases :
  resp_code (RespondError err st msg cases).2 = st \/
  exists c, c ∈ cases /\ resp_code (RespondError err st msg cases).2 = CaseStatus c.
Proof.
  induction cases as [|c cases IH]; simpl; [by left|].
  case_match; simpl.
  - right. exists c. split; [by left|done].
  - destruct IH as [?|(c' & ? & ?)]; [by left|]. right. exists c'. split; [by right|done].
Qed.

(** No case applies. *)
Lemma RespondError_fallback err st msg cases :
  Forall (fun c => errors_Is err (Target c) = false) cases ->
  (RespondError err st msg cases).2 = Respond st (Error_response msg).
Proof. induction 1 as [|c cases Hc _ IH]; simpl; [done|]. by rewrite Hc. Qed.

(** The line of an error has its text, and its level goes with the status. *)
Lemma RespondError_entry err st msg cases entry resp : 500 <= st ->
  RespondError err st msg cases = (entry, resp) ->
  log_error entry = error_text err /\
  log_level entry = if 500 <=? resp_code resp then LevelError else LevelDebug.
Proof.
  intros Hst. induction cases as [|c cases IH]; simpl.
  - intros [= <- <-]. simpl. by rewrite (proj2 (Z.leb_le 500 st)).
  - destruct (errors_Is err (Target c)); [|exact IH]. by intros [= <- <-].
Qed.

(** ** Properties *)

(** The response to an error is the one of the first case whose sentinel is in
    the error's chain. *)
Theorem RespondError_first err st msg pre c post :
  Forall (fun c' => errors_Is err (Target c') = false) pre ->
  errors_Is err (Target c) = true ->
  RespondError err st msg (pre ++ c :: post) =
    ({| log_level := if 500 <=? CaseStatus c then LevelError else LevelDebug;
        log_msg := Msg c; log_error := error_text err |},
     Respond (CaseStatus c) (Error_response (Msg c))).
Proof. induction 1 as [|c' pre Hc' _ IH]; simpl; intros H; rewrite ?H, ?Hc'; auto. Qed.

(** C38: The client never sees the internals of an error: two errors with the same
    sentinels get the same response, whatever their text and wrapping; the text
    goes to the log line. *)
Theorem RespondError_no_leak err err' st msg cases :
  (forall s, errors_Is err s = errors_Is err' s) ->
  (RespondError err st msg cases).2 = (RespondError err' st msg cases).2 /\
  log_error (RespondError err st msg cases).1 = error_text err.
Proof.
  intros H. induction cases as [|c cases IH]; simpl; [done|].
  rewrite <- (H (Target c)). by destruct (errors_Is err (Target c)).
Qed.

(** Validation errors become one detail each, in order, with the lower-cased
    field and a message that is never empty; the body always carries the
    status, the error and, when there is any, the details. *)
Theorem ValidationError_details errs : errs <> [] ->
  length (Details (ValidationError errs)) = length errs /\
  Forall2 (fun e d => Field d = ToLower (fe_Field e) /\ Message d = validationMessage e /\
                      Message d <> "") errs (Details (ValidationError errs)) /\
  fst <$> Response_fields (ValidationError errs) = ["status"; "error"; "details"].
Proof.
  intros Hne. split; [by apply length_fmap|]. split.
  - simpl. clear Hne. induction errs as [|e errs IH]; simpl; constructor; [|done].
    split_and!; [done|done|]. simpl. unfold validationMessage. repeat case_bool_decide; done.
  - by destruct errs.
Qed.

(** ** Evaluation *)

Lemma RespondError_first_witness :
  (RespondError (wrap_op "op" (Sentinel (SDomain ErrURLExist))) 500 "failed"
    ([Case (SDomain ErrInvalidURL) 400 "url is required"] ++
     Case (SDomain ErrURLExist) 409 "url already exists" :: [])).2 =
  Respond 409 (Error_response "url already exists").
Proof.
  rewrite RespondError_first; [reflexivity|repeat constructor|reflexivity].
Defined.

Lemma RespondError_no_leak_witness :
  (RespondError (ErrorString "password=hunter2") 500 "internal error" []).2 =
  (RespondError (ErrorString "") 500 "internal error" []).2.
Proof.
  destruct (RespondError_no_leak (ErrorString "password=hunter2") (ErrorString "") 500
    "internal error" []) as [H _]; [intros s; reflexivity|exact H].
Defined.

Lemma ValidationError_details_witness :
  let errs := [{| fe_Field := "Alias"; fe_Tag := "min"; fe_Param := "4" |}] in
  length (Details (ValidationError errs)) = 1%nat /\
  Details (ValidationError errs) =
    [{| Field := "alias"; Message := "must be at least 4 characters" |}].
Proof.
  intros errs. split; [|vm_compute; reflexivity].
  destruct (ValidationError_details errs) as [Hl _]; [discriminate|exact Hl].
Defined.
