(* ===== verification/RateLimit.v ===== *)
(** * internal/transport/http/middleware/ratelimit: token buckets per client

    The tokens are [float64]s and the arithmetic is the one of the code, bit
    for bit.  The clock readings are Go's monotonic ones, in nanoseconds.  The
    mutex makes [allow] and one pass of [sweep] atomic (Mutex proves it), so each
    is a function of the limiter's state. *)

From S2P Require Import Prelude GoErrors GoStrings GoFloat Authn Runtime Http Response.

(** ** Data *)

(** [type bucket struct] *)
Record bucket := { tokens : float64; lastSeen : Z }.

(** [type Limiter struct], its map of pointers as a map of the buckets *)
Record Limiter := {
  buckets : gmap string bucket;
  rate : float64;
  burst : float64;
  ttl : Z;
}.

(** ** Operations *)

(** [New]; the sweeper goroutine it starts is [sweep] below. *)
Definition New (rate burst : float64) (ttl : Z) : Limiter :=
  {| buckets := ∅; rate := rate; burst := burst; ttl := ttl |}.

(** [Time.Sub]: the difference, saturated to an [int64] duration. *)
Definition time_Sub (t u : Z) : Z := Z.max int64_min (Z.min int64_max (t - u)).

(** [Duration.Seconds] *)
Definition Seconds (d : Z) : float64 :=
  let sec := Z.quot d Second in
  let nsec := Z.rem d Second in
  F_add (F_of_Z sec) (F_div (F_of_Z nsec) (F_of_Z Second)).

Definition set_buckets (l : Limiter) (m : gmap string bucket) : Limiter :=
  {| buckets := m; rate := rate l; burst := burst l; ttl := ttl l |}.

(** The refilled token count of bucket [b] at time [now], every operation rounded
    by itself: Go may fuse the product and the sum on architectures other than
    amd64. *)
Definition refill (l : Limiter) (b : bucket) (now : Z) : float64 :=
  let elapsed := Seconds (time_Sub now (lastSeen b)) in
  F_min (burst l) (F_add (tokens b) (F_mul elapsed (rate l))).

(** [allow], reading the clock at [now] *)
Definition allow (l : Limiter) (now : Z) (key : string) : bool * Limiter :=
  let b := match buckets l !! key with
           | Some b => b
           | None => {| tokens := burst l; lastSeen := now |}
           end in
  let t := refill l b now in
  if F_lt t F_one
  then (false, set_buckets l (<[key := {| tokens := t; lastSeen := now |}]> (buckets l)))
  else (true, set_buckets l (<[key := {| tokens := F_sub t F_one; lastSeen := now |}]>
                               (buckets l))).

(** One tick of [sweep] at time [now]: drop the buckets idle for longer than
    the time to live. *)
Definition sweep (l : Limiter) (now : Z) : Limiter :=
  let cutoff := now - ttl l in
  set_buckets l (filter (fun kb => ~ (lastSeen kb.2 < cutoff)) (buckets l)).

(** [clientIP] *)
Definition clientIP (r : request) : string :=
  match SplitHostPort (RemoteAddr r) with
  | None => RemoteAddr r
  | Some (host, _) => host
  end.

(** [Middleware] over a world that holds the limiter. *)
Definition Limiter_Middleware {W} `{Runtime W} (next : Handler (Limiter * W)) :
    Handler (Limiter * W) :=
  fun r =>
    let key := clientIP r in
    now ← lift_snd time_Now;
    l ← get_fst;
    let '(ok, l') := allow l now key in
    put_fst l' ;;
    if ok : bool then next r
    else mret (Respond StatusTooManyRequests (Error_response "rate limit exceeded")).

(** The constants of the router: ratelimit_config.go and router.go. *)
Definition writeEndpointRate : float64 := F_of_Z 5.
Definition writeEndpointBurst : float64 := F_of_Z 20.
Definition authEndpointRate : float64 := F_of_Z 1.
Definition authEndpointBurst : float64 := F_of_Z 5.
Definition limiterEntryTTL : Z := 10 * Minute.

(** ratelimit_config_integration.go: the same constants in the build with the tag
    [integration]. *)
Definition writeEndpointRate_integration : float64 := F_of_Z 1000.
Definition writeEndpointBurst_integration : float64 := F_of_Z 5000.
Definition authEndpointRate_integration : float64 := F_of_Z 1000.
Definition authEndpointBurst_integration : float64 := F_of_Z 5000.

(** ** Invariant *)

(** A configuration the theorems accept: a positive finite rate and a burst
    between one and 2^53. *)
Definition config_ok (l : Limiter) : Prop :=
  (exists m e, rate l = S754_finite false m e /\ bounded prec emax m e = true) /\
  (exists m e, burst l = S754_finite false m e /\ bounded prec emax m e = true) /\
  pw 0 <= fval (burst l) < 2 ^ 53 * pw 0.

(** A bucket holds between zero and [burst] tokens and was last touched in the
    past. *)
Definition bucket_ok (l : Limiter) (now : Z) (b : bucket) : Prop :=
  nonneg_float (tokens b) /\ tokens b <> S754_infinity false /\
  fval (tokens b) <= fval (burst l) /\
  0 <= lastSeen b <= now.

(** Monotonic clock readings are [int64] nanoseconds since the process began. *)
Definition limiter_ok (l : Limiter) (now : Z) : Prop :=
  config_ok l /\ now <= int64_max /\ map_Forall (fun _ b => bucket_ok l now b) (buckets l).

(** Tokens in units of [2^-4000]; [pw 0] is one token. *)
Definition bucket_tokens (l : Limiter) (now : Z) (key : string) : Z :=
  match buckets l !! key with
  | Some b => fval (refill l b now)
  | None => fval (burst l)
  end.

(** ** Lemmas *)

Lemma config_burst_nonneg l : config_ok l -> nonneg_float (burst l).
Proof. by intros (_ & (m & e & -> & Hb) & _). Qed.

Lemma config_burst_finite l : config_ok l -> burst l <> S754_infinity false.
Proof. by intros (_ & (m & e & -> & Hb) & _). Qed.
#[local] Hint Resolve config_burst_nonneg config_burst_finite : go.

(** The fractional part of [Seconds]. *)
Lemma Seconds_frac_nonneg d : 0 <= d ->
  nonneg_float (F_div (F_of_Z (Z.rem d Second)) (F_of_Z Second)).
Proof.
  intros Hd. unfold Second.
  assert (0 <= Z.rem d (10 ^ 9) < 10 ^ 9) by (apply Z.rem_bound_pos; lia).
  destruct (decide (Z.rem d (10 ^ 9) = 0)) as [->|Hr]; [done|].
  destruct (F_of_Z_exact (Z.rem d (10 ^ 9))) as (mb & eb & -> & Hb & Hv); [lia|].
  assert (Hs : F_of_Z (10 ^ 9) = S754_finite false 8388608000000000 (-23)) by reflexivity.
  rewrite Hs. pose proof (bounded_facts _ _ Hb) as (? & ? & _).
  apply F_div_nonneg; [lia|lia|done|].
  change (Zpos (digits2_pos 8388608000000000) + -23) with 30.
  pose proof (same_value_digits (Zpos mb) eb (Z.rem d (10 ^ 9)) 0) as Hdig.
  change (Zpos (digits2_pos mb)) with (Zdigits2 (Zpos mb)).
  pose proof (Zdigits2_pos (Z.rem d (10 ^ 9))). lia.
Qed.

Lemma Seconds_whole_nonneg d : 0 <= d -> nonneg_float (F_of_Z (Z.quot d Second)).
Proof. intros. apply F_of_Z_nonneg, Z.quot_pos; unfold Second; lia. Qed.

Lemma Seconds_nonneg d : 0 <= d -> nonneg_float (Seconds d).
Proof.
  intros Hd. apply F_add_nonneg; [by apply Seconds_whole_nonneg|by apply Seconds_frac_nonneg].
Qed.

(** At least [T] whole seconds make at least the float [T]. *)
Lemma Seconds_lower T d : 0 < T < 2 ^ 53 -> T * Second <= d -> fge (T * pw 0) (Seconds d).
Proof.
  intros HT Hd. unfold Seconds. pose proof (pw_pos 0 ltac:(lia)).
  assert (0 <= d) by (unfold Second in Hd; lia).
  assert (T <= Z.quot d Second) by (apply Z.quot_le_lower_bound; unfold Second in *; lia).
  destruct (F_of_Z_exact T HT) as (mb & eb & _ & Hb & Hv). rewrite <- Hv.
  apply F_add_lower; [by apply Seconds_whole_nonneg|by apply Seconds_frac_nonneg|done|].
  left. apply F_of_Z_lower; [lia|done|nia].
Qed.

Lemma time_Sub_range now u : 0 <= u <= now -> now <= int64_max -> time_Sub now u = now - u.
Proof. unfold time_Sub, int64_min, int64_max. lia. Qed.

Lemma refill_sum_nonneg l b now : config_ok l -> now <= int64_max -> bucket_ok l now b ->
  nonneg_float (F_add (tokens b) (F_mul (Seconds (time_Sub now (lastSeen b))) (rate l))).
Proof.
  intros Hc Hnow (Ht & _ & _ & Hs). rewrite time_Sub_range by done.
  apply F_add_nonneg; [done|]. destruct Hc as ((m & e & -> & Hb) & _).
  apply F_mul_nonneg; [apply Seconds_nonneg; lia|done].
Qed.

Lemma refill_ok l b now : config_ok l -> now <= int64_max -> bucket_ok l now b ->
  nonneg_float (refill l b now) /\ refill l b now <> S754_infinity false /\
  fval (refill l b now) <= fval (burst l).
Proof.
  intros Hc Hnow Hb. pose proof (refill_sum_nonneg l b now Hc Hnow Hb) as Hsum.
  unfold refill. split; [auto with go|].
  pose proof (F_min_fval (burst l) _ (config_burst_nonneg l Hc) Hsum (config_burst_finite l Hc)).
  naive_solver.
Qed.

(** No time, no refill. *)
Lemma refill_now l t now : config_ok l -> 0 <= now <= int64_max -> nonneg_float t ->
  fval t <= fval (burst l) -> t <> S754_infinity false ->
  fval (refill l {| tokens := t; lastSeen := now |} now) = fval t.
Proof.
  intros Hc Hnow Ht Hle Hfin. unfold refill. simpl. rewrite time_Sub_range, Z.sub_diag by lia.
  assert (F_mul (Seconds 0) (rate l) = S754_zero false) as ->.
  { by destruct Hc as ((m & e & -> & Hb) & _). }
  rewrite F_add_zero_r by done. rewrite F_min_nonneg_eq by auto with go.
  destruct (F_lt t (burst l)) eqn:E; [done|].
  destruct (Z.le_gt_cases (fval (burst l)) (fval t)); [lia|].
  enough (F_lt t (burst l) = true) by congruence.
  apply F_lt_fval; auto with go lia.
Qed.

Lemma fval_F_one : fval F_one = pw 0.
Proof. reflexivity. Qed.

Lemma below_one t : nonneg_float t -> t <> S754_infinity false ->
  F_lt t F_one = true <-> fval t < pw 0.
Proof.
  intros Ht Hfin. rewrite F_lt_fval, fval_F_one by done. naive_solver.
Qed.

Lemma fresh_bucket_ok l now : config_ok l -> 0 <= now <= int64_max ->
  bucket_ok l now {| tokens := burst l; lastSeen := now |}.
Proof.
  intros Hc Hnow. split_and!; simpl; auto with go; lia.
Qed.

(** The bucket [allow] works on. *)
Definition current (l : Limiter) (now : Z) (key : string) : bucket :=
  default {| tokens := burst l; lastSeen := now |} (buckets l !! key).

Lemma current_ok l now key : limiter_ok l now -> 0 <= now -> bucket_ok l now (current l now key).
Proof.
  intros (Hc & Hnow & Hm) H0. unfold current. destruct (buckets l !! key) as [b|] eqn:E; simpl.
  - by apply (Hm key b).
  - apply fresh_bucket_ok; [done|lia].
Qed.

Lemma bucket_tokens_current l now key : limiter_ok l now -> 0 <= now ->
  bucket_tokens l now key = fval (refill l (current l now key) now).
Proof.
  intros (Hc & Hnow & Hm) H0. unfold bucket_tokens, current.
  destruct (buckets l !! key); simpl; [done|].
  rewrite refill_now; auto with go lia.
Qed.

Lemma allow_current l now key :
  allow l now key =
    let t := refill l (current l now key) now in
    (negb (F_lt t F_one),
     set_buckets l (<[key := {| tokens := if F_lt t F_one then t else F_sub t F_one;
                                lastSeen := now |}]> (buckets l))).
Proof.
  unfold allow, current. destruct (buckets l !! key); simpl; by case_match.
Qed.

(** The tokens left after the decision. *)
Lemma spent_ok l now t : config_ok l -> 0 <= now <= int64_max ->
  nonneg_float t -> t <> S754_infinity false -> fval t <= fval (burst l) ->
  bucket_ok l now {| tokens := if F_lt t F_one then t else F_sub t F_one; lastSeen := now |} /\
  fval (if F_lt t F_one then t else F_sub t F_one) =
    fval t - (if F_lt t F_one then 0 else pw 0).
Proof.
  intros Hc Hnow Ht Hfin Hle. destruct (F_lt t F_one) eqn:E.
  - split; [split_and!; simpl; auto; lia|lia].
  - assert (pw 0 <= fval t).
    { destruct (Z.le_gt_cases (pw 0) (fval t)); [done|].
      enough (F_lt t F_one = true) by congruence. by apply below_one. }
    destruct (F_sub_one_exact t Ht) as (Hn & Hf & Hv); [destruct Hc as (_ & _ & ?); lia|].
    pose proof (pw_pos 0 ltac:(lia)).
    split; [split_and!; simpl; (done || lia)|done].
Qed.

Lemma allow_other l now key key' : key' <> key ->
  buckets (allow l now key).2 !! key' = buckets l !! key'.
Proof. intros. rewrite allow_current. simpl. by rewrite lookup_insert_ne. Qed.

Lemma allow_config l now key : config_ok l -> config_ok (allow l now key).2.
Proof. intros. by rewrite allow_current. Qed.

Lemma limiter_ok_later l now now' : limiter_ok l now -> now <= now' <= int64_max ->
  limiter_ok l now'.
Proof.
  intros (Hc & _ & Hm) Hle. split_and!; [done|lia|].
  intros k b Hb. destruct (Hm k b Hb) as (? & ? & ? & ?). split_and!; [done..|lia|lia].
Qed.

(** At a fixed time: the decision of [allow] and the accounting, in tokens. *)
Lemma allow_accounting l now key : limiter_ok l now -> 0 <= now ->
  (allow l now key).1 = (pw 0 <=? bucket_tokens l now key) /\
  limiter_ok (allow l now key).2 now /\
  bucket_tokens (allow l now key).2 now key =
    bucket_tokens l now key - (if (allow l now key).1 then pw 0 else 0).
Proof.
  intros Hl H0. rewrite (bucket_tokens_current l now key) by done.
  pose proof (current_ok l now key Hl H0) as Hcur.
  destruct Hl as (Hc & Hnow & Hm). rewrite allow_current.
  destruct (refill_ok l (current l now key) now Hc Hnow Hcur) as (Ht & Hfin & Hle).
  set (t := refill l (current l now key) now) in *.
  destruct (spent_ok l now t Hc ltac:(lia) Ht Hfin Hle) as [Hb Hv]. cbv zeta.
  split; [|split].
  - simpl. pose proof (below_one t Ht Hfin) as Hlt.
    destruct (F_lt t F_one), (Z.leb_spec (pw 0) (fval t)); try done; naive_solver lia.
  - split_and!; [done|done|]. by apply map_Forall_insert_2.
  - unfold bucket_tokens. simpl. rewrite lookup_insert_eq.
    destruct Hb as (? & ? & ? & ?). simpl in *.
    change (refill (set_buckets l _)) with (refill l).
    rewrite refill_now by (done || lia). rewrite Hv. by destruct (F_lt t F_one).
Qed.

(** Other keys are not affected, at any later time. *)
Lemma bucket_tokens_other l now key key' now' : key' <> key ->
  bucket_tokens (allow l now key).2 now' key' = bucket_tokens l now' key'.
Proof.
  intros. unfold bucket_tokens. rewrite allow_other by done. by rewrite allow_current.
Qed.

(** ** Eviction *)

(** How long a bucket must be idle before it is full again: [T] seconds of
    refill reach the burst, and buckets live at least that long. *)
Definition ttl_covers (l : Limiter) (T : Z) : Prop :=
  0 < T < 2 ^ 53 /\ T * Second <= ttl l /\ fval (burst l) <= T * fval (rate l).

Lemma refill_full l b now T : config_ok l -> now <= int64_max -> bucket_ok l now b ->
  ttl_covers l T -> ttl l <= now - lastSeen b -> refill l b now = burst l.
Proof.
  intros Hc Hnow Hb (HT & Httl & Hfull) Hidle.
  pose proof (refill_sum_nonneg l b now Hc Hnow Hb) as Hsum.
  destruct Hb as (Ht & _ & _ & Hs). unfold refill. rewrite time_Sub_range in * by done.
  destruct Hc as ((mr & er & Hr & Hbr) & (mb & eb & Hbu & Hbb) & _).
  rewrite Hbu, Hr in *. cbn [fval cond_Zopp] in Hfull.
  assert (Hsec : nonneg_float (Seconds (now - lastSeen b))) by (apply Seconds_nonneg; lia).
  pose proof (Seconds_lower T (now - lastSeen b) HT ltac:(lia)) as Hlow.
  pose proof (pw_pos 0 ltac:(lia)). pose proof (finite_pos _ _ Hbr).
  apply F_min_ge; [done|done|].
  apply F_add_lower; [done|by apply F_mul_nonneg|done|]. right; left.
  apply F_mul_lower; [done..|].
  destruct Hlow as [->|Hlow]; [by left|right]. nia.
Qed.

Lemma sweep_lookup l now key b :
  buckets (sweep l now) !! key = Some b <->
  buckets l !! key = Some b /\ now - ttl l <= lastSeen b.
Proof. unfold sweep. simpl. rewrite map_lookup_filter_Some. simpl. naive_solver lia. Qed.

Lemma sweep_lookup_None l now key b :
  buckets (sweep l now) !! key = None -> buckets l !! key = Some b ->
  lastSeen b < now - ttl l.
Proof.
  intros Hn Hb. destruct (Z.lt_ge_cases (lastSeen b) (now - ttl l)); [done|].
  assert (buckets (sweep l now) !! key = Some b) by (by apply sweep_lookup). congruence.
Qed.

Lemma sweep_ok l c now : limiter_ok l now -> limiter_ok (sweep l c) now.
Proof.
  intros (Hc & Hnow & Hm). split_and!; [done|done|].
  intros k b [Hb _]%sweep_lookup. by apply (Hm k).
Qed.

(** ** Runs *)

(** A run of calls, each at its clock reading. *)
Fixpoint allow_run (l : Limiter) (calls : list (Z * string)) : list bool * Limiter :=
  match calls with
  | [] => ([], l)
  | (now, key) :: calls' =>
      let '(ok, l1) := allow l now key in
      let '(oks, l2) := allow_run l1 calls' in (ok :: oks, l2)
  end.

(** The limiter as a transition system over its state and the clock: a request
    or a tick of the sweeper at a time not before the last one; the tick may
    have computed its cutoff before it got the lock, from a reading [c]. *)
Inductive limiter_step : Limiter * Z -> Limiter * Z -> Prop :=
| step_allow l now now' key : now <= now' <= int64_max ->
    limiter_step (l, now) ((allow l now' key).2, now')
| step_sweep l now c now' : c <= now' -> now <= now' <= int64_max ->
    limiter_step (l, now) (sweep l c, now').

Definition settings (l : Limiter) : float64 * float64 * Z := (rate l, burst l, ttl l).

Lemma limiter_step_ok l now l' now' : limiter_step (l, now) (l', now') ->
  limiter_ok l now -> 0 <= now ->
  limiter_ok l' now' /\ 0 <= now' /\ settings l' = settings l.
Proof.
  intros Hs Hl H0. inv Hs.
  - apply (limiter_ok_later l now now') in Hl; [|lia].
    destruct (allow_accounting l now' key) as (_ & ? & _); [done|lia|].
    split_and!; [done|lia|]. by rewrite allow_current.
  - apply (limiter_ok_later l now now') in Hl; [|lia].
    split_and!; [by apply sweep_ok|lia|done].
Qed.

Lemma limiter_steps_ok s s' : rtc limiter_step s s' -> limiter_ok s.1 s.2 -> 0 <= s.2 ->
  limiter_ok s'.1 s'.2 /\ 0 <= s'.2 /\ settings s'.1 = settings s.1.
Proof.
  induction 1 as [s|[l now] [l1 now1] s2 Hs _ IH]; simpl in *; [done|]. intros Hl H0.
  destruct (limiter_step_ok _ _ _ _ Hs Hl H0) as (Hl1 & H1 & Hset).
  destruct (IH Hl1 H1) as (? & ? & ?). split_and!; [done|done|congruence].
Qed.

Lemma New_ok r b t now : config_ok (New r b t) -> now <= int64_max -> limiter_ok (New r b t) now.
Proof. intros. split_and!; [done|done|apply map_Forall_empty]. Qed.

Lemma allow_run_ok l now calls : limiter_ok l now -> 0 <= now ->
  Forall (fun c => c.1 = now) calls -> limiter_ok (allow_run l calls).2 now.
Proof.
  intros Hl H0 Hc. revert l Hl.
  induction Hc as [|[t k] calls Ht _ IH]; intros l Hl; simpl in *; [done|]. subst t.
  destruct (allow_accounting l now k Hl H0) as (_ & Hl1 & _).
  destruct (allow l now k) as [ok l1]. specialize (IH l1 Hl1).
  by destruct (allow_run l1 calls).
Qed.

(** How many calls for [key] were made, and how many were let through. *)
Definition asked (key : string) (calls : list (Z * string)) : Z :=
  Z.of_nat (length (filter (fun c => c.2 = key) calls)).
Fixpoint granted (key : string) (calls : list (Z * string)) (oks : list bool) : Z :=
  match calls, oks with
  | (_, k) :: calls', ok :: oks' =>
      (if ok && bool_decide (k = key) then 1 else 0) + granted key calls' oks'
  | _, _ => 0
  end.

Lemma asked_cons key now k calls :
  asked key ((now, k) :: calls) = (if bool_decide (k = key) then 1 else 0) + asked key calls.
Proof.
  unfold asked. rewrite filter_cons. simpl. case_decide; case_bool_decide; try done; simpl; lia.
Qed.

Lemma asked_nonneg key calls : 0 <= asked key calls.
Proof. unfold asked. lia. Qed.

(** ** Properties *)

(** C25: Every state the limiter reaches from [New] by calls and sweeper ticks, in
    any order along a clock that does not go back, keeps every bucket between
    zero and [burst] tokens. *)
Theorem limiter_reachable_ok r b t l now0 now :
  config_ok (New r b t) -> 0 <= now0 <= int64_max ->
  rtc limiter_step (New r b t, now0) (l, now) ->
  limiter_ok l now /\ rate l = r /\ burst l = b /\ ttl l = t.
Proof.
  intros Hc H0 Hsteps.
  destruct (limiter_steps_ok _ _ Hsteps) as (? & _ & Hset); simpl in *;
    [apply New_ok; [done|lia]|lia|].
  split; [done|]. by injection Hset.
Qed.

(** C24: The decision is exact: a call is let through when the refilled bucket
    holds a whole token, it then costs exactly one token, a refused call costs
    nothing, and no other client is affected, now or later. *)
Theorem allow_exact l now key :
  limiter_ok l now -> 0 <= now ->
  (allow l now key).1 = (pw 0 <=? bucket_tokens l now key) /\
  bucket_tokens (allow l now key).2 now key =
    bucket_tokens l now key - (if (allow l now key).1 then pw 0 else 0) /\
  forall key' now', key' <> key ->
    bucket_tokens (allow l now key).2 now' key' = bucket_tokens l now' key'.
Proof.
  intros Hl H0. destruct (allow_accounting l now key Hl H0) as (? & _ & ?).
  split_and!; [done..|]. intros. by apply bucket_tokens_other.
Qed.

(** Of any calls made at one instant, from any mix of clients, a client gets
    through as many as it has whole tokens, and no more: the burst is the
    largest instantaneous burst. *)
Theorem instantaneous_burst l now key calls :
  limiter_ok l now -> 0 <= now -> Forall (fun c => c.1 = now) calls ->
  granted key calls (allow_run l calls).1 =
    Z.min (asked key calls) (bucket_tokens l now key / pw 0).
Proof.
  intros Hl H0 Hcalls. pose proof (pw_pos 0 ltac:(lia)) as Hpw.
  assert (Hnn : forall l, limiter_ok l now -> 0 <= bucket_tokens l now key).
  { intros l' Hl'. rewrite bucket_tokens_current by done.
    pose proof (current_ok l' now key Hl' H0) as Hcur.
    destruct Hl' as (Hc & Hn & _).
    destruct (refill_ok l' _ now Hc Hn Hcur) as (Ht & _). by apply fval_nonneg. }
  revert l Hl. induction Hcalls as [|[t k] calls Ht _ IH]; intros l Hl; simpl in *.
  { pose proof (Z.div_pos (bucket_tokens l now key) (pw 0) (Hnn l Hl) Hpw). unfold asked. simpl. lia. }
  subst t. destruct (allow_accounting l now k Hl H0) as (Hok & Hl1 & Hacc).
  rewrite asked_cons. pose proof (asked_nonneg key calls).
  assert (Hoth := bucket_tokens_other l now k key now).
  destruct (allow l now k) as [ok l1]. simpl in *. specialize (IH l1 Hl1).
  destruct (allow_run l1 calls) as [oks l2]. simpl in *. rewrite IH.
  pose proof (Hnn l Hl). case_bool_decide as Hk; [subst k|].
  - rewrite Hacc, Hok. simpl. destruct (Z.leb_spec (pw 0) (bucket_tokens l now key)); simpl.
    + replace (bucket_tokens l now key - pw 0) with (bucket_tokens l now key + (-1) * pw 0) by lia.
      rewrite Z.div_add by lia. lia.
    + rewrite Z.sub_0_r, Z.div_small by lia. lia.
  - rewrite andb_false_r, Hoth by done. lia.
Qed.

(** Dropping idle buckets changes no client's tokens, even when the tick computed
    its cutoff earlier, at [c]. *)
Lemma sweep_tokens l c now T key now' :
  limiter_ok l now -> ttl_covers l T -> c <= now -> now <= now' <= int64_max ->
  bucket_tokens (sweep l c) now' key = bucket_tokens l now' key.
Proof.
  intros Hl HT Hc Hle. unfold bucket_tokens.
  destruct (buckets (sweep l c) !! key) as [b|] eqn:Es.
  - apply sweep_lookup in Es as [-> _]. done.
  - destruct (buckets l !! key) as [b|] eqn:Eb; [|done].
    pose proof (sweep_lookup_None l c key b Es Eb).
    destruct (limiter_ok_later l now now' Hl Hle) as (Hcf & Hn & Hm).
    pose proof (Hm key b Eb) as Hb.
    rewrite (refill_full l b now' T) by (done || lia). done.
Qed.

(** C26: Eviction is invisible: when a bucket refills completely within the time to
    live, dropping the idle ones changes no client's tokens, then or later, so
    no client gains or loses a request to the sweeper. *)
Theorem sweep_transparent l now T :
  limiter_ok l now -> ttl_covers l T ->
  forall key now', now <= now' <= int64_max ->
    bucket_tokens (sweep l now) now' key = bucket_tokens l now' key.
Proof. intros Hl HT key now' Hle. by apply (sweep_tokens l now now T). Qed.

(** The bucket of a client does not depend on its port: every connection from
    one address shares one bucket, for IPv4 and for bracketed IPv6. *)
Theorem clientIP_ignores_port r host port :
  no_separator port ->
  (no_separator host /\ RemoteAddr r = (host +:+ (":" +:+ port))) \/
  ((lbracket ∉ bytes_of host) /\ (rbracket ∉ bytes_of host) /\
   RemoteAddr r = ("[" +:+ (host +:+ ("]:" +:+ port)))) ->
  clientIP r = host.
Proof.
  intros Hp [[Hh E]|(Hl & Hr & E)]; unfold clientIP; rewrite E.
  - by rewrite SplitHostPort_host.
  - by rewrite SplitHostPort_bracketed.
Qed.

(** A client without a whole token is answered 429, and the request goes no
    further: the wrapped handler does not run, whatever it is, and the only
    trace in the world is the clock reading and the client's own bucket. *)
Theorem Middleware_rejects {W} `{Runtime W} (next : Handler (Limiter * W)) r l (w w' : W) now :
  time_Now w = (now, w') -> limiter_ok l now -> 0 <= now ->
  bucket_tokens l now (clientIP r) < pw 0 ->
  exists l', Limiter_Middleware next r (l, w) =
      (Respond 429 (Error_response "rate limit exceeded"), (l', w')) /\
    forall key, key <> clientIP r -> buckets l' !! key = buckets l !! key.
Proof.
  intros Ht Hl H0 Hb. destruct (allow_accounting l now (clientIP r) Hl H0) as (Hok & _).
  pose proof (allow_other l now (clientIP r)) as Hoth.
  unfold Limiter_Middleware. m_unfold. rewrite Ht. simpl.
  destruct (allow l now (clientIP r)) as [ok l']. simpl in *.
  destruct (Z.leb_spec (pw 0) (bucket_tokens l now (clientIP r))); [lia|]. subst ok.
  exists l'. split; [done|]. auto.
Qed.

(** ** Witnesses *)

(** The limiters of the router. *)
Definition writeLimiter : Limiter := New writeEndpointRate writeEndpointBurst limiterEntryTTL.
Definition authLimiter : Limiter := New authEndpointRate authEndpointBurst limiterEntryTTL.

Lemma writeLimiter_config : config_ok writeLimiter.
Proof. split; [|split]; [by do 2 eexists..|]. vm_compute. split; [discriminate|reflexivity]. Qed.

Lemma authLimiter_config : config_ok authLimiter.
Proof. split; [|split]; [by do 2 eexists..|]. vm_compute. split; [discriminate|reflexivity]. Qed.

Lemma writeLimiter_ttl : ttl_covers writeLimiter 600.
Proof. vm_compute. split_and!; first [discriminate|reflexivity]. Qed.

Lemma authLimiter_ttl : ttl_covers authLimiter 600.
Proof. vm_compute. split_and!; first [discriminate|reflexivity]. Qed.

(** The limiters of the integration build are good configurations too. *)
Lemma integration_limiters :
  let write := New writeEndpointRate_integration writeEndpointBurst_integration limiterEntryTTL in
  let auth := New authEndpointRate_integration authEndpointBurst_integration limiterEntryTTL in
  (config_ok write /\ config_ok auth) /\ (ttl_covers write 600 /\ ttl_covers auth 600).
Proof.
  split; split.
  1, 2: split; [|split]; [by do 2 eexists..|]; vm_compute; split; [discriminate|reflexivity].
  all: vm_compute; split_and!; first [discriminate|reflexivity].
Qed.

(** The auth limiter after a request of one client, then one of another. *)
Definition used : Limiter :=
  (allow (allow authLimiter 1000 "10.0.0.1").2 100000000 "10.0.0.2").2.

Lemma used_reached : rtc limiter_step (authLimiter, 0) (used, 100000000).
Proof.
  eapply rtc_l; [by apply (step_allow _ _ 1000 "10.0.0.1")|].
  eapply rtc_l; [by apply (step_allow _ _ 100000000 "10.0.0.2")|]. apply rtc_refl.
Qed.

Lemma used_ok : limiter_ok used 100000000.
Proof.
  apply (limiter_steps_ok _ _ used_reached); [|done].
  apply New_ok; [apply authLimiter_config|done].
Qed.

Lemma limiter_reachable_ok_witness :
  limiter_ok used 100000000 /\ rate used = authEndpointRate /\
  burst used = authEndpointBurst /\ ttl used = limiterEntryTTL.
Proof.
  apply (limiter_reachable_ok authEndpointRate authEndpointBurst limiterEntryTTL
    used 0 100000000).
  - exact authLimiter_config.
  - unfold int64_max. lia.
  - exact used_reached.
Defined.

(** A tenth of a second later the first client still has tokens. *)
Lemma allow_exact_witness :
  (allow used 100000000 "10.0.0.1").1 = (pw 0 <=? bucket_tokens used 100000000 "10.0.0.1").
Proof. apply (allow_exact used 100000000 "10.0.0.1"); [apply used_ok|done]. Defined.

(** Seven calls at once from a client with a full auth bucket: five pass. *)
Lemma instantaneous_burst_witness :
  granted "10.0.0.9" (replicate 7 (100000000, "10.0.0.9"))
    (allow_run used (replicate 7 (100000000, "10.0.0.9"))).1 = 5.
Proof.
  rewrite (instantaneous_burst used 100000000 "10.0.0.9"); [|apply used_ok|done|].
  - vm_compute. reflexivity.
  - repeat constructor.
Defined.

(** A tick ten minutes later evicts both clients. *)
Lemma sweep_transparent_witness :
  bucket_tokens (sweep used 600200000000) 600200000000 "10.0.0.1" =
  bucket_tokens used 600200000000 "10.0.0.1" /\ buckets (sweep used 600200000000) !! "10.0.0.1" = None.
Proof.
  split; [|vm_compute; reflexivity].
  apply (sweep_transparent used 600200000000 600).
  - apply (limiter_ok_later _ 100000000); [apply used_ok|done].
  - apply authLimiter_ttl.
  - done.
Defined.

Lemma clientIP_ignores_port_witness :
  clientIP {| Method := "GET"; URL_Path := "/"; RemoteAddr := "[::1]:5050"; Header := ∅;
              Body := {| rd_bytes := ""; rd_err := None |}; URLParams := ∅;
              Context_of := Background |} = "::1".
Proof.
  apply (clientIP_ignores_port _ "::1" "5050").
  - split_and!; apply (bool_decide_unpack _); vm_compute; exact I.
  - right. split_and!; [| |reflexivity]; apply (bool_decide_unpack _); vm_compute; exact I.
Defined.

(** A client that has used its burst of five at one instant. *)
Definition spent : Limiter := (allow_run used (replicate 5 (100000000, "10.0.0.9"))).2.

Lemma spent_state_ok : limiter_ok spent 100000000.
Proof. apply allow_run_ok; [apply used_ok|done|repeat constructor]. Qed.

Definition login_request : request :=
  {| Method := "POST"; URL_Path := "/auth/login"; RemoteAddr := "10.0.0.9:1234"; Header := ∅;
     Body := {| rd_bytes := ""; rd_err := None |}; URLParams := ∅; Context_of := Background |}.

Lemma Middleware_rejects_witness :
  exists l', Limiter_Middleware (W := Z) (fun _ => mret (RespEmpty 204)) login_request
      (spent, 100000000) =
    (Respond 429 (Error_response "rate limit exceeded"), (l', 100000000)) /\
  forall key, key <> clientIP login_request -> buckets l' !! key = buckets spent !! key.
Proof.
  apply (Middleware_rejects (H := FixedRuntime) _ login_request spent 100000000 100000000
    100000000).
  - reflexivity.
  - apply spent_state_ok.
  - done.
  - vm_compute. reflexivity.
Defined.
