(* ===== verification/RateSpan.v ===== *)
(** * The rate limiter over a span of time

    What the limiter is for: between two instants a client gets through at most
    its burst and what the rate refills in between, whatever the other clients
    do and whenever the sweeper runs.  The tokens are floats that are rounded at
    every refill, so the bound accounts for the rounding ([GoFloatError]): less
    than one request in as many calls as anybody can make. *)

From S2P Require Import Prelude GoErrors GoStrings GoFloat GoFloatError Runtime RateLimit.

(** ** Runs *)

(** A request of a client at a clock reading, or a pass of the sweeper at [now]
    that has computed its cutoff from a reading [c]: [sweep] reads the clock
    before it takes the lock. *)
Inductive event :=
| Request (now : Z) (key : string)
| Tick (c now : Z).

Definition event_time (e : event) : Z :=
  match e with Request now _ => now | Tick _ now => now end.

(** One event: the answer to a request, and the limiter after it. *)
Definition apply (l : Limiter) (e : event) : option (string * bool) * Limiter :=
  match e with
  | Request now key => let '(ok, l') := allow l now key in (Some (key, ok), l')
  | Tick c _ => (None, sweep l c)
  end.

(** The answers in order, each with its client, and the limiter at the end. *)
Fixpoint run (l : Limiter) (es : list event) : list (string * bool) * Limiter :=
  match es with
  | [] => ([], l)
  | e :: es' =>
      let '(r, l1) := apply l e in
      let '(rs, l2) := run l1 es' in (option_list r ++ rs, l2)
  end.

(** A reading is not ahead of the clock. *)
Definition event_ok (e : event) : Prop :=
  match e with Request _ _ => True | Tick c now => c <= now end.

(** The clock does not go back, and the events lie between [t0] and [t1]. *)
Fixpoint timed (t0 t1 : Z) (es : list event) : Prop :=
  match es with
  | [] => t0 <= t1
  | e :: es' => t0 <= event_time e /\ event_ok e /\ timed (event_time e) t1 es'
  end.

Definition requests (key : string) (rs : list (string * bool)) : Z :=
  Z.of_nat (length (filter (fun a => a.1 = key) rs)).
Definition passed (key : string) (rs : list (string * bool)) : Z :=
  Z.of_nat (length (filter (fun a => a = (key, true)) rs)).

Lemma requests_cons key k ok rs :
  requests key ((k, ok) :: rs) = (if bool_decide (k = key) then 1 else 0) + requests key rs.
Proof.
  unfold requests. rewrite filter_cons. simpl. case_decide; case_bool_decide; simpl; done || lia.
Qed.

Lemma passed_cons key k ok rs :
  passed key ((k, ok) :: rs) =
    (if ok && bool_decide (k = key) then 1 else 0) + passed key rs.
Proof.
  unfold passed. rewrite filter_cons. destruct ok; simpl;
    case_decide; repeat case_bool_decide; simplify_eq; simpl; done || lia.
Qed.

Lemma requests_nonneg key rs : 0 <= requests key rs.
Proof. unfold requests. lia. Qed.

(** ** Rounding in a refill *)

Lemma tiny_small : 2 ^ 100 * tiny <= pw 0.
Proof. apply Z.leb_le. vm_compute. reflexivity. Qed.

Lemma pw0_big n : 0 <= n <= 970 -> 2 ^ n * pw 0 <= pw 970.
Proof. intros. rewrite Z.mul_comm, <- pw_add by lia. apply pw_le. lia. Qed.

Lemma F_of_Z_finite z : 0 <= z < 2 ^ 53 -> F_of_Z z <> S754_infinity false.
Proof.
  intros Hz. destruct (decide (z = 0)) as [->|]; [done|].
  by destruct (F_of_Z_exact z ltac:(lia)) as (mb & eb & -> & _).
Qed.

(** The fraction of [Seconds]. *)
Lemma Seconds_frac_near n : 0 <= n < Second ->
  exists v, v * Second <= n * pw 0 /\ near v (F_div (F_of_Z n) (F_of_Z Second)).
Proof.
  intros Hn. destruct (decide (n = 0)) as [->|Hne].
  { exists 0. split; [done|]. by apply near_eq. }
  destruct (F_of_Z_exact n) as (mb & eb & -> & Hb & Hv); [unfold Second in Hn; lia|].
  assert (Hs : F_of_Z Second = S754_finite false 8388608000000000 (-23)) by reflexivity.
  assert (HS : 8388608000000000 * pw (-23) = Second * pw 0) by reflexivity.
  rewrite Hs. pose proof (pw_pos 0 ltac:(lia)). pose proof (bounded_facts _ _ Hb) as (? & _).
  destruct (F_div_near mb eb 8388608000000000 (-23)) as (v & Hle & Hnear); [done|done|..].
  - change (Zpos (digits2_pos 8388608000000000) + -23) with 30.
    pose proof (same_value_digits (Zpos mb) eb n 0) as Hdig.
    change (Zpos (digits2_pos mb)) with (Zdigits2 (Zpos mb)).
    pose proof (Zdigits2_pos n). lia.
  - rewrite Hv, HS. pose proof (pw0_big 30 ltac:(lia)). unfold Second in *. nia.
  - exists v. split; [|done]. rewrite Hv, HS in Hle. nia.
Qed.

Lemma Seconds_near d : 0 <= d <= int64_max ->
  Seconds d <> S754_infinity false /\
  2 ^ 50 * Second * fval (Seconds d) <= (2 ^ 50 + 1) * (d * pw 0).
Proof.
  intros Hd. destruct (decide (d = 0)) as [->|Hne]; [done|].
  assert (Hq : d = Second * Z.quot d Second + Z.rem d Second) by (apply Z.quot_rem; done).
  assert (Hr : 0 <= Z.rem d Second < Second) by (apply Z.rem_bound_pos; unfold Second; lia).
  pose proof (Seconds_frac_nonneg d ltac:(lia)) as Hfn.
  pose proof (Seconds_whole_nonneg d ltac:(lia)) as Hwn. unfold Seconds.
  destruct (Seconds_frac_near _ Hr) as (v & Hv & Hfi & Hf).
  set (sec := Z.quot d Second) in *. set (n := Z.rem d Second) in *.
  assert (Hsec : 0 <= sec < 2 ^ 34) by (unfold Second, int64_max in *; lia).
  pose proof (fval_F_of_Z sec ltac:(lia)) as Hw.
  set (F := F_div (F_of_Z n) (F_of_Z Second)) in *.
  pose proof (pw_pos 0 ltac:(lia)). pose proof tiny_small. pose proof tiny_pos.
  pose proof (pw0_big 40 ltac:(lia)). pose proof (fval_nonneg F Hfn).
  assert (HF : fval F <= 2 * pw 0) by (unfold Second in *; nia).
  assert (Hle : fval (F_of_Z sec) + fval F <= pw 970) by (rewrite Hw; nia).
  destruct (F_add_near _ _ Hwn Hfn (F_of_Z_finite sec ltac:(lia)) Hfi Hle) as [Hi Hs].
  split; [done|]. rewrite Hw in Hs.
  assert (Hdp : d * pw 0 = Second * (sec * pw 0) + n * pw 0) by (rewrite Hq; ring).
  assert (pw 0 <= d * pw 0) by nia. rewrite Hdp in *.
  assert (0 <= sec * pw 0) by nia. assert (0 <= n * pw 0) by nia.
  unfold Second in *. lia.
Qed.

(** One refill adds what the rate gives, and at most one part in 2^48 of the
    burst by rounding. *)
Lemma refill_upper l b now : config_ok l -> now <= int64_max -> bucket_ok l now b ->
  2 ^ 48 * Second * fval (refill l b now) <=
    2 ^ 48 * Second * fval (tokens b) + 2 ^ 48 * (fval (rate l) * (now - lastSeen b)) +
    Second * fval (burst l).
Proof.
  intros Hc Hnow Hb. pose proof Hb as (Ht & Hti & Htb & Hs).
  destruct (refill_ok l b now Hc Hnow Hb) as (Hrn & Hri & Hrb).
  pose proof (refill_sum_nonneg l b now Hc Hnow Hb) as Hsum.
  pose proof (fval_nonneg _ Ht) as Ht0.
  pose proof (config_burst_nonneg l Hc) as Hbn. pose proof (config_burst_finite l Hc) as Hbi.
  pose proof Hc as ((mr & er & Hr & Hbr) & _ & HB).
  set (d := now - lastSeen b) in *. assert (Hd : 0 <= d <= int64_max) by lia.
  set (X := fval (rate l) * d).
  pose proof (pw_pos 0 ltac:(lia)) as HP. pose proof tiny_small. pose proof tiny_pos.
  destruct (Z.le_gt_cases (Second * fval (burst l)) X) as [Hcap|Hcap];
    [unfold Second in *; lia|].
  destruct (Seconds_near d Hd) as [HEi HE].
  pose proof (Seconds_nonneg d ltac:(lia)) as HEn. pose proof (fval_nonneg _ HEn) as HE0.
  assert (HR : fval (rate l) = Zpos mr * pw er) by (by rewrite Hr).
  pose proof (finite_pos _ _ Hbr) as HR0. rewrite <- HR in HR0.
  assert (HER : 2 ^ 50 * Second * (fval (Seconds d) * fval (rate l)) <= (2 ^ 50 + 1) * (X * pw 0)).
  { unfold X. nia. }
  pose proof (pw0_big 60 ltac:(lia)).
  assert (Hsmall : fval (Seconds d) * fval (rate l) <= 2 ^ 54 * pw 0 * pw 0)
    by (unfold Second in *; nia).
  destruct (F_mul_near (Seconds d) mr er HEn HEi Hbr) as (v & Hv & HMi & HM);
    [rewrite <- HR; nia|]. rewrite <- HR, <- Hr in *.
  assert (HvX : 2 ^ 50 * Second * v <= (2 ^ 50 + 1) * X) by (rewrite <- Hv in HER; nia).
  assert (HMn : nonneg_float (F_mul (Seconds d) (rate l))) by (rewrite Hr; by apply F_mul_nonneg).
  set (M := F_mul (Seconds d) (rate l)) in *.
  destruct (F_add_near (tokens b) M Ht HMn Hti HMi) as [HTi HT]; [unfold Second in *; lia|].
  assert (Hle : fval (refill l b now) <= fval (F_add (tokens b) M)).
  { unfold refill. rewrite time_Sub_range by lia. fold d M.
    rewrite time_Sub_range in Hsum by lia. fold d M in Hsum.
    by destruct (F_min_fval (burst l) _ Hbn Hsum Hbi) as (_ & _ & ?); auto. }
  unfold Second in *. lia.
Qed.

(** ** The budget of a client *)

Section Budget.
Context (key : string) (t1 T : Z).
Implicit Types (l : Limiter) (t now : Z).

(** [phi] covers what the client can still spend up to [t1], in units of
    [2^-48 / Second] of a scaled token: whenever it comes back, its tokens then
    and the refill from then on. *)
Definition covers l t (phi : Z) : Prop :=
  forall now, t <= now <= t1 ->
    2 ^ 48 * Second * bucket_tokens l now key + 2 ^ 48 * (fval (rate l) * (t1 - now)) <= phi.

Lemma covers_later l t t' phi : t <= t' -> covers l t phi -> covers l t' phi.
Proof. intros Ht Hc now Hnow. apply Hc. lia. Qed.

(** A bucket is never above the burst. *)
Lemma bucket_tokens_le l now : limiter_ok l now -> 0 <= now ->
  0 <= bucket_tokens l now key <= fval (burst l).
Proof.
  intros Hl H0. rewrite bucket_tokens_current by done.
  destruct (refill_ok l (current l now key) now) as (Hn & _ & ?);
    [apply Hl|apply Hl|by apply current_ok|].
  split; [by apply fval_nonneg|done].
Qed.

Lemma rate_nonneg l : config_ok l -> 0 <= fval (rate l).
Proof.
  intros ((m & e & -> & Hb) & _). pose proof (finite_pos _ _ Hb).
  cbn [fval cond_Zopp]. lia.
Qed.

Lemma covers_start l t : limiter_ok l t -> 0 <= t -> t1 <= int64_max ->
  covers l t (2 ^ 48 * (Second * fval (burst l) + fval (rate l) * (t1 - t))).
Proof.
  intros Hl H0 H1 now Hnow.
  assert (Hl' : limiter_ok l now) by (eapply limiter_ok_later; [done|lia]).
  pose proof (bucket_tokens_le l now Hl' ltac:(lia)).
  pose proof (rate_nonneg l (proj1 Hl)). unfold Second in *. nia.
Qed.

(** A request of the client takes its token off the budget. *)
Lemma covers_own l now phi : limiter_ok l now -> 0 <= now <= t1 -> t1 <= int64_max ->
  covers l now phi ->
  covers (allow l now key).2 now
    (phi - 2 ^ 48 * Second * (if (allow l now key).1 then pw 0 else 0) +
     Second * fval (burst l)).
Proof.
  intros Hl H0 H1 Hc now' Hnow'. specialize (Hc now ltac:(lia)).
  destruct (allow_accounting l now key Hl ltac:(lia)) as (_ & Hl1 & Hacc).
  assert (Hset : rate (allow l now key).2 = rate l /\ burst (allow l now key).2 = burst l)
    by (by rewrite allow_current).
  destruct Hset as [Hrate Hburst].
  assert (Hb : exists b, buckets (allow l now key).2 !! key = Some b /\ lastSeen b = now /\
    fval (tokens b) = bucket_tokens (allow l now key).2 now key).
  { destruct (limiter_ok_later _ _ now Hl1 ltac:(lia)) as (Hcf & _ & Hm).
    rewrite allow_current in *. cbv zeta in *. unfold bucket_tokens. simpl in *.
    rewrite lookup_insert_eq. eexists. split; [done|]. split; [done|].
    destruct (Hm key _ (lookup_insert_eq _ _ _)) as (? & ? & ? & ?). simpl in *.
    symmetry. apply refill_now; (done || lia). }
  destruct Hb as (b & Hb & Hls & Htok).
  destruct (limiter_ok_later _ _ now' Hl1 ltac:(lia)) as (Hcf & Hn' & Hm).
  pose proof (refill_upper _ b now' Hcf Hn' (Hm key b Hb)) as Hup.
  assert (Hbt : bucket_tokens (allow l now key).2 now' key = fval (refill (allow l now key).2 b now'))
    by (unfold bucket_tokens; by rewrite Hb).
  rewrite Hbt, Hrate. rewrite Htok, Hacc, Hls, Hrate, Hburst in Hup. unfold Second in *. lia.
Qed.

Lemma covers_other l now k phi : key <> k -> covers l now phi ->
  covers (allow l now k).2 now phi.
Proof.
  intros Hk Hc now' Hnow'. rewrite bucket_tokens_other by done.
  assert (rate (allow l now k).2 = rate l) as -> by (by rewrite allow_current). by apply Hc.
Qed.

Lemma covers_sweep l c now phi : limiter_ok l now -> ttl_covers l T -> t1 <= int64_max ->
  c <= now -> covers l now phi -> covers (sweep l c) now phi.
Proof.
  intros Hl HT H1 Hle Hc now' Hnow'. rewrite (sweep_tokens l c now T) by (done || lia).
  by apply Hc.
Qed.

Lemma timed_le es : forall t, timed t t1 es -> t <= t1.
Proof. induction es as [|e es IH]; simpl; [done|]. intros t (? & ? & ?%IH). lia. Qed.

(** What gets through is paid from the budget. *)
Lemma run_budget es : forall l t phi,
  limiter_ok l t -> 0 <= t -> t1 <= int64_max -> ttl_covers l T -> timed t t1 es ->
  covers l t phi ->
  2 ^ 48 * Second * pw 0 * passed key (run l es).1 <=
    phi + requests key (run l es).1 * (Second * fval (burst l)).
Proof.
  induction es as [|[now k|c now] es IH]; intros l t phi Hl H0 H1 HT Hes Hc; simpl in Hes.
  - simpl. specialize (Hc t ltac:(lia)). pose proof (bucket_tokens_le l t Hl H0).
    pose proof (rate_nonneg l (proj1 Hl)). change (passed key []) with 0.
    change (requests key []) with 0. unfold Second in *. nia.
  - destruct Hes as (Ht & _ & Hes). pose proof (timed_le _ _ Hes) as Hle.
    apply (limiter_ok_later l t now) in Hl; [|lia]. apply (covers_later l t now) in Hc; [|lia].
    destruct (allow_accounting l now k Hl ltac:(lia)) as (_ & Hl1 & _).
    assert (Hcall := IH (allow l now k).2 now). simpl.
    assert (Hset : burst (allow l now k).2 = burst l) by (by rewrite allow_current).
    assert (HT' : ttl_covers (allow l now k).2 T) by (by rewrite allow_current).
    pose proof (fval_nonneg _ (config_burst_nonneg l (proj1 Hl))) as HB.
    destruct (decide (key = k)) as [<-|Hne].
    + pose proof (covers_own l now phi Hl ltac:(lia) H1 Hc) as Hc'.
      destruct (allow l now key) as [ok l1]. simpl in *.
      specialize (Hcall _ Hl1 ltac:(lia) H1 HT' Hes Hc'). rewrite Hset in Hcall.
      destruct (run l1 es) as [rs l2]. simpl in *.
      rewrite passed_cons, requests_cons, bool_decide_eq_true_2, andb_true_r by done.
      destruct ok; lia.
    + pose proof (covers_other l now k phi Hne Hc) as Hc'.
      destruct (allow l now k) as [ok l1]. simpl in *.
      specialize (Hcall _ Hl1 ltac:(lia) H1 HT' Hes Hc'). rewrite Hset in Hcall.
      destruct (run l1 es) as [rs l2]. simpl in *.
      rewrite passed_cons, requests_cons, bool_decide_eq_false_2, andb_false_r by done. lia.
  - destruct Hes as (Ht & Hcn & Hes). pose proof (timed_le _ _ Hes) as Hle. simpl in *.
    apply (limiter_ok_later l t now) in Hl; [|lia]. apply (covers_later l t now) in Hc; [|lia].
    pose proof (IH (sweep l c) now phi (sweep_ok l c now Hl) ltac:(lia) H1 HT Hes
      (covers_sweep l c now phi Hl HT H1 Hcn Hc)) as Hrun.
    destruct (run (sweep l c) es) as [rs l2]. exact Hrun.
Qed.
End Budget.

(** ** The bound *)

Lemma rate_bound l t0 t1 T key es r b :
  limiter_ok l t0 -> 0 <= t0 -> t1 <= int64_max -> ttl_covers l T ->
  0 < r < 2 ^ 53 -> rate l = F_of_Z r -> 0 < b < 2 ^ 53 -> burst l = F_of_Z b ->
  timed t0 t1 es -> requests key (run l es).1 * b <= 2 ^ 48 ->
  passed key (run l es).1 <= b + r * (t1 - t0) / Second + 1.
Proof.
  intros Hl H0 H1 HT Hr Er Hb Eb Hes Hn.
  pose proof (run_budget key t1 T es l t0 _ Hl H0 H1 HT Hes
    (covers_start key t1 l t0 Hl H0 H1)) as Hrun.
  rewrite Er, Eb, !fval_F_of_Z in Hrun by lia.
  set (n := requests key _) in *. set (g := passed key _) in *.
  pose proof (pw_pos 0 ltac:(lia)). pose proof (timed_le t1 es t0 Hes).
  assert (HS : 0 < Second) by done.
  assert (Hg : 2 ^ 48 * (Second * g) <= 2 ^ 48 * (Second * b + r * (t1 - t0)) + Second * (n * b)).
  { apply (Z.mul_le_mono_pos_l _ _ (pw 0)); [done|]. etransitivity; [|etransitivity; [exact Hrun|]].
    - apply Z.eq_le_incl. ring.
    - apply Z.eq_le_incl. ring. }
  assert (Hnb : Second * (n * b) <= Second * 2 ^ 48) by (apply Z.mul_le_mono_nonneg_l; lia).
  assert (Second * g <= Second * b + r * (t1 - t0) + Second) by lia.
  replace (b + r * (t1 - t0) / Second + 1) with ((r * (t1 - t0) + (b + 1) * Second) / Second).
  - apply Z.div_le_lower_bound; lia.
  - rewrite Z.div_add by done. lia.
Qed.

(** From [t0] to [t1], whatever the clients do and whenever the sweeper runs, a
    client gets through at most the burst, and what the rate refills in that
    time, and one more request that the rounding of the tokens may give away. *)
Theorem rate_over_time l t0 t1 T key es r b :
  limiter_ok l t0 -> 0 <= t0 -> t1 <= int64_max -> ttl_covers l T ->
  0 < r < 2 ^ 53 -> rate l = F_of_Z r -> 0 < b < 2 ^ 53 -> burst l = F_of_Z b ->
  timed t0 t1 es -> requests key (run l es).1 * b <= 2 ^ 48 ->
  passed key (run l es).1 <= b + r * (t1 - t0) / Second + 1.
Proof. apply rate_bound. Qed.

(** *** Witness *)

(** Nine logins of one client within two seconds, a tick and another client in
    between: five at once, and one for each second. *)
Definition nine_logins : list event :=
  replicate 6 (Request 1000 "10.0.0.9") ++ [Tick 4000 5000; Request 6000 "10.0.0.7"] ++
  [Request 1000001000 "10.0.0.9"; Request 1000001000 "10.0.0.9"; Request 2000001000 "10.0.0.9"].

Lemma rate_over_time_witness :
  passed "10.0.0.9" (run authLimiter nine_logins).1 = 7 /\
  passed "10.0.0.9" (run authLimiter nine_logins).1 <= 5 + 1 * (2000001000 - 0) / Second + 1.
Proof.
  split; [vm_compute; reflexivity|].
  apply (rate_over_time authLimiter 0 2000001000 600 "10.0.0.9" nine_logins 1 5).
  - apply New_ok; [apply authLimiter_config|done].
  - done.
  - done.
  - apply authLimiter_ttl.
  - lia.
  - reflexivity.
  - lia.
  - reflexivity.
  - simpl. split_and!; (exact I || lia).
  - vm_compute. discriminate.
Defined.
