(* ===== verification/Mutex.v ===== *)
(** * The limiter shared by the request goroutines

    internal/transport/http/middleware/ratelimit once more, access by access:
    [allow] and [sweep] as programs that lock and unlock the mutex, look up and
    change the map of pointers, and read and write the fields of the buckets.
    Any number of requests and passes of the sweeper interleave.  The mutex is
    shown to make each of them the atomic function of [RateLimit]: no access
    races, nothing deadlocks, and the answers are those of one sequence of
    [allow] and [sweep], in the order of real time. *)

From stdpp Require Import relations.
From S2P Require Import Prelude GoErrors GoStrings GoFloat GoFloatError Runtime RateLimit RateSpan.
#[local] Open Scope Z_scope.

(** ** Programs *)

(** The address of a [bucket] *)
Definition loc : Type := nat.

Inductive prog (A : Type) : Type :=
| Ret (a : A)
| Now (k : Z -> prog A)
(** [mu.Lock()] and [mu.Unlock()] *)
| Lock (k : prog A)
| Unlock (k : prog A)
(** [buckets[key]], [buckets[key] = p], [delete(buckets, key)] *)
| Lookup (key : string) (k : option loc -> prog A)
| Insert (key : string) (p : loc) (k : prog A)
| Remove (key : string) (k : prog A)
(** the order in which [range] visits the keys *)
| Range (k : list string -> prog A)
(** [&bucket{...}] *)
| Alloc (b : bucket) (k : loc -> prog A)
(** the fields behind a pointer *)
| LoadTokens (p : loc) (k : float64 -> prog A)
| StoreTokens (p : loc) (t : float64) (k : prog A)
| LoadSeen (p : loc) (k : Z -> prog A)
| StoreSeen (p : loc) (t : Z) (k : prog A).
Arguments Ret {A}.
Arguments Now {A}.
Arguments Lock {A}.
Arguments Unlock {A}.
Arguments Lookup {A}.
Arguments Insert {A}.
Arguments Remove {A}.
Arguments Range {A}.
Arguments Alloc {A}.
Arguments LoadTokens {A}.
Arguments StoreTokens {A}.
Arguments LoadSeen {A}.
Arguments StoreSeen {A}.

Fixpoint prog_bind {A B : Type} (f : A -> prog B) (p : prog A) : prog B :=
  match p with
  | Ret a => f a
  | Now k => Now (fun t => prog_bind f (k t))
  | Lock k => Lock (prog_bind f k)
  | Unlock k => Unlock (prog_bind f k)
  | Lookup key k => Lookup key (fun o => prog_bind f (k o))
  | Insert key p k => Insert key p (prog_bind f k)
  | Remove key k => Remove key (prog_bind f k)
  | Range k => Range (fun ks => prog_bind f (k ks))
  | Alloc b k => Alloc b (fun p => prog_bind f (k p))
  | LoadTokens p k => LoadTokens p (fun t => prog_bind f (k t))
  | StoreTokens p t k => StoreTokens p t (prog_bind f k)
  | LoadSeen p k => LoadSeen p (fun t => prog_bind f (k t))
  | StoreSeen p t k => StoreSeen p t (prog_bind f k)
  end.

#[export] Instance prog_ret : MRet prog := @Ret.
#[export] Instance prog_mbind : MBind prog := @prog_bind.

(** ** The operations *)

Section Operations.
(** [rate], [burst] and [ttl], which nothing writes after [New] *)
Context (rate burst : float64) (ttl : Z).

(** [allow] after the lookup: refill, and take a token. *)
Definition take (p : loc) (now : Z) : prog bool :=
  lastSeen ← LoadSeen p Ret;
  let elapsed := Seconds (time_Sub now lastSeen) in
  tokens ← LoadTokens p Ret;
  _ ← StoreTokens p (F_min burst (F_add tokens (F_mul elapsed rate))) (Ret tt);
  _ ← StoreSeen p now (Ret tt);
  tokens ← LoadTokens p Ret;
  if F_lt tokens F_one then mret false
  else
    tokens ← LoadTokens p Ret;
    _ ← StoreTokens p (F_sub tokens F_one) (Ret tt);
    mret true.

(** [allow] between [Lock] and the deferred [Unlock]. *)
Definition allow_locked (key : string) : prog bool :=
  now ← Now Ret;
  found ← Lookup key Ret;
  match found with
  | Some p => take p now
  | None =>
      p ← Alloc {| tokens := burst; lastSeen := now |} Ret;
      _ ← Insert key p (Ret tt);
      take p now
  end.

(** [Limiter.allow] *)
Definition allow (key : string) : prog bool :=
  _ ← Lock (Ret tt);
  ok ← allow_locked key;
  _ ← Unlock (Ret tt);
  mret ok.

(** The loop of [sweep] over the keys that [range] has still to visit; a key
    that is gone by then is not visited. *)
Fixpoint evict (cutoff : Z) (keys : list string) : prog unit :=
  match keys with
  | [] => mret tt
  | key :: keys =>
      found ← Lookup key Ret;
      match found with
      | None => evict cutoff keys
      | Some p =>
          lastSeen ← LoadSeen p Ret;
          if lastSeen <? cutoff then _ ← Remove key (Ret tt); evict cutoff keys
          else evict cutoff keys
      end
  end.

(** One pass of [Limiter.sweep]: the body of its loop. *)
Definition sweep : prog unit :=
  now ← Now Ret;
  let cutoff := now - ttl in
  _ ← Lock (Ret tt);
  keys ← Range Ret;
  _ ← evict cutoff keys;
  Unlock (mret tt).

(** A goroutine that uses the limiter: a request of a client, or a pass of the
    sweeper. *)
Inductive call := CAllow (key : string) | CSweep.

Definition program (cl : call) : prog (option bool) :=
  match cl with
  | CAllow key => ok ← allow key; mret (Some ok)
  | CSweep => _ ← sweep; mret None
  end.
End Operations.

#[global] Instance call_eq_dec : EqDecision call.
Proof. solve_decision. Defined.

(** ** Threads *)

(** The map of pointers, and the buckets behind them. *)
Record memory := { table : gmap string loc; heap : gmap loc bucket }.

Definition set_table (t : gmap string loc) (m : memory) : memory :=
  {| table := t; heap := heap m |}.
Definition set_heap (h : gmap loc bucket) (m : memory) : memory :=
  {| table := table m; heap := h |}.

(** [holder] is the goroutine that has locked [mu]. *)
Record shared := { clock : Z; holder : option nat; mem : memory }.

Definition set_holder (o : option nat) (s : shared) : shared :=
  {| clock := clock s; holder := o; mem := mem s |}.
Definition set_mem (m : memory) (s : shared) : shared :=
  {| clock := clock s; holder := holder s; mem := m |}.

Definition with_tokens (t : float64) (b : bucket) : bucket :=
  {| tokens := t; lastSeen := lastSeen b |}.
Definition with_seen (t : Z) (b : bucket) : bucket :=
  {| tokens := tokens b; lastSeen := t |}.

(** An access of the map or of a bucket. *)
Inductive mem_access {A : Type} : memory -> prog A -> memory -> prog A -> Prop :=
| access_Lookup m key k : mem_access m (Lookup key k) m (k (table m !! key))
| access_Insert m key p k : mem_access m (Insert key p k) (set_table (<[key := p]> (table m)) m) k
| access_Remove m key k : mem_access m (Remove key k) (set_table (delete key (table m)) m) k
| access_Range m k keys : Permutation keys (elements (dom (table m))) ->
    mem_access m (Range k) m (k keys)
| access_Alloc m b k p : heap m !! p = None ->
    mem_access m (Alloc b k) (set_heap (<[p := b]> (heap m)) m) (k p)
| access_LoadTokens m p k b : heap m !! p = Some b ->
    mem_access m (LoadTokens p k) m (k (tokens b))
| access_StoreTokens m p t k b : heap m !! p = Some b ->
    mem_access m (StoreTokens p t k) (set_heap (<[p := with_tokens t b]> (heap m)) m) k
| access_LoadSeen m p k b : heap m !! p = Some b ->
    mem_access m (LoadSeen p k) m (k (lastSeen b))
| access_StoreSeen m p t k b : heap m !! p = Some b ->
    mem_access m (StoreSeen p t k) (set_heap (<[p := with_seen t b]> (heap m)) m) k.

(** One access of goroutine [i].  [Lock] waits until nobody holds the mutex;
    [Unlock] of a mutex that is not locked is a fatal error, and has no step. *)
Inductive access {A : Type} (i : nat) : shared -> prog A -> shared -> prog A -> Prop :=
| access_Now s k : access i s (Now k) s (k (clock s))
| access_Lock s k : holder s = None -> access i s (Lock k) (set_holder (Some i) s) k
| access_Unlock s k : is_Some (holder s) -> access i s (Unlock k) (set_holder None s) k
| access_mem s p m' p' : mem_access (mem s) p m' p' -> access i s p (set_mem m' s) p'.

(** A goroutine: its name, what it was called for, and what is left of it. *)
Definition thread : Type := nat * call * prog (option bool).
Definition state : Type := shared * list thread.

Inductive step : state -> state -> Prop :=
| step_thread s pool i id cl p s' p' :
    pool !! i = Some (id, cl, p) -> access i s p s' p' ->
    step (s, pool) (s', <[i := (id, cl, p')]> pool)
| step_time s pool t :
    clock s <= t -> step (s, pool) ({| clock := t; holder := holder s; mem := mem s |}, pool).

(** ** Sequential histories *)

Definition call_of (e : event) : call :=
  match e with Request _ key => CAllow key | Tick _ _ => CSweep end.

(** The calls in some order, each at once: who has finished with what, and the
    limiter at the end. *)
Fixpoint replay (l : Limiter) (log : list (nat * event)) :
    list (nat * call * option bool) * Limiter :=
  match log with
  | [] => ([], l)
  | (id, e) :: log =>
      let '(r, l1) := apply l e in
      let '(rs, l2) := replay l1 log in ((id, call_of e, snd <$> r) :: rs, l2)
  end.

Lemma replay_snoc l log id e :
  replay l (log ++ [(id, e)]) =
    let '(rs, l1) := replay l log in
    (rs ++ [(id, call_of e, snd <$> (apply l1 e).1)], (apply l1 e).2).
Proof.
  revert l. induction log as [|[id' e'] log IH]; intros l; simpl; [by destruct (apply l e)|].
  destruct (apply l e') as [r l1]. rewrite IH. by destruct (replay l1 log).
Qed.

(** The goroutines that have returned. *)
Definition outcome (th : thread) : option (nat * call * option bool) :=
  match th with (id, cl, Ret a) => Some (id, cl, a) | _ => None end.
Definition finished (pool : list thread) : list (nat * call * option bool) := omap outcome pool.

Lemma omap_cons_eq {A B : Type} (f : A -> option B) x l :
  omap f (x :: l) = match f x with Some y => y :: omap f l | None => omap f l end.
Proof. done. Qed.

Lemma omap_insert_None {A B : Type} (f : A -> option B) (l : list A) i x y :
  l !! i = Some x -> f x = None -> f y = None -> omap f (<[i := y]> l) = omap f l.
Proof.
  intros Hi Hx Hy. rewrite insert_take_drop by by apply lookup_lt_Some in Hi.
  rewrite <- (take_drop_middle _ _ _ Hi) at 3. rewrite !omap_app. simpl. by rewrite Hx, Hy.
Qed.

Lemma omap_insert_Some {A B : Type} (f : A -> option B) (l : list A) i x y b :
  l !! i = Some x -> f x = None -> f y = Some b ->
  Permutation (omap f (<[i := y]> l)) (omap f l ++ [b]).
Proof.
  intros Hi Hx Hy. rewrite insert_take_drop by by apply lookup_lt_Some in Hi.
  rewrite <- (take_drop_middle _ _ _ Hi) at 3. rewrite !omap_app. simpl. rewrite Hx, Hy.
  rewrite <- app_assoc. apply Permutation_app_head. by rewrite Permutation_cons_append.
Qed.

(** ** What the memory represents *)

Section Limiter.
Context (rate burst : float64) (ttl : Z).

(** The limiter of [RateLimit]: the buckets behind the pointers. *)
Definition limiter (m : memory) : Limiter :=
  {| buckets := omap (fun p => heap m !! p) (table m);
     RateLimit.rate := rate; RateLimit.burst := burst; RateLimit.ttl := ttl |}.

(** No pointer dangles, and no two clients share a bucket. *)
Definition mem_ok (m : memory) : Prop :=
  (forall key p, table m !! key = Some p -> is_Some (heap m !! p)) /\
  (forall key key' p, table m !! key = Some p -> table m !! key' = Some p -> key = key').

(** A write through the pointer of [key]. *)
Lemma limiter_write m key p b : mem_ok m -> table m !! key = Some p ->
  mem_ok (set_heap (<[p := b]> (heap m)) m) /\
  limiter (set_heap (<[p := b]> (heap m)) m) =
    set_buckets (limiter m) (<[key := b]> (buckets (limiter m))).
Proof.
  intros [Hd Hi] Hp. split; [split; simpl|].
  - intros k q Hq. destruct (decide (q = p)) as [->|Hne];
      [by rewrite lookup_insert_eq|rewrite lookup_insert_ne by done; by apply (Hd k)].
  - exact Hi.
  - unfold limiter, set_buckets. simpl. f_equal. apply map_eq. intros k.
    rewrite lookup_omap. destruct (decide (k = key)) as [->|Hk].
    + rewrite Hp. simpl. by rewrite !lookup_insert_eq.
    + rewrite lookup_insert_ne, lookup_omap by done. destruct (table m !! k) as [q|] eqn:Hq; [|done].
      simpl. rewrite lookup_insert_ne; [done|]. intros ->. by apply Hk, (Hi _ _ q).
Qed.

(** A new bucket for a new client. *)
Lemma limiter_new m key p b : mem_ok m -> table m !! key = None -> heap m !! p = None ->
  let m' := set_table (<[key := p]> (table m)) (set_heap (<[p := b]> (heap m)) m) in
  mem_ok m' /\ limiter m' = set_buckets (limiter m) (<[key := b]> (buckets (limiter m))).
Proof.
  intros [Hd Hi] Hk Hp m'.
  assert (Hfresh : forall k, table m !! k <> Some p).
  { intros k Hq. apply Hd in Hq as [? ?]. congruence. }
  split; [split; simpl|].
  - intros k q [[-> ->]|[Hne Hq]]%lookup_insert_Some; [by rewrite lookup_insert_eq|].
    rewrite lookup_insert_ne by (intros ->; by apply (Hfresh k)). by apply (Hd k).
  - intros k1 k2 q [[-> <-]|[? H1]]%lookup_insert_Some [[-> ?]|[? H2]]%lookup_insert_Some;
      try done; subst; try (by exfalso; eapply Hfresh). by apply (Hi _ _ q).
  - unfold m', limiter, set_buckets. simpl. f_equal. apply map_eq. intros k.
    rewrite lookup_omap. destruct (decide (k = key)) as [->|Hne].
    + rewrite !lookup_insert_eq. simpl. by rewrite lookup_insert_eq.
    + rewrite !lookup_insert_ne, lookup_omap by done. destruct (table m !! k) as [q|] eqn:Hq; [|done].
      simpl. rewrite lookup_insert_ne; [done|]. intros ->. by apply (Hfresh k).
Qed.

Lemma limiter_remove m key : mem_ok m ->
  mem_ok (set_table (delete key (table m)) m) /\
  limiter (set_table (delete key (table m)) m) =
    set_buckets (limiter m) (delete key (buckets (limiter m))).
Proof.
  intros [Hd Hi]. split; [split; simpl|].
  - intros k q [_ Hq]%lookup_delete_Some. by apply (Hd k).
  - intros k1 k2 q [_ H1]%lookup_delete_Some [_ H2]%lookup_delete_Some. by apply (Hi _ _ q).
  - unfold limiter, set_buckets. simpl. f_equal. by rewrite omap_delete.
Qed.

Lemma limiter_lookup m key p : mem_ok m -> table m !! key = Some p ->
  exists b, heap m !! p = Some b /\ buckets (limiter m) !! key = Some b.
Proof.
  intros [Hd _] Hp. destruct (Hd _ _ Hp) as [b Hb]. exists b. split; [done|].
  simpl. rewrite lookup_omap, Hp. exact Hb.
Qed.

Lemma limiter_absent m key : table m !! key = None -> buckets (limiter m) !! key = None.
Proof. intros Hp. simpl. by rewrite lookup_omap, Hp. Qed.

(** ** Inside the lock, and outside *)

(** Running alone from clock [t] and memory [m], with the mutex held, the
    program comes to its [Unlock] and returns, and [Q] holds then. *)
Fixpoint inside {A : Type} (t : Z) (m : memory) (p : prog A) (Q : Z -> memory -> A -> Prop) : Prop :=
  match p with
  | Ret _ | Lock _ => False
  | Unlock k => match k with Ret a => forall t', t <= t' -> Q t' m a | _ => False end
  | Now k => forall t', t <= t' -> inside t' m (k t') Q
  | Lookup key k => inside t m (k (table m !! key)) Q
  | Insert key p k => inside t (set_table (<[key := p]> (table m)) m) k Q
  | Remove key k => inside t (set_table (delete key (table m)) m) k Q
  | Range k => forall keys, Permutation keys (elements (dom (table m))) -> inside t m (k keys) Q
  | Alloc b k => forall p, heap m !! p = None ->
      inside t (set_heap (<[p := b]> (heap m)) m) (k p) Q
  | LoadTokens p k => exists b, heap m !! p = Some b /\ inside t m (k (tokens b)) Q
  | StoreTokens p x k => exists b, heap m !! p = Some b /\
      inside t (set_heap (<[p := with_tokens x b]> (heap m)) m) k Q
  | LoadSeen p k => exists b, heap m !! p = Some b /\ inside t m (k (lastSeen b)) Q
  | StoreSeen p x k => exists b, heap m !! p = Some b /\
      inside t (set_heap (<[p := with_seen x b]> (heap m)) m) k Q
  end.

(** The call has happened at once, at a moment between [t] and [t']. *)
Definition happened (cl : call) (l : Limiter) (t t' : Z) (m : memory) (a : option bool) : Prop :=
  mem_ok m /\ exists e r, call_of e = cl /\ event_ok e /\ t <= event_time e <= t' /\
    apply l e = (r, limiter m) /\ a = snd <$> r.

(** Before the call: read the clock, take the lock and do it. *)
Fixpoint waiting (t : Z) (cl : call) (p : prog (option bool)) : Prop :=
  match p with
  | Now k => forall t', t <= t' -> waiting t' cl (k t')
  | Lock k => forall t' m, t <= t' -> mem_ok m -> inside t' m k (happened cl (limiter m) t')
  | _ => False
  end.

(** Without the mutex: before the call, or done. *)
Definition outside (t : Z) (cl : call) (p : prog (option bool)) : Prop :=
  match p with Ret _ => True | _ => waiting t cl p end.

Lemma inside_later {A : Type} (p : prog A) Q : forall t t' m,
  t <= t' -> inside t m p Q -> inside t' m p Q.
Proof.
  induction p; simpl; intros t0 t1 m Ht Hp; try done.
  all: try (by eauto).
  all: try (destruct Hp as (b0 & ? & ?); by eauto).
  - intros. apply Hp. lia.
  - destruct p; try done. intros. apply Hp. lia.
Qed.

Lemma outside_later cl p t t' : t <= t' -> outside t cl p -> outside t' cl p.
Proof. intros Ht. destruct p; simpl; try done; intros Hp; intros; apply Hp; lia || done. Qed.

Lemma inside_running {A : Type} t m (p : prog A) Q a : inside t m p Q -> p <> Ret a.
Proof. by destruct p. Qed.

Lemma waiting_running t cl p a : waiting t cl p -> p <> Ret a.
Proof. by destruct p. Qed.

Lemma waiting_outside t cl p : waiting t cl p -> outside t cl p.
Proof. by destruct p. Qed.


Lemma inside_assoc {A B C : Type} (p : prog A) (f : A -> prog B) (g : B -> prog C) Q : forall t m,
  inside t m (p ≫= (fun a => f a ≫= g)) Q -> inside t m ((p ≫= f) ≫= g) Q.
Proof.
  induction p; simpl; intros t0 m Hp; try done.
  all: try (by eauto).
  - by destruct p.
  - destruct Hp as (b & ? & ?). by eauto.
  - destruct Hp as (b & ? & ?). by eauto.
  - destruct Hp as (b & ? & ?). by eauto.
  - destruct Hp as (b & ? & ?). by eauto.
Qed.

(** An access keeps a program inside. *)
Lemma inside_access {A : Type} t m (p : prog A) m' p' Q :
  mem_access m p m' p' -> inside t m p Q -> inside t m' p' Q.
Proof. destruct 1; simpl; intros Hp; try done; by (apply Hp || (destruct Hp as (? & ? & ?); simplify_eq)). Qed.

(** A program inside can always go on. *)
Lemma inside_progress {A : Type} i s (p : prog A) Q :
  inside (clock s) (mem s) p Q -> holder s = Some i -> exists s' p', access i s p s' p'.
Proof.
  intros Hp Hi. destruct p; simpl in Hp; try done.
  all: try (destruct Hp as (? & ? & _)).
  all: try (by eexists _, _; apply access_mem; econstructor).
  - eexists _, _. apply access_Now.
  - eexists _, _. apply access_Unlock. by rewrite Hi.
  - eexists _, _. apply access_mem. eapply access_Alloc.
    eapply not_elem_of_dom, is_fresh.
Qed.

(** *** The operations *)

(** A bucket after the refill and the token. *)
Definition taken (l : Limiter) (b : bucket) (now : Z) : bucket :=
  let x := refill l b now in
  {| tokens := if F_lt x F_one then x else F_sub x F_one; lastSeen := now |}.

Lemma inside_take {A : Type} t m p b now (f : bool -> prog A) Q :
  heap m !! p = Some b ->
  inside t (set_heap (<[p := taken (limiter m) b now]> (heap m)) m)
    (f (negb (F_lt (refill (limiter m) b now) F_one))) Q ->
  inside t m (take rate burst p now ≫= f) Q.
Proof.
  intros Hb Hf. unfold taken in Hf. simpl.
  repeat (eexists; split; [first [exact Hb | by rewrite lookup_insert_eq]|]; simpl).
  rewrite insert_insert_eq. unfold with_tokens, with_seen. simpl.
  change (F_min burst _) with (refill (limiter m) b now).
  destruct (F_lt (refill (limiter m) b now) F_one); simpl; [exact Hf|].
  repeat (eexists; split; [by rewrite lookup_insert_eq|]; simpl).
  rewrite insert_insert_eq. exact Hf.
Qed.

Lemma allow_happened key t now t' m b m' :
  t <= now <= t' -> default {| tokens := burst; lastSeen := now |} (buckets (limiter m) !! key) = b ->
  mem_ok m' -> limiter m' = set_buckets (limiter m) (<[key := taken (limiter m) b now]> (buckets (limiter m))) ->
  happened (CAllow key) (limiter m) t t' m' (Some (negb (F_lt (refill (limiter m) b now) F_one))).
Proof.
  intros Ht Hb Hm' Hl. split; [done|]. exists (Request now key), (Some (key, negb (F_lt (refill (limiter m) b now) F_one))).
  split_and!; try done; [apply Ht|apply Ht|]. unfold apply. rewrite allow_current, Hl. unfold current.
  simpl. simpl in Hb. rewrite Hb. done.
Qed.

Lemma waiting_allow key t : waiting t (CAllow key) (program rate burst ttl (CAllow key)).
Proof.
  intros t' m Ht Hm now Hnow. simpl.
  destruct (table m !! key) as [p|] eqn:Hp.
  - destruct (limiter_lookup m key p Hm Hp) as (b & Hb & Hlb).
    apply inside_assoc, (inside_take _ _ _ b); [done|]. intros t2 Ht2.
    destruct (limiter_write m key p (taken (limiter m) b now) Hm Hp).
    apply allow_happened; [lia|by rewrite Hlb|done|done].
  - intros p Hf. set (b := {| tokens := burst; lastSeen := now |}).
    set (m1 := set_table (<[key := p]> (table m)) (set_heap (<[p := b]> (heap m)) m)).
    destruct (limiter_new m key p b Hm Hp Hf) as [Hm1 Hl1]. fold m1 in Hm1, Hl1.
    apply inside_assoc, (inside_take _ _ _ b); [apply lookup_insert_eq|]. intros t2 Ht2.
    assert (Hp1 : table m1 !! key = Some p) by apply lookup_insert_eq.
    destruct (limiter_write m1 key p (taken (limiter m) b now) Hm1 Hp1) as [Hm2 Hl2].
    refine (allow_happened key t' now t2 m b _ _ _ Hm2 (eq_trans Hl2 _));
      [|rewrite limiter_absent; done|rewrite Hl1; unfold set_buckets; f_equal; apply insert_insert_eq].
    lia.
Qed.

(** The loop of the sweeper has dropped what it has visited. *)
Definition evicted (l : Limiter) (keys : list string) (cutoff : Z) : gmap string bucket :=
  filter (fun kb => ~ (kb.1 ∈ keys /\ RateLimit.lastSeen kb.2 < cutoff)) (buckets l).

Lemma evicted_delete l key keys cutoff b : buckets l !! key = Some b -> lastSeen b < cutoff ->
  evicted (set_buckets l (delete key (buckets l))) keys cutoff = evicted l (key :: keys) cutoff.
Proof.
  intros Hb Hlt. apply map_eq. intros k. apply option_eq. intros b'. unfold evicted, set_buckets. simpl.
  rewrite !map_lookup_filter_Some, lookup_delete_Some, elem_of_cons. simpl.
  split; [naive_solver|]. intros [Hk Hn]. split_and!; [|done|naive_solver].
  intros <-. simplify_eq. naive_solver.
Qed.

Lemma evicted_keep l key keys cutoff :
  (forall b, buckets l !! key = Some b -> ~ lastSeen b < cutoff) ->
  evicted l keys cutoff = evicted l (key :: keys) cutoff.
Proof.
  intros Hb. apply map_eq. intros k. apply option_eq. intros b'. unfold evicted.
  rewrite !map_lookup_filter_Some, elem_of_cons. simpl.
  split; [|naive_solver]. intros [Hk Hn]. split; [done|]. intros [[->|Hin] Hlt]; [by eapply Hb|naive_solver].
Qed.

Lemma inside_evict {A : Type} t cutoff keys (f : unit -> prog A) Q : forall m,
  mem_ok m ->
  (forall m', mem_ok m' -> limiter m' = set_buckets (limiter m) (evicted (limiter m) keys cutoff) ->
     inside t m' (f tt) Q) ->
  inside t m (evict cutoff keys ≫= f) Q.
Proof.
  induction keys as [|key keys IH]; intros m Hm Hf.
  - apply Hf; [done|]. unfold set_buckets, evicted. rewrite map_filter_id; [done|].
    intros k b _ [Hin _]. by apply elem_of_nil in Hin.
  - simpl. destruct (table m !! key) as [p|] eqn:Hp.
    + destruct (limiter_lookup m key p Hm Hp) as (b & Hb & Hlb). simpl. exists b. split; [done|].
      destruct (Z.ltb_spec (lastSeen b) cutoff) as [Hlt|Hge].
      * destruct (limiter_remove m key Hm) as [Hm1 Hl1]. apply IH; [done|]. intros m' Hm' Hl'.
        apply Hf; [done|]. rewrite Hl', Hl1.
        by rewrite (evicted_delete (limiter m) key keys cutoff b).
      * apply IH; [done|]. intros m' Hm' Hl'. apply Hf; [done|]. rewrite Hl'. f_equal.
        apply evicted_keep. intros b' Hb'. simplify_eq. lia.
    + apply IH; [done|]. intros m' Hm' Hl'. apply Hf; [done|]. rewrite Hl'. f_equal.
      apply evicted_keep. rewrite limiter_absent; done.
Qed.

Lemma evicted_all m keys cutoff : Permutation keys (elements (dom (table m))) ->
  evicted (limiter m) keys cutoff = filter (fun kb => ~ (lastSeen kb.2 < cutoff)) (buckets (limiter m)).
Proof.
  intros Hk. apply map_eq. intros k. apply option_eq. intros b. unfold evicted.
  rewrite !map_lookup_filter_Some. simpl. split; [|naive_solver].
  intros [Hb Hn]. split; [done|]. intros Hlt. apply Hn. split; [|done].
  rewrite Hk, elem_of_elements. apply elem_of_dom. rewrite lookup_omap in Hb.
  by destruct (table m !! k).
Qed.

Lemma waiting_sweep t : waiting t CSweep (program rate burst ttl CSweep).
Proof.
  intros c Hc t' m Ht Hm keys Hkeys. simpl.
  apply inside_assoc, inside_evict; [done|]. intros m' Hm' Hl t2 Ht2. split; [done|].
  exists (Tick c t'), None. split_and!; simpl; try (done || lia). f_equal. rewrite Hl.
  unfold RateLimit.sweep. by rewrite evicted_all.
Qed.

Lemma waiting_program cl t : waiting t cl (program rate burst ttl cl).
Proof. destruct cl; [apply waiting_allow|apply waiting_sweep]. Qed.

(** ** The pool *)

(** All the calls, none of them begun; each has a name. *)
Definition start (cs : list (nat * call)) : list thread :=
  (fun c => (c, program rate burst ttl c.2)) <$> cs.

(** The next access of the program needs the mutex. *)
Definition guarded {A : Type} (p : prog A) : bool :=
  match p with Ret _ | Now _ | Lock _ => false | _ => true end.

Lemma outside_unguarded t cl p : outside t cl p -> guarded p = false.
Proof. by destruct p. Qed.

Lemma outcome_running id cl p : (forall a, p <> Ret a) -> outcome (id, cl, p) = None.
Proof. destruct p; try done. intros Hp. by destruct (Hp a). Qed.

(** The events of [log] lie between [t0] and [t1], and make of [l0] what the
    memory holds and the goroutines have returned. *)
Definition linearizes (l0 : Limiter) (t0 : Z) (log : list (nat * event)) (st : state) : Prop :=
  timed t0 (clock st.1) log.*2 /\
  Permutation (finished st.2) (replay l0 log).1 /\
  (holder st.1 = None -> mem_ok (mem st.1) /\ limiter (mem st.1) = (replay l0 log).2).

(** The goroutine that holds the mutex will do its call at once, in the state
    the history ends in; the others wait outside. *)
Definition held (l0 : Limiter) (t0 : Z) (log : list (nat * event)) (s : shared) (i : nat) (th : thread) : Prop :=
  exists m tl, limiter m = (replay l0 log).2 /\ timed t0 tl log.*2 /\ tl <= clock s /\
    inside (clock s) (mem s) th.2 (happened th.1.2 (limiter m) tl).

Definition invariant (l0 : Limiter) (t0 : Z) (log : list (nat * event)) (st : state) : Prop :=
  linearizes l0 t0 log st /\
  (forall i th, st.2 !! i = Some th ->
     if decide (holder st.1 = Some i) then held l0 t0 log st.1 i th
     else outside (clock st.1) th.1.2 th.2) /\
  (forall i, holder st.1 = Some i -> is_Some (st.2 !! i)).

Lemma timed_later es : forall t0 t1 t2, t1 <= t2 -> timed t0 t1 es -> timed t0 t2 es.
Proof. induction es as [|e es IH]; simpl; [lia|]. intros t0 t1 t2 Ht (? & ? & ?). by eauto. Qed.

Lemma timed_snoc es e t2 : forall t0 t1, timed t0 t1 es -> event_ok e ->
  t1 <= event_time e <= t2 -> timed t0 t2 (es ++ [e]).
Proof.
  induction es as [|e' es IH]; simpl; intros t0 t1 Hes He Ht; [split_and!; (done || lia)|].
  destruct Hes as (? & ? & ?). by eauto.
Qed.

Lemma linearizes_same l0 t0 log s pool s' pool' :
  linearizes l0 t0 log (s, pool) -> clock s <= clock s' -> finished pool' = finished pool ->
  (holder s' = None -> holder s = None /\ mem s' = mem s) ->
  linearizes l0 t0 log (s', pool').
Proof.
  intros (Ht & Hf & Hm) Hc Hp Hh. split_and!; simpl in *; [by eapply timed_later|by rewrite Hp|].
  intros Hn. destruct (Hh Hn) as [? ->]. by apply Hm.
Qed.

Lemma held_mono l0 t0 log s s' i th th' :
  (forall Q, inside (clock s) (mem s) th.2 Q -> inside (clock s') (mem s') th'.2 Q) ->
  th'.1 = th.1 -> clock s <= clock s' ->
  held l0 t0 log s i th -> held l0 t0 log s' i th'.
Proof.
  intros Hin Hth Hc (m & tl & ? & ? & ? & Hp). exists m, tl. rewrite Hth.
  split_and!; [done|done|lia|by apply Hin].
Qed.

(** *** Time passes *)

Lemma time_invariant l0 t0 log s pool t : clock s <= t ->
  invariant l0 t0 log (s, pool) ->
  invariant l0 t0 log ({| clock := t; holder := holder s; mem := mem s |}, pool).
Proof.
  intros Ht (Hl & Hth & Hi). split_and!; [|intros i th Hp|done].
  - eapply linearizes_same; [exact Hl|done|done|done].
  - specialize (Hth i th Hp). simpl in *. case_decide.
    + eapply held_mono; [|done| |exact Hth]; [|done].
      intros Q HQ. simpl. by eapply inside_later.
    + by eapply outside_later.
Qed.

(** *** A goroutine moves *)

(** The goroutine [i] goes from [p] to [p'] without an answer; the others see
    nothing. *)
Lemma move_invariant l0 t0 log s pool i id cl p s' p' :
  pool !! i = Some (id, cl, p) -> invariant l0 t0 log (s, pool) ->
  clock s' = clock s ->
  outcome (id, cl, p) = None -> outcome (id, cl, p') = None ->
  (holder s' = None -> holder s = None /\ mem s' = mem s) ->
  (forall j, j <> i -> holder s' = Some j <-> holder s = Some j) ->
  (forall j, j <> i -> holder s = Some j -> mem s' = mem s) ->
  (if decide (holder s' = Some i) then held l0 t0 log s' i (id, cl, p')
   else outside (clock s') cl p') ->
  invariant l0 t0 log (s', <[i := (id, cl, p')]> pool).
Proof.
  intros Hp (Hl & Hth & Hi) Hc Ho Ho' Hfree Hj Hmj Hown. split_and!; simpl in *.
  - eapply linearizes_same; [exact Hl|lia| |done].
    by apply (omap_insert_None _ _ _ (id, cl, p)).
  - intros j th [(<- & <- & _)|(Hne & Hjp)]%list_lookup_insert_Some; [done|].
    specialize (Hth j th Hjp). specialize (Hj j (not_eq_sym Hne)).
    destruct (decide (holder s' = Some j)) as [Hh|Hh], (decide (holder s = Some j)) as [Hh'|Hh'].
    + eapply held_mono; [|done| |exact Hth]; [|by rewrite Hc].
      intros Q. by rewrite Hc, (Hmj j).
    + by destruct Hh'; apply Hj.
    + by destruct Hh; apply Hj.
    + by rewrite Hc.
  - intros j Hh. destruct (decide (j = i)) as [->|Hne].
    + rewrite list_lookup_insert_eq by by apply lookup_lt_Some in Hp. done.
    + rewrite list_lookup_insert_ne by done. apply Hi. by apply Hj.
Qed.

(** The goroutine [i] unlocks the mutex and returns: its call goes to the end of
    the history. *)
Lemma unlock_invariant l0 t0 log s pool i id cl k :
  pool !! i = Some (id, cl, Unlock k) -> holder s = Some i ->
  invariant l0 t0 log (s, pool) ->
  exists e, invariant l0 t0 (log ++ [(id, e)])
    (set_holder None s, <[i := (id, cl, k)]> pool).
Proof.
  intros Hp Hh ((Ht & Hf & _) & Hth & _). pose proof (Hth i _ Hp) as Hi. simpl in *.
  rewrite decide_True in Hi by done. destruct Hi as (m & tl & Hm & Htl & Hle & Hin).
  simpl in Hin. destruct k as [a| | | | | | | | | | | |]; try done.
  destruct (Hin (clock s) ltac:(lia)) as (Hmok & e & r & Hcl & Heok & Hte & Happ & Ha).
  exists e. rewrite Hm in Happ. split_and!; simpl.
  - split_and!; simpl; [|rewrite replay_snoc|intros _; rewrite replay_snoc].
    + rewrite fmap_app. by apply (timed_snoc _ _ _ t0 tl).
    + destruct (replay l0 log) as [rs l1]. simpl in *. rewrite Happ. simpl. rewrite <- Hf.
      apply (omap_insert_Some _ _ _ (id, cl, Unlock (Ret a))); [done|done|].
      simpl. by rewrite Hcl, Ha.
    + destruct (replay l0 log) as [rs l1]. simpl in *. by rewrite Happ.
  - intros j th [(<- & <- & _)|(Hne & Hjp)]%list_lookup_insert_Some; [done|].
    specialize (Hth j th Hjp). rewrite decide_False in Hth by congruence. done.
  - done.
Qed.

(** An access without the mutex. *)
Lemma outside_step l0 t0 log s pool i id cl p s' p' :
  pool !! i = Some (id, cl, p) -> holder s <> Some i -> access i s p s' p' ->
  invariant l0 t0 log (s, pool) -> invariant l0 t0 log (s', <[i := (id, cl, p')]> pool).
Proof.
  intros Hp Hh Ha Hinv. pose proof Hinv as ((Ht & _ & Hm) & Hth & _).
  pose proof (Hth i _ Hp) as Hi. simpl in *. rewrite decide_False in Hi by done.
  destruct Ha as [s k|s k Hfree|s k [h Hx]|s p m' p' Hmem]; simpl in *.
  - eapply move_invariant; [exact Hp|exact Hinv|done|done| |done|done|done|].
    + apply outcome_running. intros a. by apply (waiting_running (clock s) cl), Hi.
    + rewrite decide_False by done. by apply waiting_outside, Hi.
  - destruct (Hm Hfree) as [Hmok Hlim].
    pose proof (Hi (clock s) (mem s) ltac:(lia) Hmok) as Hin.
    eapply move_invariant; [exact Hp|exact Hinv|done|done| |done|..].
    + apply outcome_running. intros a. by eapply inside_running.
    + intros j Hj. simpl. rewrite Hfree. split; congruence.
    + done.
    + simpl. rewrite decide_True by done. by exists (mem s), (clock s).
  - done.
  - by destruct Hmem.
Qed.

(** An access with the mutex; [Unlock] ends the call. *)
Lemma inside_step l0 t0 log s pool i id cl p s' p' :
  pool !! i = Some (id, cl, p) -> holder s = Some i -> access i s p s' p' ->
  invariant l0 t0 log (s, pool) ->
  exists log', invariant l0 t0 (log ++ log') (s', <[i := (id, cl, p')]> pool).
Proof.
  intros Hp Hh Ha Hinv. pose proof Hinv as ((Ht & _ & Hm) & Hth & _).
  pose proof (Hth i _ Hp) as Hi. simpl in *. rewrite decide_True in Hi by done.
  destruct Hi as (m & tl & Hl & Htl & Hle & Hin). simpl in Hin.
  destruct Ha as [s k|s k Hfree|s k Hx|s p m' p' Hmem]; simpl in *.
  - specialize (Hin (clock s) ltac:(lia)). exists []. rewrite app_nil_r.
    eapply move_invariant; [exact Hp|exact Hinv|done|done| |done|done|done|].
    + apply outcome_running. intros a. by eapply inside_running.
    + rewrite decide_True by done. by exists m, tl.
  - congruence.
  - destruct (unlock_invariant _ _ _ _ _ _ _ _ _ Hp Hh Hinv) as [e He]. by exists [(id, e)].
  - pose proof (inside_access _ _ _ _ _ _ Hmem Hin) as Hin'. exists []. rewrite app_nil_r.
    eapply move_invariant; [exact Hp|exact Hinv|done|..].
    + by destruct Hmem.
    + apply outcome_running. intros a. by eapply inside_running.
    + simpl. by rewrite Hh.
    + done.
    + intros j Hj. rewrite Hh. congruence.
    + simpl. rewrite decide_True by done. by exists m, tl.
Qed.

Lemma step_invariant l0 t0 log st st' : step st st' -> invariant l0 t0 log st ->
  exists log', invariant l0 t0 (log ++ log') st'.
Proof.
  intros [s pool i id cl p s' p' Hp Ha|s pool t Ht] Hinv.
  - destruct (decide (holder s = Some i)) as [Hh|Hh].
    + by eapply inside_step.
    + exists []. rewrite app_nil_r. by eapply outside_step.
  - exists []. rewrite app_nil_r. by apply time_invariant.
Qed.

Lemma steps_invariant l0 t0 st st' : rtc step st st' -> forall log, invariant l0 t0 log st ->
  exists log', invariant l0 t0 (log ++ log') st'.
Proof.
  induction 1 as [|st st1 st2 Hst _ IH]; intros log Hinv; [exists []; by rewrite app_nil_r|].
  destruct (step_invariant _ _ _ _ _ Hst Hinv) as [log1 Hinv1].
  destruct (IH _ Hinv1) as [log2 Hinv2]. exists (log1 ++ log2). by rewrite app_assoc.
Qed.

(** *** The start *)

Lemma start_finished cs : finished (start cs) = [].
Proof. unfold start. induction cs as [|[id [key|]] cs IH]; [done|done|done]. Qed.

Lemma start_invariant s cs : holder s = None -> mem_ok (mem s) ->
  invariant (limiter (mem s)) (clock s) [] (s, start cs).
Proof.
  intros Hh Hm. split_and!; simpl.
  - split_and!; simpl; [done|by rewrite start_finished|done].
  - intros i th Hth. rewrite decide_False by congruence.
    apply list_lookup_fmap_Some in Hth as ([id cl] & -> & _).
    apply waiting_outside, waiting_program.
  - by rewrite Hh.
Qed.

Lemma reachable_invariant s cs st : holder s = None -> mem_ok (mem s) ->
  rtc step (s, start cs) st -> exists log, invariant (limiter (mem s)) (clock s) log st.
Proof.
  intros Hh Hm Hst. destruct (steps_invariant _ _ _ _ Hst [] (start_invariant s cs Hh Hm)) as [log Hlog].
  by exists log.
Qed.

(** *** Counting *)

(** An answer to a client. *)
Definition answer (o : nat * call * option bool) : option (string * bool) :=
  match o with (_, CAllow key, Some ok) => Some (key, ok) | _ => None end.

Lemma replay_run l log : (run l log.*2).1 = omap answer (replay l log).1.
Proof.
  revert l. induction log as [|[id e] log IH]; intros l; [done|].
  rewrite fmap_cons. cbn [run replay snd].
  destruct (apply l e) as [r l1] eqn:Ha. specialize (IH l1).
  destruct (run l1 log.*2) as [rs l2]. destruct (replay l1 log) as [os l3]. simpl in *. rewrite IH.
  destruct e as [now key|c now]; simpl in *; [|by injection Ha as <- _].
  destruct (RateLimit.allow l now key). by injection Ha as <- _.
Qed.

(** The requests of a client that have been let through, and those it has made. *)
Definition let_through (key : string) (st : state) : Z := passed key (omap answer (finished st.2)).
Definition made (key : string) (cs : list (nat * call)) : Z :=
  Z.of_nat (length (filter (fun c => c.2 = CAllow key) cs)).

Lemma made_cons key id cl cs :
  made key ((id, cl) :: cs) = (if bool_decide (cl = CAllow key) then 1 else 0) + made key cs.
Proof.
  unfold made. rewrite filter_cons. simpl. case_decide; case_bool_decide; simpl; done || lia.
Qed.

Lemma requests_answer key id cl a os :
  requests key (omap answer ((id, cl, a) :: os)) <=
    (if bool_decide (cl = CAllow key) then 1 else 0) + requests key (omap answer os).
Proof.
  rewrite omap_cons_eq. destruct cl as [k|], a as [ok|]; cbn [answer]; rewrite ?requests_cons;
    repeat case_bool_decide; simplify_eq; lia.
Qed.

Lemma finished_made key pool : requests key (omap answer (finished pool)) <= made key pool.*1.
Proof.
  induction pool as [|[[id cl] p] pool IH]; [done|].
  rewrite fmap_cons. cbn [fst]. rewrite made_cons. unfold finished in *. rewrite omap_cons_eq.
  destruct p; cbn [outcome]; try (case_bool_decide; lia).
  pose proof (requests_answer key id cl a (omap outcome pool)). lia.
Qed.

Lemma step_names st st' : step st st' -> st'.2.*1 = st.2.*1.
Proof.
  intros [s pool i id cl p s' p' Hp Ha|s pool t Ht]; [|done]. simpl.
  rewrite list_fmap_insert. apply list_insert_id, list_lookup_fmap_Some. by exists (id, cl, p).
Qed.

Lemma steps_names st st' : rtc step st st' -> st'.2.*1 = st.2.*1.
Proof. induction 1 as [|st st1 st2 Hst%step_names _ IH]; [done|congruence]. Qed.

Lemma start_names cs : (start cs).*1 = cs.
Proof. unfold start. rewrite <- list_fmap_compose. by rewrite list_fmap_id. Qed.

Lemma passed_perm key rs rs' : Permutation rs rs' -> passed key rs = passed key rs'.
Proof. intros Hp. unfold passed. f_equal. by apply Permutation_length, filter_Permutation. Qed.

Lemma requests_perm key rs rs' : Permutation rs rs' -> requests key rs = requests key rs'.
Proof. intros Hp. unfold requests. f_equal. by apply Permutation_length, filter_Permutation. Qed.

(** ** Properties *)

(** C7: The mutex makes the calls atomic.  However the goroutines interleave, their
    answers and the limiter they leave behind are those of one sequence of
    [allow] and [sweep], at times that do not go back; it goes on as the run
    goes on, so a call that has returned comes before one that has not. *)
Theorem limiter_linearizable s cs st :
  holder s = None -> mem_ok (mem s) -> rtc step (s, start cs) st ->
  exists log, linearizes (limiter (mem s)) (clock s) log st /\
    forall st', rtc step st st' ->
      exists log', linearizes (limiter (mem s)) (clock s) (log ++ log') st'.
Proof.
  intros Hh Hm Hst. destruct (reachable_invariant s cs st Hh Hm Hst) as [log Hlog].
  exists log. split; [apply Hlog|]. intros st' Hst'.
  destruct (steps_invariant _ _ _ _ Hst' _ Hlog) as [log' Hlog']. exists log'. apply Hlog'.
Qed.

(** A goroutine of the pool, and its next access. *)
Definition can_go (st : state) (i : nat) : Prop :=
  exists id cl p s' p', st.2 !! i = Some (id, cl, p) /\ access i st.1 p s' p'.

(** C8: Every access of the map and the buckets is made by the holder of the mutex,
    so no two race; and nobody is stuck: a goroutine has returned, can go on, or
    waits for the mutex, whose holder can go on. *)
Theorem limiter_race_free s cs st i id cl p :
  holder s = None -> mem_ok (mem s) -> rtc step (s, start cs) st ->
  st.2 !! i = Some (id, cl, p) ->
  (guarded p = true -> holder st.1 = Some i) /\
  ((exists a, p = Ret a) \/ can_go st i \/
   (exists k j, p = Lock k /\ holder st.1 = Some j /\ j <> i /\ can_go st j)).
Proof.
  intros Hh Hm Hst Hp. destruct (reachable_invariant s cs st Hh Hm Hst) as [log (_ & Hth & Hi)].
  assert (Hgo : forall j, holder st.1 = Some j -> can_go st j).
  { intros j Hj. destruct (Hi j Hj) as [[[id' cl'] q] Hq]. specialize (Hth j _ Hq).
    rewrite decide_True in Hth by done. destruct Hth as (m & tl & _ & _ & _ & Hin).
    destruct (inside_progress j st.1 _ _ Hin Hj) as (s' & q' & Ha). by exists id', cl', q, s', q'. }
  specialize (Hth i _ Hp). simpl in Hth. case_decide as Hdec; [naive_solver|].
  split; [by rewrite (outside_unguarded _ _ _ Hth)|].
  destruct p; try done; [by left; eexists|..]; right.
  - left. eexists _, _, _, _, _. split; [done|]. apply access_Now.
  - destruct (holder st.1) as [j|] eqn:Hj; [right|left].
    + exists p, j. split_and!; [done|done|congruence|by apply Hgo].
    + eexists _, _, _, _, _. split; [done|]. by apply access_Lock.
Qed.

(** C9: What a client gets through however the goroutines interleave: at most its
    burst, what the rate refills in the time, and one request more. *)
Theorem concurrent_rate s cs st T key r b :
  holder s = None -> mem_ok (mem s) -> rtc step (s, start cs) st ->
  limiter_ok (limiter (mem s)) (clock s) -> 0 <= clock s -> clock st.1 <= int64_max ->
  ttl_covers (limiter (mem s)) T ->
  0 < r < 2 ^ 53 -> rate = F_of_Z r -> 0 < b < 2 ^ 53 -> burst = F_of_Z b ->
  made key cs * b <= 2 ^ 48 ->
  let_through key st <= b + r * (clock st.1 - clock s) / Second + 1.
Proof.
  intros Hh Hm Hst Hl H0 H1 HT Hr Er Hb Eb Hn.
  destruct (reachable_invariant s cs st Hh Hm Hst) as [log ((Ht & Hf & _) & _)].
  assert (Hperm : Permutation (omap answer (finished st.2))
    (run (limiter (mem s)) log.*2).1) by (by rewrite replay_run, Hf).
  unfold let_through. rewrite (passed_perm key _ _ Hperm).
  apply (rate_bound (limiter (mem s)) (clock s) (clock st.1) T); try done.
  rewrite <- (requests_perm key _ _ Hperm).
  pose proof (finished_made key st.2) as Hmade.
  rewrite (steps_names _ _ Hst) in Hmade. cbn [snd] in Hmade. rewrite start_names in Hmade. nia.
Qed.
End Limiter.

(** ** Evaluation *)

(** The access as a function: new buckets where there is room, keys in the order
    of the map. *)
Definition exec_access {A : Type} (i : nat) (s : shared) (p : prog A) : option (shared * prog A) :=
  let m := mem s in
  match p with
  | Ret _ => None
  | Now k => Some (s, k (clock s))
  | Lock k => match holder s with None => Some (set_holder (Some i) s, k) | Some _ => None end
  | Unlock k => match holder s with Some _ => Some (set_holder None s, k) | None => None end
  | Lookup key k => Some (set_mem m s, k (table m !! key))
  | Insert key p k => Some (set_mem (set_table (<[key := p]> (table m)) m) s, k)
  | Remove key k => Some (set_mem (set_table (delete key (table m)) m) s, k)
  | Range k => Some (set_mem m s, k (elements (dom (table m))))
  | Alloc b k =>
      let p := fresh (dom (heap m)) in
      Some (set_mem (set_heap (<[p := b]> (heap m)) m) s, k p)
  | LoadTokens p k => b ← heap m !! p; Some (set_mem m s, k (tokens b))
  | StoreTokens p t k =>
      b ← heap m !! p; Some (set_mem (set_heap (<[p := with_tokens t b]> (heap m)) m) s, k)
  | LoadSeen p k => b ← heap m !! p; Some (set_mem m s, k (lastSeen b))
  | StoreSeen p t k =>
      b ← heap m !! p; Some (set_mem (set_heap (<[p := with_seen t b]> (heap m)) m) s, k)
  end.

Lemma exec_access_sound {A : Type} i s (p : prog A) s' p' :
  exec_access i s p = Some (s', p') -> access i s p s' p'.
Proof.
  destruct p; simpl; intros He; try (apply bind_Some in He as (b' & Hb & He));
    repeat case_match; simplify_eq;
    try first [by apply access_mem; constructor | apply access_Now | by apply access_Lock
              | by apply access_Unlock; eexists].
  apply access_mem, access_Alloc. eapply not_elem_of_dom, is_fresh.
Qed.

(** The goroutines take turns as the schedule says; [None] is a tick of the
    clock, of a nanosecond. *)
Fixpoint schedule (turns : list (option nat)) (st : state) : option state :=
  match turns with
  | [] => Some st
  | None :: turns =>
      schedule turns ({| clock := clock st.1 + 1; holder := holder st.1; mem := mem st.1 |}, st.2)
  | Some i :: turns =>
      th ← st.2 !! i;
      r ← exec_access i st.1 th.2;
      schedule turns (r.1, <[i := (th.1, r.2)]> st.2)
  end.

Lemma schedule_steps turns : forall st st', schedule turns st = Some st' -> rtc step st st'.
Proof.
  induction turns as [|[i|] turns IH]; intros [s pool] st'; simpl.
  - by intros [= ->].
  - intros ([[id cl] p] & Hi & ([s1 p1] & He & Hr)%bind_Some)%bind_Some.
    eapply rtc_l; [|by apply IH]. eapply step_thread; [done|by apply exec_access_sound].
  - intros Hr. eapply rtc_l; [|by apply IH]. apply step_time. simpl. lia.
Qed.

(** The auth limiter of the router, with a client known and a client new. *)
Module Demo.
Definition start_shared : shared :=
  {| clock := 1000; holder := None;
     mem := {| table := {["10.0.0.9" := 0%nat]};
               heap := {[0%nat := {| tokens := F_of_Z 1; lastSeen := 500 |}]} |} |}.
Definition calls : list (nat * call) :=
  [(0%nat, CAllow "10.0.0.9"); (1%nat, CAllow "10.0.0.9"); (2%nat, CSweep); (3%nat, CAllow "10.0.0.7")].

Definition pool : list thread := start authEndpointRate authEndpointBurst limiterEntryTTL calls.

(** The sweeper reads the clock, the first request gets the lock and looks up its
    bucket, time passes, and the rest follow. *)
Definition turns : list (option nat) :=
  [Some 2; Some 0; Some 0; None; Some 0]%nat ++ replicate 7 (Some 0%nat) ++ [Some 0; Some 3]%nat ++
  replicate 12 (Some 3%nat) ++ replicate 7 (Some 2%nat) ++ replicate 9 (Some 1%nat).

Definition after (n : nat) : state :=
  default (start_shared, pool) (schedule (firstn n turns) (start_shared, pool)).
Definition end_state : state := after (length turns).

Lemma start_mem_ok : mem_ok (mem start_shared).
Proof.
  split; simpl.
  - intros key p [<- <-]%lookup_singleton_Some. by eexists.
  - by intros key key' p [<- _]%lookup_singleton_Some [<- _]%lookup_singleton_Some.
Qed.

Lemma steps_after n : rtc step (start_shared, pool) (after n).
Proof.
  unfold after. destruct (schedule (firstn n turns) (start_shared, pool)) as [st|] eqn:Hs;
    [by eapply schedule_steps|done].
Qed.

Definition start_limiter : Limiter :=
  limiter authEndpointRate authEndpointBurst limiterEntryTTL (mem start_shared).

Lemma start_limiter_ok : limiter_ok start_limiter 1000.
Proof.
  split; [exact authLimiter_config|split; [done|]].
  change (buckets start_limiter) with
    ({["10.0.0.9" := {| tokens := F_of_Z 1; lastSeen := 500 |}]} : gmap string bucket).
  apply map_Forall_singleton. split_and!; first [by apply F_of_Z_nonneg | vm_compute; first [discriminate|reflexivity]].
Qed.
End Demo.

(** Everybody has returned; the one token has gone to one of the two requests. *)
Lemma limiter_linearizable_witness :
  finished Demo.end_state.2 =
    [(0%nat, CAllow "10.0.0.9", Some true); (1%nat, CAllow "10.0.0.9", Some false);
     (2%nat, CSweep, None); (3%nat, CAllow "10.0.0.7", Some true)] /\
  exists log, linearizes authEndpointRate authEndpointBurst limiterEntryTTL
    Demo.start_limiter 1000 log Demo.end_state.
Proof.
  split; [vm_compute; reflexivity|].
  destruct (limiter_linearizable authEndpointRate authEndpointBurst limiterEntryTTL
    Demo.start_shared Demo.calls Demo.end_state) as (log & Hlog & _);
    [reflexivity|exact Demo.start_mem_ok|exact (Demo.steps_after _)|].
  exists log. exact Hlog.
Defined.

(** In the middle of the first request: it has the mutex, and can go on. *)
Lemma limiter_race_free_witness :
  holder (Demo.after 5).1 = Some 0%nat /\
  forall id cl p, (Demo.after 5).2 !! 0%nat = Some (id, cl, p) -> guarded p = true.
Proof.
  assert (Hg : match (Demo.after 5).2 !! 0%nat with Some (_, _, p) => guarded p | None => false end
    = true) by (vm_compute; reflexivity).
  destruct ((Demo.after 5).2 !! 0%nat) as [[[id cl] p]|] eqn:Hp; [|discriminate].
  split; [|intros ? ? ? [= <- <- <-]; exact Hg].
  apply (proj1 (limiter_race_free authEndpointRate authEndpointBurst limiterEntryTTL
    Demo.start_shared Demo.calls (Demo.after 5) 0%nat id cl p
    eq_refl Demo.start_mem_ok (Demo.steps_after _) Hp) Hg).
Defined.

Lemma concurrent_rate_witness :
  let_through "10.0.0.9" Demo.end_state = 1 /\ let_through "10.0.0.9" Demo.end_state <= 5 + 1 * (1001 - 1000) / Second + 1.
Proof.
  split; [vm_compute; reflexivity|].
  assert (Hc : clock Demo.end_state.1 = 1001) by (vm_compute; reflexivity).
  rewrite <- Hc.
  apply (concurrent_rate authEndpointRate authEndpointBurst limiterEntryTTL Demo.start_shared
    Demo.calls Demo.end_state 600 "10.0.0.9" 1 5);
    [reflexivity|exact Demo.start_mem_ok|exact (Demo.steps_after _)|exact Demo.start_limiter_ok
    |discriminate|rewrite Hc; discriminate|exact authLimiter_ttl|lia|reflexivity|lia|reflexivity|].
  vm_compute. discriminate.
Defined.
