(* ===== verification/Random.v ===== *)
(** * pkg/random: alias generation by rejection sampling

    The entropy source is any [io.Reader]; [crypto/rand.Reader] is one.  A loop
    that draws until enough bytes are accepted need not end, so the loops carry
    fuel; [Generate_correct] says how much is enough. *)

From S2P Require Import Prelude GoErrors GoStrings.
From Stdlib Require Import Ascii.

(** ** Readers *)

(** [Read(p)] for a buffer of [n] bytes: the bytes read and the error. *)
Class io_Reader (R : Type) : Type :=
  Read : nat -> R -> (list ascii * option error) * R.

(** How a call ends. *)
Inductive outcome (A : Type) : Type :=
| Done (a : A)
| Panics
| OutOfFuel.
Arguments Done {A} a.
Arguments Panics {A}.
Arguments OutOfFuel {A}.

Section Reader.
Context {R} `{io_Reader R}.

(** [io.ReadFull] on a buffer of [need] bytes of which [got] are read. *)
Fixpoint ReadFull (fuel need : nat) (got : list ascii) (r : R) :
    outcome (result (list ascii)) * R :=
  if decide (need <= length got)%nat then (Done (Ok got), r) else
  match fuel with
  | O => (OutOfFuel, r)
  | S fuel' =>
      let '((d, err), r') := Read (need - length got)%nat r in
      let got' := got ++ d in
      match err with
      | None => ReadFull fuel' need got' r'
      | Some e =>
          if decide (need <= length got')%nat then (Done (Ok got'), r')
          else if bool_decide (got' <> [] /\ e = Sentinel (SLib IoEOF))
          then (Done (Err (Sentinel (SLib IoUnexpectedEOF))), r')
          else (Done (Err e), r')
      end
  end.
End Reader.

(** ** The generator *)

Definition charset : string :=
  "ABCDEFGHIJKLMNOPQRSTUVWXYZabcdefghijklmnopqrstuvwxyz0123456789".

(** [256 - (256 % len(charset))] *)
Definition maxRandomByte : Z :=
  256 - Z.rem 256 (Z.of_nat (String.length charset)).

(** [type Generator struct]; the reader is passed along as the state. *)
Record Generator := { size : Z }.

(** [New] *)
Definition New (size : Z) : Generator := {| size := size |}.

(** [int(b) >= maxRandomByte] is false *)
Definition accepted (b : ascii) : bool := code b <? maxRandomByte.

(** [charset[int(b)%len(charset)]] *)
Definition pick (b : ascii) : ascii :=
  nth (Z.to_nat (Z.rem (code b) (Z.of_nat (String.length charset)))) (bytes_of charset) "A"%char.

(** The inner loop over one buffer: the index reached and the result buffer. *)
Fixpoint scan (size : nat) (random : list ascii) (i : nat) (result : list ascii) :
    nat * list ascii :=
  match random with
  | [] => (i, result)
  | b :: random' =>
      if accepted b then
        let result' := <[i := pick b]> result in
        if decide (S i = size) then (S i, result') else scan size random' (S i) result'
      else scan size random' i result
  end.

Section Generate.
Context {R} `{io_Reader R}.

(** The outer loop. *)
Fixpoint generate_loop (fuel size i : nat) (buf : list ascii) (r : R) :
    outcome (result string) * R :=
  if decide (i < size)%nat then
    match fuel with
    | O => (OutOfFuel, r)
    | S fuel' =>
        match ReadFull fuel size [] r with
        | (Done (Ok random), r') =>
            let '(i', buf') := scan size random i buf in
            generate_loop fuel' size i' buf' r'
        | (Done (Err e), r') => (Done (Err (Errorf "generate random bytes: " e "")), r')
        | (Panics, r') => (Panics, r')
        | (OutOfFuel, r') => (OutOfFuel, r')
        end
    end
  else (Done (Ok (of_bytes buf)), r).

(** [Generate]: [make] panics on a negative size. *)
Definition Generate (fuel : nat) (g : Generator) (r : R) : outcome (result string) * R :=
  if size g <? 0 then (Panics, r)
  else generate_loop fuel (Z.to_nat (size g)) 0 (replicate (Z.to_nat (size g)) zero) r.
End Generate.

(** ** Specification *)

(** What one byte contributes to the alias. *)
Definition sample (bs : list ascii) : list ascii :=
  pick <$> filter (fun b => accepted b = true) bs.

(** [blocks_read fuel n r bs r']: reading buffers of [n] bytes one after the
    other gives [bs]. *)
Inductive blocks_read {R} `{io_Reader R} (n : nat) : nat -> R -> list (list ascii) -> R -> Prop :=
| blocks_nil fuel r : blocks_read n fuel r [] r
| blocks_cons fuel r b r' bs r'' :
    ReadFull (S fuel) n [] r = (Done (Ok b), r') ->
    blocks_read n fuel r' bs r'' ->
    blocks_read n (S fuel) r (b :: bs) r''.

(** A reader that makes progress: it returns at most what was asked for, and
    when it returns nothing it says why. *)
Definition makes_progress {R} `{io_Reader R} (r0 : R) : Prop :=
  forall n r d e r', (0 < n)%nat -> Read n r = ((d, e), r') ->
    (length d <= n)%nat /\ (d = [] -> e <> None).

(** ** Lemmas *)

Lemma sample_app a b : sample (a ++ b) = sample a ++ sample b.
Proof. unfold sample. by rewrite filter_app, fmap_app. Qed.

Lemma sample_cons b bs :
  sample (b :: bs) = (if accepted b then [pick b] else []) ++ sample bs.
Proof. unfold sample. rewrite filter_cons. by destruct (accepted b). Qed.

(** The buffer while the loop runs: the picked bytes, then zeros. *)
Definition buffer (size : nat) (picked : list ascii) : list ascii :=
  take size picked ++ replicate (size - length picked) zero.

Lemma buffer_insert size picked b : (length picked < size)%nat ->
  <[length picked := b]> (buffer size picked) = buffer size (picked ++ [b]).
Proof.
  intros Hlt. unfold buffer. rewrite !take_ge by (rewrite ?length_app; simpl; lia).
  replace (size - length picked)%nat with (S (size - length (picked ++ [b]))%nat)
    by (rewrite length_app; simpl; lia).
  simpl. rewrite insert_app_r_alt by lia. rewrite Nat.sub_diag. simpl.
  by rewrite <- (assoc_L app).
Qed.

Lemma buffer_full size picked x : length picked = size -> buffer size (picked ++ x) = picked.
Proof.
  intros <-. unfold buffer. rewrite take_app_length, length_app.
  replace (_ - _)%nat with O by lia. apply app_nil_r.
Qed.

(** One pass of the inner loop appends the picks of the block, up to the size. *)
Lemma scan_spec size random picked : (length picked < size)%nat ->
  scan size random (length picked) (buffer size picked) =
    (Nat.min size (length (picked ++ sample random)), buffer size (picked ++ sample random)).
Proof.
  revert picked. induction random as [|b random IH]; intros picked Hlt; simpl.
  - rewrite app_nil_r. f_equal. lia.
  - rewrite sample_cons. destruct (accepted b); simpl; [|by apply IH].
    rewrite buffer_insert by done.
    change (pick b :: sample random) with ([pick b] ++ sample random).
    rewrite (assoc_L app).
    assert (Hl : length (picked ++ [pick b]) = S (length picked))
      by (rewrite length_app; simpl; lia).
    case_decide as Hs.
    + pose proof (buffer_full size (picked ++ [pick b])) as Hb.
      rewrite <- (app_nil_r (picked ++ [pick b])) at 1.
      rewrite !Hb, (length_app (picked ++ [pick b])), Hl by lia. f_equal. lia.
    + rewrite <- Hl. apply IH. lia.
Qed.

Lemma generate_loop_done {R} `{io_Reader R} fuel n i buf (r : R) : (n <= i)%nat ->
  generate_loop fuel n i buf r = (Done (Ok (of_bytes buf)), r).
Proof. intros. destruct fuel; simpl; by rewrite decide_False by lia. Qed.

Lemma generate_loop_blocks {R} `{io_Reader R} n fuel (r : R) bs r' picked :
  blocks_read n fuel r bs r' -> bs <> [] ->
  (length (picked ++ sample (concat (removelast bs))) < n)%nat ->
  (n <= length (picked ++ sample (concat bs)))%nat ->
  generate_loop fuel n (length picked) (buffer n picked) r =
    (Done (Ok (of_bytes (take n (picked ++ sample (concat bs))))), r').
Proof.
  intros Hbs. revert picked. induction Hbs as [|fuel r b r1 bs r2 Hr Hbs IH]; [done|].
  intros picked _ Hlt Hge.
  assert (length picked < n)%nat by (rewrite length_app in Hlt; lia).
  cbn [generate_loop]. rewrite decide_True by done. rewrite Hr, scan_spec by done.
  cbn [concat] in Hge |- *. rewrite sample_app, (assoc_L app) in Hge |- *.
  destruct bs as [|b' bs].
  - inv Hbs. simpl in *. rewrite app_nil_r in *. rewrite generate_loop_done by lia.
    do 4 f_equal. unfold buffer. replace (_ - _)%nat with O by lia. by rewrite app_nil_r.
  - change (removelast (b :: b' :: bs)) with (b :: removelast (b' :: bs)) in Hlt.
    cbn [concat] in Hlt. rewrite sample_app, (assoc_L app) in Hlt.
    rewrite Nat.min_r by (rewrite length_app in Hlt; lia).
    by apply IH.
Qed.

Lemma pick_in_charset b : pick b ∈ bytes_of charset.
Proof.
  unfold pick. apply list_elem_of_In, nth_In.
  pose proof (N_ascii_bounded b). unfold code.
  change (Z.of_nat (String.length charset)) with 62.
  change (length (bytes_of charset)) with 62%nat.
  pose proof (Z.rem_bound_pos (Z.of_N (N_of_ascii b)) 62). lia.
Qed.

Lemma sample_in_charset bs : Forall (fun c => c ∈ bytes_of charset) (sample bs).
Proof. unfold sample. apply Forall_fmap, Forall_true. intros. apply pick_in_charset. Qed.

Lemma length_of_bytes l : String.length (of_bytes l) = length l.
Proof. induction l; simpl; congruence. Qed.

Lemma ReadFull_terminates {R} `{io_Reader R} (r0 : R) : makes_progress r0 ->
  forall fuel n got (r : R), (n <= length got + fuel)%nat ->
    (ReadFull fuel n got r).1 <> OutOfFuel.
Proof.
  intros Hp. induction fuel as [|fuel IH]; intros n got r Hf; simpl; case_decide; try done; [lia|].
  destruct (Read (n - length got) r) as [[d e] r'] eqn:Er.
  destruct (Hp (n - length got)%nat r d e r' ltac:(lia) Er) as [Hle Hne].
  destruct e as [e|].
  - repeat case_match; done.
  - apply IH. rewrite length_app. destruct d; [by destruct Hne|]. simpl. lia.
Qed.

(** Every error of [ReadFull] is the reader's, or stands for its end of file. *)
Definition reader_error {R} `{io_Reader R} (e : error) : Prop :=
  exists n (r : R) d e0 r', Read n r = ((d, Some e0), r') /\
    (e = e0 \/ e0 = Sentinel (SLib IoEOF) /\ e = Sentinel (SLib IoUnexpectedEOF)).

Lemma ReadFull_outcome {R} `{io_Reader R} fuel n got (r : R) :
  match (ReadFull fuel n got r).1 with
  | Done (Ok bs) => (n <= length bs)%nat
  | Done (Err e) => reader_error (R := R) e
  | Panics => False
  | OutOfFuel => True
  end.
Proof.
  revert got r. induction fuel as [|fuel IH]; intros got r; simpl; case_decide; try done.
  destruct (Read (n - length got) r) as [[d e] r'] eqn:Er.
  destruct e as [e|]; [|apply IH].
  case_decide; [done|]. case_bool_decide as Hc; simpl.
  - destruct Hc as [_ ->]. eexists _, _, _, _, _. split; [exact Er|by right].
  - eexists _, _, _, _, _. split; [exact Er|by left].
Qed.

Lemma buffer_length n picked : length (buffer n picked) = n.
Proof. unfold buffer. rewrite length_app, length_take, length_replicate. lia. Qed.

Lemma full_buffer_ok n picked :
  Forall (fun c => c ∈ bytes_of charset) picked -> (n <= length picked)%nat ->
  String.length (of_bytes (buffer n picked)) = n /\
  Forall (fun c => c ∈ bytes_of charset) (bytes_of (of_bytes (buffer n picked))).
Proof.
  intros Hp Hn. rewrite length_of_bytes, buffer_length.
  rewrite String.list_ascii_of_string_of_list_ascii. split; [done|].
  unfold buffer. rewrite (proj2 (Nat.sub_0_le n (length picked))) by lia.
  rewrite app_nil_r. by apply Forall_take.
Qed.

(** What a run of the loop can end in, whatever the reader does. *)
Lemma generate_loop_outcome {R} `{io_Reader R} fuel n picked (r : R) :
  Forall (fun c => c ∈ bytes_of charset) picked ->
  match (generate_loop fuel n (Nat.min n (length picked)) (buffer n picked) r).1 with
  | Done (Ok s) => String.length s = n /\ Forall (fun c => c ∈ bytes_of charset) (bytes_of s)
  | Done (Err e) => exists e0, e = Errorf "generate random bytes: " e0 "" /\
                                reader_error (R := R) e0
  | Panics => False
  | OutOfFuel => True
  end.
Proof.
  revert picked r. induction fuel as [|fuel IH]; intros picked r Hp;
    cbn [generate_loop]; case_decide as Hlt; [done| | |].
  1,3: cbn [fst]; apply full_buffer_ok; [done|lia].
  pose proof (ReadFull_outcome (S fuel) n [] r) as Hr.
  destruct (ReadFull (S fuel) n [] r) as [[[bs|e]| |] r1]; cbn [fst] in *; [|by exists e|done..].
  rewrite Nat.min_r in * by lia. rewrite scan_spec by lia.
  apply IH. apply Forall_app. split; [done|apply sample_in_charset].
Qed.

(** How a call can end. *)
Lemma Generate_cases {R} `{io_Reader R} fuel g (r : R) :
  match (Generate fuel g r).1 with
  | Done (Ok s) => Z.of_nat (String.length s) = size g /\
                   Forall (fun c => c ∈ bytes_of charset) (bytes_of s)
  | Done (Err e) => exists e0, e = Errorf "generate random bytes: " e0 "" /\
                               reader_error (R := R) e0
  | Panics => size g < 0
  | OutOfFuel => 0 < size g
  end.
Proof.
  unfold Generate. destruct (Z.ltb_spec (size g) 0); [done|].
  pose proof (generate_loop_outcome fuel (Z.to_nat (size g)) [] r (Forall_nil_2 _)) as Ho.
  rewrite Nat.min_0_r in Ho. unfold buffer in Ho.
  rewrite take_nil, Nat.sub_0_r in Ho. simpl in Ho.
  destruct (decide (size g = 0)) as [E|Hne].
  - rewrite E in *. destruct fuel; simpl; (split; [reflexivity|constructor]).
  - destruct (generate_loop _ _ _ _ _) as [[[s|e]| |] r']; simpl in *; [|done..|lia].
    destruct Ho. split; [lia|done].
Qed.

Lemma Generate_ok {R} `{io_Reader R} fuel g (r : R) s r' :
  Generate fuel g r = (Done (Ok s), r') ->
  Z.of_nat (String.length s) = size g /\ Forall (fun c => c ∈ bytes_of charset) (bytes_of s).
Proof. intros E. pose proof (Generate_cases fuel g r) as Hc. by rewrite E in Hc. Qed.

(** ** Properties *)

(** C27: [Generate] is rejection sampling: it reads buffers until their accepted
    bytes are enough, and the alias is the first [size] of them, each mapped
    to its character.  With that many buffers available it returns, at the
    first buffer that suffices, having read nothing more. *)
Theorem Generate_correct {R} `{io_Reader R} fuel g (r : R) bs r' :
  0 < size g -> blocks_read (Z.to_nat (size g)) fuel r bs r' ->
  Z.of_nat (length (sample (concat (removelast bs)))) < size g <=
    Z.of_nat (length (sample (concat bs))) ->
  exists s, Generate fuel g r = (Done (Ok s), r') /\
    bytes_of s = take (Z.to_nat (size g)) (sample (concat bs)) /\
    Z.of_nat (String.length s) = size g /\
    Forall (fun c => c ∈ bytes_of charset) (bytes_of s).
Proof.
  intros Hg Hbs [Hlt Hge]. unfold Generate.
  destruct (Z.ltb_spec (size g) 0); [lia|].
  assert (Hne : bs <> []) by (intros ->; simpl in Hge; lia).
  pose proof (generate_loop_blocks _ _ _ _ _ [] Hbs Hne) as Hloop. simpl in Hloop.
  unfold buffer in Hloop. rewrite take_nil, Nat.sub_0_r in Hloop. simpl in Hloop.
  eexists. split; [apply Hloop; lia|].
  rewrite String.list_ascii_of_string_of_list_ascii. split_and!; [done| |].
  - rewrite length_of_bytes, length_take. lia.
  - apply Forall_take, sample_in_charset.
Qed.

(** C28: No modulo bias: of the 256 byte values, every character of the alphabet
    comes from exactly four accepted ones, and nothing else comes out. *)
Theorem pick_uniform c :
  length (filter (fun b => accepted b = true /\ pick b = c) all_bytes) =
    if decide (c ∈ bytes_of charset) then 4%nat else 0%nat.
Proof.
  assert (Hall : forallb (fun c => Nat.eqb
      (length (filter (fun b => accepted b = true /\ pick b = c) all_bytes))
      (if decide (c ∈ bytes_of charset) then 4%nat else 0%nat)) all_bytes = true)
    by (vm_compute; reflexivity).
  apply Nat.eqb_eq. revert c. apply forallb_all_bytes, Hall.
Qed.

(** The sizes the configuration does not rule out: none gives the empty alias
    without reading anything, a negative one panics. *)
Lemma Generate_degenerate {R} `{io_Reader R} fuel (r : R) :
  Generate fuel (New 0) r = (Done (Ok ""), r) /\
  forall n, n < 0 -> Generate fuel (New n) r = (Panics, r).
Proof.
  split; [by destruct fuel|]. intros n Hn. unfold Generate. by rewrite (proj2 (Z.ltb_lt _ _)).
Qed.

(** A call ends in one of three ways, whatever the reader does: an alias of
    [size] characters of the alphabet, the wrapped error of a read (so that
    [errors.Is] still finds it), or, when it is out of fuel, no end yet.  It
    panics exactly when the configured size is negative. *)
Theorem Generate_outcome {R} `{io_Reader R} fuel g (r : R) :
  ((Generate fuel g r).1 = Panics <-> size g < 0) /\
  (forall s, (Generate fuel g r).1 = Done (Ok s) ->
     Z.of_nat (String.length s) = size g /\ Forall (fun c => c ∈ bytes_of charset) (bytes_of s)) /\
  (forall e, (Generate fuel g r).1 = Done (Err e) ->
     exists e0, reader_error (R := R) e0 /\ forall t, errors_Is e t = errors_Is e0 t) /\
  ((Generate fuel g r).1 = OutOfFuel -> 0 < size g).
Proof.
  pose proof (Generate_cases fuel g r) as Hc. split.
  { split; [by intros E; rewrite E in Hc|]. intros Hneg. unfold Generate.
    by rewrite (proj2 (Z.ltb_lt _ _) Hneg). }
  destruct (Generate fuel g r) as [[[s|e]| |] r']; simpl in *; (split_and!; [..|done]); try done.
  - intros s' [= <-]. done.
  - destruct Hc as (e0 & -> & He0). intros e' [= <-]. by exists e0.
Qed.

(** ** Evaluation *)

(** A reader of a fixed byte list, ending with [io.EOF]. *)
#[export] Instance list_Reader : io_Reader (list ascii) :=
  fun n l => match l with
             | [] => (([], Some (Sentinel (SLib IoEOF))), [])
             | _ => ((take n l, None), drop n l)
             end.

(** The first buffer gives [62], [1] ([250] is rejected), the second [123]. *)
Lemma Generate_correct_witness :
  let block1 := ascii_of_nat <$> [250; 62; 1]%nat in
  let block2 := ascii_of_nat <$> [255; 123; 9]%nat in
  (exists s, Generate 9 (New 3) (block1 ++ block2) = (Done (Ok s), []) /\
     bytes_of s = take 3 (sample (block1 ++ block2)) /\ Z.of_nat (String.length s) = 3 /\
     Forall (fun c => c ∈ bytes_of charset) (bytes_of s)) /\
  take 3 (sample (block1 ++ block2)) = bytes_of "AB9".
Proof.
  intros block1 block2. split; [|vm_compute; reflexivity].
  apply (Generate_correct 9 (New 3) (block1 ++ block2) [block1; block2] []).
  - reflexivity.
  - econstructor; [vm_compute; reflexivity|].
    econstructor; [vm_compute; reflexivity|]. constructor.
  - vm_compute. split; [reflexivity|congruence].
Defined.
