(* ===== verification/Storage.v ===== *)
(** * The storage interface and its contract

    [Storage] is the Go interface the service and the cache program against
    ([URLRepository] in internal/service/url, [Storage] in
    internal/storage/redis).  [StorageSpec] is what an implementation promises:
    a map from aliases to URLs, at most one URL per alias, never overwritten.
    The service's theorems are proved against it; the Postgres repository and
    the cache discharge it. *)

From S2P Require Import Prelude GoErrors Authn Runtime.

Class Storage (W : Type) := {
  st_Save : context -> string -> string -> M W (option error);
  st_Get : context -> string -> M W (result string);
  st_Delete : context -> string -> M W (option error);
}.

(** [errors.Is] on a returned [error]; false on nil. *)
Definition err_Is (e : option error) (target : sentinel) : bool :=
  match e with Some e => errors_Is e target | None => false end.

(** ** The abstract store *)

(** [Save(url, alias)] takes the store [m] to [m'] and returns [e].  A failure
    other than the conflict may come after the row was written (a timeout on
    the answer), so it leaves both outcomes open. *)
Definition save_rel (m : gmap string string) (url alias : string) (e : option error)
    (m' : gmap string string) : Prop :=
  match e with
  | None => m !! alias = None /\ m' = <[alias := url]> m
  | Some e =>
      if errors_Is e (SDomain ErrURLExist) then is_Some (m !! alias) /\ m' = m
      else m' = m \/ (m !! alias = None /\ m' = <[alias := url]> m)
  end.

Definition get_rel (m : gmap string string) (alias : string) (r : result string) : Prop :=
  match r with
  | Ok u => m !! alias = Some u
  | Err e => errors_Is e (SDomain ErrURLNotFound) = true -> m !! alias = None
  end.

Definition delete_rel (m : gmap string string) (alias : string) (e : option error)
    (m' : gmap string string) : Prop :=
  match e with
  | None => is_Some (m !! alias) /\ m' = delete alias m
  | Some e =>
      if errors_Is e (SDomain ErrURLNotFound) then m !! alias = None /\ m' = m
      else m' = m \/ m' = delete alias m
  end.

Class StorageSpec (W : Type) `{!Storage W} := {
  urls : W -> gmap string string;
  store_wf : W -> Prop;
  Save_spec ctx url alias w e w' : store_wf w -> st_Save ctx url alias w = (e, w') ->
    store_wf w' /\ save_rel (urls w) url alias e (urls w');
  Get_spec ctx alias w r w' : store_wf w -> st_Get ctx alias w = (r, w') ->
    store_wf w' /\ urls w' = urls w /\ get_rel (urls w) alias r;
  Delete_spec ctx alias w e w' : store_wf w -> st_Delete ctx alias w = (e, w') ->
    store_wf w' /\ delete_rel (urls w) alias e (urls w');
}.

(** ** Computations that leave a view of the world alone *)

(** [Preserves R m]: [m] takes every world to one that [R] relates to it. *)
Class Preserves {W A} (R : W -> W -> Prop) (m : M W A) : Prop :=
  preserves w : R w (m w).2.

#[export] Instance Preserves_ret {W A} (R : W -> W -> Prop) `{!Reflexive R} (a : A) :
  Preserves R (mret a : M W A).
Proof. intros w. reflexivity. Qed.

#[export] Instance Preserves_bind {W A B} (R : W -> W -> Prop) `{!Transitive R}
    (m : M W A) (k : A -> M W B) :
  Preserves R m -> (forall a, Preserves R (k a)) -> Preserves R (m ≫= k).
Proof.
  intros Hm Hk w. specialize (Hm w). m_unfold. destruct (m w) as [a w1].
  etransitivity; [exact Hm|apply Hk].
Qed.

Lemma preserves_eq {W A} (R : W -> W -> Prop) (m : M W A) `{!Preserves R m} w a w' :
  m w = (a, w') -> R w w'.
Proof. intros E. pose proof (preserves (R := R) (m := m) w) as H. by rewrite E in H. Qed.

(** The clock and the cancellation signals do not touch what [R] observes. *)
Class RuntimePreserves {W} `{Runtime W} (R : W -> W -> Prop) := {
  time_Now_preserves :: Preserves R time_Now;
  ctx_canceled_preserves s :: Preserves R (ctx_canceled s);
}.

#[export] Instance ctx_Err_preserves {W} `{Runtime W} (R : W -> W -> Prop)
    `{!Reflexive R, !Transitive R, !RuntimePreserves R} ctx : Preserves R (ctx_Err ctx).
Proof.
  unfold ctx_Err. apply Preserves_bind; [apply _..|]. intros [|]; [apply _|].
  destruct (ctx_deadline ctx); apply _.
Qed.

#[export] Instance WithTimeout_preserves {W} `{Runtime W} (R : W -> W -> Prop)
    `{!Reflexive R, !Transitive R, !RuntimePreserves R} ctx d :
  Preserves R (WithTimeout ctx d).
Proof. unfold WithTimeout. apply _. Qed.

(** The store looks the same. *)
Definition same_store {W} `{StorageSpec W} (w w' : W) : Prop :=
  (store_wf w -> store_wf w') /\ urls w' = urls w.

#[export] Instance same_store_refl {W} `{StorageSpec W} : Reflexive same_store.
Proof. by split. Qed.
#[export] Instance same_store_trans {W} `{StorageSpec W} : Transitive same_store.
Proof. intros w1 w2 w3 [H1 E1] [H2 E2]. split; [tauto|congruence]. Qed.

(** ** Facts about the abstract store *)

(** What the store may look like after a [Save], whatever it returned. *)
Lemma save_rel_effect m url alias e m' : save_rel m url alias e m' ->
  m' = m \/ (m !! alias = None /\ m' = <[alias := url]> m).
Proof. unfold save_rel. destruct e as [e|]; [|tauto]. case_match; naive_solver. Qed.

Lemma save_rel_subseteq m url alias e m' : save_rel m url alias e m' -> m ⊆ m'.
Proof. intros [->|[Hn ->]]%save_rel_effect; [done|by apply insert_subseteq]. Qed.

Lemma delete_rel_effect m alias e m' : delete_rel m alias e m' -> delete alias m ⊆ m'.
Proof.
  assert (Hd : delete alias m ⊆ m) by apply delete_subseteq.
  unfold delete_rel. destruct e as [e|]; [destruct (errors_Is e _)|].
  - by intros [_ ->].
  - by intros [-> | ->].
  - by intros [_ ->].
Qed.

Lemma delete_rel_shrinks m alias e m' : delete_rel m alias e m' -> m' = m \/ m' = delete alias m.
Proof. unfold delete_rel. destruct e as [e|]; [destruct (errors_Is e _)|]; tauto. Qed.

(** The relations only look at the sentinels of an error, so wrapping is fine. *)
Lemma save_rel_wrap m url alias e m' b a :
  save_rel m url alias (Some e) m' -> save_rel m url alias (Some (Errorf b e a)) m'.
Proof. done. Qed.

Lemma get_rel_wrap m alias e b a : get_rel m alias (Err e) -> get_rel m alias (Err (Errorf b e a)).
Proof. done. Qed.

Lemma delete_rel_wrap m alias e m' b a :
  delete_rel m alias (Some e) m' -> delete_rel m alias (Some (Errorf b e a)) m'.
Proof. done. Qed.

#[export] Hint Resolve save_rel_wrap get_rel_wrap delete_rel_wrap : go.

(** ** Sequences of calls *)

Inductive call :=
| CSave (ctx : context) (url alias : string)
| CGet (ctx : context) (alias : string)
| CDelete (ctx : context) (alias : string).

Inductive reply :=
| RError (e : option error)
| RURL (r : result string).

Definition run_call {W} `{Storage W} (c : call) : M W reply :=
  match c with
  | CSave ctx u a => RError <$> st_Save ctx u a
  | CGet ctx a => RURL <$> st_Get ctx a
  | CDelete ctx a => RError <$> st_Delete ctx a
  end.

Fixpoint run_calls {W} `{Storage W} (cs : list call) : M W (list reply) :=
  match cs with
  | [] => mret []
  | c :: cs' => r ← run_call c; rs ← run_calls cs'; mret (r :: rs)
  end.

(** The abstract store's answer to a call. *)
Definition call_rel (m : gmap string string) (c : call) (r : reply) (m' : gmap string string) :
    Prop :=
  match c, r with
  | CSave _ u a, RError e => save_rel m u a e m'
  | CGet _ a, RURL r => m' = m /\ get_rel m a r
  | CDelete _ a, RError e => delete_rel m a e m'
  | _, _ => False
  end.

Inductive trace_rel : gmap string string -> list call -> list reply -> gmap string string -> Prop :=
| trace_nil m : trace_rel m [] [] m
| trace_cons m c r m1 cs rs m' :
    call_rel m c r m1 -> trace_rel m1 cs rs m' -> trace_rel m (c :: cs) (r :: rs) m'.

Lemma run_call_refines {W} `{StorageSpec W} c (w : W) r w' :
  store_wf w -> run_call c w = (r, w') -> store_wf w' /\ call_rel (urls w) c r (urls w').
Proof.
  intros Hwf. destruct c; simpl; m_unfold; destruct_let; intros [= <- <-]; simpl.
  - by eapply Save_spec.
  - destruct (Get_spec _ _ _ _ _ Hwf E) as (? & ? & ?). auto.
  - by eapply Delete_spec.
Qed.

(** Any sequence of calls to an implementation is one of the abstract store. *)
Lemma run_calls_refines {W} `{StorageSpec W} cs (w : W) rs w' :
  store_wf w -> run_calls cs w = (rs, w') ->
  store_wf w' /\ trace_rel (urls w) cs rs (urls w').
Proof.
  revert w rs. induction cs as [|c cs IH]; intros w rs Hwf; simpl.
  - intros [= <- <-]. split; [done|constructor].
  - unfold mbind, M_bind. destruct (run_call c w) as [r w1] eqn:Ec.
    destruct (run_calls cs w1) as [rs1 w2] eqn:Er. intros [= <- <-].
    destruct (run_call_refines _ _ _ _ Hwf Ec) as [Hwf1 Hc].
    destruct (IH _ _ Hwf1 Er) as [Hwf2 Ht]. split; [done|by econstructor].
Qed.

(** ** A weaker contract: what comes out was put in

    A storage that may answer with stale data still keeps any property [P] of
    the links it is given: it returns no other links than those it has been
    handed under that alias.  This is all the safety of the redirects needs. *)

Class SafeStorage (W : Type) `{Storage W} (P : string -> string -> Prop) := {
  safe : W -> Prop;
  safe_Save ctx u a w : P a u -> safe w -> safe (st_Save ctx u a w).2;
  safe_Get ctx a w : safe w -> safe (st_Get ctx a w).2;
  safe_Get_ok ctx a w u w' : safe w -> st_Get ctx a w = (Ok u, w') -> P a u;
  safe_Delete ctx a w : safe w -> safe (st_Delete ctx a w).2;
}.

(** Keeping a world safe. *)
Definition keeps_safe {W} (P : string -> string -> Prop) `{SafeStorage W P} (w w' : W) : Prop :=
  safe w -> safe w'.
#[export] Instance keeps_safe_refl {W} (P : string -> string -> Prop) `{SafeStorage W P} :
  Reflexive (keeps_safe P).
Proof. by intros w Hw. Qed.
#[export] Instance keeps_safe_trans {W} (P : string -> string -> Prop) `{SafeStorage W P} :
  Transitive (keeps_safe P).
Proof. intros w1 w2 w3 H12 H23 Hw. by apply H23, H12. Qed.

(** Every implementation of the contract is safe. *)
#[export] Program Instance StorageSpec_safe {W} `{StorageSpec W} (P : string -> string -> Prop) :
  SafeStorage W P :=
  {| safe w := store_wf w /\ map_Forall P (urls w) |}.
Next Obligation.
  intros W ? ? P ctx u a w Hau [Hwf HP]. destruct (st_Save ctx u a w) as [e w'] eqn:E.
  destruct (Save_spec _ _ _ _ _ _ Hwf E) as [Hwf' [Hs|[_ Hs]]%save_rel_effect];
    (split; [done|]); cbn [snd]; rewrite Hs; [done|by apply map_Forall_insert_2].
Qed.
Next Obligation.
  intros W ? ? P ctx a w [Hwf HP]. destruct (st_Get ctx a w) as [r w'] eqn:E.
  destruct (Get_spec _ _ _ _ _ Hwf E) as (Hwf' & Hu & _). split; [done|]. cbn [snd]. by rewrite Hu.
Qed.
Next Obligation.
  intros W ? ? P ctx a w u w' [Hwf HP] E.
  destruct (Get_spec _ _ _ _ _ Hwf E) as (_ & _ & Hr). by apply HP.
Qed.
Next Obligation.
  intros W ? ? P ctx a w [Hwf HP]. destruct (st_Delete ctx a w) as [e w'] eqn:E.
  destruct (Delete_spec _ _ _ _ _ Hwf E) as [Hwf' Hr]. split; [done|].
  cbn [snd] in *. apply delete_rel_shrinks in Hr as [-> | ->]; [done|by apply map_Forall_delete].
Qed.

(** ** Storage as one part of a larger world *)

Section Lift.
Context (C : Type) {W} `{StorageSpec W, Runtime W}.

Definition lift_storage : Storage (C * W) :=
  {| st_Save ctx u a := lift_snd (st_Save ctx u a);
     st_Get ctx a := lift_snd (st_Get ctx a);
     st_Delete ctx a := lift_snd (st_Delete ctx a) |}.

Program Definition lift_spec : @StorageSpec (C * W) lift_storage :=
  {| urls cw := urls cw.2; store_wf cw := store_wf cw.2 |}.
Next Obligation.
  intros ctx u a [c w] e [c' w'] Hwf. simpl. destruct (st_Save ctx u a w) eqn:E.
  intros [= -> -> ->]. by eapply Save_spec.
Qed.
Next Obligation.
  intros ctx a [c w] r [c' w'] Hwf. simpl. destruct (st_Get ctx a w) eqn:E.
  intros [= -> -> ->]. by eapply Get_spec.
Qed.
Next Obligation.
  intros ctx a [c w] e [c' w'] Hwf. simpl. destruct (st_Delete ctx a w) eqn:E.
  intros [= -> -> ->]. by eapply Delete_spec.
Qed.

Definition lift_runtime : Runtime (C * W) :=
  {| time_Now := lift_snd time_Now; ctx_canceled s := lift_snd (ctx_canceled s) |}.
End Lift.

(** ** An in-memory store, for evaluation *)

Module MapStorage.
(** A store that never fails, as a map; [Background]-style contexts are
    ignored. *)
Definition Save (url alias : string) : M (gmap string string) (option error) := fun m =>
  match m !! alias with
  | Some _ => (Some (Sentinel (SDomain ErrURLExist)), m)
  | None => (None, <[alias := url]> m)
  end.
Definition Get (alias : string) : M (gmap string string) (result string) := fun m =>
  match m !! alias with
  | Some u => (Ok u, m)
  | None => (Err (Sentinel (SDomain ErrURLNotFound)), m)
  end.
Definition Delete (alias : string) : M (gmap string string) (option error) := fun m =>
  match m !! alias with
  | Some _ => (None, delete alias m)
  | None => (Some (Sentinel (SDomain ErrURLNotFound)), m)
  end.

#[global] Instance storage : Storage (gmap string string) :=
  {| st_Save _ := Save; st_Get _ := Get; st_Delete _ := Delete |}.

#[global] Program Instance spec : StorageSpec (gmap string string) :=
  {| urls m := m; store_wf _ := True |}.
Next Obligation.
  intros ctx url alias m e m' _. simpl. unfold Save.
  destruct (m !! alias) eqn:E; intros [= <- <-]; simpl; by eauto.
Qed.
Next Obligation.
  intros ctx alias m r m' _. simpl. unfold Get.
  destruct (m !! alias) eqn:E; intros [= <- <-]; simpl; by eauto.
Qed.
Next Obligation.
  intros ctx alias m e m' _. simpl. unfold Delete.
  destruct (m !! alias) eqn:E; intros [= <- <-]; simpl; by eauto.
Qed.

(** With a clock that stands still and nothing canceled. *)
#[global] Instance runtime : Runtime (gmap string string) :=
  {| time_Now := fun m => (0, m); ctx_canceled := fun _ m => (false, m) |}.
End MapStorage.
