(* ===== verification/Service.v ===== *)
(** * internal/service/url: the service

    [Save], [Get] and [Delete] of the URL service over any repository and any
    alias generator.  The retry loop keeps Go's [int] attempt counter, which
    wraps around, so it carries fuel; [Save_terminates] shows that [MaxRetries]
    rounds are enough. *)

From S2P Require Import Prelude GoErrors GoStrings Authn Runtime Storage.

(** [type AliasGenerator interface] *)
Class AliasGenerator (W : Type) := Generate : M W (result string).

(** [type Config struct] *)
Record Config := { MaxRetries : Z }.

(** [Config.validate] *)
Definition validate (c : Config) : option error :=
  if MaxRetries c <=? 0
  then Some (Errorf "" (Sentinel (SService ErrInvalidConfig))
              (": max_retries must be positive, got " +:+ pretty (MaxRetries c)))
  else None.

(** [type Service struct]; the repository and the generator are the world's. *)
Record Service := { cfg : Config }.

(** [New] *)
Definition New (cfg : Config) : result Service :=
  match validate cfg with
  | Some err => Err err
  | None => Ok {| cfg := cfg |}
  end.

Section Service.
Context {W} `{Storage W, AliasGenerator W, Runtime W}.

(** [Service.saveAlias] *)
Definition saveAlias (ctx : context) (url alias : string) : M W (result string) :=
  err ← st_Save ctx url alias;
  match err with
  | Some e => mret (Err (wrap_op "service.URLService.saveAlias" e))
  | None => mret (Ok alias)
  end.

Definition op_saveGenerated : string := "service.URLService.saveGeneratedAlias".

(** The loop of [Service.saveGeneratedAlias], from the test on [attempt];
    [None] when out of fuel. *)
Fixpoint saveGenerated_loop (fuel : nat) (s : Service) (ctx : context) (url : string)
    (attempt : Z) : M W (option (result string)) :=
  if attempt <=? MaxRetries (cfg s) then
    match fuel with
    | O => mret None
    | S fuel' =>
        cerr ← ctx_Err ctx;
        match cerr with
        | Some e => mret (Some (Err (wrap_op op_saveGenerated e)))
        | None =>
            gen ← Generate;
            match gen with
            | Err e =>
                mret (Some (Err (Errorf (op_saveGenerated +:+ ": failed to generate alias: ") e "")))
            | Ok alias =>
                err ← st_Save ctx url alias;
                match err with
                | None => mret (Some (Ok alias))
                | Some e =>
                    if errors_Is e (SDomain ErrURLExist)
                    then saveGenerated_loop fuel' s ctx url (int64_wrap (attempt + 1))
                    else mret (Some (Err (wrap_op op_saveGenerated e)))
                end
            end
        end
    end
  else mret (Some (Err (ErrorString
         (op_saveGenerated +:+ ": failed to generate unique alias after " +:+
          pretty (MaxRetries (cfg s)) +:+ " retries")))).

(** [Service.saveGeneratedAlias] *)
Definition saveGeneratedAlias (fuel : nat) (s : Service) (ctx : context) (url : string) :
    M W (option (result string)) :=
  saveGenerated_loop fuel s ctx url 1.

(** [Service.Save] *)
Definition Save (fuel : nat) (s : Service) (ctx : context) (url alias : string) :
    M W (option (result string)) :=
  let url := TrimSpace url in
  let alias := TrimSpace alias in
  if bool_decide (url = "") then
    mret (Some (Err (wrap_op "service.URLService.Save" (Sentinel (SDomain ErrInvalidURL)))))
  else if bool_decide (alias <> "") then
    Some <$> saveAlias ctx url alias
  else saveGeneratedAlias fuel s ctx url.

(** [Service.Get] *)
Definition Get (s : Service) (ctx : context) (alias : string) : M W (result string) :=
  let op := "service.URLService.Get" in
  let alias := TrimSpace alias in
  if bool_decide (alias = "") then mret (Err (wrap_op op (Sentinel (SDomain ErrEmptyAlias))))
  else try url <- st_Get ctx alias else wrap_op op; mret (Ok url).

(** [Service.Delete] *)
Definition Delete (s : Service) (ctx : context) (alias : string) : M W (option error) :=
  let op := "service.URLService.Delete" in
  let alias := TrimSpace alias in
  if bool_decide (alias = "") then mret (Some (wrap_op op (Sentinel (SDomain ErrEmptyAlias))))
  else err ← st_Delete ctx alias;
       match err with
       | Some e => mret (Some (wrap_op op e))
       | None => mret None
       end.
End Service.

(** ** Reference: the bounded search for a free alias

    The loop without a counter: at most [n] rounds. *)
Section Reference.
Context {W} `{Storage W, AliasGenerator W, Runtime W}.

(** One round: [None] means a collision, to be retried. *)
Definition round (ctx : context) (url : string) : M W (option (result string)) :=
  cerr ← ctx_Err ctx;
  match cerr with
  | Some e => mret (Some (Err (wrap_op op_saveGenerated e)))
  | None =>
      gen ← Generate;
      match gen with
      | Err e =>
          mret (Some (Err (Errorf (op_saveGenerated +:+ ": failed to generate alias: ") e "")))
      | Ok alias =>
          err ← st_Save ctx url alias;
          mret (match err with
                | None => Some (Ok alias)
                | Some e => if errors_Is e (SDomain ErrURLExist) then None
                            else Some (Err (wrap_op op_saveGenerated e))
                end)
      end
  end.

Fixpoint rounds (n : nat) (exhausted : error) (ctx : context) (url : string) :
    M W (result string) :=
  match n with
  | O => mret (Err exhausted)
  | S n' => r ← round ctx url;
            match r with
            | Some res => mret res
            | None => rounds n' exhausted ctx url
            end
  end.

Definition gave_up (max : Z) : error :=
  ErrorString (op_saveGenerated +:+ ": failed to generate unique alias after " +:+
               pretty max +:+ " retries").
End Reference.

(** A storage that counts the calls of its [Save]. *)
#[local] Instance CountingStorage W `{Storage W} : Storage (nat * W) := {|
  st_Save ctx url alias '(n, w) :=
    let '(e, w') := st_Save ctx url alias w in (e, (S n, w'));
  st_Get ctx alias := lift_snd (st_Get ctx alias);
  st_Delete ctx alias := lift_snd (st_Delete ctx alias);
|}.
#[local] Instance CountingGenerator W `{AliasGenerator W} : AliasGenerator (nat * W) :=
  lift_snd Generate.
#[local] Instance CountingRuntime W `{Runtime W} : Runtime (nat * W) :=
  {| time_Now := lift_snd time_Now; ctx_canceled s := lift_snd (ctx_canceled s) |}.

(** ** What the service expects of its generator *)

(** Generating leaves the store alone, gives aliases without surrounding
    space, and its failures are not the store's. *)
Class GeneratorSpec (W : Type) `{StorageSpec W, AliasGenerator W} := {
  Generate_preserves :: Preserves same_store Generate;
  Generate_trimmed w a w' : Generate w = (Ok a, w') -> a <> "" /\ TrimSpace a = a;
  Generate_error w e w' d : Generate w = (Err e, w') -> errors_Is e (SDomain d) = false;
}.

(** ** Lemmas *)

Lemma validate_ok c : validate c = None <-> 0 < MaxRetries c.
Proof. unfold validate. destruct (Z.leb_spec (MaxRetries c) 0); naive_solver lia. Qed.

Section Loop.
Context {W} `{Storage W, AliasGenerator W, Runtime W}.
Implicit Types (w : W) (s : Service) (ctx : context) (url : string).

(** [collisions n w w']: [n] rounds from [w] all end in a collision. *)
Inductive collisions (ctx : context) (url : string) : nat -> W -> W -> Prop :=
| collisions_O w : collisions ctx url 0 w w
| collisions_S n w w1 w' :
    round ctx url w = (None, w1) -> collisions ctx url n w1 w' ->
    collisions ctx url (S n) w w'.

(** One turn of the loop is a round. *)
Lemma saveGenerated_loop_round fuel s ctx url attempt w :
  attempt <= MaxRetries (cfg s) ->
  saveGenerated_loop (S fuel) s ctx url attempt w =
    match round ctx url w with
    | (Some r, w') => (Some r, w')
    | (None, w') => saveGenerated_loop fuel s ctx url (int64_wrap (attempt + 1)) w'
    end.
Proof.
  intros Ha. cbn [saveGenerated_loop]. rewrite (proj2 (Z.leb_le _ _)) by done.
  unfold round. m_unfold. destruct (ctx_Err ctx w) as [[e|] w1]; [done|].
  destruct (Generate w1) as [[alias|e] w2]; [|done].
  destruct (st_Save ctx url alias w2) as [[e|] w3]; [|done].
  by destruct (errors_Is e _).
Qed.

Lemma saveGenerated_loop_exit fuel s ctx url attempt w :
  MaxRetries (cfg s) < attempt ->
  saveGenerated_loop fuel s ctx url attempt w =
    (Some (Err (gave_up (MaxRetries (cfg s)))), w).
Proof. intros. destruct fuel; simpl; by rewrite (proj2 (Z.leb_gt _ _)) by done. Qed.

Lemma saveGenerated_loop_rounds n fuel s ctx url attempt w :
  1 <= attempt -> attempt + Z.of_nat n = MaxRetries (cfg s) + 1 ->
  MaxRetries (cfg s) < int64_max -> (n <= fuel)%nat ->
  saveGenerated_loop fuel s ctx url attempt w =
    let '(r, w') := rounds n (gave_up (MaxRetries (cfg s))) ctx url w in (Some r, w').
Proof.
  unfold int64_max. revert fuel attempt w.
  induction n as [|n IH]; intros fuel attempt w Hone Hn Hmax Hf.
  - by rewrite saveGenerated_loop_exit by lia.
  - destruct fuel as [|fuel]; [lia|]. rewrite saveGenerated_loop_round by lia.
    cbn [rounds]. m_unfold. destruct (round ctx url w) as [[r|] w1]; [done|].
    rewrite int64_wrap_id by (unfold int64_min, int64_max; lia). apply IH; lia.
Qed.

Lemma saveGenerated_loop_collisions n fuel s ctx url attempt w w' :
  collisions ctx url n w w' ->
  1 <= attempt -> attempt + Z.of_nat n <= MaxRetries (cfg s) + 1 ->
  MaxRetries (cfg s) < int64_max ->
  saveGenerated_loop (n + fuel) s ctx url attempt w =
    saveGenerated_loop fuel s ctx url (attempt + Z.of_nat n) w'.
Proof.
  unfold int64_max. intros Hc. revert attempt.
  induction Hc as [w|n w w1 w' Hr Hc IH]; intros attempt Hone Hn Hmax.
  - by rewrite Z.add_0_r.
  - change (S n + fuel)%nat with (S (n + fuel)). rewrite saveGenerated_loop_round by lia.
    rewrite Hr. rewrite int64_wrap_id by (unfold int64_min, int64_max; lia).
    rewrite IH by lia. f_equal. lia.
Qed.
End Loop.

(** What the storage and the generator preserve, the service preserves. *)
Section Preserve.
Context {W} `{Storage W, AliasGenerator W, Runtime W}.
Context (R : W -> W -> Prop) `{!Reflexive R, !Transitive R}.

Lemma Save_preserves `{!RuntimePreserves R, !Preserves R Generate} fuel s ctx url alias :
  (forall ctx url alias, Preserves R (st_Save ctx url alias)) ->
  Preserves R (Save fuel s ctx url alias).
Proof.
  intros HS w. unfold Save. case_bool_decide; [done|]. case_bool_decide.
  - unfold saveAlias. m_unfold. pose proof (HS ctx (TrimSpace url) (TrimSpace alias) w) as Hw.
    by destruct (st_Save _ _ _ w) as [[e|] w1].
  - unfold saveGeneratedAlias. generalize 1 as attempt. revert w.
    induction fuel as [|fuel IH]; intros w attempt; cbn [saveGenerated_loop];
      destruct (attempt <=? _); try done.
    unfold mbind, M_bind. pose proof (preserves (R := R) (m := ctx_Err ctx) w) as Hc.
    destruct (ctx_Err ctx w) as [[e|] w1]; [done|].
    pose proof (preserves (R := R) (m := Generate) w1) as Hg.
    destruct (Generate w1) as [[a|e] w2]; [|by etransitivity].
    pose proof (HS ctx (TrimSpace url) a w2) as Hs. simpl in *.
    assert (Hw : R w w2) by by etransitivity.
    destruct (st_Save _ _ a w2) as [[e|] w3]; [|by etransitivity].
    destruct (errors_Is e _); [|by etransitivity]. etransitivity; [|apply IH]. by etransitivity.
Qed.

Lemma Get_preserves s ctx alias :
  Preserves R (st_Get ctx (TrimSpace alias)) -> Preserves R (Get s ctx alias).
Proof.
  intros HG w. unfold Get. case_bool_decide; [done|]. unfold check_err, mbind, M_bind.
  specialize (HG w). by destruct (st_Get _ _ w) as [[u|e] w1].
Qed.

Lemma Delete_preserves s ctx alias :
  Preserves R (st_Delete ctx (TrimSpace alias)) -> Preserves R (Delete s ctx alias).
Proof.
  intros HD w. unfold Delete. case_bool_decide; [done|]. unfold mbind, M_bind.
  specialize (HD w). by destruct (st_Delete _ _ w) as [[e|] w1].
Qed.
End Preserve.

Section Spec.
Context {W} `{StorageSpec W, AliasGenerator W, Runtime W}.
Context `{!GeneratorSpec W} `{!RuntimePreserves same_store}.
Implicit Types (w : W) (s : Service) (ctx : context) (url alias : string).

(** What saving a URL that is not blank does to the store. *)
Definition saved_rel (m : gmap string string) (url : string) (r : result string)
    (m' : gmap string string) : Prop :=
  match r with
  | Ok a => m !! a = None /\ m' = <[a := url]> m
  | Err _ => exists a, m' = m \/ (m !! a = None /\ m' = <[a := url]> m)
  end.

Lemma saved_rel_subseteq m url r m' : saved_rel m url r m' -> m ⊆ m'.
Proof.
  destruct r as [a|e]; simpl.
  - intros [Hn ->]. by apply insert_subseteq.
  - intros [a [->|[Hn ->]]]; [done|by apply insert_subseteq].
Qed.

Lemma saveAlias_spec ctx url alias w r w' :
  store_wf w -> saveAlias ctx url alias w = (r, w') ->
  store_wf w' /\ saved_rel (urls w) url r (urls w') /\
  match r with
  | Ok a => a = alias
  | Err e => (errors_Is e (SDomain ErrURLExist) = true ->
                is_Some (urls w !! alias) /\ urls w' = urls w) /\
             (urls w' = urls w \/ (urls w !! alias = None /\ urls w' = <[alias := url]> (urls w)))
  end.
Proof.
  intros Hwf. unfold saveAlias. m_unfold.
  destruct (st_Save ctx url alias w) as [e w1] eqn:Es.
  destruct (Save_spec _ _ _ _ _ _ Hwf Es) as [Hwf1 Hr].
  destruct e as [e|]; intros [= <- <-]; simpl; [|done].
  pose proof (save_rel_effect _ _ _ _ _ Hr) as Heff.
  split_and!; [done|by exists alias| |done].
  intros He. unfold save_rel in Hr. by rewrite He in Hr.
Qed.

Lemma round_spec ctx url w o w' :
  store_wf w -> round ctx url w = (o, w') ->
  store_wf w' /\
  match o with
  | None => urls w' = urls w
  | Some r => saved_rel (urls w) url r (urls w') /\
              match r with
              | Ok a => a <> "" /\ TrimSpace a = a
              | Err e => errors_Is e (SDomain ErrURLExist) = false
              end
  end.
Proof.
  intros Hwf. unfold round. m_unfold. destruct (ctx_Err ctx w) as [c w1] eqn:Ec.
  destruct (preserves_eq same_store _ _ _ _ Ec) as [Hwf1 Hu1].
  destruct c as [c|].
  { intros [= <- <-]. rewrite Hu1. split_and!; [auto|by exists ""; left|].
    by destruct (ctx_Err_sentinel _ _ _ _ Ec) as [->| ->]. }
  destruct (Generate w1) as [g w2] eqn:Eg.
  destruct (preserves_eq same_store _ _ _ _ Eg) as [Hwf2 Hu2].
  destruct g as [alias|e].
  - destruct (st_Save ctx url alias w2) as [e w3] eqn:Es.
    destruct (Save_spec _ _ _ _ _ _ (Hwf2 (Hwf1 Hwf)) Es) as [Hwf3 Hr].
    rewrite Hu2, Hu1 in Hr.
    destruct e as [e|]; intros [= <- <-]; (split; [done|]).
    + destruct (errors_Is e _) eqn:He; unfold save_rel in Hr; rewrite He in Hr; simpl; [tauto|].
      split; [by exists alias|done].
    + split; [done|]. by eapply Generate_trimmed.
  - intros [= <- <-]. rewrite Hu2, Hu1. split_and!; [auto|by exists ""; left|].
    rewrite errors_Is_Errorf. exact (Generate_error _ _ _ _ Eg).
Qed.

Lemma saveGenerated_loop_spec fuel s ctx url attempt w o w' :
  store_wf w -> saveGenerated_loop fuel s ctx url attempt w = (o, w') ->
  store_wf w' /\
  match o with
  | None => urls w' = urls w
  | Some r => saved_rel (urls w) url r (urls w') /\
              match r with
              | Ok a => a <> "" /\ TrimSpace a = a
              | Err e => errors_Is e (SDomain ErrURLExist) = false
              end
  end.
Proof.
  assert (Hexit : forall w m, store_wf w -> store_wf w /\
    saved_rel (urls w) url (Err (gave_up m)) (urls w) /\
    errors_Is (gave_up m) (SDomain ErrURLExist) = false)
    by (intros; split_and!; [done|by exists ""; left|done]).
  revert attempt w. induction fuel as [|fuel IH]; intros attempt w Hwf;
    destruct (Z.leb_spec attempt (MaxRetries (cfg s))) as [Ha|Ha].
  - cbn [saveGenerated_loop]. rewrite (proj2 (Z.leb_le _ _)) by done. by intros [= <- <-].
  - rewrite saveGenerated_loop_exit by done. intros [= <- <-]. by apply Hexit.
  - rewrite saveGenerated_loop_round by done.
    destruct (round ctx url w) as [o1 w1] eqn:Er.
    destruct (round_spec _ _ _ _ _ Hwf Er) as [Hwf1 Ho].
    destruct o1 as [r1|]; [by intros [= <- <-]|]. rewrite <- Ho. by apply IH.
  - rewrite saveGenerated_loop_exit by done. intros [= <- <-]. by apply Hexit.
Qed.
End Spec.

(** *** Counting the calls *)

Section Counting.
Context {W} `{Storage W, AliasGenerator W, Runtime W}.

Lemma lift_snd_run {C A} (m : M W A) (c : C) w a w' :
  m w = (a, w') -> lift_snd m (c, w) = (a, (c, w')).
Proof. intros E. unfold lift_snd. by rewrite E. Qed.

Lemma ctx_Err_count ctx n (w : W) :
  ctx_Err ctx (n, w) = let '(e, w') := ctx_Err ctx w in (e, (n, w')).
Proof.
  unfold ctx_Err. m_unfold. destruct (ctx_canceled (ctx_signal ctx) w) as [[|] w1]; [done|].
  destruct (ctx_deadline ctx); [|done]. unfold lift_snd. by destruct (time_Now w1).
Qed.

(** A counted round does what the round does, and calls [Save] at most once. *)
Lemma round_count ctx url n (w : W) :
  exists k, (k <= 1)%nat /\
    round ctx url (n, w) = let '(o, w') := round ctx url w in (o, ((k + n)%nat, w')).
Proof.
  unfold round. unfold mbind, M_bind. rewrite ctx_Err_count.
  destruct (ctx_Err ctx w) as [[e|] w1]; [by exists O; split; [lia|]|].
  unfold Generate at 1, CountingGenerator, lift_snd.
  destruct (Generate w1) as [[alias|e] w2]; [|by exists O; split; [lia|]].
  exists 1%nat. split; [lia|]. cbn [st_Save CountingStorage].
  by destruct (st_Save ctx url alias w2) as [e w3].
Qed.

Lemma saveGenerated_loop_count fuel s ctx url attempt n (w : W) :
  1 <= attempt -> MaxRetries (cfg s) < int64_max ->
  exists k, Z.of_nat k <= Z.max 0 (MaxRetries (cfg s) - attempt + 1) /\
    saveGenerated_loop fuel s ctx url attempt (n, w) =
      let '(o, w') := saveGenerated_loop fuel s ctx url attempt w in (o, ((k + n)%nat, w')).
Proof.
  unfold int64_max. revert attempt n w.
  induction fuel as [|fuel IH]; intros attempt n w Hone Hmax;
    (destruct (Z.leb_spec attempt (MaxRetries (cfg s))) as [Ha|Ha];
     [|exists O; rewrite !saveGenerated_loop_exit by done; split; [lia|done]]).
  - exists O. cbn [saveGenerated_loop]. rewrite (proj2 (Z.leb_le _ _)) by done.
    split; [lia|done].
  - rewrite !saveGenerated_loop_round by done.
    destruct (round_count ctx url n w) as (k1 & Hk1 & ->).
    destruct (round ctx url w) as [[r|] w1]; [exists k1; split; [lia|done]|].
    rewrite int64_wrap_id by (unfold int64_min, int64_max; lia).
    destruct (IH (attempt + 1) (k1 + n)%nat w1) as (k2 & Hk2 & ->); [lia..|].
    exists (k2 + k1)%nat. split; [lia|].
    destruct (saveGenerated_loop _ _ _ _ _ _) as [o w2]. by rewrite Nat.add_assoc.
Qed.
End Counting.

(** ** Effects *)

Section Effects.
Context {W} `{StorageSpec W, AliasGenerator W, Runtime W}.
Context `{!GeneratorSpec W} `{!RuntimePreserves same_store}.

(** The three ways through [Save]. *)
Lemma Save_cases fuel s ctx url alias (w : W) r w' :
  Save fuel s ctx url alias w = (Some r, w') ->
  (TrimSpace url = "" /\ w' = w /\
    r = Err (wrap_op "service.URLService.Save" (Sentinel (SDomain ErrInvalidURL)))) \/
  (TrimSpace url <> "" /\ TrimSpace alias <> "" /\
    saveAlias ctx (TrimSpace url) (TrimSpace alias) w = (r, w')) \/
  (TrimSpace url <> "" /\ TrimSpace alias = "" /\
    saveGenerated_loop fuel s ctx (TrimSpace url) 1 w = (Some r, w')).
Proof.
  unfold Save. case_bool_decide as Hu; [intros [= <- <-]; by left|].
  case_bool_decide as Ha; m_unfold.
  - destruct (saveAlias _ _ _ w) as [r1 w1]. intros [= <- <-]. right; by left.
  - intros E. right; right. split_and!; [done| |done].
    destruct (decide (TrimSpace alias = "")); [done|by destruct Ha].
Qed.

(** What any call of [Save] does to the store. *)
Lemma Save_outcome fuel s ctx url alias (w : W) o w' :
  store_wf w -> Save fuel s ctx url alias w = (o, w') ->
  store_wf w' /\ urls w ⊆ urls w' /\
  match o with
  | None => urls w' = urls w
  | Some (Ok a) => urls w !! a = None /\ urls w' = <[a := TrimSpace url]> (urls w) /\
                   (TrimSpace alias <> "" -> a = TrimSpace alias)
  | Some (Err e) =>
      (errors_Is e (SDomain ErrURLExist) = true ->
         is_Some (urls w !! TrimSpace alias) /\ urls w' = urls w) /\
      (urls w' = urls w \/ exists a, urls w !! a = None /\
         urls w' = <[a := TrimSpace url]> (urls w) /\ (TrimSpace alias <> "" -> a = TrimSpace alias))
  end.
Proof.
  intros Hwf. unfold Save. case_bool_decide.
  { intros [= <- <-]. split; [done|]. split; [done|]. split; [done|by left]. }
  case_bool_decide as Ha.
  - m_unfold. destruct (saveAlias _ _ _ w) as [r w1] eqn:E. intros [= <- <-].
    destruct (saveAlias_spec _ _ _ _ _ _ Hwf E) as (Hwf1 & Hs & Hr).
    split_and!; [done|by eapply saved_rel_subseteq|]. destruct r as [a|e]; [destruct Hs; by subst a|].
    split; [apply Hr|]. destruct Hr as [_ [Hr|[? ?]]]; [by left|right; by exists (TrimSpace alias)].
  - intros E. destruct (saveGenerated_loop_spec _ _ _ _ _ _ _ _ Hwf E) as (Hwf1 & Hs).
    destruct o as [r|]; [|by rewrite Hs]. destruct Hs as [Hs Hr].
    split_and!; [done|by eapply saved_rel_subseteq|]. destruct r as [a|e]; [by destruct Hs|].
    split; [congruence|]. destruct Hs as [a [Hs|[? ?]]]; [by left|right; by exists a].
Qed.

Lemma Save_effect fuel s ctx url alias (w : W) a w' :
  store_wf w -> Save fuel s ctx url alias w = (Some (Ok a), w') ->
  store_wf w' /\ urls w !! a = None /\ urls w' = <[a := TrimSpace url]> (urls w) /\ a <> "".
Proof.
  intros Hwf [(_ & _ & [=])|[(_ & Hne & E)|(_ & _ & E)]]%Save_cases.
  - destruct (saveAlias_spec _ _ _ _ _ _ Hwf E) as (? & [??] & ->). done.
  - by destruct (saveGenerated_loop_spec _ _ _ _ _ _ _ _ Hwf E) as (? & [??] & ? & _).
Qed.

Lemma Get_effect s ctx alias (w : W) r w' :
  store_wf w -> Get s ctx alias w = (r, w') -> TrimSpace alias <> "" ->
  store_wf w' /\ urls w' = urls w /\ get_rel (urls w) (TrimSpace alias) r.
Proof.
  intros Hwf HG Ha. unfold Get in HG. rewrite bool_decide_eq_false_2 in HG by done.
  unfold check_err in HG. m_unfold. destruct (st_Get _ _ w) as [r1 w1] eqn:E.
  destruct (Get_spec _ _ _ _ _ Hwf E) as (Hwf' & Hu & Hr).
  destruct r1; injection HG as <- <-; auto with go.
Qed.

Lemma Delete_effect s ctx alias (w : W) e w' :
  store_wf w -> Delete s ctx alias w = (e, w') -> TrimSpace alias <> "" ->
  store_wf w' /\ delete_rel (urls w) (TrimSpace alias) e (urls w').
Proof.
  intros Hwf HD Ha. unfold Delete in HD. rewrite bool_decide_eq_false_2 in HD by done.
  m_unfold. destruct (st_Delete _ _ w) as [e1 w1] eqn:E.
  destruct (Delete_spec _ _ _ _ _ Hwf E) as (Hwf' & Hr).
  destruct e1; injection HD as <- <-; auto with go.
Qed.
End Effects.

(** ** Sequences of calls on the service *)

Inductive service_answer :=
| ASave (r : option (result string))
| AGet (r : result string)
| ADelete (e : option error).

Definition serve_call {W} `{Storage W, AliasGenerator W, Runtime W} (fuel : nat) (s : Service)
    (c : call) : M W service_answer :=
  match c with
  | CSave ctx u a => ASave <$> Save fuel s ctx u a
  | CGet ctx a => AGet <$> Get s ctx a
  | CDelete ctx a => ADelete <$> Delete s ctx a
  end.

Fixpoint serve_calls {W} `{Storage W, AliasGenerator W, Runtime W} (fuel : nat) (s : Service)
    (cs : list call) : M W (list service_answer) :=
  match cs with
  | [] => mret []
  | c :: cs' => r ← serve_call fuel s c; rs ← serve_calls fuel s cs'; mret (r :: rs)
  end.

(** [c] is no delete of [a]. *)
Definition spares (a : string) (c : call) : Prop :=
  match c with CDelete _ b => TrimSpace b <> a | _ => True end.

(** [c], answered with [r], stores no link under [a]: a [Save] that names another
    alias, or that succeeds with another.  One that fails without a name may have
    stored its link under any alias that was free. *)
Definition elsewhere (a : string) (c : call) (r : service_answer) : Prop :=
  match c, r with
  | CSave _ _ b, ASave (Some (Ok a')) => a' <> a
  | CSave _ _ b, ASave _ => TrimSpace b <> "" /\ TrimSpace b <> a
  | _, _ => True
  end.

Section Sequences.
Context {W} `{StorageSpec W, AliasGenerator W, Runtime W}.
Context `{!GeneratorSpec W} `{!RuntimePreserves same_store}.

(** A lookup or delete of a blank alias does not reach the store. *)
Lemma Get_store s ctx alias (w : W) r w' : store_wf w -> Get s ctx alias w = (r, w') ->
  store_wf w' /\ urls w' = urls w.
Proof.
  intros Hwf E. destruct (decide (TrimSpace alias = "")) as [Ha|Ha].
  - unfold Get in E. rewrite bool_decide_eq_true_2 in E by done. by injection E as <- <-.
  - by destruct (Get_effect _ _ _ _ _ _ Hwf E Ha) as (? & ? & _).
Qed.

Lemma Delete_store s ctx alias (w : W) e w' : store_wf w -> Delete s ctx alias w = (e, w') ->
  store_wf w' /\ (urls w' = urls w \/ urls w' = delete (TrimSpace alias) (urls w)).
Proof.
  intros Hwf E. destruct (decide (TrimSpace alias = "")) as [Ha|Ha].
  - unfold Delete in E. rewrite bool_decide_eq_true_2 in E by done. injection E as <- <-.
    split; [done|by left].
  - destruct (Delete_effect _ _ _ _ _ _ Hwf E Ha) as [? ?%delete_rel_shrinks]. done.
Qed.

Lemma serve_call_keep fuel s c a u (w : W) r w' :
  store_wf w -> urls w !! a = Some u -> spares a c -> serve_call fuel s c w = (r, w') ->
  store_wf w' /\ urls w' !! a = Some u /\ r <> ASave (Some (Ok a)).
Proof.
  intros Hwf Ha Hc. destruct c as [ctx u' b|ctx b|ctx b]; simpl; m_unfold; destruct_let;
    intros [= <- <-].
  - destruct (Save_outcome _ _ _ _ _ _ _ _ Hwf E) as (Hwf' & Hsub & Ho).
    split_and!; [done|by eapply lookup_weaken|]. intros [= ->]. destruct Ho. congruence.
  - destruct (Get_store _ _ _ _ _ _ Hwf E) as [? ->]. by split_and!.
  - destruct (Delete_store _ _ _ _ _ _ Hwf E) as [? [-> | ->]]; split_and!; try done.
    by rewrite lookup_delete_ne.
Qed.

Lemma serve_calls_keep fuel s cs a u (w : W) rs w' :
  store_wf w -> urls w !! a = Some u -> Forall (spares a) cs ->
  serve_calls fuel s cs w = (rs, w') ->
  store_wf w' /\ urls w' !! a = Some u /\ ~ (ASave (Some (Ok a)) ∈ rs).
Proof.
  intros Hwf Ha Hcs. revert w rs Hwf Ha. induction Hcs as [|c cs Hc Hcs IH]; intros w rs Hwf Ha; simpl.
  - intros [= <- <-]. split_and!; [done..|]. by apply not_elem_of_nil.
  - unfold mbind, M_bind. destruct (serve_call fuel s c w) as [r w1] eqn:Ec.
    destruct (serve_calls fuel s cs w1) as [rs1 w2] eqn:Er. intros [= <- <-].
    destruct (serve_call_keep _ _ _ _ _ _ _ _ Hwf Ha Hc Ec) as (Hwf1 & Ha1 & Hr).
    destruct (IH _ _ Hwf1 Ha1 Er) as (? & ? & ?). split_and!; [done..|].
    by apply not_elem_of_cons.
Qed.

Lemma serve_call_gone fuel s c a (w : W) r w' :
  store_wf w -> urls w !! a = None -> serve_call fuel s c w = (r, w') -> elsewhere a c r ->
  store_wf w' /\ urls w' !! a = None.
Proof.
  intros Hwf Ha. destruct c as [ctx u' b|ctx b|ctx b]; simpl; m_unfold; destruct_let;
    intros [= <- <-]; simpl.
  - match type of E with _ = (?r, _) => rename r into o end.
    destruct (Save_outcome _ _ _ _ _ _ _ _ Hwf E) as (Hwf1 & _ & Ho). intros Hels. split; [done|].
    destruct o as [[a'|e]|].
    + destruct Ho as (_ & -> & _). by rewrite lookup_insert_ne.
    + destruct Ho as (_ & [->|(a' & _ & -> & Ha')]); [done|].
      rewrite lookup_insert_ne; [done|]. rewrite Ha'; naive_solver.
    + by rewrite Ho.
  - intros _. destruct (Get_store _ _ _ _ _ _ Hwf E) as [? ->]. done.
  - intros _. destruct (Delete_store _ _ _ _ _ _ Hwf E) as [? [-> | ->]]; split; try done.
    by apply lookup_delete_None; right.
Qed.

Lemma serve_calls_gone fuel s cs a (w : W) rs w' :
  store_wf w -> urls w !! a = None -> serve_calls fuel s cs w = (rs, w') ->
  Forall2 (elsewhere a) cs rs -> store_wf w' /\ urls w' !! a = None.
Proof.
  revert w rs. induction cs as [|c cs IH]; intros w rs Hwf Ha; simpl.
  - by intros [= <- <-] _.
  - unfold mbind, M_bind. destruct (serve_call fuel s c w) as [r w1] eqn:Ec.
    destruct (serve_calls fuel s cs w1) as [rs1 w2] eqn:Er. intros [= <- <-] [Hc Hcs]%Forall2_cons.
    destruct (serve_call_gone _ _ _ _ _ _ _ Hwf Ha Ec Hc) as [Hwf1 Ha1]. by eapply IH.
Qed.
End Sequences.

(** ** Properties *)

Section Properties.
Context {W} `{StorageSpec W, AliasGenerator W, Runtime W}.
Context `{!GeneratorSpec W} `{!RuntimePreserves same_store}.

(** C14: [Save] refines "store a URL under an alias nobody has".  It returns an
    alias only when the trimmed URL is now stored under it and the alias was
    free, the one asked for if one was asked for.  On an error the store is
    what it was, save for one free alias that a failed write may have taken;
    a conflict is reported only for an alias the caller chose, and then it
    is taken and the store is untouched.  *)
Theorem Save_refines fuel s ctx url alias (w : W) r w' :
  store_wf w -> Save fuel s ctx url alias w = (Some r, w') ->
  store_wf w' /\ saved_rel (urls w) (TrimSpace url) r (urls w') /\
  match r with
  | Ok a => TrimSpace url <> "" /\ a <> "" /\ TrimSpace a = a /\
            (TrimSpace alias <> "" -> a = TrimSpace alias)
  | Err e => errors_Is e (SDomain ErrURLExist) = true ->
             is_Some (urls w !! TrimSpace alias) /\ urls w' = urls w
  end.
Proof.
  intros Hwf [(Hu & -> & ->)|[(Hu & Ha & E)|(Hu & Ha & E)]]%Save_cases.
  - split_and!; [done|by exists ""; left|done].
  - destruct (saveAlias_spec _ _ _ _ _ _ Hwf E) as (? & ? & Hr).
    split_and!; [done..|]. destruct r; [|apply Hr]. subst. by rewrite TrimSpace_idemp.
  - destruct (saveGenerated_loop_spec _ _ _ _ _ _ _ _ Hwf E) as (? & ? & Hr).
    split_and!; [done..|]. destruct r as [a|e]; [naive_solver|congruence].
Qed.

(** [Get] and [Delete] refine the lookup and the removal of the trimmed
    alias; the wrapping keeps the store's sentinels. *)
Theorem Get_Delete_refine s ctx alias (w : W) : store_wf w -> TrimSpace alias <> "" ->
  (forall r w', Get s ctx alias w = (r, w') ->
     store_wf w' /\ urls w' = urls w /\ get_rel (urls w) (TrimSpace alias) r) /\
  (forall e w', Delete s ctx alias w = (e, w') ->
     store_wf w' /\ delete_rel (urls w) (TrimSpace alias) e (urls w')).
Proof.
  intros Hwf Ha. split; intros r w' E.
  - by eapply Get_effect.
  - by eapply Delete_effect.
Qed.

(** C23: A link that was saved resolves to its trimmed URL, under the alias [Save]
    returned, padded or not, until it is deleted: after any lookups, saves and
    deletes of other aliases, a lookup gives that URL or an error other than not
    found, and no further [Save] is given the alias.  Once a [Delete] of it has
    succeeded no lookup follows it and no second [Delete] succeeds, whatever
    else is called, until a [Save] may have stored a link under it again. *)
Theorem Save_Get_Delete_roundtrip fuel s ctx url alias (w : W) a w1 cs answers w2 :
  store_wf w -> Save fuel s ctx url alias w = (Some (Ok a), w1) ->
  Forall (spares a) cs -> serve_calls fuel s cs w1 = (answers, w2) ->
  (forall ctx' a' r w3, TrimSpace a' = a -> Get s ctx' a' w2 = (r, w3) ->
     match r with
     | Ok u => u = TrimSpace url
     | Err e => errors_Is e (SDomain ErrURLNotFound) = false
     end) /\
  ~ (ASave (Some (Ok a)) ∈ answers) /\
  (forall ctx' a' w3 cs' answers' w4, TrimSpace a' = a -> Delete s ctx' a' w2 = (None, w3) ->
     serve_calls fuel s cs' w3 = (answers', w4) -> Forall2 (elsewhere a) cs' answers' ->
     forall ctx'' a'', TrimSpace a'' = a ->
     is_ok (Get s ctx'' a'' w4).1 = false /\ (Delete s ctx'' a'' w4).1 <> None).
Proof.
  intros Hwf HS Hcs Hrun.
  destruct (Save_effect _ _ _ _ _ _ _ _ Hwf HS) as (Hwf1 & _ & Hu1 & Hne).
  assert (Ha1 : urls w1 !! a = Some (TrimSpace url)) by (rewrite Hu1; apply lookup_insert_eq).
  destruct (serve_calls_keep _ _ _ _ _ _ _ _ Hwf1 Ha1 Hcs Hrun) as (Hwf2 & Ha2 & Hno).
  split_and!; [|done|].
  - intros ctx' a' r w3 Ha' HG.
    destruct (Get_effect _ _ _ _ _ _ Hwf2 HG) as (_ & _ & Hr); [congruence|].
    rewrite Ha' in Hr. destruct r as [u|e]; simpl in Hr; [congruence|].
    destruct (errors_Is e _); [|done]. naive_solver.
  - intros ctx' a' w3 cs' answers' w4 Ha' HD Hrun' Hels ctx'' a'' Ha''.
    destruct (Delete_effect _ _ _ _ _ _ Hwf2 HD) as (Hwf3 & _ & Hu3); [congruence|].
    assert (Ha3 : urls w3 !! a = None) by (rewrite Hu3, Ha'; apply lookup_delete_eq).
    destruct (serve_calls_gone _ _ _ _ _ _ _ Hwf3 Ha3 Hrun' Hels) as [Hwf4 Ha4].
    split.
    + destruct (Get s ctx'' a'' w4) as [[u|e] w5] eqn:HG; [|done].
      destruct (Get_effect _ _ _ _ _ _ Hwf4 HG) as (_ & _ & Hr); [congruence|]. simpl in Hr. congruence.
    + destruct (Delete s ctx'' a'' w4) as [[e|] w5] eqn:HD'; [done|].
      destruct (Delete_effect _ _ _ _ _ _ Hwf4 HD') as (_ & [u Hu] & _); congruence.
Qed.

(** C18: The retry loop ends.  With a [MaxRetries] that [New] accepts, and that is
    not the largest [int] (where the counter would wrap around before it
    exceeds the limit), [MaxRetries] rounds of fuel give a result, and it is
    the one of the bounded search without a counter. *)
Theorem Save_terminates fuel s ctx url (w : W) :
  0 < MaxRetries (cfg s) < int64_max -> (Z.to_nat (MaxRetries (cfg s)) <= fuel)%nat ->
  saveGeneratedAlias fuel s ctx url w =
    let '(r, w') := rounds (Z.to_nat (MaxRetries (cfg s)))
                      (gave_up (MaxRetries (cfg s))) ctx url w in (Some r, w').
Proof. intros Hm Hf. apply saveGenerated_loop_rounds; lia. Qed.

(** C22: Only collisions are retried: after [k] collisions, the next round that
    succeeds, fails otherwise, or finds the context done decides the result
    and is the last one; if all [MaxRetries] rounds collide, the search gives
    up without a further call. *)
Theorem saveGeneratedAlias_stops k fuel s ctx url (w wk : W) :
  0 < MaxRetries (cfg s) < int64_max -> collisions ctx url k w wk ->
  (forall r w', Z.of_nat k < MaxRetries (cfg s) -> round ctx url wk = (Some r, w') ->
     saveGeneratedAlias (k + S fuel) s ctx url w = (Some r, w')) /\
  (forall e w', Z.of_nat k < MaxRetries (cfg s) -> ctx_Err ctx wk = (Some e, w') ->
     saveGeneratedAlias (k + S fuel) s ctx url w =
       (Some (Err (wrap_op op_saveGenerated e)), w')) /\
  (Z.of_nat k = MaxRetries (cfg s) ->
     saveGeneratedAlias (k + fuel) s ctx url w =
       (Some (Err (gave_up (MaxRetries (cfg s)))), wk)).
Proof.
  unfold saveGeneratedAlias. intros Hm Hc.
  assert (Hlast : forall r w', Z.of_nat k < MaxRetries (cfg s) ->
    round ctx url wk = (Some r, w') ->
    saveGenerated_loop (k + S fuel) s ctx url 1 w = (Some r, w')).
  { intros r w' Hk Hr. rewrite (saveGenerated_loop_collisions _ _ _ _ _ _ _ _ Hc) by lia.
    rewrite saveGenerated_loop_round by lia. by rewrite Hr. }
  split_and!; [done| |].
  - intros e w' Hk He. apply Hlast; [done|]. unfold round. m_unfold. by rewrite He.
  - intros Hk. rewrite (saveGenerated_loop_collisions _ _ _ _ _ _ _ _ Hc) by lia.
    apply saveGenerated_loop_exit. lia.
Qed.

(** C21: The repository's [Save] is called at most once for a chosen alias, at
    most [MaxRetries] times for a generated one, and not at all for a blank
    URL; counting does not change the run. *)
Theorem Save_calls_bounded fuel s ctx url alias n (w : W) :
  0 < MaxRetries (cfg s) < int64_max ->
  exists k,
    Save fuel s ctx url alias (n, w) =
      (let '(o, w') := Save fuel s ctx url alias w in (o, ((k + n)%nat, w'))) /\
    Z.of_nat k <= (if decide (TrimSpace url = "") then 0
                   else if decide (TrimSpace alias = "") then MaxRetries (cfg s) else 1).
Proof.
  intros Hm. unfold Save. case_bool_decide as Hu; [exists O; by rewrite decide_True|].
  rewrite (decide_False (P := TrimSpace url = "")) by done.
  case_bool_decide as Ha.
  - exists 1%nat. rewrite decide_False by done. split; [|lia].
    unfold saveAlias. m_unfold. cbn [st_Save CountingStorage].
    by destruct (st_Save _ _ _ w) as [[e|] w1].
  - destruct (saveGenerated_loop_count fuel s ctx (TrimSpace url) 1 n w) as (k & Hk & HE);
      [lia..|].
    exists k. split; [exact HE|].
    destruct (decide (TrimSpace alias = "")); [lia|by destruct Ha].
Qed.

(** Surrounding white space of any input makes no difference. *)
Theorem Service_trims fuel s ctx url alias (w : W) :
  Save fuel s ctx url alias w = Save fuel s ctx (TrimSpace url) (TrimSpace alias) w /\
  Get s ctx alias w = Get s ctx (TrimSpace alias) w /\
  Delete s ctx alias w = Delete s ctx (TrimSpace alias) w.
Proof. unfold Save, Get, Delete. by rewrite !TrimSpace_idemp. Qed.
End Properties.

(** ** Evaluation *)

(** The in-memory store with a generator fed by a list of coin flips. *)
Module Feed.
Definition world : Type := list bool * gmap string string.

#[global] Instance storage : Storage world := lift_storage (list bool).
#[global] Instance spec : StorageSpec world := lift_spec (list bool).
#[global] Instance runtime : Runtime world := lift_runtime (list bool).
#[global] Instance generator : AliasGenerator world := fun '(l, m) =>
  match l with
  | [] => (Err (Sentinel (SLib IoEOF)), (l, m))
  | b :: l' => (Ok (if b : bool then "hot" else "cold"), (l', m))
  end.

#[global] Instance generator_spec : GeneratorSpec world.
Proof.
  split.
  - by intros [[|[] l] m].
  - intros [[|[] l] m] a w' [= <- <-]; by split.
  - by intros [[|[] l] m] e w' d [= <- <-].
Qed.

#[global] Instance runtime_preserves : RuntimePreserves (W := world) same_store.
Proof. split; [intros [l m]|intros s [l m]]; by split. Qed.

Definition service : Service := {| cfg := {| MaxRetries := 3 |} |}.
(** "hot" is taken; two collisions, then "cold" *)
Definition w0 : world := ([true; true; false; true], {["hot" := "https://a"]}).
End Feed.

Lemma Save_refines_witness :
  let m := {["hot" := "https://a"]} : gmap string string in
  saved_rel m "https://b" (Ok "cold") (<["cold" := "https://b"]> m).
Proof.
  edestruct (Save_refines 3 Feed.service Background " https://b " " " Feed.w0 (Ok "cold"))
    as (_ & Hr & _); [exact I|vm_compute; reflexivity|exact Hr].
Defined.

Lemma Get_Delete_refine_witness :
  (forall r w', Get Feed.service Background " hot" Feed.w0 = (r, w') ->
     get_rel {["hot" := "https://a"]} "hot" r) /\
  Get Feed.service Background " hot" Feed.w0 = (Ok "https://a", Feed.w0).
Proof.
  split; [|vm_compute; reflexivity]. intros r w' E.
  destruct (Get_Delete_refine Feed.service Background " hot" Feed.w0) as [HG _];
    [exact I|vm_compute; congruence|].
  destruct (HG r w' E) as (_ & _ & Hr). exact Hr.
Defined.

(** "cold" is saved; then followed, refused to another URL, and "hot" deleted and
    saved again; then "cold" is deleted, and "hot" followed. *)
Module Life.
Definition calls : list call :=
  [CGet Background " cold "; CSave Background "https://c" "cold"; CDelete Background "hot";
   CSave Background "https://d" "hot"].
Definition later : list call := [CGet Background "hot"; CGet Background "cold"].
Definition saved : Feed.world := ([true], <["cold" := "https://b"]> {["hot" := "https://a"]}).
Definition lived : Feed.world := (serve_calls 3 Feed.service calls saved).2.
Definition deleted : Feed.world := (Delete Feed.service Background "cold" lived).2.
End Life.

Lemma Save_Get_Delete_roundtrip_witness :
  (Get Feed.service Background "cold" Life.lived).1 = Ok "https://b" /\
  is_ok (Get Feed.service Background " cold"
           (serve_calls 3 Feed.service Life.later Life.deleted).2).1 = false.
Proof.
  destruct (Save_Get_Delete_roundtrip 3 Feed.service Background " https://b " " "
    Feed.w0 "cold" Life.saved Life.calls (serve_calls 3 Feed.service Life.calls Life.saved).1
    Life.lived) as (HG & _ & HD);
    [exact I|vm_compute; reflexivity| |apply surjective_pairing|].
  - repeat constructor. vm_compute. discriminate.
  - split.
    + destruct (Get Feed.service Background "cold" Life.lived) as [r w'] eqn:E.
      specialize (HG Background "cold" r w' eq_refl E). vm_compute in E. injection E as <- _.
      simpl in HG |- *. by rewrite HG.
    + apply (HD Background "cold" Life.deleted Life.later
        (serve_calls 3 Feed.service Life.later Life.deleted).1 _ eq_refl);
        [vm_compute; reflexivity|apply surjective_pairing|repeat constructor|reflexivity].
Defined.

Lemma Save_terminates_witness :
  saveGeneratedAlias 3 Feed.service Background "https://b" Feed.w0 =
    (Some (Ok "cold"), ([true], <["cold" := "https://b"]> {["hot" := "https://a"]})).
Proof.
  rewrite (Save_terminates 3 Feed.service Background "https://b" Feed.w0);
    [vm_compute; reflexivity|vm_compute; split; reflexivity|vm_compute; lia].
Defined.

Lemma saveGeneratedAlias_stops_witness :
  saveGeneratedAlias (2 + 1) Feed.service Background "https://b" Feed.w0 =
    (Some (Ok "cold"), ([true], <["cold" := "https://b"]> {["hot" := "https://a"]})).
Proof.
  destruct (saveGeneratedAlias_stops 2 0 Feed.service Background "https://b" Feed.w0
    ([false; true], {["hot" := "https://a"]})) as (Hstop & _ & _).
  - vm_compute. split; reflexivity.
  - do 2 (econstructor; [vm_compute; reflexivity|]). constructor.
  - apply Hstop; vm_compute; reflexivity.
Defined.

Lemma Save_calls_bounded_witness :
  exists k, Save 3 Feed.service Background "https://b" "" (O, Feed.w0) =
    (let '(o, w') := Save 3 Feed.service Background "https://b" "" Feed.w0 in
     (o, ((k + 0)%nat, w'))) /\ Z.of_nat k <= 3.
Proof.
  apply (Save_calls_bounded 3 Feed.service Background "https://b" "" O Feed.w0).
  vm_compute. split; reflexivity.
Defined.
