(* ===== verification/Postgres.v ===== *)
(** * internal/storage/postgres: the repository

    [PostgresRepo] over a pgx connection pool.  The pool is not part of the
    program: [PgPool] is its interface, [PgPoolSpec] what PostgreSQL documents
    about the three statements on the table of migrations/000001_init.up.sql
    (a column [alias] that is UNIQUE, whose constraint PostgreSQL names
    [url_alias_key]).  The repository is shown to implement the storage
    contract, which rests on the uniqueness of the aliases. *)

From S2P Require Import Prelude GoErrors GoStrings Authn Runtime Storage.

(** ** The connection pool *)

Class PgPool (W : Type) := {
  (** [pool.Exec]: the number of rows affected *)
  pool_Exec : context -> string -> list string -> M W (result Z);
  (** [pool.QueryRow(...).Scan(&s)] for a single text column *)
  pool_QueryRow : context -> string -> list string -> M W (result string);
  pool_Ping : context -> M W (option error);
}.

(** ** The repository *)

Definition insertURLQuery : string :=
  "
        INSERT INTO urlshortener.url (url, alias)
        VALUES ($1, $2);
    ".
Definition selectURLQuery : string :=
  "
        SELECT url
        FROM urlshortener.url
        WHERE alias = $1;
    ".
Definition deleteURLQuery : string :=
  "
        DELETE FROM urlshortener.url
        WHERE alias = $1;
    ".

Definition pgUniqueViolation : string := "23505".
Definition urlAliasConstraint : string := "url_alias_key".
Definition defaultQueryTimeout : Z := 5 * Second.

Section PostgresRepo.
Context {W} `{PgPool W, Runtime W}.

(** [PostgresRepo.Save] *)
Definition Save (ctx : context) (rawURL alias : string) : M W (option error) :=
  let op := "storage.postgres.Save" in
  ctx ← WithTimeout ctx defaultQueryTimeout;
  res ← pool_Exec ctx insertURLQuery [rawURL; alias];
  match res with
  | Err err =>
      match errors_As_PgError err with
      | Some (Code, ConstraintName) =>
          if bool_decide (Code = pgUniqueViolation) &&
             bool_decide (ConstraintName = urlAliasConstraint)
          then mret (Some (wrap_op op (Sentinel (SDomain ErrURLExist))))
          else mret (Some (wrap_op op err))
      | None => mret (Some (wrap_op op err))
      end
  | Ok RowsAffected =>
      if negb (RowsAffected =? 1)
      then mret (Some (ErrorString
             (op +:+ ": unexpected rows affected: " +:+ pretty RowsAffected)))
      else mret None
  end.

(** [PostgresRepo.Get] *)
Definition Get (ctx : context) (alias : string) : M W (result string) :=
  let op := "storage.postgres.Get" in
  ctx ← WithTimeout ctx defaultQueryTimeout;
  res ← pool_QueryRow ctx selectURLQuery [alias];
  match res with
  | Err err =>
      if errors_Is err (SLib PgxErrNoRows)
      then mret (Err (wrap_op op (Sentinel (SDomain ErrURLNotFound))))
      else mret (Err (wrap_op op err))
  | Ok urlToGet => mret (Ok urlToGet)
  end.

(** [PostgresRepo.Delete] *)
Definition Delete (ctx : context) (alias : string) : M W (option error) :=
  let op := "storage.postgres.Delete" in
  ctx ← WithTimeout ctx defaultQueryTimeout;
  res ← pool_Exec ctx deleteURLQuery [alias];
  match res with
  | Err err => mret (Some (wrap_op op err))
  | Ok RowsAffected =>
      if negb (RowsAffected =? 1)
      then mret (Some (wrap_op op (Sentinel (SDomain ErrURLNotFound))))
      else mret None
  end.

(** [PostgresRepo.Ping] *)
Definition Ping (ctx : context) : M W (option error) := pool_Ping ctx.

Definition PostgresRepo : Storage W :=
  {| st_Save := Save; st_Get := Get; st_Delete := Delete |}.
End PostgresRepo.

(** ** What PostgreSQL promises *)

(** A row of [urlshortener.url]. *)
Record url_row := { row_id : Z; row_alias : string; row_url : string }.

Definition with_alias (a : string) (t : list url_row) : list url_row :=
  filter (fun row => row_alias row = a) t.

(** The text of a driver error is not one of the program's sentinels. *)
Definition foreign (e : error) : Prop := forall d, errors_Is e (SDomain d) = false.

(** The INSERT has put the row in, with the next id of the sequence. *)
Definition inserted (t t' : list url_row) (u a : string) : Prop :=
  with_alias a t = [] /\ exists id, t' = t ++ [{| row_id := id; row_alias := a; row_url := u |}].

Class PgPoolSpec (W : Type) `{!PgPool W, !Runtime W} := {
  table : W -> list url_row;

  Exec_insert ctx u a w r w' :
    pool_Exec ctx insertURLQuery [u; a] w = (r, w') ->
    match r with
    | Ok n => n = 1 /\ inserted (table w) (table w') u a
    | Err e =>
        foreign e /\
        if bool_decide (errors_As_PgError e = Some (pgUniqueViolation, urlAliasConstraint))
        then with_alias a (table w) <> [] /\ table w' = table w
        else table w' = table w \/ inserted (table w) (table w') u a
    end;

  QueryRow_select ctx a w r w' :
    pool_QueryRow ctx selectURLQuery [a] w = (r, w') ->
    table w' = table w /\
    match r with
    | Ok u => exists row rest, with_alias a (table w) = row :: rest /\ u = row_url row
    | Err e => foreign e /\
               (errors_Is e (SLib PgxErrNoRows) = true -> with_alias a (table w) = [])
    end;

  Exec_delete ctx a w r w' :
    pool_Exec ctx deleteURLQuery [a] w = (r, w') ->
    let remaining := filter (fun row => row_alias row <> a) (table w) in
    match r with
    | Ok n => n = Z.of_nat (length (with_alias a (table w))) /\ table w' = remaining
    | Err e => foreign e /\ (table w' = table w \/ table w' = remaining)
    end;

  table_time : RuntimePreserves (fun w w' => table w' = table w);
}.

(** ** The table as a map *)

Definition unique_aliases (t : list url_row) : Prop := NoDup (row_alias <$> t).

Definition row_entry (row : url_row) : string * string := (row_alias row, row_url row).

Definition table_urls (t : list url_row) : gmap string string := list_to_map (row_entry <$> t).

Lemma row_entry_fst t : (row_entry <$> t).*1 = row_alias <$> t.
Proof. by rewrite <- list_fmap_compose. Qed.

Lemma with_alias_nil a t : with_alias a t = [] <-> a ∉ row_alias <$> t.
Proof.
  unfold with_alias. induction t as [|row t IH]; [split; [intros _; apply not_elem_of_nil|done]|].
  rewrite filter_cons, fmap_cons, not_elem_of_cons. case_decide; naive_solver.
Qed.

Lemma table_urls_None a t : table_urls t !! a = None <-> with_alias a t = [].
Proof.
  unfold table_urls. rewrite with_alias_nil, <- row_entry_fst.
  split; [apply not_elem_of_list_to_map_2|apply not_elem_of_list_to_map_1].
Qed.

(** With unique aliases at most one row matches, and it is the map's entry. *)
Lemma with_alias_cons a t row rest : unique_aliases t -> with_alias a t = row :: rest ->
  rest = [] /\ table_urls t !! a = Some (row_url row).
Proof.
  unfold unique_aliases, with_alias, table_urls.
  induction t as [|r t IH]; [done|]. rewrite filter_cons, !fmap_cons, NoDup_cons.
  intros [Hnin Hnd] Hw. case_decide as Hr.
  - injection Hw as -> Hrest. split.
    + rewrite <- Hrest. by apply with_alias_nil; subst.
    + simpl. rewrite Hr. by rewrite lookup_insert_eq.
  - destruct (IH Hnd Hw) as [-> Hl]. split; [done|]. simpl. by rewrite lookup_insert_ne.
Qed.

Lemma with_alias_count a t : unique_aliases t ->
  (length (with_alias a t) = 1%nat /\ is_Some (table_urls t !! a)) \/
  (length (with_alias a t) = 0%nat /\ table_urls t !! a = None).
Proof.
  intros Hu. destruct (with_alias a t) as [|row rest] eqn:E.
  - right. split; [done|by apply table_urls_None].
  - left. by destruct (with_alias_cons _ _ _ _ Hu E) as [-> ->].
Qed.

Lemma inserted_spec t t' u a : unique_aliases t -> inserted t t' u a ->
  unique_aliases t' /\ table_urls t !! a = None /\ table_urls t' = <[a := u]> (table_urls t).
Proof.
  unfold unique_aliases. intros Hu [Hfree [id ->]].
  split_and!; [|by apply table_urls_None|].
  - rewrite fmap_app. apply NoDup_app. split_and!; [done| |apply NoDup_singleton].
    intros b Hb ->%list_elem_of_singleton. by apply with_alias_nil in Hfree.
  - unfold table_urls. rewrite fmap_app. simpl.
    rewrite list_to_map_app. simpl. rewrite insert_empty.
    rewrite <- insert_union_singleton_r; [done|]. by apply table_urls_None.
Qed.

Lemma list_to_map_row r l :
  list_to_map (row_entry r :: l) =@{gmap string string} <[row_alias r := row_url r]> (list_to_map l).
Proof. reflexivity. Qed.

Lemma remaining_spec t a : unique_aliases t ->
  let t' := filter (fun row => row_alias row <> a) t in
  unique_aliases t' /\ table_urls t' = delete a (table_urls t).
Proof.
  unfold unique_aliases, table_urls. simpl. intros Hu. split.
  - eapply sublist_NoDup; [exact Hu|]. apply fmap_sublist, sublist_filter.
  - clear Hu. induction t as [|r t IH]; [symmetry; apply delete_empty|].
    rewrite filter_cons. case_decide as Hr; rewrite ?fmap_cons, ?list_to_map_row, IH.
    + symmetry. by apply delete_insert_ne.
    + destruct (decide (row_alias r = a)) as [->|]; [|done]. symmetry. apply delete_insert_eq.
Qed.

(** ** The repository implements the contract *)

Section Contract.
Context {W} `{PgPoolSpec W}.
#[local] Existing Instance PostgresRepo.
#[local] Existing Instance table_time.

Lemma WithTimeout_table ctx d (w : W) ctx' w' :
  WithTimeout ctx d w = (ctx', w') -> table w' = table w.
Proof.
  apply (preserves_eq (fun w w' => table w' = table w)).
  apply WithTimeout_preserves; [done|intros ? ? ?; congruence|apply _].
Qed.

Lemma Save_contract ctx u a (w : W) e w' : unique_aliases (table w) ->
  Save ctx u a w = (e, w') ->
  unique_aliases (table w') /\ save_rel (table_urls (table w)) u a e (table_urls (table w')).
Proof.
  intros Hu. unfold Save. m_unfold. destruct (WithTimeout _ _ w) as [c w1] eqn:Et.
  apply WithTimeout_table in Et. rewrite <- Et in Hu |- *.
  destruct (pool_Exec _ _ _ w1) as [r w2] eqn:Ex. apply Exec_insert in Ex.
  destruct r as [n|err].
  - destruct Ex as [-> Hi]. intros [= <- <-].
    destruct (inserted_spec _ _ _ _ Hu Hi) as (? & ? & ?). done.
  - destruct Ex as [Hf Hx]. case_bool_decide as Hpg.
    + rewrite Hpg. intros [= <- <-]. destruct Hx as [Hne ->]. split; [done|].
      split; [|done]. destruct (with_alias_count a _ Hu) as [[_ ?]|[Hl _]]; [done|].
      by destruct (with_alias a (table w1)).
    + assert (Hw : (Some (wrap_op "storage.postgres.Save" err), w2) = (e, w') ->
        unique_aliases (table w') /\
        save_rel (table_urls (table w1)) u a e (table_urls (table w'))).
      { intros [= <- <-]. simpl. rewrite Hf.
        destruct Hx as [->|Hi]; [by auto|].
        destruct (inserted_spec _ _ _ _ Hu Hi) as (? & ? & ?). auto. }
      destruct (errors_As_PgError err) as [[code constraint]|] eqn:Eas; [|done].
      repeat case_bool_decide; simpl; [congruence|done..].
Qed.

Lemma Get_contract ctx a (w : W) r w' : unique_aliases (table w) ->
  Get ctx a w = (r, w') ->
  unique_aliases (table w') /\ table_urls (table w') = table_urls (table w) /\
  get_rel (table_urls (table w)) a r.
Proof.
  intros Hu. unfold Get. m_unfold. destruct (WithTimeout _ _ w) as [c w1] eqn:Et.
  apply WithTimeout_table in Et. rewrite <- Et in Hu |- *.
  destruct (pool_QueryRow _ _ _ w1) as [q w2] eqn:Eq. apply QueryRow_select in Eq.
  destruct Eq as [Htab Hq]. destruct q as [url|err].
  - destruct Hq as (row & rest & Hw & ->). intros [= <- <-]. rewrite Htab.
    by destruct (with_alias_cons _ _ _ _ Hu Hw).
  - destruct Hq as [Hf Hnone]. destruct (errors_Is err (SLib PgxErrNoRows)) eqn:Enr;
      intros [= <- <-]; rewrite Htab; (split_and!; [done..|]); intros He.
    + by apply table_urls_None, Hnone.
    + simpl in He. by rewrite Hf in He.
Qed.

Lemma Delete_contract ctx a (w : W) e w' : unique_aliases (table w) ->
  Delete ctx a w = (e, w') ->
  unique_aliases (table w') /\ delete_rel (table_urls (table w)) a e (table_urls (table w')).
Proof.
  intros Hu. unfold Delete. m_unfold. destruct (WithTimeout _ _ w) as [c w1] eqn:Et.
  apply WithTimeout_table in Et. rewrite <- Et in Hu |- *.
  destruct (pool_Exec _ _ _ w1) as [r w2] eqn:Ex. apply Exec_delete in Ex.
  destruct (remaining_spec _ a Hu) as [Hu' Hd]. destruct r as [n|err].
  - destruct Ex as [-> Htab]. destruct (with_alias_count a _ Hu) as [[-> Hs]|[-> Hn]];
      intros [= <- <-]; rewrite Htab, Hd; (split; [done|]); [done|].
    split; [done|]. by apply delete_id.
  - destruct Ex as [Hf Hx]. intros [= <- <-]. simpl. rewrite Hf.
    destruct Hx as [-> | ->]; rewrite ?Hd; auto.
Qed.

Definition PostgresRepo_spec : StorageSpec W :=
  {| urls w := table_urls (table w); store_wf w := unique_aliases (table w);
     Save_spec := Save_contract; Get_spec := Get_contract; Delete_spec := Delete_contract |}.
End Contract.

(** ** A database in memory, for evaluation *)

(** A clock, the table, and the failures of the coming statements: the text of
    the error, and whether the statement took effect all the same. *)
Module SimPg.
Record world := { now : Z; rows : list url_row; faults : list (option (string * bool)) }.

(** The statement's own result and effect. *)
Definition statement (args : list string) (t : list url_row) : result Z * list url_row :=
  match args with
  | [u; a] =>
      match with_alias a t with
      | [] => (Ok 1, t ++ [{| row_id := Z.of_nat (length t); row_alias := a; row_url := u |}])
      | _ => (Err (PgError pgUniqueViolation urlAliasConstraint "duplicate key value"), t)
      end
  | [a] => (Ok (Z.of_nat (length (with_alias a t))),
            filter (fun row => row_alias row <> a) t)
  | _ => (Err (ErrorString "wrong number of arguments"), t)
  end.

(** Take the next failure, if there is one. *)
Definition next_fault (w : world) : option (string * bool) * list (option (string * bool)) :=
  match faults w with f :: fs => (f, fs) | [] => (None, []) end.

Definition Exec (ctx : context) (q : string) (args : list string) : M world (result Z) :=
  fun w =>
    let '(r, t) := statement args (rows w) in
    let '(f, fs) := next_fault w in
    match f with
    | Some (msg, applied) =>
        (Err (ErrorString msg),
         {| now := now w; rows := if applied && is_ok r then t else rows w; faults := fs |})
    | None => (r, {| now := now w; rows := t; faults := fs |})
    end.

Definition QueryRow (ctx : context) (q : string) (args : list string) :
    M world (result string) :=
  fun w =>
    let '(f, fs) := next_fault w in
    let w' := {| now := now w; rows := rows w; faults := fs |} in
    match f with
    | Some (msg, _) => (Err (ErrorString msg), w')
    | None =>
        match with_alias (hd "" args) (rows w) with
        | row :: _ => (Ok (row_url row), w')
        | [] => (Err (Sentinel (SLib PgxErrNoRows)), w')
        end
    end.

#[global] Instance pool : PgPool world :=
  {| pool_Exec := Exec; pool_QueryRow := QueryRow; pool_Ping := fun _ w => (None, w) |}.
#[global] Instance runtime : Runtime world :=
  {| time_Now := fun w => (now w, w); ctx_canceled := fun _ w => (false, w) |}.

Ltac sim_step :=
  unfold pool_Exec, pool_QueryRow, pool, Exec, QueryRow, statement, foreign, inserted;
  match goal with |- context [ next_fault ?w ] => destruct (next_fault w) as [[[msg applied]|] fs] end.

#[global] Program Instance pool_spec : PgPoolSpec world := {| table := rows |}.
Next Obligation.
  intros ctx u a w r w'. sim_step; destruct (with_alias a (rows w)) eqn:E; simpl;
    try destruct applied; intros [= <- <-]; simpl; repeat case_bool_decide; simpl in *;
    naive_solver.
Qed.
Next Obligation.
  intros ctx a w r w'. sim_step; simpl; try destruct (with_alias a (rows w)) eqn:E;
    intros [= <- <-]; simpl; naive_solver.
Qed.
Next Obligation.
  intros ctx a w r w'. sim_step; simpl; try destruct applied; intros [= <- <-]; simpl; naive_solver.
Qed.
Next Obligation. by split. Qed.

#[global] Instance repo : Storage world := PostgresRepo.
#[global] Instance repo_spec : StorageSpec world := PostgresRepo_spec.
End SimPg.

(** A pool that notes the statements and the contexts they run under. *)
Section Spy.
Context {W} `{PgPool W, Runtime W}.

Definition spied (W : Type) : Type := list (context * string) * W.

#[local] Instance spy_pool : PgPool (spied W) :=
  {| pool_Exec ctx q args '(log, w) :=
       let '(r, w') := pool_Exec ctx q args w in (r, (log ++ [(ctx, q)], w'));
     pool_QueryRow ctx q args '(log, w) :=
       let '(r, w') := pool_QueryRow ctx q args w in (r, (log ++ [(ctx, q)], w'));
     pool_Ping ctx := lift_snd (pool_Ping ctx) |}.
#[local] Instance spy_runtime : Runtime (spied W) := lift_runtime _.

(** The deadline [WithTimeout] leaves is no later than the caller's, nor than
    the timeout allows from the time [now]. *)
Definition bounded_by (ctx : context) (now : Z) (ctx' : context) : Prop :=
  ctx_signal ctx' = ctx_signal ctx /\
  exists dl, ctx_deadline ctx' = Some dl /\ dl <= now + defaultQueryTimeout /\
    (forall d, ctx_deadline ctx = Some d -> dl <= d).

Lemma WithTimeout_spy ctx log (w : W) ctx' sw :
  WithTimeout ctx defaultQueryTimeout (log, w) = (ctx', sw) ->
  sw.1 = log /\ bounded_by ctx (time_Now w).1 ctx'.
Proof.
  unfold WithTimeout. m_unfold. destruct (time_Now w) as [now w1]. intros [= <- <-].
  split; [done|]. split; [done|]. simpl. eexists. split; [done|].
  destruct (ctx_deadline ctx); split; try lia; naive_solver lia.
Qed.
End Spy.

Section Properties.
Context {W} `{PgPoolSpec W}.
#[local] Existing Instance PostgresRepo.
#[local] Existing Instance PostgresRepo_spec.
#[local] Existing Instances spy_pool spy_runtime.

(** C15: Any sequence of [Save], [Get] and [Delete] on the repository, failures of
    the database included, is one of the abstract store on the map the table
    stands for, and the aliases stay unique. *)
Theorem PostgresRepo_refines cs (w : W) rs w' :
  unique_aliases (table w) -> run_calls cs w = (rs, w') ->
  unique_aliases (table w') /\ trace_rel (table_urls (table w)) cs rs (table_urls (table w')).
Proof. exact (run_calls_refines cs w rs w'). Qed.

(** [e] is the driver's [err] wrapped by [op]: the text says what failed,
    [errors.Is] and [errors.As] see through to [err], and it is none of the
    domain errors. *)
Definition wrapped (op : string) (err e : error) : Prop :=
  error_text e = op +:+ ": " +:+ error_text err /\
  (forall t, errors_Is e t = errors_Is err t) /\
  errors_As_PgError e = errors_As_PgError err /\ foreign e.

Lemma wrapped_wrap_op op err : foreign err -> wrapped op err (wrap_op op err).
Proof.
  intros Hf. split_and!; [|done|done|exact Hf]. apply bytes_of_inj. simpl.
  by rewrite !bytes_of_app, app_nil_r, <- (assoc_L app).
Qed.

(** C35: The result of each operation, by what the driver answers to its one
    statement.  A unique violation of the alias is ErrURLExist, and then the
    alias is taken; no rows is ErrURLNotFound, from [Get] when the driver says
    so and from [Delete] when no row was affected, and then the alias is free;
    any other error of the driver comes back wrapped, with its chain and text,
    and is neither; without an error [Save] and [Delete] succeed and [Get]
    gives the URL of the alias's row. *)
Theorem PostgresRepo_errors ctx u a (w : W) ctx' w1 : unique_aliases (table w) ->
  WithTimeout ctx defaultQueryTimeout w = (ctx', w1) ->
  (forall r w2, pool_Exec ctx' insertURLQuery [u; a] w1 = (r, w2) ->
     exists e, Save ctx u a w = (e, w2) /\
     match r with
     | Ok _ => e = None
     | Err err =>
         if decide (errors_As_PgError err = Some (pgUniqueViolation, urlAliasConstraint))
         then e = Some (wrap_op "storage.postgres.Save" (Sentinel (SDomain ErrURLExist))) /\
              with_alias a (table w) <> []
         else exists e', e = Some e' /\ wrapped "storage.postgres.Save" err e'
     end) /\
  (forall r w2, pool_QueryRow ctx' selectURLQuery [a] w1 = (r, w2) ->
     exists res, Get ctx a w = (res, w2) /\
     match r with
     | Ok url => res = Ok url /\ row_url <$> with_alias a (table w) = [url]
     | Err err =>
         if decide (errors_Is err (SLib PgxErrNoRows) = true)
         then res = Err (wrap_op "storage.postgres.Get" (Sentinel (SDomain ErrURLNotFound))) /\
              with_alias a (table w) = []
         else exists e', res = Err e' /\ wrapped "storage.postgres.Get" err e'
     end) /\
  (forall r w2, pool_Exec ctx' deleteURLQuery [a] w1 = (r, w2) ->
     exists e, Delete ctx a w = (e, w2) /\
     match r with
     | Ok _ =>
         if decide (with_alias a (table w) = [])
         then e = Some (wrap_op "storage.postgres.Delete" (Sentinel (SDomain ErrURLNotFound)))
         else e = None
     | Err err => exists e', e = Some e' /\ wrapped "storage.postgres.Delete" err e'
     end).
Proof.
  intros Hu Et. unfold Save, Get, Delete. m_unfold. rewrite Et.
  apply WithTimeout_table in Et. rewrite <- Et in *. split_and!; intros r w2 Ex; rewrite Ex.
  - apply Exec_insert in Ex. destruct r as [n|err]; [destruct Ex as [-> _]; by eexists|].
    destruct Ex as [Hf Hx]. case_bool_decide as Hpg; case_decide; try done.
    + rewrite Hpg. simpl. eexists. split; [done|]. by destruct Hx.
    + exists (Some (wrap_op "storage.postgres.Save" err)).
      split; [|eexists; split; [done|by apply wrapped_wrap_op]].
      destruct (errors_As_PgError err) as [[code constraint]|]; [|done].
      repeat case_bool_decide; simpl; congruence.
  - apply QueryRow_select in Ex. destruct Ex as [_ Hx]. destruct r as [url|err].
    + destruct Hx as (row & rest & Hw & ->). exists (Ok (row_url row)). split_and!; [done..|].
      destruct (with_alias_cons _ _ _ _ Hu Hw) as [-> _]. by rewrite Hw.
    + destruct Hx as [Hf Hn]. case_decide as Hnr.
      * rewrite Hnr. eexists. split; [done|]. by auto.
      * apply not_true_is_false in Hnr. rewrite Hnr. eexists. split; [done|].
        eexists. split; [done|by apply wrapped_wrap_op].
  - apply Exec_delete in Ex. destruct r as [n|err].
    + destruct Ex as [-> _]. destruct (with_alias_count a _ Hu) as [[Hl _]|[Hl _]]; rewrite Hl;
        (eexists; split; [done|]); case_decide as Hd; try done; destruct (with_alias a _); done.
    + destruct Ex as [Hf _]. eexists. split; [done|].
      eexists. split; [done|by apply wrapped_wrap_op].
Qed.

(** C36: Each operation sends exactly one statement, its own, under a deadline that
    only ever tightens the caller's: at most [defaultQueryTimeout] from the
    time it starts. *)
Theorem one_bounded_statement ctx u a (w : W) :
  let check (m : spied W -> Prop) q :=
    forall sw, m sw -> exists ctx', sw.1 = [(ctx', q)] /\ bounded_by ctx (time_Now w).1 ctx' in
  check (fun sw => exists e, Save ctx u a ([], w) = (e, sw)) insertURLQuery /\
  check (fun sw => exists r, Get ctx a ([], w) = (r, sw)) selectURLQuery /\
  check (fun sw => exists e, Delete ctx a ([], w) = (e, sw)) deleteURLQuery.
Proof.
  unfold Save, Get, Delete. unfold mbind, M_bind.
  destruct (WithTimeout ctx defaultQueryTimeout ([], w)) as [c [log w1]] eqn:Et.
  apply WithTimeout_spy in Et as [Hlog Hb]. simpl in Hlog. subst log.
  split_and!; intros sw [r Hr]; exists c; cbn in Hr.
  - destruct (pool_Exec _ _ _ w1) as [[n|err] w2]; repeat case_match; by injection Hr as <- <-.
  - destruct (pool_QueryRow _ _ _ w1) as [[n|err] w2]; repeat case_match; by injection Hr as <- <-.
  - destruct (pool_Exec _ _ _ w1) as [[n|err] w2]; repeat case_match; by injection Hr as <- <-.
Qed.
End Properties.

Definition sim0 : SimPg.world :=
  {| SimPg.now := 0; SimPg.rows := []; SimPg.faults := [None; None; None; Some ("timeout"%string, true)] |}.

Lemma sim0_unique : unique_aliases (table sim0).
Proof. apply NoDup_nil_2. Qed.

(** Save, save again, look up, delete with a lost answer, look up. *)
Lemma PostgresRepo_refines_witness :
  let cs := [CSave Background "https://a" "x"; CSave Background "https://b" "x";
             CGet Background "x"; CDelete Background "x"; CGet Background "x"] in
  exists rs w', run_calls cs sim0 = (rs, w') /\ trace_rel ∅ cs rs ∅ /\
    last rs = Some (RURL (Err (wrap_op "storage.postgres.Get" (Sentinel (SDomain ErrURLNotFound))))).
Proof.
  intros cs. destruct (run_calls cs sim0) as [rs w'] eqn:E. exists rs, w'.
  destruct (PostgresRepo_refines cs sim0 rs w' sim0_unique E) as [_ Ht].
  vm_compute in E. injection E as <- <-. split_and!; [reflexivity|exact Ht|reflexivity].
Defined.

(** The alias is taken; then looked up when it is not there, and deleted with the
    answer lost. *)
Definition sim_taken (fs : list (option (string * bool))) : SimPg.world :=
  {| SimPg.now := 0; SimPg.rows := [{| row_id := 1; row_alias := "x"; row_url := "https://a" |}];
     SimPg.faults := fs |}.

Lemma PostgresRepo_errors_witness :
  (Save Background "https://b" "x" (sim_taken [])).1 =
    Some (wrap_op "storage.postgres.Save" (Sentinel (SDomain ErrURLExist))) /\
  (Get Background "y" (sim_taken [])).1 =
    Err (wrap_op "storage.postgres.Get" (Sentinel (SDomain ErrURLNotFound))) /\
  (exists e, (Delete Background "x" (sim_taken [Some ("timeout", true)])).1 = Some e /\
     error_text e = "storage.postgres.Delete: timeout" /\
     errors_Is e (SDomain ErrURLNotFound) = false).
Proof.
  assert (Hu : forall fs, unique_aliases (table (sim_taken fs))) by (intros fs; apply NoDup_singleton).
  split_and!.
  - destruct (PostgresRepo_errors Background "https://b" "x" (sim_taken []) _ _ (Hu _) eq_refl) as (HS & _).
    destruct (HS _ _ eq_refl) as (e & -> & He). destruct He as [-> _]. reflexivity.
  - destruct (PostgresRepo_errors Background "https://b" "y" (sim_taken []) _ _ (Hu _) eq_refl) as (_ & HG & _).
    destruct (HG _ _ eq_refl) as (e & -> & He). destruct He as [-> _]. reflexivity.
  - destruct (PostgresRepo_errors Background "https://b" "x" (sim_taken [Some ("timeout", true)])
      _ _ (Hu _) eq_refl) as (_ & _ & HD).
    destruct (HD _ _ eq_refl) as (e & -> & e' & -> & Ht & _ & _ & Hf). exists e'.
    split_and!; [reflexivity|exact Ht|exact (Hf ErrURLNotFound)].
Defined.
