(* ===== verification/Cache.v ===== *)
(** * internal/storage/redis: the cache in front of the repository

    [Cache] answers [Get] from Redis when it can and falls back to the next
    storage; a breaker skips Redis for a while after a failure.  Redis and the
    call deduplication of [singleflight] are not part of the program: [Redis]
    and [Singleflight] are their interfaces, [RedisSpec] and [SingleflightSpec]
    what they document.  Entries may vanish at any time, as keys expire and are
    evicted. *)

From S2P Require Import Prelude GoErrors Authn Runtime Storage.

(** ** Redis and singleflight *)

Class Redis (W : Type) := {
  rdb_Get : context -> string -> M W (result string);
  rdb_Set : context -> string -> string -> Z -> M W (option error);
  rdb_Del : context -> string -> M W (option error);
}.

(** What travels through [group.Do] as [interface{}]. *)
Inductive any : Type :=
| AnyString (s : string)
| AnyOther.

(** [group.Do(key, fn)] around effects on [S]. *)
Class Singleflight (S : Type) := group_Do : string -> M S (result any) -> M S (result any).

(** ** The cache *)

Definition redisCooldown : Z := 5 * Second.

(** The fields that do not change; [next] and [rdb] are the world's. *)
Record Cache := { ttl : Z }.

(** [New]; the breaker starts at zero. *)
Definition New (ttl : Z) : Cache := {| ttl := ttl |}.
Definition downUntil0 : Z := 0.

(** The mutable state, [downUntil] in Unix nanoseconds, beside the world. *)
Abbreviation CM W := (M (Z * W)).

(** [t.UnixNano()] *)
Definition UnixNano (t : Z) : Z := int64_wrap t.

Section Cache.
Context {W} `{Storage W, Redis W, Runtime W, Singleflight (Z * W)}.

(** [Cache.redisAvailable] *)
Definition redisAvailable : CM W bool :=
  now ← lift_snd time_Now;
  downUntil ← get_fst;
  mret (downUntil <=? UnixNano now).

(** [Cache.markRedisDown] *)
Definition markRedisDown : CM W unit :=
  now ← lift_snd time_Now;
  put_fst (UnixNano (now + redisCooldown)).

(** [Cache.Save] *)
Definition Save (c : Cache) (ctx : context) (url alias : string) : CM W (option error) :=
  err ← lift_snd (st_Save ctx url alias);
  match err with
  | Some e => mret (Some e)
  | None =>
      available ← redisAvailable;
      if negb available then mret None else
      serr ← lift_snd (rdb_Set ctx alias url (ttl c));
      match serr with
      | Some _ => _ ← markRedisDown; mret None
      | None => mret None
      end
  end.

(** The function [Cache.Get] hands to [group.Do]. *)
Definition Get_fill (c : Cache) (ctx : context) (alias : string) : CM W (result any) :=
  res ← lift_snd (st_Get ctx alias);
  match res with
  | Err e => mret (Err e)
  | Ok url =>
      available ← redisAvailable;
      if negb available then mret (Ok (AnyString url)) else
      serr ← lift_snd (rdb_Set ctx alias url (ttl c));
      match serr with
      | Some _ => _ ← markRedisDown; mret (Ok (AnyString url))
      | None => mret (Ok (AnyString url))
      end
  end.

(** [Cache.Get] after a miss. *)
Definition Get_next (c : Cache) (ctx : context) (alias : string) : CM W (result string) :=
  v ← group_Do alias (Get_fill c ctx alias);
  match v with
  | Err e => mret (Err e)
  | Ok (AnyString res) => mret (Ok res)
  | Ok AnyOther => mret (Err (ErrorString "invalid type from singleflight"))
  end.

(** [Cache.Get] *)
Definition Get (c : Cache) (ctx : context) (alias : string) : CM W (result string) :=
  available ← redisAvailable;
  if available : bool then
    res ← lift_snd (rdb_Get ctx alias);
    match res with
    | Ok val => mret (Ok val)
    | Err err =>
        if negb (errors_Is err (SLib RedisNil)) then
          _ ← markRedisDown; Get_next c ctx alias
        else Get_next c ctx alias
    end
  else Get_next c ctx alias.

(** [Cache.Delete] *)
Definition Delete (c : Cache) (ctx : context) (alias : string) : CM W (option error) :=
  err ← lift_snd (st_Delete ctx alias);
  match err with
  | Some e => mret (Some e)
  | None =>
      available ← redisAvailable;
      if negb available then mret None else
      derr ← lift_snd (rdb_Del ctx alias);
      match derr with
      | Some _ => _ ← markRedisDown; mret None
      | None => mret None
      end
  end.

Definition CacheStorage (c : Cache) : Storage (Z * W) :=
  {| st_Save := Save c; st_Get := Get c; st_Delete := Delete c |}.
End Cache.

(** ** What Redis and singleflight promise *)

(** A call with no other in flight for its key runs the function. *)
Class SingleflightSpec (S : Type) `{Singleflight S} :=
  Do_alone key fn (s : S) : group_Do key fn s = fn s.

Class RedisSpec (W : Type) `{StorageSpec W, Redis W, Runtime W} := {
  (** the live keys *)
  rmap : W -> gmap string string;

  rdb_Get_spec ctx k w r w' : rdb_Get ctx k w = (r, w') ->
    rmap w' ⊆ rmap w /\
    match r with
    | Ok v => rmap w !! k = Some v
    | Err e => True
    end;
  (** a failed write may have taken effect *)
  rdb_Set_spec ctx k v t w e w' : rdb_Set ctx k v t w = (e, w') ->
    rmap w' ⊆ <[k := v]> (rmap w) \/ (e <> None /\ rmap w' ⊆ rmap w);
  rdb_Del_spec ctx k w e w' : rdb_Del ctx k w = (e, w') ->
    rmap w' ⊆ rmap w /\ (e = None -> rmap w' !! k = None);

  (** Redis and the next storage are separate, and neither is the clock *)
  rdb_Get_store ctx k :: Preserves same_store (rdb_Get ctx k);
  rdb_Set_store ctx k v t :: Preserves same_store (rdb_Set ctx k v t);
  rdb_Del_store ctx k :: Preserves same_store (rdb_Del ctx k);
  st_Save_redis ctx u a w : rmap (st_Save ctx u a w).2 ⊆ rmap w;
  st_Get_redis ctx a w : rmap (st_Get ctx a w).2 ⊆ rmap w;
  st_Delete_redis ctx a w : rmap (st_Delete ctx a w).2 ⊆ rmap w;
  time_Now_redis w : rmap (time_Now w).2 ⊆ rmap w;
  time_Now_store :: Preserves same_store time_Now;
}.

(** ** The parts of the operations *)

Section Parts.
Context {W} `{Storage W, Redis W, Runtime W, Singleflight (Z * W)}.

(** The write-back [Save] and [Get] share, and the invalidation of [Delete]. *)
Definition if_available (m : CM W (option error)) : CM W unit :=
  available ← redisAvailable;
  if negb available then mret tt else
  err ← m;
  match err with Some _ => markRedisDown | None => mret tt end.

Definition offer (c : Cache) (ctx : context) (url alias : string) : CM W unit :=
  if_available (lift_snd (rdb_Set ctx alias url (ttl c))).

Definition invalidate (ctx : context) (alias : string) : CM W unit :=
  if_available (lift_snd (rdb_Del ctx alias)).

(** Both sides do the same once the calls are named. *)
Ltac run_parts d w cmd :=
  unfold offer, invalidate, if_available, redisAvailable, markRedisDown; m_unfold;
  let t := fresh "t" in let w1 := fresh "w" in
  destruct (time_Now w) as [t w1]; simpl; destruct (d <=? UnixNano t); simpl; [|done];
  let w2 := fresh "w" in destruct (cmd w1) as [[?|] w2]; simpl; [|done]; by destruct (time_Now w2).

Lemma Save_parts c ctx u a s :
  Save c ctx u a s =
    (err ← lift_snd (st_Save ctx u a);
     match err with
     | Some e => mret (Some e)
     | None => _ ← offer c ctx u a; mret None
     end) s.
Proof.
  destruct s as [d w]. unfold Save. m_unfold.
  destruct (st_Save ctx u a w) as [[e|] w1]; [done|]. run_parts d w1 (rdb_Set ctx a u (ttl c)).
Qed.

Lemma Get_fill_parts c ctx a s :
  Get_fill c ctx a s =
    (res ← lift_snd (st_Get ctx a);
     match res with
     | Err e => mret (Err e)
     | Ok u => _ ← offer c ctx u a; mret (Ok (AnyString u))
     end) s.
Proof.
  destruct s as [d w]. unfold Get_fill. m_unfold.
  destruct (st_Get ctx a w) as [[u|e] w1]; [|done]. run_parts d w1 (rdb_Set ctx a u (ttl c)).
Qed.

Lemma Delete_parts c ctx a s :
  Delete c ctx a s =
    (err ← lift_snd (st_Delete ctx a);
     match err with
     | Some e => mret (Some e)
     | None => _ ← invalidate ctx a; mret None
     end) s.
Proof.
  destruct s as [d w]. unfold Delete. m_unfold.
  destruct (st_Delete ctx a w) as [[e|] w1]; [done|]. run_parts d w1 (rdb_Del ctx a).
Qed.

(** The answer after a miss, with nothing else in flight. *)
Lemma Get_next_parts `{!SingleflightSpec (Z * W)} c ctx a s :
  Get_next c ctx a s =
    (res ← lift_snd (st_Get ctx a);
     match res with
     | Err e => mret (Err e)
     | Ok u => _ ← offer c ctx u a; mret (Ok u)
     end) s.
Proof.
  unfold Get_next. unfold mbind at 1, M_bind at 1. rewrite Do_alone, Get_fill_parts.
  destruct s as [d w]. m_unfold. destruct (st_Get ctx a w) as [[u|e] w1]; [|done].
  by destruct (offer c ctx u a (d, w1)).
Qed.

(** What it returns is the next storage's answer. *)
Lemma Get_next_from `{!SingleflightSpec (Z * W)} c ctx a d w r s' :
  Get_next c ctx a (d, w) = (r, s') -> exists w1, (st_Get ctx a w1).1 = r.
Proof.
  rewrite Get_next_parts. m_unfold. intros E. exists w.
  destruct (st_Get ctx a w) as [[u|e] w1]; [|by injection E as <- <-].
  destruct (offer _ _ _ _ _). by injection E as <- <-.
Qed.
End Parts.

(** ** Coherence *)

Section Coherence.
Context {W} `{RedisSpec W, !Singleflight (Z * W), !SingleflightSpec (Z * W)}.
Implicit Types (w : W) (d : Z) (c : Cache) (ctx : context).

(** Redis only knows what the store knows, the aliases of [X] excepted. *)
Definition coherent_except (X : gset string) (w : W) : Prop :=
  forall a v, a ∉ X -> rmap w !! a = Some v -> urls w !! a = Some v.

(** Nothing changed but that keys may have expired. *)
Definition quiet (w w' : W) : Prop := same_store w w' /\ rmap w' ⊆ rmap w.

#[local] Instance quiet_refl : Reflexive quiet.
Proof. by split. Qed.
#[local] Instance quiet_trans : Transitive quiet.
Proof. intros x y z [] []. split; by etransitivity. Qed.

Lemma time_Now_quiet w t w' : time_Now w = (t, w') -> quiet w w'.
Proof.
  intros E. split; [exact (preserves_eq same_store time_Now w t w' E)|].
  pose proof (time_Now_redis w) as Hr. by rewrite E in Hr.
Qed.

Lemma redisAvailable_quiet d w b s' : redisAvailable (d, w) = (b, s') -> quiet w s'.2.
Proof.
  unfold redisAvailable. m_unfold. destruct (time_Now w) as [t w1] eqn:E.
  intros [= <- <-]. by eapply time_Now_quiet.
Qed.

Lemma markRedisDown_quiet d w u s' : markRedisDown (d, w) = (u, s') -> quiet w s'.2.
Proof.
  unfold markRedisDown. m_unfold. destruct (time_Now w) as [t w1] eqn:E.
  intros [= <- <-]. by eapply time_Now_quiet.
Qed.

(** Running a Redis command when available does what the command does, or
    nothing. *)
Lemma if_available_spec (m : M W (option error)) (P : W -> W -> Prop) :
  (forall w e w1 w2, m w = (e, w1) -> quiet w1 w2 -> P w w2) ->
  (forall w w', quiet w w' -> P w w') ->
  (forall w w1 w2, quiet w w1 -> P w1 w2 -> P w w2) ->
  forall d w u s', if_available (lift_snd m) (d, w) = (u, s') -> P w s'.2.
Proof.
  intros Hm Hq Ht d w u s'. unfold if_available. unfold mbind, M_bind.
  destruct (redisAvailable (d, w)) as [b [d1 w1]] eqn:Ea.
  apply redisAvailable_quiet in Ea. simpl in Ea.
  destruct b; simpl; [|intros [= <- <-]; by apply Hq].
  destruct (m w1) as [[e|] w2] eqn:Em; intros E; (eapply Ht; [exact Ea|]).
  - eapply Hm; [exact Em|]. by eapply (markRedisDown_quiet d1 w2).
  - injection E as <- <-. eapply Hm; [exact Em|reflexivity].
Qed.

(** What a write-back leaves behind. *)
Definition offered (u a : string) w w' : Prop :=
  same_store w w' /\ (rmap w' ⊆ <[a := u]> (rmap w) \/ rmap w' ⊆ rmap w).

Lemma offer_spec c ctx u a d w x s' :
  offer c ctx u a (d, w) = (x, s') -> offered u a w s'.2.
Proof.
  apply (if_available_spec (rdb_Set ctx a u (ttl c)) (offered u a)); clear.
  - intros w e w1 w2 E [Hs Hr]. split.
    + etransitivity; [|exact Hs]. exact (preserves_eq same_store _ _ _ _ E).
    + destruct (rdb_Set_spec _ _ _ _ _ _ _ E) as [Hi|[_ Hi]]; [left|right]; by etransitivity.
  - intros w w' []. split; auto.
  - intros w w1 w2 [Hs Hr] [Hs' Hr']. split; [by etransitivity|].
    destruct Hr' as [Hr'|Hr']; [left|right]; (etransitivity; [exact Hr'|]);
      [by apply insert_mono|done].
Qed.

Lemma invalidate_spec ctx a d w x s' : invalidate ctx a (d, w) = (x, s') -> quiet w s'.2.
Proof.
  apply (if_available_spec (rdb_Del ctx a) quiet); clear.
  - intros w e w1 w2 E Hq. etransitivity; [|exact Hq].
    split; [exact (preserves_eq same_store _ _ _ _ E)|by eapply rdb_Del_spec].
  - done.
  - intros. by etransitivity.
Qed.

(** *** How coherence moves *)

Lemma coherent_shrink X w w' :
  urls w ⊆ urls w' -> rmap w' ⊆ rmap w -> coherent_except X w -> coherent_except X w'.
Proof.
  intros Hu Hr Hc a v Ha Hv. eapply lookup_weaken; [|exact Hu].
  apply Hc; [done|]. by eapply lookup_weaken.
Qed.

Lemma coherent_offered X u a w w' :
  urls w !! a = Some u -> offered u a w w' -> coherent_except X w -> coherent_except X w'.
Proof.
  intros Hu [[_ Hs] [Hr|Hr]] Hc b v Hb Hv; rewrite Hs;
    pose proof (lookup_weaken _ _ _ _ Hv Hr) as Hv'; [|by apply Hc].
  destruct (decide (a = b)) as [<-|Hne].
  - rewrite lookup_insert_eq in Hv'. congruence.
  - rewrite lookup_insert_ne in Hv' by done. by apply Hc.
Qed.

Lemma coherent_delete X a w w' :
  delete a (urls w) ⊆ urls w' -> rmap w' ⊆ rmap w -> coherent_except X w ->
  coherent_except ({[a]} ∪ X) w'.
Proof.
  intros Hu Hr Hc b v Hb Hv. eapply lookup_weaken; [|exact Hu].
  rewrite lookup_delete_ne by set_solver. apply Hc; [set_solver|]. by eapply lookup_weaken.
Qed.

(** *** The operations *)

Lemma st_Save_shrinks ctx u a w e w' : st_Save ctx u a w = (e, w') -> rmap w' ⊆ rmap w.
Proof. intros E. pose proof (st_Save_redis ctx u a w) as Hr. by rewrite E in Hr. Qed.
Lemma st_Get_shrinks ctx a w r w' : st_Get ctx a w = (r, w') -> rmap w' ⊆ rmap w.
Proof. intros E. pose proof (st_Get_redis ctx a w) as Hr. by rewrite E in Hr. Qed.
Lemma st_Delete_shrinks ctx a w e w' : st_Delete ctx a w = (e, w') -> rmap w' ⊆ rmap w.
Proof. intros E. pose proof (st_Delete_redis ctx a w) as Hr. by rewrite E in Hr. Qed.

Lemma Save_run X c ctx u a d w e s' : store_wf w -> coherent_except X w ->
  Save c ctx u a (d, w) = (e, s') ->
  store_wf s'.2 /\ coherent_except X s'.2 /\ save_rel (urls w) u a e (urls s'.2).
Proof.
  intros Hwf Hc. rewrite Save_parts. m_unfold.
  destruct (st_Save ctx u a w) as [e1 w1] eqn:Es.
  destruct (Save_spec _ _ _ _ _ _ Hwf Es) as [Hwf1 Hr].
  assert (Hc1 : coherent_except X w1).
  { eapply coherent_shrink; [by eapply save_rel_subseteq|by eapply st_Save_shrinks|done]. }
  destruct e1 as [e1|]; [by intros [= <- <-]|].
  destruct (offer c ctx u a (d, w1)) as [x s2] eqn:Eo. intros [= <- <-].
  apply offer_spec in Eo. destruct Hr as [Hn Hu].
  assert (Hu1 : urls w1 !! a = Some u) by (rewrite Hu; apply lookup_insert_eq).
  pose proof (coherent_offered _ _ _ _ _ Hu1 Eo Hc1) as Hc2.
  destruct Eo as [[Hs ->] _]. simpl. auto.
Qed.

Lemma Get_next_run X c ctx a d w r s' : store_wf w -> coherent_except X w ->
  Get_next c ctx a (d, w) = (r, s') ->
  store_wf s'.2 /\ coherent_except X s'.2 /\ urls s'.2 = urls w /\ get_rel (urls w) a r.
Proof.
  intros Hwf Hc. rewrite Get_next_parts. m_unfold.
  destruct (st_Get ctx a w) as [r1 w1] eqn:Es.
  destruct (Get_spec _ _ _ _ _ Hwf Es) as (Hwf1 & Hu & Hr).
  assert (Hc1 : coherent_except X w1).
  { eapply (coherent_shrink X w); [rewrite Hu; reflexivity|by eapply st_Get_shrinks|done]. }
  destruct r1 as [u|e1]; [|by intros [= <- <-]].
  destruct (offer c ctx u a (d, w1)) as [x s2] eqn:Eo. intros [= <- <-].
  apply offer_spec in Eo. simpl in Hr.
  assert (Hu1 : urls w1 !! a = Some u) by (by rewrite Hu).
  pose proof (coherent_offered _ _ _ _ _ Hu1 Eo Hc1) as Hc2.
  destruct Eo as [[Hs Hu2] _]. split_and!; [auto..| |done]. congruence.
Qed.

Lemma quiet_run X w w' : quiet w w' -> store_wf w -> coherent_except X w ->
  store_wf w' /\ coherent_except X w' /\ urls w' = urls w.
Proof.
  intros [[Hwf Hu] Hr] Hw Hc. split_and!; [auto| |done].
  eapply (coherent_shrink X w); [rewrite Hu; reflexivity|done..].
Qed.

Lemma Get_run X c ctx a d w r s' : store_wf w -> coherent_except X w ->
  Get c ctx a (d, w) = (r, s') ->
  store_wf s'.2 /\ coherent_except X s'.2 /\ urls s'.2 = urls w /\
  (a ∉ X -> get_rel (urls w) a r).
Proof.
  intros Hwf Hc. unfold Get. unfold mbind at 1, M_bind at 1.
  destruct (redisAvailable (d, w)) as [b [d1 w1]] eqn:Ea.
  apply redisAvailable_quiet in Ea. simpl in Ea.
  destruct (quiet_run _ _ _ Ea Hwf Hc) as (Hwf1 & Hc1 & Hu1).
  destruct b.
  - m_unfold. destruct (rdb_Get ctx a w1) as [r1 w2] eqn:Eg.
    destruct (rdb_Get_spec _ _ _ _ _ Eg) as [Hr1 Hv].
    assert (Hq : quiet w1 w2)
      by (split; [exact (preserves_eq same_store _ _ _ _ Eg)|done]).
    destruct (quiet_run _ _ _ Hq Hwf1 Hc1) as (Hwf2 & Hc2 & Hu2).
    destruct r1 as [v|e1].
    + intros [= <- <-]. split_and!; [done..|simpl; congruence|].
      intros Ha. simpl. rewrite <- Hu1. by apply Hc1.
    + destruct (negb _); simpl.
      * destruct (markRedisDown (d1, w2)) as [x [d3 w3]] eqn:Em.
        apply markRedisDown_quiet in Em. simpl in Em.
        destruct (quiet_run _ _ _ Em Hwf2 Hc2) as (Hwf3 & Hc3 & Hu3).
        intros En. destruct (Get_next_run _ _ _ _ _ _ _ _ Hwf3 Hc3 En) as (? & ? & -> & ?).
        by rewrite <- Hu1, <- Hu2, <- Hu3.
      * intros En. destruct (Get_next_run _ _ _ _ _ _ _ _ Hwf2 Hc2 En) as (? & ? & -> & ?).
        by rewrite <- Hu1, <- Hu2.
  - intros En. destruct (Get_next_run _ _ _ _ _ _ _ _ Hwf1 Hc1 En) as (? & ? & -> & ?).
    by rewrite <- Hu1.
Qed.

(** After a delete Redis may still know the alias, and nothing else. *)
Lemma Delete_run X c ctx a d w e s' : store_wf w -> coherent_except X w ->
  Delete c ctx a (d, w) = (e, s') ->
  store_wf s'.2 /\ coherent_except ({[a]} ∪ X) s'.2 /\ delete_rel (urls w) a e (urls s'.2).
Proof.
  intros Hwf Hc. rewrite Delete_parts. m_unfold.
  destruct (st_Delete ctx a w) as [e1 w1] eqn:Es.
  destruct (Delete_spec _ _ _ _ _ Hwf Es) as [Hwf1 Hr].
  assert (Hc1 : coherent_except ({[a]} ∪ X) w1).
  { eapply coherent_delete; [by eapply delete_rel_effect|by eapply st_Delete_shrinks|done]. }
  destruct e1 as [e1|]; [by intros [= <- <-]|].
  destruct (invalidate ctx a (d, w1)) as [x s2] eqn:Ei. intros [= <- <-].
  apply invalidate_spec in Ei.
  by destruct (quiet_run _ _ _ Ei Hwf1 Hc1) as (? & ? & ->).
Qed.

(** A delete that leaves the store as it was leaves Redis coherent. *)
Lemma Delete_kept X c ctx a d w e s' : store_wf w -> coherent_except X w ->
  Delete c ctx a (d, w) = (e, s') -> urls s'.2 = urls w -> coherent_except X s'.2.
Proof.
  intros Hwf Hc HD Hu. rewrite Delete_parts in HD. m_unfold.
  destruct (st_Delete ctx a w) as [e1 w1] eqn:Es.
  assert (Hsub : rmap s'.2 ⊆ rmap w); [|by apply (coherent_shrink X w); [rewrite Hu| |]].
  apply st_Delete_shrinks in Es. destruct e1 as [e1|]; [by injection HD as <- <-|].
  destruct (invalidate ctx a (d, w1)) as [x s2] eqn:Ei. injection HD as <- <-.
  apply invalidate_spec in Ei as [_ Hq]. by etransitivity.
Qed.
End Coherence.

(** ** The cache keeps properties of the links

    With no coherence at all, and for stale entries too. *)

Section Safety.
Context {W} `{RedisSpec W, !Singleflight (Z * W), !SingleflightSpec (Z * W)}.
Context (P : string -> string -> Prop).
Implicit Types (w : W) (d : Z) (c : Cache) (ctx : context).

Definition cache_safe (s : Z * W) : Prop :=
  store_wf s.2 /\ map_Forall P (urls s.2) /\ map_Forall P (rmap s.2).

Lemma map_Forall_shrink (m m' : gmap string string) :
  m' ⊆ m -> map_Forall P m -> map_Forall P m'.
Proof. intros Hsub HP a u Hu. apply HP. by eapply lookup_weaken. Qed.

Lemma quiet_safe d d' w w' : quiet w w' -> cache_safe (d, w) -> cache_safe (d', w').
Proof.
  intros [[Hwf Hu] Hr] (Hw & HP & HR). unfold cache_safe in *. simpl in *.
  split_and!; [auto|by rewrite Hu|by eapply map_Forall_shrink].
Qed.

Lemma offer_safe c ctx u a d w x s' : P a u -> cache_safe (d, w) ->
  offer c ctx u a (d, w) = (x, s') -> cache_safe s'.
Proof.
  intros Hau (Hw & HP & HR) Ho. destruct (offer_spec _ _ _ _ _ _ _ _ Ho) as [[Hwf Hu] Hr].
  unfold cache_safe in *. simpl in *. split_and!; [auto|by rewrite Hu|].
  destruct Hr as [Hr|Hr]; (eapply map_Forall_shrink; [exact Hr|]); [|done].
  by apply map_Forall_insert_2.
Qed.

Lemma Save_safe c ctx u a s : P a u -> cache_safe s -> cache_safe (Save c ctx u a s).2.
Proof.
  intros Hau Hs. rewrite Save_parts. destruct s as [d w]. m_unfold.
  destruct (st_Save ctx u a w) as [e w1] eqn:Es. destruct Hs as (Hw & HP & HR).
  destruct (Save_spec _ _ _ _ _ _ Hw Es) as [Hw1 Hr]. apply save_rel_effect in Hr.
  assert (Hs1 : cache_safe (d, w1)).
  { unfold cache_safe. simpl in *. split_and!; [done| |].
    - destruct Hr as [-> |[_ ->]]; [done|by apply map_Forall_insert_2].
    - eapply map_Forall_shrink; [by eapply st_Save_shrinks|done]. }
  destruct e as [e|]; [done|].
  destruct (offer c ctx u a (d, w1)) as [x s2] eqn:Eo. by eapply offer_safe.
Qed.

Lemma Get_next_safe c ctx a s r s' : cache_safe s -> Get_next c ctx a s = (r, s') ->
  cache_safe s' /\ (forall u, r = Ok u -> P a u).
Proof.
  intros Hs. rewrite Get_next_parts. destruct s as [d w]. m_unfold.
  destruct (st_Get ctx a w) as [r1 w1] eqn:Es. destruct Hs as (Hw & HP & HR).
  destruct (Get_spec _ _ _ _ _ Hw Es) as (Hw1 & Hu & Hr).
  assert (Hs1 : cache_safe (d, w1)).
  { unfold cache_safe. simpl in *. split_and!; [done|by rewrite Hu|].
    eapply map_Forall_shrink; [by eapply st_Get_shrinks|done]. }
  destruct r1 as [u|e]; [|by intros [= <- <-]]. assert (Hau : P a u) by by apply HP.
  destruct (offer c ctx u a (d, w1)) as [x s2] eqn:Eo. intros [= <- <-].
  split; [by eapply offer_safe|]. by intros ? [= <-].
Qed.

Lemma Get_safe c ctx a s r s' : cache_safe s -> Get c ctx a s = (r, s') ->
  cache_safe s' /\ (forall u, r = Ok u -> P a u).
Proof.
  destruct s as [d w]. intros Hs. unfold Get. unfold mbind at 1, M_bind at 1.
  destruct (redisAvailable (d, w)) as [b [d1 w1]] eqn:Ea.
  apply redisAvailable_quiet in Ea. simpl in Ea.
  assert (Hs1 : cache_safe (d1, w1)) by by eapply quiet_safe.
  destruct b; [|by apply Get_next_safe]. m_unfold.
  destruct (rdb_Get ctx a w1) as [r1 w2] eqn:Eg.
  destruct (rdb_Get_spec _ _ _ _ _ Eg) as [Hr Hv].
  assert (Hs2 : cache_safe (d1, w2)).
  { eapply quiet_safe; [split; [exact (preserves_eq same_store _ _ _ _ Eg)|done]|done]. }
  destruct r1 as [v|e].
  - intros [= <- <-]. split; [done|]. intros u [= <-]. destruct Hs1 as (_ & _ & HR). by apply HR.
  - destruct (negb _); [|by apply Get_next_safe].
    destruct (markRedisDown (d1, w2)) as [x [d3 w3]] eqn:Em.
    apply markRedisDown_quiet in Em. apply Get_next_safe. by eapply quiet_safe.
Qed.

Lemma Delete_safe c ctx a s : cache_safe s -> cache_safe (Delete c ctx a s).2.
Proof.
  intros Hs. rewrite Delete_parts. destruct s as [d w]. m_unfold.
  destruct (st_Delete ctx a w) as [e w1] eqn:Es. destruct Hs as (Hw & HP & HR).
  destruct (Delete_spec _ _ _ _ _ Hw Es) as [Hw1 Hr]. apply delete_rel_shrinks in Hr.
  assert (Hs1 : cache_safe (d, w1)).
  { unfold cache_safe. simpl in *. split_and!; [done| |].
    - destruct Hr as [-> | ->]; [done|by apply map_Forall_delete].
    - eapply map_Forall_shrink; [by eapply st_Delete_shrinks|done]. }
  destruct e as [e|]; [done|].
  destruct (invalidate ctx a (d, w1)) as [x [d2 w2]] eqn:Ei.
  apply invalidate_spec in Ei. by eapply quiet_safe.
Qed.
End Safety.

(** ** The contract of the cache *)

(** A delete may leave its alias behind in Redis; every other call does not. *)
Definition taint (c : call) (X : gset string) : gset string :=
  match c with CDelete _ a => {[a]} ∪ X | _ => X end.

(** The abstract store's answer, except that a lookup of an alias of [X] may
    be answered with anything. *)
Definition cached_call (X : gset string) (m : gmap string string) (c : call) (r : reply)
    (m' : gmap string string) : Prop :=
  match c with
  | CGet _ a => m' = m /\ (a ∉ X -> call_rel m c r m')
  | _ => call_rel m c r m'
  end.

Inductive cached_trace : gset string -> gmap string string -> list call -> list reply ->
    gmap string string -> Prop :=
| cached_nil X m : cached_trace X m [] [] m
| cached_cons X m c r m1 cs rs m' :
    cached_call X m c r m1 -> cached_trace (taint c X) m1 cs rs m' ->
    cached_trace X m (c :: cs) (r :: rs) m'.

Section Contract.
Context {W} `{RedisSpec W, !Singleflight (Z * W), !SingleflightSpec (Z * W)}.
Variable c : Cache.
#[local] Instance cache_storage : Storage (Z * W) := CacheStorage c.

Lemma run_call_cached X cl d w r s' : store_wf w -> coherent_except X w ->
  run_call cl (d, w) = (r, s') ->
  store_wf s'.2 /\ coherent_except (taint cl X) s'.2 /\
  cached_call X (urls w) cl r (urls s'.2).
Proof.
  intros Hwf Hc. destruct cl as [ctx u a|ctx a|ctx a]; simpl.
  - unfold fmap, M_fmap. destruct (Save c ctx u a (d, w)) as [e s] eqn:E. intros [= <- <-].
    by destruct (Save_run _ _ _ _ _ _ _ _ _ Hwf Hc E) as (? & ? & ?).
  - unfold fmap, M_fmap. destruct (Get c ctx a (d, w)) as [e s] eqn:E. intros [= <- <-].
    destruct (Get_run _ _ _ _ _ _ _ _ Hwf Hc E) as (? & ? & ? & ?).
    split_and!; [done..|]. intros Ha. split; auto.
  - unfold fmap, M_fmap. destruct (Delete c ctx a (d, w)) as [e s] eqn:E. intros [= <- <-].
    by destruct (Delete_run _ _ _ _ _ _ _ _ Hwf Hc E) as (? & ? & ?).
Qed.

Lemma run_calls_cached X cs d w rs s' : store_wf w -> coherent_except X w ->
  run_calls cs (d, w) = (rs, s') -> cached_trace X (urls w) cs rs (urls s'.2).
Proof.
  revert X d w rs. induction cs as [|cl cs IH]; intros X d w rs Hwf Hc; cbn [run_calls].
  - intros [= <- <-]. constructor.
  - unfold mbind, M_bind. destruct (run_call cl (d, w)) as [r [d1 w1]] eqn:Ec.
    destruct (run_calls cs (d1, w1)) as [rs1 s2] eqn:Er. intros [= <- <-].
    destruct (run_call_cached _ _ _ _ _ _ Hwf Hc Ec) as (Hwf1 & Hc1 & Hr).
    econstructor; [exact Hr|]. by eapply IH.
Qed.

(** While the clock reads less than [d] and reading it does nothing else. *)
Definition clock_before (d : Z) : Prop :=
  forall w : W, (time_Now w).2 = w /\ UnixNano (time_Now w).1 < d.

Lemma redisAvailable_open d w : clock_before d -> redisAvailable (d, w) = (false, (d, w)).
Proof.
  intros Hd. destruct (Hd w) as [Hw Ht]. unfold redisAvailable. m_unfold.
  destruct (time_Now w) as [t w1]. simpl in *. subst. do 2 f_equal. by apply Z.leb_gt.
Qed.

Lemma run_call_open cl d w : clock_before d ->
  run_call cl (d, w) = (let '(r, w') := run_call cl w in (r, (d, w'))).
Proof.
  intros Hd.
  destruct cl as [ctx u a|ctx a|ctx a]; cbn [run_call]; unfold fmap, M_fmap.
  - change (@st_Save (Z * W) _) with (Save c). unfold Save. m_unfold.
    destruct (st_Save ctx u a w) as [[e|] w1]; [done|]. by rewrite redisAvailable_open.
  - change (@st_Get (Z * W) _) with (Get c). unfold Get. unfold mbind at 1, M_bind at 1.
    rewrite redisAvailable_open, Get_next_parts by done. unfold offer, if_available. m_unfold.
    destruct (st_Get ctx a w) as [[u|e] w1]; [|done]. by rewrite redisAvailable_open.
  - change (@st_Delete (Z * W) _) with (Delete c). unfold Delete. m_unfold.
    destruct (st_Delete ctx a w) as [[e|] w1]; [done|]. by rewrite redisAvailable_open.
Qed.

(** The cache is safe, whatever Redis does. *)
#[local] Program Instance cache_SafeStorage (P : string -> string -> Prop) :
  SafeStorage (Z * W) P :=
  {| safe := cache_safe P; safe_Save ctx u a := Save_safe P c ctx u a;
     safe_Delete ctx a := Delete_safe P c ctx a |}.
Next Obligation.
  intros P ctx a s Hs. destruct (st_Get ctx a s) as [r s'] eqn:E.
  by destruct (Get_safe P _ _ _ _ _ _ Hs E).
Qed.
Next Obligation.
  intros P ctx a s u s' Hs E. destruct (Get_safe P _ _ _ _ _ _ Hs E). auto.
Qed.
End Contract.

(** ** Redis and the store in memory, for evaluation *)

(** The clock moves on by [tick] at every reading; each Redis command takes the
    next entry of [fails], and errs on [true]. *)
Module SimRedis.
Record world := { now : Z; tick : Z; db : gmap string string; keys : gmap string string;
                  fails : list bool }.

Definition with_db (w : world) m : world :=
  {| now := now w; tick := tick w; db := m; keys := keys w; fails := fails w |}.
Definition on_db {A} (m : M (gmap string string) A) : M world A :=
  fun w => let '(a, m') := m (db w) in (a, with_db w m').

#[global] Instance storage : Storage world :=
  {| st_Save _ u a := on_db (MapStorage.Save u a); st_Get _ a := on_db (MapStorage.Get a);
     st_Delete _ a := on_db (MapStorage.Delete a) |}.

#[global] Program Instance spec : StorageSpec world :=
  {| urls := db; store_wf _ := True |}.
Next Obligation.
  intros ctx u a w e w' _. simpl. unfold on_db, MapStorage.Save.
  destruct (db w !! a) eqn:E; intros [= <- <-]; simpl; by eauto.
Qed.
Next Obligation.
  intros ctx a w r w' _. simpl. unfold on_db, MapStorage.Get.
  destruct (db w !! a) eqn:E; intros [= <- <-]; simpl; by eauto.
Qed.
Next Obligation.
  intros ctx a w e w' _. simpl. unfold on_db, MapStorage.Delete.
  destruct (db w !! a) eqn:E; intros [= <- <-]; simpl; by eauto.
Qed.

Definition command {A} (ok : world -> A * gmap string string) (err : A) : M world A := fun w =>
  match fails w with
  | true :: fs => (err, {| now := now w; tick := tick w; db := db w; keys := keys w; fails := fs |})
  | _ => let '(a, m) := ok w in
         (a, {| now := now w; tick := tick w; db := db w; keys := m; fails := tail (fails w) |})
  end.

Definition refused : error := ErrorString "connection refused".

#[global] Instance redis : Redis world := {|
  rdb_Get ctx k := command (fun w => (match keys w !! k with
                                      | Some v => Ok v
                                      | None => Err (Sentinel (SLib RedisNil))
                                      end, keys w)) (Err refused);
  rdb_Set ctx k v _ := command (fun w => (None, <[k := v]> (keys w))) (Some refused);
  rdb_Del ctx k := command (fun w => (None, delete k (keys w))) (Some refused);
|}.
#[global] Instance runtime : Runtime world := {|
  time_Now w := (now w, {| now := now w + tick w; tick := tick w; db := db w; keys := keys w;
                           fails := fails w |});
  ctx_canceled _ w := (false, w) |}.
#[global] Instance singleflight : Singleflight (Z * world) := fun _ fn => fn.
#[global] Instance singleflight_spec : SingleflightSpec (Z * world).
Proof. intros key fn s. reflexivity. Qed.

Ltac sim :=
  unfold rdb_Get, rdb_Set, rdb_Del, redis, command;
  match goal with |- context [ fails ?w ] => destruct (fails w) as [|[] fs] end;
  simpl; try match goal with |- context [ keys ?w !! ?k ] => destruct (keys w !! k) eqn:? end.

#[global] Program Instance redis_spec : RedisSpec world := {| rmap := keys |}.
Next Obligation. intros ctx k w r w'. sim; intros [= <- <-]; by auto. Qed.
Next Obligation. intros ctx k v t w e w'. sim; intros [= <- <-]; simpl; by auto. Qed.
Next Obligation.
  intros ctx k w e w'. unfold rdb_Del, redis, command.
  destruct (fails w) as [|[] fs]; intros [= <- <-]; simpl;
    (split; [first [apply delete_subseteq|done]|intros; first [apply lookup_delete_eq|done]]).
Qed.
Next Obligation. intros ctx k w. sim; by split. Qed.
Next Obligation. intros ctx k v t w. sim; by split. Qed.
Next Obligation. intros ctx k w. sim; by split. Qed.
Next Obligation. intros ctx u a w. simpl. unfold on_db. by case_match. Qed.
Next Obligation. intros ctx a w. simpl. unfold on_db. by case_match. Qed.
Next Obligation. intros ctx a w. simpl. unfold on_db. by case_match. Qed.
Next Obligation. done. Qed.
Next Obligation. intros w. by split. Qed.

(** The same with a clock that stands still. *)
Definition frozen (t : Z) : Runtime world :=
  {| time_Now w := (t, w); ctx_canceled _ w := (false, w) |}.
Program Definition frozen_spec (t : Z) : RedisSpec world (H1 := frozen t) :=
  {| rmap := keys; rdb_Get_spec := rdb_Get_spec; rdb_Set_spec := rdb_Set_spec;
     rdb_Del_spec := rdb_Del_spec; st_Save_redis := st_Save_redis;
     st_Get_redis := st_Get_redis; st_Delete_redis := st_Delete_redis |}.
Next Obligation. done. Qed.

Definition start (tick : Z) (m : gmap string string) (fails : list bool) : Z * world :=
  (downUntil0, {| now := 1000 * Second; tick := tick; db := m; keys := ∅; fails := fails |}).
End SimRedis.

(** ** Properties *)

Section Properties.
Context {W} `{RedisSpec W, !Singleflight (Z * W), !SingleflightSpec (Z * W)}.
Variable c : Cache.
#[local] Existing Instance cache_storage.

(** C10: Whatever Redis does (fail, lose keys, apply a write it reports as failed),
    the cache in front of a store is that store, for any sequence of calls:
    every answer is the abstract store's, except lookups of an alias that was
    deleted earlier in the sequence. *)
Theorem Cache_refines X cs d (w : W) rs s' :
  store_wf w -> coherent_except X w -> run_calls (H := cache_storage c) cs (d, w) = (rs, s') ->
  cached_trace X (urls w) cs rs (urls s'.2).
Proof. apply run_calls_cached. Qed.

(** C31: A delete that Redis takes part in leaves nothing behind: when the breaker
    is found closed and the [DEL] succeeds, coherence holds at the alias
    again, even where it did not before. *)
Theorem Delete_invalidates X ctx a d (w w1 w2 w3 : W) t :
  store_wf w -> coherent_except X w -> st_Delete ctx a w = (None, w1) ->
  time_Now w1 = (t, w2) -> d <= UnixNano t -> rdb_Del ctx a w2 = (None, w3) ->
  Delete c ctx a (d, w) = (None, (d, w3)) /\
  coherent_except (X ∖ {[a]}) w3 /\ urls w3 !! a = None /\ rmap w3 !! a = None.
Proof.
  intros Hwf Hc Hs Ht Hd Hdel.
  assert (HD : Delete c ctx a (d, w) = (None, (d, w3))).
  { rewrite Delete_parts. unfold invalidate, if_available, redisAvailable. m_unfold.
    rewrite Hs, Ht. simpl. rewrite (proj2 (Z.leb_le _ _) Hd). simpl. by rewrite Hdel. }
  destruct (Delete_run _ _ _ _ _ _ _ _ Hwf Hc HD) as (_ & Hc' & [_ Hu]).
  destruct (rdb_Del_spec _ _ _ _ _ Hdel) as [_ Hgone].
  split_and!; [done| |simpl in Hu; rewrite Hu; apply lookup_delete_eq|auto].
  intros b v Hb Hv. destruct (decide (a = b)) as [<-|Hne]; [rewrite Hgone in Hv; done|].
  apply Hc'; [set_solver|done].
Qed.

(** C32: No failure of Redis reaches the caller: [Save] and [Delete] return what
    the next storage returned, and [Get] a hit or what the next storage
    returned. *)
Theorem redis_failures_hidden ctx u a d (w : W) :
  (forall e s', Save c ctx u a (d, w) = (e, s') -> (st_Save ctx u a w).1 = e) /\
  (forall e s', Delete c ctx a (d, w) = (e, s') -> (st_Delete ctx a w).1 = e) /\
  (forall r s', Get c ctx a (d, w) = (r, s') ->
     (exists w1, (st_Get ctx a w1).1 = r) \/
     (exists w1 v, (rdb_Get ctx a w1).1 = Ok v /\ r = Ok v)).
Proof.
  split_and!.
  - intros e s'. rewrite Save_parts. m_unfold.
    destruct (st_Save ctx u a w) as [[e1|] w1]; [by intros [= <- <-]|].
    destruct (offer _ _ _ _ _). by intros [= <- <-].
  - intros e s'. rewrite Delete_parts. m_unfold.
    destruct (st_Delete ctx a w) as [[e1|] w1]; [by intros [= <- <-]|].
    destruct (invalidate _ _ _). by intros [= <- <-].
  - intros r s'. unfold Get. unfold mbind at 1, M_bind at 1.
    destruct (redisAvailable (d, w)) as [[|] [d1 w1]]; [|intros E; left; by eapply Get_next_from].
    m_unfold. destruct (rdb_Get ctx a w1) as [[v|e1] w2] eqn:Eg.
    + intros [= <- <-]. right. exists w1, v. by rewrite Eg.
    + destruct (negb _); [|intros E; left; by eapply Get_next_from].
      destruct (markRedisDown _) as [x [d3 w3]]. intros E. left. by eapply Get_next_from.
Qed.

(** While the breaker is open the cache is the next storage: the same answers,
    the same effects, no command to Redis, and [downUntil] is left alone. *)
Theorem breaker_open_transparent cs d (w : W) :
  clock_before d ->
  run_calls (H := cache_storage c) cs (d, w) =
    (let '(rs, w') := run_calls cs w in (rs, (d, w'))).
Proof.
  intros Hd. revert w. induction cs as [|cl cs IH]; intros w; [done|].
  cbn [run_calls]. unfold mbind, M_bind. rewrite run_call_open by done.
  destruct (run_call cl w) as [r w1]. rewrite IH. by destruct (run_calls cs w1).
Qed.

(** Any failure of a Redis lookup other than a miss trips the breaker for
    [redisCooldown], and that request goes on with the next storage alone.
    The cancellation of the caller's own context is such a failure. *)
Theorem Get_trips_breaker ctx a t d (w : W) e w1 :
  (forall w : W, time_Now w = (t, w)) -> 0 <= t -> t + redisCooldown <= int64_max -> d <= t ->
  rdb_Get ctx a w = (Err e, w1) -> errors_Is e (SLib RedisNil) = false ->
  Get c ctx a (d, w) = (let '(r, w2) := st_Get ctx a w1 in (r, (t + redisCooldown, w2))) /\
  clock_before (W := W) (t + redisCooldown).
Proof.
  intros Ht H0t Hmax Hd Hg He.
  assert (Hc : 0 < redisCooldown) by done.
  assert (Hnow : UnixNano t = t) by (apply int64_wrap_id; unfold int64_min; lia).
  assert (Hbefore : clock_before (W := W) (t + redisCooldown))
    by (intros w0; rewrite Ht; simpl; split; [done|lia]).
  split; [|done]. unfold Get. unfold mbind at 1, M_bind at 1.
  unfold redisAvailable at 1. m_unfold. rewrite Ht. simpl.
  rewrite (proj2 (Z.leb_le _ _)) by lia. rewrite Hg, He. simpl.
  unfold markRedisDown. m_unfold. rewrite Ht. simpl.
  unfold UnixNano. rewrite int64_wrap_id by (unfold int64_min; lia).
  rewrite Get_next_parts. unfold offer, if_available. m_unfold.
  destruct (st_Get ctx a w1) as [[u|e1] w2]; [|done]. by rewrite redisAvailable_open.
Qed.
End Properties.

(** A delete while the breaker is open leaves the entry in Redis, so once the
    breaker closes the deleted link resolves again: in this run the lookup fails
    and opens the breaker, the delete succeeds, and the lookup a while later
    returns the URL the store no longer has. *)
Theorem stale_after_delete :
  exists rs s',
    run_calls (H := cache_storage (New Hour))
      [CSave Background "https://a" "x";      (* stored, and cached *)
       CGet Background "x";                   (* Redis fails: the breaker opens *)
       CDelete Background "x";                (* deleted; the cached entry stays *)
       CGet Background "y"; CGet Background "y"; CGet Background "y";
       CGet Background "x"]
      (SimRedis.start Second ∅ [false; true]) = (rs, s') /\
    rs !! 2%nat = Some (RError None) /\ rs !! 6%nat = Some (RURL (Ok "https://a")) /\
    urls s'.2 !! "x" = None.
Proof.
  eexists _, _. split; [vm_compute; reflexivity|]. vm_compute. repeat split.
Qed.

(** *** Evaluation *)

Lemma start_coherent tick fails :
  coherent_except ∅ (SimRedis.start tick ∅ fails).2.
Proof. intros a v _ Hv. simpl in Hv. by rewrite lookup_empty in Hv. Qed.

(** A stale entry, deleted with Redis healthy. *)
Lemma Delete_invalidates_witness :
  let w := {| SimRedis.now := 0; SimRedis.tick := 0; SimRedis.db := {["x" := "new"]};
              SimRedis.keys := {["x" := "old"]}; SimRedis.fails := [] |} in
  let w' := {| SimRedis.now := 0; SimRedis.tick := 0; SimRedis.db := delete "x" {["x" := "new"]};
               SimRedis.keys := delete "x" {["x" := "old"]}; SimRedis.fails := [] |} in
  Delete (New Hour) Background "x" (0, w) = (None, (0, w')) /\
  coherent_except ({["x"]} ∖ {["x"]}) w'.
Proof.
  intros w w'. edestruct (Delete_invalidates (New Hour) {["x"]} Background "x" 0 w)
    as (HD & Hc & _).
  - exact I.
  - intros a v Ha Hv. simpl in Hv. apply lookup_singleton_Some in Hv as [<- _]. set_solver.
  - vm_compute. reflexivity.
  - vm_compute. reflexivity.
  - vm_compute. congruence.
  - vm_compute. reflexivity.
  - split; [exact HD|exact Hc].
Defined.

(** Redis refuses the write-back, and every command after that. *)
Lemma Cache_refines_witness :
  let cs := [CSave Background "https://a" "x"; CGet Background "x"; CSave Background "b" "x"] in
  exists rs s', run_calls (H := cache_storage (New Hour)) cs
      (SimRedis.start Second ∅ [true; true]) = (rs, s') /\
    cached_trace ∅ ∅ cs rs (urls s'.2) /\ rs !! 1%nat = Some (RURL (Ok "https://a")).
Proof.
  intros cs. destruct (run_calls (H := cache_storage (New Hour)) cs
    (SimRedis.start Second ∅ [true; true])) as [rs s'] eqn:E.
  exists rs, s'. split; [reflexivity|]. split.
  - apply (Cache_refines (H := SimRedis.spec) (New Hour) ∅ cs downUntil0 (SimRedis.start Second ∅ [true; true]).2 rs s');
      [exact I|apply start_coherent|exact E].
  - vm_compute in E. injection E as <- _. reflexivity.
Defined.

(** The breaker is open until 6 s, and the clock stands at 5 s. *)
Lemma breaker_open_transparent_witness :
  let w := (SimRedis.start 0 {["x" := "https://a"]} []).2 in
  run_calls (H := @cache_storage _ _ _ (SimRedis.frozen (5 * Second)) _ (New Hour))
    [CGet Background "x"] (6 * Second, w) = ([RURL (Ok "https://a")], (6 * Second, w)).
Proof.
  intros w.
  rewrite (breaker_open_transparent (H1 := SimRedis.frozen (5 * Second)) (New Hour)
    [CGet Background "x"] (6 * Second) w); [vm_compute; reflexivity|].
  intros w0. vm_compute. split; reflexivity.
Defined.

(** The lookup is refused at 5 s; the breaker is open until 10 s. *)
Lemma Get_trips_breaker_witness :
  let w := (SimRedis.start 0 {["x" := "https://a"]} [true]).2 in
  (Get (H1 := SimRedis.frozen (5 * Second)) (New Hour) Background "x" (0, w)).2.1 = 10 * Second.
Proof.
  intros w.
  destruct (Get_trips_breaker (H1 := SimRedis.frozen (5 * Second)) (New Hour)
    Background "x" (5 * Second) 0 w SimRedis.refused
    {| SimRedis.now := 1000 * Second; SimRedis.tick := 0; SimRedis.db := {["x" := "https://a"]};
       SimRedis.keys := ∅; SimRedis.fails := [] |}) as [HG _];
    [reflexivity|vm_compute; congruence|vm_compute; congruence|vm_compute; congruence
    |vm_compute; reflexivity|vm_compute; reflexivity|].
  rewrite HG. vm_compute. reflexivity.
Defined.

(** Redis refuses the lookup, and the answer is the store's. *)
Lemma redis_failures_hidden_witness :
  let w := (SimRedis.start 0 {["x" := "https://a"]} [true]).2 in
  (exists w1, (st_Get Background "x" w1).1 = Ok "https://a") \/
  (exists (w1 : SimRedis.world) v,
     (rdb_Get Background "x" w1).1 = Ok v /\ Ok "https://a" = Ok v).
Proof.
  intros w.
  destruct (Get (New Hour) Background "x" (0, w)) as [r s'] eqn:E.
  pose proof E as E'. vm_compute in E'. injection E' as Hr _. subst r.
  destruct (redis_failures_hidden (New Hour) Background "u" "x" 0 w) as (_ & _ & HG).
  exact (HG _ s' E).
Defined.
