(* ===== verification/Interleave.v ===== *)
(** * Interleaved calls on the cache

    The operations of internal/storage/redis again, this time as programs
    ([prog]) that stop at every access to something shared: the clock, the
    breaker, the next storage, Redis, the results of [singleflight], and for the
    callers of the cache (Requests, Traffic) the context and the alias generator.
    Run alone they are the operations of [Cache] ([interp]); as a pool of threads
    they interleave ([step]).  The rules answer each access with anything its
    contract allows, so what holds of every run holds of the real schedules. *)

From stdpp Require Import relations.
From S2P Require Import Prelude GoErrors Authn Runtime Storage Cache.
From S2P Require Service.
#[local] Open Scope Z_scope.

(** ** Programs *)

Inductive prog (A : Type) : Type :=
| Ret (a : A)
| Now (k : Z -> prog A)
| Load (k : Z -> prog A)
| Store (t : Z) (k : prog A)
| NextSave (ctx : context) (url alias : string) (k : option error -> prog A)
| NextGet (ctx : context) (alias : string) (k : result string -> prog A)
| NextDelete (ctx : context) (alias : string) (k : option error -> prog A)
| RdbGet (ctx : context) (key : string) (k : result string -> prog A)
| RdbSet (ctx : context) (key val : string) (ttl : Z) (k : option error -> prog A)
| RdbDel (ctx : context) (key : string) (k : option error -> prog A)
(** [generator.Generate()] and [ctx.Err()] *)
| Gen (k : result string -> prog A)
| CtxErr (ctx : context) (k : option error -> prog A)
(** [group.Do(key, fn)] *)
| Do (key : string) (fn : prog (result any)) (k : result any -> prog A)
(** inside [Do]: waiting for a result delivered after the first [n], and
    delivering the own one *)
| Wait (key : string) (n : nat) (k : result any -> prog A)
| Deliver (key : string) (v : result any) (k : prog A).
Arguments Ret {A}.
Arguments Now {A}.
Arguments Load {A}.
Arguments Store {A}.
Arguments NextSave {A}.
Arguments NextGet {A}.
Arguments NextDelete {A}.
Arguments RdbGet {A}.
Arguments RdbSet {A}.
Arguments RdbDel {A}.
Arguments Gen {A}.
Arguments CtxErr {A}.
Arguments Do {A}.
Arguments Wait {A}.
Arguments Deliver {A}.

Fixpoint prog_bind {A B : Type} (f : A -> prog B) (p : prog A) : prog B :=
  match p with
  | Ret a => f a
  | Now k => Now (fun t => prog_bind f (k t))
  | Load k => Load (fun t => prog_bind f (k t))
  | Store t k => Store t (prog_bind f k)
  | NextSave ctx u a k => NextSave ctx u a (fun e => prog_bind f (k e))
  | NextGet ctx a k => NextGet ctx a (fun r => prog_bind f (k r))
  | NextDelete ctx a k => NextDelete ctx a (fun e => prog_bind f (k e))
  | RdbGet ctx key k => RdbGet ctx key (fun r => prog_bind f (k r))
  | RdbSet ctx key v t k => RdbSet ctx key v t (fun e => prog_bind f (k e))
  | RdbDel ctx key k => RdbDel ctx key (fun e => prog_bind f (k e))
  | Gen k => Gen (fun r => prog_bind f (k r))
  | CtxErr ctx k => CtxErr ctx (fun e => prog_bind f (k e))
  | Do key fn k => Do key fn (fun v => prog_bind f (k v))
  | Wait key n k => Wait key n (fun v => prog_bind f (k v))
  | Deliver key v k => Deliver key v (prog_bind f k)
  end.

#[export] Instance prog_ret : MRet prog := @Ret.
#[export] Instance prog_mbind : MBind prog := @prog_bind.

(** ** The operations of the cache *)

(** [Cache.redisAvailable] *)
Definition redisAvailable : prog bool :=
  now ← Now Ret;
  downUntil ← Load Ret;
  mret (downUntil <=? UnixNano now).

(** [Cache.markRedisDown] *)
Definition markRedisDown : prog unit :=
  now ← Now Ret;
  Store (UnixNano (now + redisCooldown)) (mret tt).

(** [Cache.Save] *)
Definition Save (c : Cache) (ctx : context) (url alias : string) : prog (option error) :=
  err ← NextSave ctx url alias Ret;
  match err with
  | Some e => mret (Some e)
  | None =>
      available ← redisAvailable;
      if negb available then mret None else
      serr ← RdbSet ctx alias url (ttl c) Ret;
      match serr with
      | Some _ => _ ← markRedisDown; mret None
      | None => mret None
      end
  end.

(** The function [Cache.Get] hands to [group.Do]. *)
Definition Get_fill (c : Cache) (ctx : context) (alias : string) : prog (result any) :=
  res ← NextGet ctx alias Ret;
  match res with
  | Err e => mret (Err e)
  | Ok url =>
      available ← redisAvailable;
      if negb available then mret (Ok (AnyString url)) else
      serr ← RdbSet ctx alias url (ttl c) Ret;
      match serr with
      | Some _ => _ ← markRedisDown; mret (Ok (AnyString url))
      | None => mret (Ok (AnyString url))
      end
  end.

(** [Cache.Get] after a miss. *)
Definition Get_next (c : Cache) (ctx : context) (alias : string) : prog (result string) :=
  v ← Do alias (Get_fill c ctx alias) Ret;
  match v with
  | Err e => mret (Err e)
  | Ok (AnyString res) => mret (Ok res)
  | Ok AnyOther => mret (Err (ErrorString "invalid type from singleflight"))
  end.

(** [Cache.Get] *)
Definition Get (c : Cache) (ctx : context) (alias : string) : prog (result string) :=
  available ← redisAvailable;
  if available : bool then
    res ← RdbGet ctx alias Ret;
    match res with
    | Ok val => mret (Ok val)
    | Err err =>
        if negb (errors_Is err (SLib RedisNil)) then
          _ ← markRedisDown; Get_next c ctx alias
        else Get_next c ctx alias
    end
  else Get_next c ctx alias.

(** [Cache.Delete] *)
Definition Delete (c : Cache) (ctx : context) (alias : string) : prog (option error) :=
  err ← NextDelete ctx alias Ret;
  match err with
  | Some e => mret (Some e)
  | None =>
      available ← redisAvailable;
      if negb available then mret None else
      derr ← RdbDel ctx alias Ret;
      match derr with
      | Some _ => _ ← markRedisDown; mret None
      | None => mret None
      end
  end.

(** A call on the cache. *)
Definition program (c : Cache) (cl : call) : prog reply :=
  match cl with
  | CSave ctx u a => e ← Save c ctx u a; mret (RError e)
  | CGet ctx a => r ← Get c ctx a; mret (RURL r)
  | CDelete ctx a => e ← Delete c ctx a; mret (RError e)
  end.

(** ** One call alone *)

Section Alone.
Context {W} `{Storage W, Redis W, Runtime W, Singleflight (Z * W), Service.AliasGenerator W}.

(** With nothing else in flight there is nobody to wait for. *)
Fixpoint interp {A : Type} (p : prog A) : CM W A :=
  match p with
  | Ret a => mret a
  | Now k => t ← lift_snd time_Now; interp (k t)
  | Load k => d ← get_fst; interp (k d)
  | Store t k => _ ← put_fst t; interp k
  | NextSave ctx u a k => e ← lift_snd (st_Save ctx u a); interp (k e)
  | NextGet ctx a k => r ← lift_snd (st_Get ctx a); interp (k r)
  | NextDelete ctx a k => e ← lift_snd (st_Delete ctx a); interp (k e)
  | RdbGet ctx key k => r ← lift_snd (rdb_Get ctx key); interp (k r)
  | RdbSet ctx key v t k => e ← lift_snd (rdb_Set ctx key v t); interp (k e)
  | RdbDel ctx key k => e ← lift_snd (rdb_Del ctx key); interp (k e)
  | Gen k => r ← lift_snd Service.Generate; interp (k r)
  | CtxErr ctx k => e ← lift_snd (ctx_Err ctx); interp (k e)
  | Do key fn k => v ← group_Do key (interp fn); interp (k v)
  | Wait key _ k => interp (k (Err (ErrorString "no call in flight")))
  | Deliver _ _ k => interp k
  end.
End Alone.

(** ** Threads *)

Record shared := {
  clock : Z;
  down : Z;
  store : gmap string string;
  redis : gmap string string;
  (** the keys [singleflight] has in flight, and the results it has delivered,
      in order *)
  flights : gset string;
  delivered : list (string * result any);
}.

Definition with_down (d : Z) (s : shared) : shared :=
  {| clock := clock s; down := d; store := store s; redis := redis s;
     flights := flights s; delivered := delivered s |}.
Definition with_store (m : gmap string string) (s : shared) : shared :=
  {| clock := clock s; down := down s; store := m; redis := redis s;
     flights := flights s; delivered := delivered s |}.
Definition with_redis (m : gmap string string) (s : shared) : shared :=
  {| clock := clock s; down := down s; store := store s; redis := m;
     flights := flights s; delivered := delivered s |}.
Definition with_flight (key : string) (s : shared) : shared :=
  {| clock := clock s; down := down s; store := store s; redis := redis s;
     flights := {[key]} ∪ flights s; delivered := delivered s |}.
Definition with_delivery (kv : string * result any) (s : shared) : shared :=
  {| clock := clock s; down := down s; store := store s; redis := redis s;
     flights := flights s ∖ {[kv.1]}; delivered := delivered s ++ [kv] |}.

(** One access of a thread.  The storage keeps the contract of [Storage]; Redis
    answers a lookup with the value it holds or an error, and a command that
    fails may have taken effect; the generator answers anything, and a context
    that it is live or one of its two errors.  [Do] runs its function when its key
    is not in flight, and otherwise waits for a result of the key to be delivered. *)
Inductive access {A : Type} : shared -> prog A -> shared -> prog A -> Prop :=
| access_Now s k : access s (Now k) s (k (clock s))
| access_Load s k : access s (Load k) s (k (down s))
| access_Store s t k : access s (Store t k) (with_down t s) k
| access_NextSave s ctx u a k e m :
    save_rel (store s) u a e m -> access s (NextSave ctx u a k) (with_store m s) (k e)
| access_NextGet s ctx a k r :
    get_rel (store s) a r -> access s (NextGet ctx a k) s (k r)
| access_NextDelete s ctx a k e m :
    delete_rel (store s) a e m -> access s (NextDelete ctx a k) (with_store m s) (k e)
| access_RdbGet_hit s ctx key k v :
    redis s !! key = Some v -> access s (RdbGet ctx key k) s (k (Ok v))
| access_RdbGet_err s ctx key k e : access s (RdbGet ctx key k) s (k (Err e))
| access_RdbSet s ctx key v t k :
    access s (RdbSet ctx key v t k) (with_redis (<[key := v]> (redis s)) s) (k None)
| access_RdbSet_late s ctx key v t k e :
    access s (RdbSet ctx key v t k) (with_redis (<[key := v]> (redis s)) s) (k (Some e))
| access_RdbSet_err s ctx key v t k e : access s (RdbSet ctx key v t k) s (k (Some e))
| access_RdbDel s ctx key k :
    access s (RdbDel ctx key k) (with_redis (delete key (redis s)) s) (k None)
| access_RdbDel_late s ctx key k e :
    access s (RdbDel ctx key k) (with_redis (delete key (redis s)) s) (k (Some e))
| access_RdbDel_err s ctx key k e : access s (RdbDel ctx key k) s (k (Some e))
| access_Gen s k r : access s (Gen k) s (k r)
| access_CtxErr s ctx k e : ctx_error e = true -> access s (CtxErr ctx k) s (k e)
| access_Do_lead s key fn k :
    key ∉ flights s ->
    access s (Do key fn k) (with_flight key s) (v ← fn; Deliver key v (k v))
| access_Do_join s key fn k :
    key ∈ flights s ->
    access s (Do key fn k) s (Wait key (length (delivered s)) k)
| access_Wait s key n k v :
    (key, v) ∈ drop n (delivered s) -> access s (Wait key n k) s (k v)
| access_Deliver s key v k :
    access s (Deliver key v k) (with_delivery (key, v) s) k.

(** What a thread was called for, and what is left of its work. *)
Definition thread (C R : Type) : Type := C * prog R.
Definition state (C R : Type) : Type := shared * list (thread C R).

Inductive thread_step {C R : Type} : state C R -> state C R -> Prop :=
| step_thread s pool i cl p s' p' :
    pool !! i = Some (cl, p) -> access s p s' p' ->
    thread_step (s, pool) (s', <[i := (cl, p')]> pool).

(** Keys expire, time passes. *)
Inductive world_step {C R : Type} : state C R -> state C R -> Prop :=
| step_world s pool m t :
    m ⊆ redis s -> clock s <= t ->
    world_step (s, pool)
      ({| clock := t; down := down s; store := store s; redis := m;
          flights := flights s; delivered := delivered s |}, pool).

Inductive step {C R : Type} (st st' : state C R) : Prop :=
| by_thread : thread_step st st' -> step st st'
| by_world : world_step st st' -> step st st'.

(** All the calls, none of them begun. *)
Definition start (c : Cache) (cs : list call) : list (thread call reply) :=
  (fun cl => (cl, program c cl)) <$> cs.

(** [cl] has finished with [r]. *)
Definition answered {C R : Type} (st : state C R) (cl : C) (r : R) : Prop := (cl, Ret r) ∈ st.2.

(** ** What a thread may rely on

    A discipline: facts about aliases that every permitted call keeps, whatever
    the others do. *)

Class Discipline := {
  (** [Fact m a u]: with the store at [m], [a] may be answered with [u] *)
  Fact : gmap string string -> string -> string -> Prop;
  (** how the store may move, and what holds of it *)
  Moves : gmap string string -> gmap string string -> Prop;
  Holds : gmap string string -> Prop;
  (** the calls permitted *)
  may_save : string -> string -> Prop;
  may_delete : string -> Prop;

  Moves_refl :: Reflexive Moves;
  Moves_trans :: Transitive Moves;
  Fact_mono m m' a u : Moves m m' -> Fact m a u -> Fact m' a u;
  Fact_lookup m a u : Holds m -> m !! a = Some u -> Fact m a u;
  Moves_save m u a e m' : may_save u a -> Holds m -> save_rel m u a e m' ->
    Moves m m' /\ Holds m';
  Moves_delete m a e m' : may_delete a -> Holds m -> delete_rel m a e m' ->
    Moves m m' /\ Holds m';
}.

Definition permitted `{Discipline} (cl : call) : Prop :=
  match cl with
  | CSave _ u a => may_save u a
  | CGet _ _ => True
  | CDelete _ a => may_delete a
  end.

Section Discipline.
Context `{Discipline}.
Implicit Types (m : gmap string string) (s : shared).

Definition good (m : gmap string string) (key : string) (v : result any) : Prop :=
  forall u, v = Ok (AnyString u) -> Fact m key u.

(** The weakest precondition of a program among permitted ones: whatever moves
    the others make, it gets the facts of its answers and gives the facts of
    what it writes. *)
Fixpoint wp {A : Type} (m : gmap string string) (p : prog A) (Q : gmap string string -> A -> Prop) : Prop :=
  match p with
  | Ret a => Q m a
  | Now k | Load k => forall t m', Moves m m' -> wp m' (k t) Q
  | Store _ k => forall m', Moves m m' -> wp m' k Q
  | NextSave _ u a k => may_save u a /\
      forall e m', Moves m m' -> (e = None -> Fact m' a u) -> wp m' (k e) Q
  | NextGet _ a k | RdbGet _ a k =>
      forall r m', Moves m m' -> (forall u, r = Ok u -> Fact m' a u) -> wp m' (k r) Q
  | NextDelete _ a k => may_delete a /\ forall e m', Moves m m' -> wp m' (k e) Q
  | RdbSet _ key v _ k => Fact m key v /\ forall e m', Moves m m' -> wp m' (k e) Q
  | RdbDel _ _ k => forall e m', Moves m m' -> wp m' (k e) Q
  | Gen k => forall r m', Moves m m' -> wp m' (k r) Q
  | CtxErr _ k => forall e m', Moves m m' -> wp m' (k e) Q
  | Do key fn k => wp m fn (fun m' v => good m' key v) /\
      forall v m', Moves m m' -> good m' key v -> wp m' (k v) Q
  | Wait key _ k => forall v m', Moves m m' -> good m' key v -> wp m' (k v) Q
  | Deliver key v k => good m key v /\ forall m', Moves m m' -> wp m' k Q
  end.

Definition stable {A : Type} (Q : gmap string string -> A -> Prop) : Prop :=
  forall m m' a, Moves m m' -> Q m a -> Q m' a.

Lemma good_stable key : stable (fun m v => good m key v).
Proof. intros m m' v HM Hg u Hu. eapply Fact_mono; [exact HM|by apply Hg]. Qed.

Lemma wp_mono {A : Type} (p : prog A) Q m m' : stable Q -> Moves m m' -> wp m p Q -> wp m' p Q.
Proof.
  intros HQ. revert Q m m' HQ.
  induction p; simpl; intros Q m m' HQ HM Hp.
  all: try (by eapply HQ).
  all: try (intros; eapply Hp; [etransitivity; eassumption|done..]).
  all: try (intros; eapply Hp; etransitivity; eassumption).
  all: destruct Hp as [Hf Hp]; (split; [|intros; eapply Hp; [etransitivity; eassumption|done..]]).
  all: first [done | by eapply Fact_mono | by eapply good_stable
             | eapply IHp; [apply good_stable|done..] ].
Qed.

Lemma wp_weaken {A : Type} (p : prog A) (Q Q' : gmap string string -> A -> Prop) m :
  wp m p Q -> (forall m' a, Q m' a -> Q' m' a) -> wp m p Q'.
Proof. intros Hp HQ. revert m Hp. induction p; simpl; naive_solver. Qed.

(** A program that ends has only seen moves. *)
Lemma wp_moves {A : Type} (p : prog A) Q m0 m : Moves m0 m -> wp m p Q ->
  wp m p (fun m' a => Moves m0 m' /\ Q m' a).
Proof.
  revert m. induction p; simpl; intros m HM Hp.
  all: try (destruct Hp as [Hf Hp]; split; [done|]).
  all: try (by split).
  all: intros; multimatch goal with
    | IH : _ |- _ => apply IH; [by etransitivity|by auto]
    end.
Qed.

Lemma wp_ret {A : Type} (a : A) Q m : Q m a -> wp m (Ret a) Q.
Proof. done. Qed.

Lemma wp_bind {A B : Type} (p : prog A) (f : A -> prog B) Q m :
  wp m p (fun m' a => wp m' (f a) Q) -> wp m (p ≫= f) Q.
Proof.
  change (p ≫= f) with (prog_bind f p).
  revert m. induction p; simpl; naive_solver.
Qed.

(** *** The operations *)

(** What a lookup may answer. *)
Definition result_ok (a : string) (m : gmap string string) (r : result string) : Prop :=
  forall u, r = Ok u -> Fact m a u.

Lemma result_ok_stable a : stable (result_ok a).
Proof. intros m m' r HM Hr u ->. eapply Fact_mono; [exact HM|by apply Hr]. Qed.

Lemma wp_redisAvailable m Q :
  (forall b m', Moves m m' -> Q m' b) -> wp m redisAvailable Q.
Proof. intros HQ t m1 H1 d m2 H2. apply HQ. by etransitivity. Qed.

Lemma wp_markRedisDown m Q : (forall m', Moves m m' -> Q m' tt) -> wp m markRedisDown Q.
Proof. intros HQ t m1 H1 m2 H2. apply HQ. by etransitivity. Qed.

(** The end the three operations share: if Redis is available, a command, and
    the breaker when it fails. *)
Lemma wp_offer {A : Type} m (cmd : prog (option error)) (x : A) Q :
  (forall m', Moves m m' -> Q m' x) ->
  (forall m', Moves m m' -> wp m' cmd (fun m'' _ => Moves m m'')) ->
  wp m (available ← redisAvailable;
        if negb available then mret x else
        serr ← cmd;
        match serr with
        | Some _ => _ ← markRedisDown; mret x
        | None => mret x
        end) Q.
Proof.
  intros HQ Hcmd. apply wp_bind, wp_redisAvailable. intros [|] m' HM; [|by apply HQ].
  apply wp_bind. eapply wp_weaken; [by apply Hcmd|]. intros m2 [e|] HM2; [|by apply HQ].
  apply wp_bind, wp_markRedisDown. intros m3 HM3. apply HQ. by etransitivity.
Qed.

Lemma wp_RdbSet m ctx a u t m0 : Moves m0 m -> Fact m a u ->
  wp m (RdbSet ctx a u t Ret) (fun m' _ => Moves m0 m').
Proof. intros HM Hf. split; [done|]. intros e m' HM'. simpl. by etransitivity. Qed.

Lemma wp_Save m c ctx u a : may_save u a ->
  wp m (Save c ctx u a) (fun m' e => e = None -> Fact m' a u).
Proof.
  intros Hs. apply wp_bind. split; [done|]. intros [e|] m' HM Hf; [done|].
  assert (Hu : Fact m' a u) by by apply Hf.
  apply wp_offer.
  - intros m2 HM2 _. by eapply Fact_mono.
  - intros m2 HM2. apply wp_RdbSet; [done|]. by eapply Fact_mono.
Qed.

Lemma wp_Get_fill m c ctx a : wp m (Get_fill c ctx a) (fun m' v => good m' a v).
Proof.
  apply wp_bind. intros [u|e] m' HM Hf; [|by intros v [=]].
  assert (Hu : Fact m' a u) by by apply Hf.
  apply wp_offer.
  - intros m2 HM2 v [= <-]. by eapply Fact_mono.
  - intros m2 HM2. apply wp_RdbSet; [done|]. by eapply Fact_mono.
Qed.

Lemma wp_Get_next m c ctx a : wp m (Get_next c ctx a) (result_ok a).
Proof.
  apply wp_bind. split; [apply wp_Get_fill|].
  intros [[u|]|e] m' HM Hg; intros v [= <-]. by apply Hg.
Qed.

Lemma wp_Get m c ctx a : wp m (Get c ctx a) (result_ok a).
Proof.
  apply wp_bind, wp_redisAvailable. intros [|] m1 H1; [|apply wp_Get_next].
  apply wp_bind. intros [u|e] m2 H2 Hf; [done|].
  apply wp_ret; cbn beta iota. case_match; [|apply wp_Get_next].
  apply wp_bind, wp_markRedisDown. intros m3 H3. apply wp_Get_next.
Qed.

Lemma wp_Delete m c ctx a : may_delete a -> wp m (Delete c ctx a) (fun _ _ => True).
Proof.
  intros Hd. apply wp_bind. split; [done|]. intros [e|] m' HM; [done|].
  apply wp_offer; [done|]. intros m2 HM2 e m3 HM3. simpl. by etransitivity.
Qed.

(** *** Accesses *)

Definition shared_ok (s : shared) : Prop :=
  Holds (store s) /\ map_Forall (Fact (store s)) (redis s) /\
  Forall (fun kv => good (store s) kv.1 kv.2) (delivered s).

Lemma shared_ok_store s m : Moves (store s) m -> Holds m -> shared_ok s ->
  shared_ok (with_store m s).
Proof.
  intros HM Hm (_ & Hr & Hd). split_and!; simpl; [done|..].
  - intros a u Ha. eapply Fact_mono; [exact HM|by apply Hr].
  - eapply Forall_impl; [exact Hd|]. intros [key v] Hg. by eapply good_stable.
Qed.

Lemma shared_ok_redis s m : map_Forall (Fact (store s)) m -> shared_ok s ->
  shared_ok (with_redis m s).
Proof. by intros Hm (? & _ & ?). Qed.

Lemma map_Forall_subseteq (P : string -> string -> Prop) (m m' : gmap string string) :
  m' ⊆ m -> map_Forall P m -> map_Forall P m'.
Proof. intros Hsub HP a u Hu. apply HP. by eapply lookup_weaken. Qed.

Lemma NextSave_ok s u a e m : may_save u a -> shared_ok s ->
  save_rel (store s) u a e m ->
  shared_ok (with_store m s) /\ Moves (store s) m /\ (e = None -> Fact m a u).
Proof.
  intros Hu Hs Hr. destruct (Moves_save _ _ _ _ _ Hu (proj1 Hs) Hr) as [HM Hm].
  split_and!; [by apply shared_ok_store|done|]. intros ->. destruct Hr as [_ ->].
  apply Fact_lookup; [done|]. apply lookup_insert_eq.
Qed.

Lemma delivery_ok s key v : good (store s) key v -> shared_ok s ->
  shared_ok (with_delivery (key, v) s).
Proof.
  intros Hg (Hh & Hr & Hd). split_and!; [done..|]. simpl.
  apply Forall_app. split; [done|by apply Forall_singleton].
Qed.

Lemma delivered_ok s n key v : shared_ok s -> (key, v) ∈ drop n (delivered s) ->
  good (store s) key v.
Proof.
  intros (_ & _ & Hd) Hin. rewrite Forall_forall in Hd.
  apply (Hd (key, v)). by eapply subseteq_drop.
Qed.

(** Every access keeps the facts, and leaves a program that can go on. *)
Lemma access_ok {A : Type} s (p : prog A) s' p' Q : stable Q -> shared_ok s ->
  wp (store s) p Q -> access s p s' p' ->
  shared_ok s' /\ Moves (store s) (store s') /\ wp (store s') p' Q.
Proof.
  intros HQ Hs Hp Ha. pose proof (Moves_refl (store s)) as HR.
  pose proof Hs as (Hh & Hr & _).
  destruct Ha; simpl in *; split_and!; try done; try by (apply Hp; done).
  all: try (by apply shared_ok_redis; [apply map_Forall_insert_2; [apply Hp|]|]).
  all: try (by apply shared_ok_redis; [apply map_Forall_delete|]).
  all: lazymatch goal with
    | Hx : save_rel _ _ _ _ _ |- _ =>
        destruct Hp as [Hu Hp]; destruct (NextSave_ok _ _ _ _ _ Hu Hs Hx) as (? & ? & ?)
    | Hx : delete_rel _ _ _ _ |- _ =>
        destruct Hp as [Hu Hp]; destruct (Moves_delete _ _ _ _ Hu Hh Hx) as [? ?]
    | _ => idtac
    end.
  all: try done; try by (apply Hp; done).
  - apply Hp; [done|]. intros u ->. by apply Fact_lookup.
  - by apply shared_ok_store.
  - apply Hp; [done|]. intros u [= <-]. by apply Hr.
  - destruct Hp as [Hf Hp]. apply wp_bind. eapply wp_weaken; [by apply wp_moves|].
    intros m v [HM Hg]. split; [done|]. intros m' HM'.
    apply Hp; [by etransitivity|by eapply good_stable].
  - apply Hp; [done|]. by eapply delivered_ok.
  - apply delivery_ok; [apply Hp|done].
Qed.

(** *** The pool

    [post cl]: what the answer to [cl] must have. *)

Section Pool.
Context {C R : Type} (post : C -> gmap string string -> R -> Prop).
Context (post_stable : forall cl, stable (post cl)).

Definition state_ok (st : state C R) : Prop :=
  shared_ok st.1 /\ Forall (fun t => wp (store st.1) t.2 (post t.1)) st.2.

Lemma step_ok st st' : step st st' -> state_ok st -> state_ok st'.
Proof.
  intros [Hst|Hst] [Hs Hp];
    [destruct Hst as [s pool i cl p s' p' Hi Ha]|destruct Hst as [s pool m t Hm Ht]]; simpl in *.
  - assert (Hcl := Hp). rewrite Forall_lookup in Hcl. specialize (Hcl i _ Hi). simpl in Hcl.
    destruct (access_ok _ _ _ _ _ (post_stable cl) Hs Hcl Ha) as (Hs' & HM & Hp').
    split; [done|]. apply Forall_insert; [|done].
    eapply Forall_impl; [exact Hp|]. intros [cl1 p1] H1. simpl in *.
    eapply wp_mono; [apply post_stable|exact HM|exact H1].
  - split; [|done]. destruct Hs as (Hh & Hr & Hd). split_and!; [done| |done].
    by eapply map_Forall_subseteq.
Qed.

Lemma steps_ok st st' : rtc step st st' -> state_ok st -> state_ok st'.
Proof. induction 1; eauto using step_ok. Qed.

Lemma steps_move st st' : rtc step st st' -> state_ok st -> Moves (store st.1) (store st'.1).
Proof.
  induction 1 as [st|st st1 st2 Hst _ IH]; intros Hok; [done|].
  transitivity (store st1.1); [|by apply IH; eapply step_ok]. clear IH. revert Hok.
  destruct Hst as [[s pool i cl p s' p' Hi Ha]|[s pool m t Hm Ht]]; [|done].
  intros [Hs Hp]. rewrite Forall_lookup in Hp. specialize (Hp i _ Hi). simpl in *.
  by destruct (access_ok _ _ _ _ _ (post_stable cl) Hs Hp Ha) as (_ & HM & _).
Qed.

(** What the threads that have finished have answered. *)
Lemma state_answered st st' : rtc step st st' -> state_ok st ->
  shared_ok st'.1 /\ forall cl r, answered st' cl r -> post cl (store st'.1) r.
Proof.
  intros Hst Hok. destruct (steps_ok _ _ Hst Hok) as [Hs Hp]. split; [done|].
  intros cl r Hin. rewrite Forall_forall in Hp. exact (Hp _ Hin).
Qed.
End Pool.

(** *** Calls on the cache *)

Definition answer_ok (cl : call) (m : gmap string string) (r : reply) : Prop :=
  match cl, r with
  | CSave _ u a, RError None => Fact m a u
  | CGet _ a, RURL r => result_ok a m r
  | _, _ => True
  end.

Lemma answer_ok_stable cl : stable (answer_ok cl).
Proof.
  intros m m' r HM. destruct cl, r as [[e|]|r]; simpl; try done.
  - by apply Fact_mono.
  - by apply result_ok_stable.
Qed.

Lemma wp_program m c cl : permitted cl -> wp m (program c cl) (answer_ok cl).
Proof.
  destruct cl as [ctx u a|ctx a|ctx a]; intros Hp; apply wp_bind.
  - eapply wp_weaken; [by apply wp_Save|]. intros m' [e|] Hf; [done|by apply Hf].
  - by eapply wp_weaken; [apply wp_Get|].
  - by eapply wp_weaken; [apply wp_Delete|].
Qed.

Lemma start_ok c cs s : shared_ok s -> Forall permitted cs -> state_ok answer_ok (s, start c cs).
Proof.
  intros Hs Hcs. split; [done|]. simpl. apply Forall_fmap.
  eapply Forall_impl; [exact Hcs|]. intros cl Hcl. by apply wp_program.
Qed.

Lemma answered_ok c cs s st : shared_ok s -> Forall permitted cs ->
  rtc step (s, start c cs) st ->
  shared_ok st.1 /\ forall cl r, answered st cl r -> answer_ok cl (store st.1) r.
Proof.
  intros Hs Hcs Hst. by apply (state_answered _ answer_ok_stable _ _ Hst), start_ok.
Qed.
End Discipline.

(** *** Two disciplines *)

(** Every link has the property [P]. *)
#[local] Program Instance provenance (P : string -> string -> Prop) : Discipline := {|
  Fact := fun _ a u => P a u;
  Moves := fun _ _ => True;
  Holds := map_Forall P;
  may_save := fun u a => P a u;
  may_delete := fun _ => True;
|}.
Next Obligation. by intros. Qed.
Next Obligation. by intros. Qed.
Next Obligation. by intros. Qed.
Next Obligation. intros P m a u Hm Ha. by apply Hm. Qed.
Next Obligation.
  intros P m u a e m' Hu Hm [-> |[_ ->]]%save_rel_effect; (split; [done|]); [done|].
  by apply map_Forall_insert_2.
Qed.
Next Obligation.
  intros P m a e m' _ Hm [-> | ->]%delete_rel_shrinks; (split; [done|]); [done|].
  by apply map_Forall_delete.
Qed.

(** Nobody deletes [a]: once it has a URL it keeps it. *)
#[local] Program Instance undeleted (a : string) : Discipline := {|
  Fact := fun m k u => k = a -> m !! a = Some u;
  Moves := fun m m' => m !! a = None \/ m' !! a = m !! a;
  Holds := fun _ => True;
  may_save := fun _ _ => True;
  may_delete := fun k => k <> a;
|}.
Next Obligation. intros a m. by right. Qed.
Next Obligation. intros a m1 m2 m3 [H1|H1] [H2|H2]; rewrite <- ?H1; auto. Qed.
Next Obligation. intros a m m' k u HM Hf Hk. specialize (Hf Hk). destruct HM; congruence. Qed.
Next Obligation. by intros a m k u _ Hk ->. Qed.
Next Obligation.
  intros a m u k e m' _ _ [-> |[Hn ->]]%save_rel_effect; (split; [|done]); [by right|].
  destruct (decide (k = a)) as [->|Hk]; [by left|right]. by rewrite lookup_insert_ne.
Qed.
Next Obligation.
  intros a m k e m' Hk _ [-> | ->]%delete_rel_shrinks; (split; [|done]); right; [done|].
  by rewrite lookup_delete_ne.
Qed.

(** ** One call alone is the sequential operation *)

Section Models.
Context {W} `{Storage W, Redis W, Runtime W, !Singleflight (Z * W), !SingleflightSpec (Z * W)}.
Context `{Service.AliasGenerator W}.

Lemma interp_bind {A B : Type} (p : prog A) (f : A -> prog B) (s : Z * W) :
  interp (p ≫= f) s = (a ← interp p; interp (f a)) s.
Proof.
  change (p ≫= f) with (prog_bind f p). revert s.
  induction p; intros s; simpl; try done; unfold mbind, M_bind in *; simpl in *; auto;
    match goal with |- context [?m s] => destruct (m s) end; auto.
Qed.

(** [p] alone does what [m] does. *)
Definition models {A : Type} (p : prog A) (m : CM W A) : Prop := forall s, interp p s = m s.

Lemma models_bind {A B : Type} (p : prog A) (m : CM W A) (f : A -> prog B) g :
  models p m -> (forall a, models (f a) (g a)) -> models (p ≫= f) (m ≫= g).
Proof.
  intros Hp Hf s. rewrite interp_bind. unfold mbind, M_bind. rewrite Hp.
  destruct (m s). apply Hf.
Qed.

Lemma models_ret {A : Type} (a : A) : models (mret a) (mret a).
Proof. done. Qed.
End Models.

Create HintDb models discriminated.
#[export] Hint Resolve models_ret : models.

(** Both sides are the same text: follow it. *)
Ltac follow :=
  repeat first
    [ solve [auto with models]
    | apply models_bind; [|intros ?]
    | match goal with |- models (match ?x with _ => _ end) _ => destruct x end ].

Section Sequential.
Context {W} `{Storage W, Redis W, Runtime W, !Singleflight (Z * W), !SingleflightSpec (Z * W)}.
Context `{Service.AliasGenerator W}.

Ltac one_access := intros [d w]; simpl; m_unfold; by repeat case_match.

Lemma models_Now : models (Now Ret) (lift_snd time_Now).
Proof. one_access. Qed.
Lemma models_Load : models (Load Ret) get_fst.
Proof. one_access. Qed.
Lemma models_Store t : models (Store t (mret tt)) (put_fst t).
Proof. one_access. Qed.
Lemma models_NextSave ctx u a : models (NextSave ctx u a Ret) (lift_snd (st_Save ctx u a)).
Proof. one_access. Qed.
Lemma models_NextGet ctx a : models (NextGet ctx a Ret) (lift_snd (st_Get ctx a)).
Proof. one_access. Qed.
Lemma models_NextDelete ctx a : models (NextDelete ctx a Ret) (lift_snd (st_Delete ctx a)).
Proof. one_access. Qed.
Lemma models_RdbGet ctx k : models (RdbGet ctx k Ret) (lift_snd (rdb_Get ctx k)).
Proof. one_access. Qed.
Lemma models_RdbSet ctx k v t : models (RdbSet ctx k v t Ret) (lift_snd (rdb_Set ctx k v t)).
Proof. one_access. Qed.
Lemma models_RdbDel ctx k : models (RdbDel ctx k Ret) (lift_snd (rdb_Del ctx k)).
Proof. one_access. Qed.

Lemma models_Do key fn (m : CM W (result any)) :
  models fn m -> models (Do key fn Ret) (group_Do key m).
Proof.
  intros Hf s. simpl. unfold mbind, M_bind. rewrite !Do_alone, Hf. by destruct (m s).
Qed.

#[local] Hint Resolve models_Now models_Load models_Store models_NextSave
  models_NextGet models_NextDelete models_RdbGet models_RdbSet models_RdbDel models_Do : models.

Lemma models_redisAvailable : models redisAvailable Cache.redisAvailable.
Proof. unfold redisAvailable, Cache.redisAvailable. follow. Qed.
Lemma models_markRedisDown : models markRedisDown Cache.markRedisDown.
Proof. unfold markRedisDown, Cache.markRedisDown. follow. Qed.

#[local] Hint Resolve models_redisAvailable models_markRedisDown : models.

Lemma models_Save c ctx u a : models (Save c ctx u a) (Cache.Save c ctx u a).
Proof. unfold Save, Cache.Save. follow. Qed.
Lemma models_Get_fill c ctx a : models (Get_fill c ctx a) (Cache.Get_fill c ctx a).
Proof. unfold Get_fill, Cache.Get_fill. follow. Qed.

#[local] Hint Resolve models_Get_fill : models.

Lemma models_Get_next c ctx a : models (Get_next c ctx a) (Cache.Get_next c ctx a).
Proof. unfold Get_next, Cache.Get_next. follow. Qed.

#[local] Hint Resolve models_Get_next : models.

Lemma models_Get c ctx a : models (Get c ctx a) (Cache.Get c ctx a).
Proof. unfold Get, Cache.Get. follow. Qed.
Lemma models_Delete c ctx a : models (Delete c ctx a) (Cache.Delete c ctx a).
Proof. unfold Delete, Cache.Delete. follow. Qed.

(** A thread that runs alone does to the world what the operation of [Cache]
    does, access by access, and answers the same. *)
Theorem alone_is_sequential c cl (s : Z * W) :
  interp (program c cl) s = run_call (H := CacheStorage c) cl s.
Proof.
  revert s. destruct cl as [ctx u a|ctx a|ctx a].
  - exact (models_bind _ _ _ _ (models_Save c ctx u a) (fun e => models_ret (RError e))).
  - exact (models_bind _ _ _ _ (models_Get c ctx a) (fun r => models_ret (RURL r))).
  - exact (models_bind _ _ _ _ (models_Delete c ctx a) (fun e => models_ret (RError e))).
Qed.
End Sequential.

(** ** One save wins

    Of all the threads that save the alias [a], at most one is told that it has
    it: the others are [clean] of it to the end. *)

Section Winner.
Context (a : string).

(** [p] ends in [Q], unless one of its saves of [a] succeeds. *)
Fixpoint clean {A : Type} (Q : A -> Prop) (p : prog A) : Prop :=
  match p with
  | Ret x => Q x
  | Now k | Load k => forall t, clean Q (k t)
  | NextSave _ _ alias k => forall e, (alias = a -> e <> None) -> clean Q (k e)
  | NextGet _ _ k | RdbGet _ _ k | Gen k => forall r, clean Q (k r)
  | NextDelete _ _ k | RdbSet _ _ _ _ k | RdbDel _ _ k | CtxErr _ k => forall e, clean Q (k e)
  | Do _ _ k | Wait _ _ k => forall v, clean Q (k v)
  | Store _ k | Deliver _ _ k => clean Q k
  end.

Lemma clean_bind {A B : Type} (p : prog A) (f : A -> prog B) Q :
  clean (fun x => clean Q (f x)) p -> clean Q (p ≫= f).
Proof. change (p ≫= f) with (prog_bind f p). induction p; simpl; auto. Qed.

Lemma clean_weaken {A : Type} (p : prog A) (Q Q' : A -> Prop) :
  clean Q p -> (forall x, Q x -> Q' x) -> clean Q' p.
Proof. intros Hp HQ. induction p; simpl in *; eauto. Qed.

Lemma clean_true {A : Type} (p : prog A) (Q : A -> Prop) : (forall x, Q x) -> clean Q p.
Proof. intros HQ. induction p; simpl; auto. Qed.

Lemma clean_Save c ctx u k : clean (fun e => k = a -> e <> None) (Save c ctx u k).
Proof.
  apply clean_bind. intros [e|] He; [done|]. cbn [clean].
  apply clean_true. intros x Hk. by destruct (He Hk).
Qed.

(** An access keeps a thread clean, or takes the free alias. *)
Lemma access_clean {A : Type} s (p : prog A) s' p' Q : access s p s' p' -> clean Q p ->
  clean Q p' \/ store s !! a = None /\ is_Some (store s' !! a).
Proof.
  destruct 1; simpl; intros Hc; try (left; by auto).
  - destruct (decide (a0 = a /\ e = None)) as [[-> ->]|Hne]; [right|left; apply Hc; naive_solver].
    destruct H as [Hn ->]. split; [done|]. simpl. rewrite lookup_insert_eq. by eexists.
  - left. apply clean_bind, clean_true. by auto.
Qed.

Context {C R : Type} (post : C -> gmap string string -> R -> Prop) (told : C -> R -> Prop).
#[local] Instance undeleted_a : Discipline := undeleted a.
Context (post_stable : forall cl, stable (post cl)).

Definition unwon (th : thread C R) : Prop := clean (fun r => ~ told th.1 r) th.2.

(** Only the winner is not clean, and there is one only when the alias is taken. *)
Definition one_save (st : state C R) : Prop :=
  exists w : option nat, (is_Some w -> is_Some (store st.1 !! a)) /\
    forall i th, st.2 !! i = Some th -> w = Some i \/ unwon th.

Lemma moves_taken m m' : Moves m m' -> is_Some (m !! a) -> is_Some (m' !! a).
Proof. intros [Hn|Heq]; [rewrite Hn; by intros [? ?]|by rewrite Heq]. Qed.

Lemma thread_one_save s (pool : list (thread C R)) i cl (p : prog R) s' p' :
  pool !! i = Some (cl, p) -> access s p s' p' ->
  state_ok post (s, pool) -> one_save (s, pool) -> one_save (s', <[i := (cl, p')]> pool).
Proof.
  intros Hi Ha [Hs Hp] (w & Hw & Hf). simpl in *.
  rewrite Forall_lookup in Hp. pose proof (Hp i _ Hi) as Hwp. simpl in Hwp.
  destruct (access_ok _ _ _ _ _ (post_stable cl) Hs Hwp Ha) as (_ & HM & _).
  assert (Hown : exists w', (is_Some w' -> is_Some (store s' !! a)) /\ (w' = w \/ w = None) /\
    (w' = Some i \/ unwon (cl, p'))).
  { destruct (Hf i _ Hi) as [->|Hc].
    { exists (Some i). split_and!; [intros Hx; by apply (moves_taken (store s)), Hw|by left..]. }
    destruct (access_clean _ _ _ _ _ Ha Hc) as [Hc'|[Hn Ht]].
    - exists w. split_and!; [intros Hx; by apply (moves_taken (store s)), Hw|by left|by right].
    - exists (Some i). split_and!; [done| |by left]. right. destruct w; [|done].
      destruct Hw as [v Hv]; [by eexists|congruence]. }
  destruct Hown as (w' & Hw1 & Hch & Hi'). exists w'. split; [done|].
  intros j th [(<- & <- & _)|(Hne & Hj)]%list_lookup_insert_Some; [done|].
  destruct (Hf j th Hj) as [Hwj|?]; [|by right]. left. destruct Hch as [->| ->]; [done|discriminate].
Qed.

Lemma steps_one_save st st' : rtc step st st' -> state_ok post st -> one_save st -> one_save st'.
Proof.
  induction 1 as [|st st1 st2 Hst _ IH]; [done|]. intros Hok H1.
  apply IH; [by eapply step_ok; [exact post_stable|..]|]. revert Hok H1.
  destruct Hst as [[s pool i cl p s' p' Hi Ha]|[s pool m t Hm Ht]]; [|done].
  by apply (thread_one_save s pool i cl p).
Qed.

(** So of a pool of clean threads, at most one is told. *)
Lemma one_winner st st' i j cl cl' r r' : rtc step st st' -> state_ok post st ->
  Forall unwon st.2 ->
  st'.2 !! i = Some (cl, Ret r) -> told cl r -> st'.2 !! j = Some (cl', Ret r') -> told cl' r' ->
  i = j.
Proof.
  intros Hst Hok Hc Hi Hr Hj Hr'.
  destruct (steps_one_save _ _ Hst Hok) as (w & _ & Hf).
  { exists None. split; [by intros [? ?]|]. intros k th Hk. right.
    rewrite Forall_lookup in Hc. by eapply Hc. }
  destruct (Hf i _ Hi) as [Hwi|Hn]; [|by destruct (Hn Hr)].
  destruct (Hf j _ Hj) as [Hwj|Hn]; [|by destruct (Hn Hr')]. congruence.
Qed.
End Winner.

(** The call has stored the alias. *)
Definition saved (a : string) (cl : call) (r : reply) : Prop :=
  match cl, r with CSave _ _ k, RError None => k = a | _, _ => False end.

Lemma start_clean a c cs : Forall (unwon a (saved a)) (start c cs).
Proof.
  apply Forall_fmap, Forall_true. intros [ctx u k|ctx k|ctx k]; apply clean_bind.
  - eapply clean_weaken; [apply clean_Save|]. intros [e|] He; [intros []|]. intros Hk. by apply He.
  - apply clean_true. intros r [].
  - apply clean_true. intros e [].
Qed.

(** ** What no interleaving can break *)

(** However the calls interleave and whatever fails, a lookup answers with a URL
    that some call of [Save] brought in under the alias, or that was there from
    the start: any property [P] that those have, it has. *)
Theorem interleaved_provenance (P : string -> string -> Prop) c cs s st :
  map_Forall P (store s) -> map_Forall P (redis s) -> delivered s = [] ->
  (forall ctx u a, CSave ctx u a ∈ cs -> P a u) ->
  rtc step (s, start c cs) st ->
  map_Forall P (store st.1) /\ map_Forall P (redis st.1) /\
  forall ctx a u, answered st (CGet ctx a) (RURL (Ok u)) -> P a u.
Proof.
  intros Hs Hr Hd Hcs Hst.
  destruct (answered_ok (H := provenance P) c cs s st) as [(Hs' & Hr' & _) Ha]; [..|exact Hst|].
  - split_and!; [done..|]. by rewrite Hd.
  - apply Forall_forall. intros [ctx u a|ctx a|ctx a] Hin; simpl; [by eapply Hcs|done..].
  - split_and!; [done..|]. intros ctx a u Hu. by eapply (Ha _ _ Hu).
Qed.

(** An alias that nobody deletes is never answered wrongly, however its saves
    and lookups interleave and whatever Redis does: what Redis holds for it,
    what a lookup answers and what a successful [Save] stored are one URL, the
    one in the storage; and at most one [Save] of it succeeds. *)
Theorem undeleted_alias_coherent a c cs s st :
  (forall u, redis s !! a = Some u -> store s !! a = Some u) -> delivered s = [] ->
  (forall ctx, CDelete ctx a ∉ cs) ->
  rtc step (s, start c cs) st ->
  (forall u, redis st.1 !! a = Some u -> store st.1 !! a = Some u) /\
  (forall ctx u, answered st (CGet ctx a) (RURL (Ok u)) -> store st.1 !! a = Some u) /\
  (forall ctx u, answered st (CSave ctx u a) (RError None) -> store st.1 !! a = Some u) /\
  (forall i j ctx ctx' u u', st.2 !! i = Some (CSave ctx u a, Ret (RError None)) ->
     st.2 !! j = Some (CSave ctx' u' a, Ret (RError None)) -> i = j).
Proof.
  intros Hr Hd Hcs Hst.
  assert (Hsh : shared_ok (H := undeleted a) s).
  { split_and!; [done| |by rewrite Hd]. by intros k u Hk ->; apply Hr. }
  assert (Hperm : Forall (permitted (H := undeleted a)) cs).
  { apply Forall_forall. intros [ctx u k|ctx k|ctx k] Hin; simpl; [done..|]. intros ->.
    by eapply Hcs. }
  destruct (answered_ok (H := undeleted a) c cs s st) as [(_ & Hr' & _) Ha]; [done..|].
  split_and!.
  - intros u Hu. by apply (Hr' a u Hu).
  - intros ctx u Hu. by apply (Ha _ _ Hu).
  - intros ctx u Hu. by apply (Ha _ _ Hu).
  - intros i j ctx ctx' u u' Hi Hj.
    by eapply (one_winner a answer_ok (saved a) answer_ok_stable _ _ i j);
      [exact Hst|apply start_ok|apply start_clean|..].
Qed.

(** ** What an interleaving can do *)

(** Let thread [i] make its next access, by [rule]. *)
Tactic Notation "access_of" constr(i) uconstr(rule) :=
  eapply rtc_l; [apply by_thread; eapply (step_thread _ _ i); [reflexivity|eapply rule; simpl; eauto]|];
  simpl; unfold Get_next, redisAvailable, markRedisDown; simpl.

(** C13: A lookup that misses Redis reads the storage, a delete of the alias runs
    from start to end, and the lookup writes what it read back to Redis: the
    link is gone from the storage, every server worked, and later lookups are
    answered from Redis with the deleted URL. *)
Theorem delete_race c s ctx ctx' a u :
  store s !! a = Some u -> redis s !! a = None -> down s <= UnixNano (clock s) ->
  a ∉ flights s ->
  exists st, rtc step (s, start c [CGet ctx a; CDelete ctx' a]) st /\
    answered st (CDelete ctx' a) (RError None) /\ answered st (CGet ctx a) (RURL (Ok u)) /\
    store st.1 = delete a (store s) /\ redis st.1 !! a = Some u /\
    exists st', rtc step (st.1, start c [CGet ctx a]) st' /\
      answered st' (CGet ctx a) (RURL (Ok u)) /\ store st'.1 !! a = None.
Proof.
  intros Hs Hr Hd Hf. apply Z.leb_le in Hd.
  eexists. split.
  - unfold start, program, Get, Delete, redisAvailable; simpl.
    access_of 0%nat access_Now. access_of 0%nat access_Load. rewrite Hd.
    access_of 0%nat (access_RdbGet_err _ _ _ _ (Sentinel (SLib RedisNil))).
    access_of 0%nat access_Do_lead.
    access_of 0%nat (access_NextGet _ _ _ _ (Ok u)).
    access_of 1%nat (access_NextDelete _ _ _ _ None (delete a (store s))).
    access_of 1%nat access_Now. access_of 1%nat access_Load. rewrite Hd.
    access_of 1%nat access_RdbDel.
    access_of 0%nat access_Now. access_of 0%nat access_Load. rewrite Hd.
    access_of 0%nat access_RdbSet. access_of 0%nat access_Deliver.
    reflexivity.
  - split_and!; simpl.
    + apply list_elem_of_further, list_elem_of_here.
    + apply list_elem_of_here.
    + done.
    + apply lookup_insert_eq.
    + eexists. split.
      * unfold start, program, Get, redisAvailable; simpl.
        access_of 0%nat access_Now. access_of 0%nat access_Load. rewrite Hd.
        access_of 0%nat (access_RdbGet_hit _ _ _ _ u); [apply lookup_insert_eq|].
        reflexivity.
      * split; [apply list_elem_of_here|apply lookup_delete_eq].
Qed.

(** While the breaker is open, a lookup that has found nothing in the storage
    hands its answer to a lookup that begins after a [Save] of the alias has
    returned: the client that was told its link is saved gets a not-found. *)
Theorem not_found_after_save c s ctx ctx' ctx'' a u :
  store s !! a = None -> UnixNano (clock s) < down s -> a ∉ flights s ->
  let cs := [CGet ctx a; CSave ctx' u a; CGet ctx'' a] in
  exists st, rtc step (s, start c cs) st /\
    answered st (CSave ctx' u a) (RError None) /\ store st.1 = <[a := u]> (store s) /\
    st.2 !! 2%nat = start c cs !! 2%nat /\
    exists st', rtc step st st' /\ store st'.1 = store st.1 /\
      st'.2 !! 2%nat =
        Some (CGet ctx'' a, Ret (RURL (Err (Sentinel (SDomain ErrURLNotFound))))).
Proof.
  intros Hs Hd Hf cs. apply Z.leb_gt in Hd.
  eexists. split.
  - unfold cs, start, program, Get, Save, redisAvailable; simpl.
    access_of 0%nat access_Now. access_of 0%nat access_Load. rewrite Hd.
    access_of 0%nat access_Do_lead.
    access_of 0%nat (access_NextGet _ _ _ _ (Err (Sentinel (SDomain ErrURLNotFound)))).
    access_of 1%nat (access_NextSave _ _ _ _ _ None (<[a := u]> (store s))).
    access_of 1%nat access_Now. access_of 1%nat access_Load. rewrite Hd.
    reflexivity.
  - split_and!; simpl.
    + apply list_elem_of_further, list_elem_of_here.
    + done.
    + done.
    + eexists. split.
      * access_of 2%nat access_Now. access_of 2%nat access_Load. rewrite Hd.
        access_of 2%nat access_Do_join; [set_solver|]. access_of 0%nat access_Deliver.
        access_of 2%nat (access_Wait _ _ _ _ (Err (Sentinel (SDomain ErrURLNotFound))));
          [rewrite drop_app_length; apply list_elem_of_here|].
        reflexivity.
      * done.
Qed.

(** ** Running a schedule *)

(** How an access is answered: as it should be, with an error, or with a string
    of the generator. *)
Inductive answer : Type :=
| Works
| Fails (e : error)
| Gives (r : result string).

Definition try_access {A : Type} (ans : answer) (s : shared) (p : prog A) :
    option (shared * prog A) :=
  match p with
  | Ret _ => None
  | Now k => Some (s, k (clock s))
  | Load k => Some (s, k (down s))
  | Store t k => Some (with_down t s, k)
  | NextSave _ u a k =>
      match ans with
      | Fails e =>
          if errors_Is e (SDomain ErrURLExist) then None
          else Some (with_store (store s) s, k (Some e))
      | _ =>
          match store s !! a with
          | None => Some (with_store (<[a := u]> (store s)) s, k None)
          | Some _ => Some (with_store (store s) s, k (Some (Sentinel (SDomain ErrURLExist))))
          end
      end
  | NextGet _ a k =>
      match ans with
      | Fails e => if errors_Is e (SDomain ErrURLNotFound) then None else Some (s, k (Err e))
      | _ => Some (s, k (from_option Ok (Err (Sentinel (SDomain ErrURLNotFound))) (store s !! a)))
      end
  | NextDelete _ a k =>
      match ans with
      | Fails e =>
          if errors_Is e (SDomain ErrURLNotFound) then None
          else Some (with_store (store s) s, k (Some e))
      | _ =>
          match store s !! a with
          | Some _ => Some (with_store (delete a (store s)) s, k None)
          | None => Some (with_store (store s) s, k (Some (Sentinel (SDomain ErrURLNotFound))))
          end
      end
  | RdbGet _ key k =>
      match ans, redis s !! key with
      | Fails e, _ => Some (s, k (Err e))
      | _, Some v => Some (s, k (Ok v))
      | _, None => Some (s, k (Err (Sentinel (SLib RedisNil))))
      end
  | RdbSet _ key v _ k =>
      match ans with
      | Fails e => Some (s, k (Some e))
      | _ => Some (with_redis (<[key := v]> (redis s)) s, k None)
      end
  | RdbDel _ key k =>
      match ans with
      | Fails e => Some (s, k (Some e))
      | _ => Some (with_redis (delete key (redis s)) s, k None)
      end
  | Gen k => match ans with Gives r => Some (s, k r) | _ => None end
  | CtxErr _ k =>
      let e := match ans with Fails e => Some e | _ => None end in
      if ctx_error e then Some (s, k e) else None
  | Do key fn k =>
      if decide (key ∈ flights s) then Some (s, Wait key (length (delivered s)) k)
      else Some (with_flight key s, (v ← fn; Deliver key v (k v)))
  | Wait key n k =>
      kv ← head (filter (fun kv => kv.1 = key) (drop n (delivered s))); Some (s, k kv.2)
  | Deliver key v k => Some (with_delivery (key, v) s, k)
  end.

(** The threads named make their accesses, one after the other. *)
Definition try_step {C R : Type} (st : state C R) (ia : nat * answer) : option (state C R) :=
  t ← st.2 !! ia.1;
  sp ← try_access ia.2 st.1 t.2;
  Some (sp.1, <[ia.1 := (t.1, sp.2)]> st.2).

Fixpoint schedule {C R : Type} (ias : list (nat * answer)) (st : state C R) : option (state C R) :=
  match ias with
  | [] => Some st
  | ia :: ias => st' ← try_step st ia; schedule ias st'
  end.

Lemma found_rel m a :
  get_rel m a (from_option Ok (Err (Sentinel (SDomain ErrURLNotFound))) (m !! a)).
Proof. destruct (m !! a) as [u|] eqn:E; [exact E|intros _; exact E]. Qed.

Lemma try_access_sound {A : Type} ans s (p : prog A) s' p' :
  try_access ans s p = Some (s', p') -> access s p s' p'.
Proof.
  destruct p; simpl; intros Ht.
  all: repeat case_match; simplify_option_eq; try discriminate; subst; try by constructor.
  all: try (constructor; apply found_rel).
  - constructor. simpl. case_match; [congruence|by left].
  - constructor. simpl. congruence.
  - constructor. simpl. case_match; [congruence|by left].
  - match goal with Hh : head _ = Some ?kv |- _ =>
      apply head_Some_elem_of, list_elem_of_filter in Hh as [Hk Hin]; destruct kv as [k1 v1] end.
    simpl in Hk. subst k1. by constructor.
Qed.

Lemma try_step_sound {C R : Type} (st st' : state C R) ia :
  try_step st ia = Some st' -> thread_step st st'.
Proof.
  destruct st as [s pool], ia as [i ans]. unfold try_step. simpl.
  destruct (pool !! i) as [[cl p]|] eqn:Hi; [|done]. simpl.
  destruct (try_access ans s p) as [[s' p']|] eqn:Ha; [|done]. intros [= <-].
  econstructor; [exact Hi|]. by eapply try_access_sound.
Qed.

(** A schedule that is carried out is a run. *)
Lemma schedule_sound {C R : Type} ias (st st' : state C R) :
  schedule ias st = Some st' -> rtc step st st'.
Proof.
  revert st. induction ias as [|ia ias IH]; intros st; simpl; [by intros [= ->]|].
  destruct (try_step st ia) as [st1|] eqn:E; [|done]. simpl. intros Hs.
  eapply rtc_l; [apply by_thread; by eapply try_step_sound|by apply IH].
Qed.

(** ** Instances *)

Definition empty_shared : shared :=
  {| clock := 0; down := 0; store := ∅; redis := ∅; flights := ∅; delivered := [] |}.
Definition stored_shared : shared :=
  {| clock := 0; down := 0; store := {["x" := "https://a"]}; redis := ∅; flights := ∅; delivered := [] |}.
Definition open_shared : shared :=
  {| clock := 0; down := 1; store := ∅; redis := ∅; flights := ∅; delivered := [] |}.

(** A save and a lookup, the lookup begun in the middle of the save. *)
Definition two_calls : list call := [CSave Background "https://a" "x"; CGet Background "x"].
Definition two_answers : state call reply :=
  ({| clock := 0; down := 0; store := {["x" := "https://a"]};
      redis := {["x" := "https://a"]}; flights := ∅; delivered := [] |},
   [(CSave Background "https://a" "x", Ret (RError None));
    (CGet Background "x", Ret (RURL (Ok "https://a")))]).

Lemma two_run : rtc step (empty_shared, start (New Hour) two_calls) two_answers.
Proof.
  apply (schedule_sound ((fun i => (i, Works)) <$> [0; 1; 0; 1; 0; 0; 1]%nat)).
  vm_compute. reflexivity.
Qed.

Lemma undeleted_alias_coherent_witness :
  answered two_answers (CGet Background "x") (RURL (Ok "https://a")) /\
  store two_answers.1 !! "x" = Some "https://a".
Proof.
  assert (Ha : answered two_answers (CGet Background "x") (RURL (Ok "https://a")))
    by apply list_elem_of_further, list_elem_of_here.
  split; [exact Ha|].
  destruct (undeleted_alias_coherent "x" (New Hour) two_calls empty_shared two_answers)
    as (_ & HG & _ & _); [..|exact (HG _ _ Ha)].
  - done.
  - done.
  - intros ctx Hin. unfold two_calls in Hin. rewrite !elem_of_cons, elem_of_nil in Hin. naive_solver.
  - exact two_run.
Defined.

Lemma interleaved_provenance_witness :
  answered two_answers (CGet Background "x") (RURL (Ok "https://a")) /\
  map_Forall (fun _ u => String.length u = 9%nat) (redis two_answers.1).
Proof.
  split; [apply list_elem_of_further, list_elem_of_here|].
  refine (proj1 (proj2 (interleaved_provenance (fun _ u => String.length u = 9%nat)
    (New Hour) two_calls empty_shared two_answers _ _ eq_refl _ two_run))).
  - by intros a u [=].
  - by intros a u [=].
  - intros ctx u a Hin. apply elem_of_cons in Hin as [[= -> -> ->]|Hin]; [done|].
    apply elem_of_cons in Hin as [[=]|Hin]. inversion Hin.
Defined.

Lemma delete_race_witness :
  exists st, rtc step (stored_shared,
      start (New Hour) [CGet Background "x"; CDelete Background "x"]) st /\
    store st.1 !! "x" = None /\ redis st.1 !! "x" = Some "https://a".
Proof.
  destruct (delete_race (New Hour) stored_shared Background Background "x" "https://a")
    as (st & Hst & _ & _ & Hs & Hr & _); [reflexivity|reflexivity|vm_compute; discriminate|set_solver|].
  exists st. split_and!; [exact Hst|by rewrite Hs|exact Hr].
Defined.

Lemma not_found_after_save_witness :
  exists st, rtc step (open_shared, start (New Hour)
      [CGet Background "x"; CSave Background "https://a" "x"; CGet Background "x"]) st /\
    answered st (CSave Background "https://a" "x") (RError None) /\
    exists st', rtc step st st' /\ st'.2 !! 2%nat =
      Some (CGet Background "x", Ret (RURL (Err (Sentinel (SDomain ErrURLNotFound))))).
Proof.
  destruct (not_found_after_save (New Hour) open_shared Background Background Background "x"
    "https://a") as (st & Hst & Ha & _ & _ & st' & Hst' & _ & Hl);
    [reflexivity|reflexivity|set_solver|].
  exists st. split_and!; [exact Hst|exact Ha|]. by exists st'.
Defined.

(** A generator that gives one alias. *)
#[global] Instance one_alias : Service.AliasGenerator SimRedis.world := mret (Ok "ABCDEF").

Lemma alone_is_sequential_witness :
  let s := SimRedis.start 0 {["x" := "https://a"]} [] in
  interp (program (New Hour) (CGet Background "x")) s =
    (RURL (Ok "https://a"), (0, {| SimRedis.now := 1000 * Second; SimRedis.tick := 0;
       SimRedis.db := {["x" := "https://a"]}; SimRedis.keys := {["x" := "https://a"]};
       SimRedis.fails := [] |})).
Proof. intros s. rewrite alone_is_sequential. vm_compute. reflexivity. Defined.
