(* ===== verification/Progress.v ===== *)
(** * Every call on the cache is answered

    The breaker, Redis and [singleflight] make callers wait for one another, so
    that a call is answered is not obvious.  Here: no schedule makes more than
    thirteen accesses per call, and no reachable state is stuck before all calls
    are answered ([every_call_answered]). *)

From stdpp Require Import relations.
From S2P Require Import Prelude GoErrors Authn Runtime Storage Cache Interleave.

(** ** How long a program can run *)

(** [p] makes at most [n] accesses, whatever it is answered. *)
Fixpoint steps_le {A : Type} (n : nat) (p : prog A) : Prop :=
  match p with
  | Ret _ => True
  | Do _ fn k => exists n1 n2, (2 + n1 + n2 <= n)%nat /\ steps_le n1 fn /\
                   forall v, steps_le n2 (k v)
  | Now k | Load k => match n with O => False | S n => forall t, steps_le n (k t) end
  | NextGet _ _ k | RdbGet _ _ k | Gen k =>
      match n with O => False | S n => forall r, steps_le n (k r) end
  | NextSave _ _ _ k | NextDelete _ _ k | RdbSet _ _ _ _ k | RdbDel _ _ k | CtxErr _ k =>
      match n with O => False | S n => forall e, steps_le n (k e) end
  | Wait _ _ k => match n with O => False | S n => forall v, steps_le n (k v) end
  | Store _ k | Deliver _ _ k => match n with O => False | S n => steps_le n k end
  end.

Lemma steps_le_mono {A : Type} (p : prog A) n m :
  (n <= m)%nat -> steps_le n p -> steps_le m p.
Proof.
  revert n m. induction p; intros [|n'] [|m'] Hle; simpl; try done; try lia.
  all: try (intros Hp; intros; eapply H; [|by eauto]; lia).
  all: try (by apply IHp; lia).
  all: intros (n1 & n2 & ? & ? & ?); exists n1, n2; split_and!; [lia|done|done].
Qed.

Lemma steps_le_bind {A B : Type} (p : prog A) (f : A -> prog B) n m :
  steps_le n p -> (forall a, steps_le m (f a)) -> steps_le (n + m) (p ≫= f).
Proof.
  change (p ≫= f) with (prog_bind f p). intros Hp Hf. revert n Hp.
  induction p; intros [|n'] Hp; simpl in *; try done; eauto.
  all: try (by (eapply steps_le_mono; [|apply Hf]; lia)).
  all: destruct Hp as (n1 & n2 & ? & ? & ?); exists n1, (n2 + m)%nat; split_and!; [lia|done|eauto].
Qed.

Lemma access_steps {A : Type} s (p : prog A) s' p' n : access s p s' p' -> steps_le n p ->
  exists n', (n' < n)%nat /\ steps_le n' p'.
Proof.
  destruct 1; simpl; intros Hp.
  all: try (destruct n as [|n']; [done|]; exists n'; split; [lia|by eauto]).
  - destruct Hp as (n1 & n2 & ? & Hfn & Hk). exists (n1 + S n2)%nat. split; [lia|].
    by apply steps_le_bind.
  - destruct Hp as (n1 & n2 & ? & Hfn & Hk). exists (S n2). split; [lia|done].
Qed.

(** The operations, access by access. *)
Lemma offer_steps {A : Type} (cmd : prog (option error)) (x : A) : steps_le 1 cmd ->
  steps_le 5 (available ← redisAvailable;
              if negb available then mret x else
              serr ← cmd;
              match serr with
              | Some _ => _ ← markRedisDown; mret x
              | None => mret x
              end).
Proof.
  intros Hcmd. apply (steps_le_bind _ _ 2 3); [done|]. intros [|]; [|done].
  by apply (steps_le_bind _ _ 1 2); [|intros [e|]].
Qed.

Lemma Save_steps c ctx u a : steps_le 6 (Save c ctx u a).
Proof.
  apply (steps_le_bind _ _ 1 5); [done|]. intros [e|]; [done|]. by apply offer_steps.
Qed.

Lemma Get_fill_steps c ctx a : steps_le 6 (Get_fill c ctx a).
Proof.
  apply (steps_le_bind _ _ 1 5); [done|]. intros [u|e]; [|done]. by apply offer_steps.
Qed.

Lemma Get_next_steps c ctx a : steps_le 8 (Get_next c ctx a).
Proof.
  apply (steps_le_bind _ _ 8 0); [|by intros [[]|]].
  exists 6%nat, 0%nat. split_and!; [lia|apply Get_fill_steps|done].
Qed.

Lemma Get_steps c ctx a : steps_le 13 (Get c ctx a).
Proof.
  apply (steps_le_bind _ _ 2 11); [done|].
  intros [|]; [|by eapply steps_le_mono, Get_next_steps; lia].
  apply (steps_le_bind _ _ 1 10); [done|]. intros [u|e]; [done|].
  destruct (negb _); [|by eapply steps_le_mono, Get_next_steps; lia].
  apply (steps_le_bind _ _ 2 8); [done|]. intros _. apply Get_next_steps.
Qed.

Lemma Delete_steps c ctx a : steps_le 6 (Delete c ctx a).
Proof.
  apply (steps_le_bind _ _ 1 5); [done|]. intros [e|]; [done|]. by apply offer_steps.
Qed.

Lemma program_steps c cl : steps_le 13 (program c cl).
Proof.
  destruct cl as [ctx u a|ctx a|ctx a]; apply (steps_le_bind _ _ 13 0); try done.
  - eapply steps_le_mono, Save_steps. lia.
  - apply Get_steps.
  - eapply steps_le_mono, Delete_steps. lia.
Qed.

(** ** How long a pool can run *)

Section Pool.
Context {C R : Type}.
Implicit Types (pool : list (thread C R)) (st : state C R).

Definition pool_le (n : nat) (pool : list (thread C R)) : Prop :=
  exists ns, Forall2 (fun n t => steps_le n t.2) ns pool /\ (sum_list ns <= n)%nat.

Lemma sum_list_insert ns i n n' : ns !! i = Some n -> (n' < n)%nat ->
  (sum_list (<[i := n']> ns) < sum_list ns)%nat.
Proof.
  revert i. induction ns as [|m ns IH]; intros [|i]; simpl; try done.
  - intros [= ->]. lia.
  - intros Hi Hlt. specialize (IH i Hi Hlt). lia.
Qed.

Lemma thread_step_le st st' n : thread_step st st' -> pool_le n st.2 ->
  exists n', (n' < n)%nat /\ pool_le n' st'.2.
Proof.
  intros [s pool i cl p s' p' Hi Ha] (ns & Hns & Hn). simpl in *.
  destruct (Forall2_lookup_r _ _ _ _ _ Hns Hi) as (m & Hm & Hle). simpl in Hle.
  destruct (access_steps _ _ _ _ _ Ha Hle) as (m' & Hlt & Hle').
  exists (sum_list (<[i := m']> ns)). pose proof (sum_list_insert ns i m m' Hm Hlt).
  split; [lia|]. exists (<[i := m']> ns). split; [by apply Forall2_insert|lia].
Qed.

(** Every thread makes at most [b] accesses. *)
Lemma start_le b pool : Forall (fun t => steps_le b t.2) pool -> pool_le (b * length pool) pool.
Proof.
  intros Hp. exists (replicate (length pool) b). split.
  - induction Hp; simpl; constructor; done.
  - clear Hp. induction pool as [|t pool IH]; simpl; lia.
Qed.

(** A run, and the number of accesses in it. *)
Inductive run : nat -> state C R -> state C R -> Prop :=
| run_refl st : run 0 st st
| run_thread n st1 st2 st3 : thread_step st1 st2 -> run n st2 st3 -> run (S n) st1 st3
| run_world n st1 st2 st3 : world_step st1 st2 -> run n st2 st3 -> run n st1 st3.

Lemma rtc_run st st' : rtc step st st' -> exists k, run k st st'.
Proof.
  induction 1 as [st|st st1 st2 [Hst|Hst] _ [k Hk]]; [by exists 0%nat; constructor|..].
  - exists (S k). by eapply run_thread.
  - exists k. by eapply run_world.
Qed.

Lemma run_le k st st' n : run k st st' -> pool_le n st.2 ->
  (k <= n)%nat.
Proof.
  intros Hr. revert n. induction Hr as [st|k st1 st2 st3 Hs _ IH|k st1 st2 st3 Hs _ IH];
    intros n Hn; [lia| |].
  - destruct (thread_step_le _ _ _ Hs Hn) as (n' & ? & Hn'). specialize (IH n' Hn'). lia.
  - apply IH. by destruct Hs.
Qed.
End Pool.

(** ** Who waits for whom *)

(** No use of [singleflight] at all; and none but calls of [Do] whose functions
    are flat, as in the code. *)
Fixpoint flat {A : Type} (p : prog A) : Prop :=
  match p with
  | Ret _ => True
  | Do _ _ _ | Wait _ _ _ | Deliver _ _ _ => False
  | Now k | Load k => forall t, flat (k t)
  | NextGet _ _ k | RdbGet _ _ k | Gen k => forall r, flat (k r)
  | NextSave _ _ _ k | NextDelete _ _ k | RdbSet _ _ _ _ k | RdbDel _ _ k | CtxErr _ k =>
      forall e, flat (k e)
  | Store _ k => flat k
  end.

Fixpoint calm {A : Type} (p : prog A) : Prop :=
  match p with
  | Ret _ => True
  | Do _ fn k => flat fn /\ forall v, calm (k v)
  | Wait _ _ _ | Deliver _ _ _ => False
  | Now k | Load k => forall t, calm (k t)
  | NextGet _ _ k | RdbGet _ _ k | Gen k => forall r, calm (k r)
  | NextSave _ _ _ k | NextDelete _ _ k | RdbSet _ _ _ _ k | RdbDel _ _ k | CtxErr _ k =>
      forall e, calm (k e)
  | Store _ k => calm k
  end.

(** Running the function of a flight, and waiting for the result of one. *)
Definition leading {A : Type} (key : string) (p : prog A) : Prop :=
  exists fn k, p = (v ← fn; Deliver key v (k v)) /\ flat fn /\ forall v, calm (k v).

Definition waiting {A : Type} (s : shared) (p : prog A) : Prop :=
  exists key n k, p = Wait key n k /\ (forall v, calm (k v)) /\
    (n <= length (delivered s))%nat /\
    (key ∈ flights s \/ exists v, (key, v) ∈ drop n (delivered s)).

Definition phase {A : Type} (s : shared) (p : prog A) : Prop :=
  calm p \/ (exists key, leading key p) \/ waiting s p.

(** Every flight has a thread that runs it. *)
Definition pool_ok {C R : Type} (st : state C R) : Prop :=
  Forall (fun t => phase st.1 t.2) st.2 /\
  forall key, key ∈ flights st.1 -> exists t, t ∈ st.2 /\ leading key t.2.

(** *** Programs *)

Lemma calm_bind {A B : Type} (p : prog A) (f : A -> prog B) :
  calm p -> (forall a, calm (f a)) -> calm (p ≫= f).
Proof.
  change (p ≫= f) with (prog_bind f p). intros Hp Hf.
  induction p; simpl in *; try done; naive_solver.
Qed.

Lemma flat_bind {A B : Type} (p : prog A) (f : A -> prog B) :
  flat p -> (forall a, flat (f a)) -> flat (p ≫= f).
Proof.
  change (p ≫= f) with (prog_bind f p). intros Hp Hf.
  induction p; simpl in *; try done; naive_solver.
Qed.

Lemma flat_calm {A : Type} (p : prog A) : flat p -> calm p.
Proof. induction p; simpl; naive_solver. Qed.

Lemma Get_fill_flat c ctx a : flat (Get_fill c ctx a).
Proof.
  unfold Get_fill, redisAvailable, markRedisDown. simpl. intros [u|e]; simpl; [|done].
  intros t d. case_match; simpl; [done|]. by intros [e|].
Qed.

Lemma Get_next_calm c ctx a : calm (Get_next c ctx a).
Proof. split; [apply Get_fill_flat|]. by intros [[]|]. Qed.

Lemma Save_calm c ctx u a : calm (Save c ctx u a).
Proof.
  unfold Save, redisAvailable, markRedisDown. simpl. intros [e|]; simpl; [done|].
  intros t d. case_match; simpl; [done|]. by intros [e|].
Qed.

Lemma Get_calm c ctx a : calm (Get c ctx a).
Proof.
  unfold Get, redisAvailable, markRedisDown. simpl. intros t d.
  case_match; simpl; [|apply Get_next_calm]. intros [u|e]; simpl; [done|].
  case_match; simpl; [intros _|]; apply Get_next_calm.
Qed.

Lemma Delete_calm c ctx a : calm (Delete c ctx a).
Proof.
  unfold Delete, redisAvailable, markRedisDown. simpl. intros [e|]; simpl; [done|].
  intros t d. case_match; simpl; [done|]. by intros [e|].
Qed.

Lemma program_calm c cl : calm (program c cl).
Proof.
  destruct cl as [ctx u a|ctx a|ctx a]; apply calm_bind; try done;
    auto using Save_calm, Get_calm, Delete_calm.
Qed.

Lemma leading_key {A : Type} (p : prog A) key key' v k :
  p = Deliver key v k -> leading key' p -> key' = key.
Proof. intros -> (fn & k' & E & Hfn & _). destruct fn; simplify_eq/=; done. Qed.

Lemma start_pool_ok {C R : Type} (pool : list (thread C R)) s : flights s = ∅ ->
  Forall (fun t => calm t.2) pool -> pool_ok (s, pool).
Proof.
  intros Hf Hp. split; [|simpl; rewrite Hf; set_solver]. simpl.
  eapply Forall_impl; [exact Hp|]. intros t Ht. by left.
Qed.

(** *** An access *)

Lemma calm_bind_inv {A B : Type} (p : prog A) (f : A -> prog B) :
  flat p -> calm (p ≫= f) -> exists a, calm (f a).
Proof.
  change (p ≫= f) with (prog_bind f p).
  pose (nil_error := Sentinel (SLib RedisNil)).
  induction p; simpl; intros Hp Hc; try done; [by exists a|..].
  all: match goal with
    | IH : forall z : Z, _ |- _ => exact (IH 0 f (Hp 0) (Hc 0))
    | IH : forall e : option error, _ |- _ => exact (IH None f (Hp None) (Hc None))
    | IH : forall r : result string, _ |- _ =>
        exact (IH (Err nil_error) f (Hp (Err nil_error)) (Hc (Err nil_error)))
    | _ => exact (IHp f Hp Hc)
    end.
Qed.

Lemma calm_not_leading {A : Type} (p : prog A) key : calm p -> ~ leading key p.
Proof. by intros Hp (fn & k & -> & Hfn & _); destruct (calm_bind_inv _ _ Hfn Hp). Qed.

Lemma flat_access {A B : Type} s (fn : prog A) (f : A -> prog B) s' p' :
  flat fn -> access s (fn ≫= f) s' p' ->
  (exists v, fn = Ret v) \/
  (exists fn', p' = fn' ≫= f /\ flat fn' /\ flights s' = flights s /\
     delivered s' = delivered s).
Proof.
  intros Hfn Ha. destruct fn; simpl in *; try done; [by eauto|..]; right; inversion Ha; subst;
    eexists; (split; [reflexivity|]); by split_and!.
Qed.

Lemma leading_access {A : Type} s (p : prog A) s' p' key : leading key p -> access s p s' p' ->
  (exists v, p = Deliver key v p' /\ calm p' /\ s' = with_delivery (key, v) s) \/
  (leading key p' /\ flights s' = flights s /\ delivered s' = delivered s).
Proof.
  intros (fn & k & -> & Hfn & Hk) Ha.
  destruct (flat_access _ _ _ _ _ Hfn Ha) as [[v ->]|(fn' & -> & Hfn' & ? & ?)].
  - left. exists v. simpl in Ha. inversion Ha; subst. by split_and!.
  - right. split_and!; [|done..]. by exists fn', k.
Qed.

(** What an access does to the flights: nothing, the thread begins one, or it
    delivers the result of one. *)
Inductive effect {A : Type} (s : shared) (p : prog A) (s' : shared) (p' : prog A) : Prop :=
| effect_none : flights s' = flights s -> delivered s' = delivered s ->
    (forall key, leading key p -> leading key p') -> effect s p s' p'
| effect_begin key : flights s' = {[key]} ∪ flights s -> delivered s' = delivered s ->
    leading key p' -> (forall key', ~ leading key' p) -> effect s p s' p'
| effect_end key v : flights s' = flights s ∖ {[key]} ->
    delivered s' = delivered s ++ [(key, v)] ->
    (forall key', leading key' p -> key' = key) -> effect s p s' p'.

Lemma access_effect {A : Type} s (p : prog A) s' p' : access s p s' p' -> phase s p ->
  phase s' p' /\ effect s p s' p'.
Proof.
  intros Ha [Hp|[[key Hl]|(key & n & k & -> & Hk & Hn & Hw)]].
  - assert (Hno := fun key => calm_not_leading p key Hp).
    destruct Ha; simpl in Hp; try done; (split; [|try (apply effect_none; naive_solver)]).
    all: try (by left; naive_solver).
    + right; left. exists key. destruct Hp. by eexists _, _.
    + eapply (effect_begin _ _ _ _ key); [done|done| |done]. destruct Hp. by eexists _, _.
    + right; right. destruct Hp. eexists key, _, k. split_and!; [done|done|lia|by left].
  - destruct (leading_access _ _ _ _ _ Hl Ha) as [(v & -> & Hc & ->)|(Hl' & Hf & Hd)].
    + split; [by left|]. eapply effect_end; [done|done|]. intros key'. by eapply leading_key.
    + split; [right; left; by exists key|]. apply effect_none; [done|done|].
      intros key' Hk'. destruct (leading_access _ _ _ _ _ Hk' Ha) as [(v & _ & _ & ->)|(? & _)];
        [|done].
      simpl in Hd. apply (f_equal length) in Hd. rewrite length_app in Hd. simpl in Hd. lia.
  - inversion Ha; subst. split; [left; by apply Hk|]. apply effect_none; [done|done|].
    intros key' (fn & k' & E & Hfn & _). destruct fn; simplify_eq/=; done.
Qed.

(** The other threads notice nothing that hurts. *)
Lemma phase_effect {A B : Type} s (p : prog A) s' p' (q : prog B) :
  effect s p s' p' -> phase s q -> phase s' q.
Proof.
  intros He [Hq|[Hq|(key & n & k & -> & Hk & Hn & Hw)]]; [by left|by right; left|].
  right; right. exists key, n, k. split_and!; [done|done|..].
  - destruct He as [? ->| ? ? -> | ? ? ? ->]; [done|done|]. rewrite length_app. lia.
  - destruct He as [-> -> | key' -> -> | key' v -> ->]; [done|set_solver|].
    rewrite drop_app_le by done. destruct Hw as [Hw|[v' Hw]].
    + destruct (decide (key = key')) as [<-|]; [right|left; set_solver].
      exists v. set_solver.
    + right. exists v'. set_solver.
Qed.

Section Pool_ok.
Context {C R : Type}.
Implicit Types (pool : list (thread C R)) (st : state C R).

Lemma thread_step_ok st st' : thread_step st st' -> pool_ok st -> pool_ok st'.
Proof.
  intros [s pool i cl p s' p' Hi Ha] [Hph Hfl]. simpl in *.
  pose proof Hph as Hpi. rewrite Forall_lookup in Hpi. specialize (Hpi i _ Hi). simpl in Hpi.
  destruct (access_effect _ _ _ _ Ha Hpi) as [Hp' He]. split; simpl.
  - apply Forall_insert; [|done]. eapply Forall_impl; [exact Hph|].
    intros t. by apply (phase_effect s p s' p').
  - assert (Hin : (cl, p') ∈ <[i := (cl, p')]> pool).
    { eapply list_elem_of_lookup_2, list_lookup_insert_eq. by eapply lookup_lt_Some. }
    assert (Hold : forall key, key ∈ flights s -> (leading key p -> leading key p') ->
      exists t, t ∈ <[i := (cl, p')]> pool /\ leading key t.2).
    { intros key Hkey Hl. destruct (Hfl key Hkey) as (t & Ht & Hlt).
      apply list_elem_of_lookup in Ht as [j Hj]. destruct (decide (i = j)) as [<-|Hne].
      - exists (cl, p'). split; [done|]. apply Hl.
        pose proof (eq_trans (eq_sym Hj) Hi) as E. by injection E as ->.
      - exists t. split; [|done]. apply (list_elem_of_lookup_2 _ j).
        by rewrite list_lookup_insert_ne. }
    intros key. destruct He as [-> _ Hl | key' -> _ Hl Hno | key' v -> _ Hl]; intros Hkey.
    + by apply Hold; [|apply Hl].
    + destruct (decide (key = key')) as [->|]; [by exists (cl, p')|].
      apply Hold; [set_solver|]. intros Hlp. by destruct (Hno _ Hlp).
    + apply Hold; [set_solver|]. intros Hlp. apply Hl in Hlp. set_solver.
Qed.

Lemma world_step_ok st st' : world_step st st' -> pool_ok st -> pool_ok st'.
Proof. by intros [s pool m t _ _]. Qed.

Lemma run_ok n st st' : run n st st' -> pool_ok st -> pool_ok st'.
Proof. induction 1; eauto using thread_step_ok, world_step_ok. Qed.
End Pool_ok.

(** ** Nothing is ever stuck *)

(** A program that uses no flight, or leads one, can always make its access. *)
Lemma save_rel_fails m u a : save_rel m u a (Some (ErrorString "timeout")) m.
Proof. by left. Qed.
Lemma delete_rel_fails m a : delete_rel m a (Some (ErrorString "timeout")) m.
Proof. by left. Qed.

(** Let the access be answered, with an error where the rule has a choice. *)
Ltac any_answer := do 2 eexists;
  solve [ apply access_Now | apply access_Load | apply access_Store
        | apply access_NextSave, save_rel_fails | apply access_NextDelete, delete_rel_fails
        | by apply (access_NextGet _ _ _ _ (Err (ErrorString "timeout")))
        | apply (access_RdbGet_err _ _ _ _ (ErrorString "timeout"))
        | apply access_RdbSet | apply access_RdbDel
        | apply (access_Gen _ _ (Err (ErrorString "timeout"))) | by apply (access_CtxErr _ _ _ None) ].

Lemma calm_access {A : Type} s (p : prog A) : calm p -> (forall a, p <> Ret a) ->
  exists s' p', access s p s' p'.
Proof.
  intros Hp Hne. destruct p; simpl in Hp; try done; [by destruct (Hne a)|..].
  all: try any_answer.
  destruct (decide (key ∈ flights s)) as [Hin|Hin]; do 2 eexists.
  - by apply access_Do_join.
  - by apply access_Do_lead.
Qed.

Lemma flat_bind_access {A B : Type} s (fn : prog A) (f : A -> prog B) :
  flat fn -> (forall a, fn <> Ret a) -> exists s' p', access s (fn ≫= f) s' p'.
Proof.
  intros Hfn Hne. destruct fn; simpl in Hfn; try done; [by destruct (Hne a)|..]; simpl.
  all: try any_answer.
Qed.

Lemma is_Ret_dec {A : Type} (p : prog A) : (exists a, p = Ret a) \/ forall a, p <> Ret a.
Proof. destruct p; first [by left; eexists|by right]. Qed.

Lemma leading_can_go {A : Type} s (p : prog A) key : leading key p ->
  exists s' p', access s p s' p'.
Proof.
  intros (fn & k & -> & Hfn & _). destruct (is_Ret_dec fn) as [[v ->]|Hne].
  - do 2 eexists. apply access_Deliver.
  - by apply flat_bind_access.
Qed.

Section Answers.
Context {C R : Type}.
Implicit Types (st : state C R).

Definition all_answered (st : state C R) : Prop := Forall (fun t => exists r, t.2 = Ret r) st.2.

Lemma unfinished_thread (pool : list (thread C R)) :
  Forall (fun t => exists r, t.2 = Ret r) pool \/
  exists t, t ∈ pool /\ forall r, t.2 <> Ret r.
Proof.
  induction pool as [|t pool IH]; [by left|].
  destruct (is_Ret_dec t.2) as [Hr|Hr]; [|right; exists t; set_solver].
  destruct IH as [IH|(t' & ? & ?)]; [left; by constructor|right; exists t'; set_solver].
Qed.

Lemma pool_step s (pool : list (thread C R)) t s' p' : t ∈ pool -> access s t.2 s' p' ->
  exists st', thread_step (s, pool) st'.
Proof.
  intros [i Hi]%list_elem_of_lookup Ha. destruct t as [cl p]. eexists. by eapply step_thread.
Qed.

Lemma pool_ok_progress st : pool_ok st -> all_answered st \/ exists st', thread_step st st'.
Proof.
  destruct st as [s pool]. intros [Hph Hfl]. simpl in *.
  destruct (unfinished_thread pool) as [?|(t & Ht & Hne)]; [by left|right].
  rewrite Forall_forall in Hph.
  destruct (Hph t Ht) as [Hp|[[key Hl]|(key & n & k & Hw & _ & _ & [Hin|[v Hv]])]].
  - destruct (calm_access s t.2 Hp Hne) as (s' & p' & Ha). by eapply pool_step.
  - destruct (leading_can_go s t.2 key Hl) as (s' & p' & Ha). by eapply pool_step.
  - destruct (Hfl key Hin) as (t' & Ht' & Hl).
    destruct (leading_can_go s t'.2 key Hl) as (s' & p' & Ha). by eapply pool_step.
  - eapply pool_step; [exact Ht|]. rewrite Hw. by eapply access_Wait.
Qed.

Lemma pool_ok_completes n st : pool_ok st -> pool_le n st.2 ->
  exists st', rtc thread_step st st' /\ all_answered st'.
Proof.
  revert st. induction (lt_wf n) as [n _ IH]; intros st Hok Hn.
  destruct (pool_ok_progress st Hok) as [?|[st1 Hst]]; [by exists st|].
  destruct (thread_step_le _ _ _ Hst Hn) as (n1 & Hlt & Hn1).
  destruct (IH n1 Hlt st1) as (st' & ? & ?); [by eapply thread_step_ok|done|].
  exists st'. split; [by eapply rtc_l|done].
Qed.

Lemma run_pool_le k n st st' : run k st st' -> pool_le n st.2 -> exists n', pool_le n' st'.2.
Proof.
  intros Hr. revert n. induction Hr as [st|k st1 st2 st3 Hs _ IH|k st1 st2 st3 Hs _ IH];
    intros n Hn; [by exists n| |].
  - destruct (thread_step_le _ _ _ Hs Hn) as (n' & ? & Hn'). by eapply IH.
  - apply (IH n). by destruct Hs.
Qed.

(** A pool of calm programs, each of at most [b] accesses, is answered. *)
Lemma pool_answered b (pool : list (thread C R)) s n st :
  flights s = ∅ -> Forall (fun t => calm t.2 /\ steps_le b t.2) pool -> run n (s, pool) st ->
  (n <= b * length pool)%nat /\
  (all_answered st \/ exists st', thread_step st st') /\
  exists st', rtc thread_step st st' /\ all_answered st'.
Proof.
  intros Hf [Hc Hb]%Forall_and Hr. pose proof (start_le b pool Hb) as Hn.
  pose proof (run_ok _ _ _ Hr (start_pool_ok pool s Hf Hc)) as Hok.
  destruct (run_pool_le _ _ _ _ Hr Hn) as [n' Hn'].
  split_and!; [by eapply run_le|by apply pool_ok_progress|by eapply pool_ok_completes].
Qed.
End Answers.

(** *** Schedules *)

Definition finished {A : Type} (p : prog A) : bool := match p with Ret _ => true | _ => false end.

(** A schedule that is carried out is a run of its length; what is left of the
    programs shows whether it answers everyone. *)
Lemma schedule_run {C R : Type} ias (st : state C R) :
  option_map (fun st' => forallb (fun t => finished t.2) st'.2) (schedule ias st) = Some false ->
  exists st', run (length ias) st st' /\ ~ all_answered st'.
Proof.
  destruct (schedule ias st) as [st'|] eqn:E; [|done]. intros [= Hf]. exists st'. split.
  - clear Hf. revert st E. induction ias as [|ia ias IH]; intros st; simpl.
    + intros [= ->]. constructor.
    + destruct (try_step st ia) as [st1|] eqn:E; [|done]. simpl. intros Hs.
      eapply run_thread; [by eapply try_step_sound|by apply IH].
  - intros Hall. apply not_true_iff_false in Hf. apply Hf. apply forallb_forall.
    intros t Ht%list_elem_of_In. unfold all_answered in Hall. rewrite Forall_forall in Hall.
    by destruct (Hall t Ht) as [r ->].
Qed.

(** ** The property *)

(** Every call is answered.  Let any calls be made at once, and let them
    interleave in any way, with any failures, keys that expire and time that
    passes in between: the threads make at most thirteen accesses per call, and
    as long as some call is not answered, some thread can make its next access,
    so a schedule that goes on answers them all; from wherever it has got to,
    there is a way to the end. *)
Theorem every_call_answered c cs s n st :
  flights s = ∅ -> run n (s, start c cs) st ->
  (n <= 13 * length cs)%nat /\
  (all_answered st \/ exists st', thread_step st st') /\
  exists st', rtc thread_step st st' /\ all_answered st'.
Proof.
  intros Hf Hr. unfold start in Hr.
  pose proof (pool_answered 13 ((fun cl => (cl, program c cl)) <$> cs) s n st Hf) as Hp.
  rewrite length_fmap in Hp. apply Hp; [|exact Hr].
  apply Forall_fmap, Forall_true. intros cl. split; [apply program_calm|apply program_steps].
Qed.

(** *** Witness *)

(** A lookup waits for another: the first leads the flight of its alias, the
    second has joined it, after six accesses in all. *)
Definition two_lookups : list call := [CGet Background "x"; CGet Background "x"].

Lemma joined_run : exists st, run 6 (open_shared, start (New Hour) two_lookups) st /\
  ~ all_answered st.
Proof.
  refine (schedule_run ((fun i => (i, Works)) <$> [0; 0; 0; 1; 1; 1]%nat) _ _).
  vm_compute. reflexivity.
Qed.

Lemma every_call_answered_witness :
  exists st, run 6 (open_shared, start (New Hour) two_lookups) st /\
    ~ all_answered st /\ exists st', rtc thread_step st st' /\ all_answered st'.
Proof.
  destruct joined_run as (st & Hr & Hno). exists st. split; [exact Hr|]. split; [exact Hno|].
  destruct (every_call_answered (New Hour) two_lookups open_shared 6 st eq_refl Hr) as (_ & _ & Hend).
  exact Hend.
Defined.
