(* ===== verification/Requests.v ===== *)
(** * Requests on the links that interleave

    internal/service/url over the cache once more, as programs on the accesses
    of [Interleave]: the retry loop, the lookups and the deletes of any number
    of requests interleave at every access of the clock, the breaker, the
    context, the generator, Redis and the storage.  A request alone is the
    sequential one of [Service] over [Cache]. *)

From stdpp Require Import relations.
From S2P Require Import Prelude GoErrors GoStrings Authn Runtime Storage Cache Interleave Progress.
From S2P Require Service.
#[local] Open Scope Z_scope.

(** ** The service *)

Section Programs.
Context (c : Cache) (s : Service.Service).

(** [Service.saveAlias] *)
Definition saveAlias (ctx : context) (url alias : string) : prog (result string) :=
  err ← Save c ctx url alias;
  match err with
  | Some e => mret (Err (wrap_op "service.URLService.saveAlias" e))
  | None => mret (Ok alias)
  end.

(** The loop of [Service.saveGeneratedAlias] *)
Fixpoint saveGenerated_loop (fuel : nat) (ctx : context) (url : string) (attempt : Z) :
    prog (option (result string)) :=
  if attempt <=? Service.MaxRetries (Service.cfg s) then
    match fuel with
    | O => mret None
    | S fuel' =>
        cerr ← CtxErr ctx Ret;
        match cerr with
        | Some e => mret (Some (Err (wrap_op Service.op_saveGenerated e)))
        | None =>
            gen ← Gen Ret;
            match gen with
            | Err e => mret (Some (Err (Errorf (Service.op_saveGenerated +:+
                         ": failed to generate alias: ") e "")))
            | Ok alias =>
                err ← Save c ctx url alias;
                match err with
                | None => mret (Some (Ok alias))
                | Some e =>
                    if errors_Is e (SDomain ErrURLExist)
                    then saveGenerated_loop fuel' ctx url (int64_wrap (attempt + 1))
                    else mret (Some (Err (wrap_op Service.op_saveGenerated e)))
                end
            end
        end
    end
  else mret (Some (Err (Service.gave_up (Service.MaxRetries (Service.cfg s))))).

(** [Service.Save]; the fuel covers the retries *)
Definition URLService_Save (ctx : context) (url alias : string) : prog (option (result string)) :=
  let url := TrimSpace url in
  let alias := TrimSpace alias in
  if bool_decide (url = "") then
    mret (Some (Err (wrap_op "service.URLService.Save" (Sentinel (SDomain ErrInvalidURL)))))
  else if bool_decide (alias <> "") then
    r ← saveAlias ctx url alias; mret (Some r)
  else saveGenerated_loop (Z.to_nat (Service.MaxRetries (Service.cfg s))) ctx url 1.

(** [Service.Get] *)
Definition URLService_Get (ctx : context) (alias : string) : prog (result string) :=
  let op := "service.URLService.Get" in
  let alias := TrimSpace alias in
  if bool_decide (alias = "") then mret (Err (wrap_op op (Sentinel (SDomain ErrEmptyAlias))))
  else
    res ← Get c ctx alias;
    match res with Ok url => mret (Ok url) | Err e => mret (Err (wrap_op op e)) end.

(** [Service.Delete] *)
Definition URLService_Delete (ctx : context) (alias : string) : prog (option error) :=
  let op := "service.URLService.Delete" in
  let alias := TrimSpace alias in
  if bool_decide (alias = "") then mret (Some (wrap_op op (Sentinel (SDomain ErrEmptyAlias))))
  else
    err ← Delete c ctx alias;
    match err with Some e => mret (Some (wrap_op op e)) | None => mret None end.
End Programs.

(** What a handler asks of the service, and what it is told. *)
Inductive request_call :=
| RSave (ctx : context) (url alias : string)
| RGet (ctx : context) (alias : string)
| RDelete (ctx : context) (alias : string).

Inductive request_reply :=
| Saved (r : option (result string))
| Found (r : result string)
| Deleted (e : option error).

Definition request_program (c : Cache) (s : Service.Service) (q : request_call) :
    prog request_reply :=
  match q with
  | RSave ctx u a => r ← URLService_Save c s ctx u a; mret (Saved r)
  | RGet ctx a => r ← URLService_Get c ctx a; mret (Found r)
  | RDelete ctx a => e ← URLService_Delete c ctx a; mret (Deleted e)
  end.

(** All the requests, none of them begun. *)
Definition start_requests (c : Cache) (s : Service.Service) (qs : list request_call) :
    list (thread request_call request_reply) :=
  (fun q => (q, request_program c s q)) <$> qs.

(** ** A request alone *)

Section Sequential.
Context {W} `{Storage W, Redis W, Runtime W, !Singleflight (Z * W), !SingleflightSpec (Z * W)}.
Context `{!Service.AliasGenerator W}.
Context (c : Cache) (s : Service.Service).

#[local] Instance over_cache : Storage (Z * W) := CacheStorage c.
#[local] Instance over_runtime : Runtime (Z * W) := lift_runtime Z.
#[local] Instance over_generator : Service.AliasGenerator (Z * W) := lift_snd Service.Generate.

(** The request to the sequential service over the cache. *)
Definition run_request (q : request_call) : M (Z * W) request_reply :=
  match q with
  | RSave ctx u a =>
      r ← Service.Save (Z.to_nat (Service.MaxRetries (Service.cfg s))) s ctx u a; mret (Saved r)
  | RGet ctx a => r ← Service.Get s ctx a; mret (Found r)
  | RDelete ctx a => e ← Service.Delete s ctx a; mret (Deleted e)
  end.

Lemma models_Gen : models (W := W) (Gen Ret) Service.Generate.
Proof.
  intros [d w]. simpl.
  change (Service.Generate (W := Z * W) (d, w)) with (lift_snd (C := Z) Service.Generate (d, w)).
  m_unfold. by destruct (Service.Generate w).
Qed.

Lemma models_CtxErr ctx : models (W := W) (CtxErr ctx Ret) (ctx_Err ctx).
Proof.
  intros [d w]. simpl. unfold ctx_Err. m_unfold.
  change (ctx_canceled (W := Z * W) (ctx_signal ctx) (d, w)) with
    (lift_snd (C := Z) (ctx_canceled (ctx_signal ctx)) (d, w)). unfold lift_snd.
  destruct (ctx_canceled (ctx_signal ctx) w) as [[|] w1]; [done|].
  destruct (ctx_deadline ctx); [|done].
  change (time_Now (W := Z * W) (d, w1)) with (lift_snd (C := Z) time_Now (d, w1)). unfold lift_snd.
  by destruct (time_Now w1).
Qed.

Lemma models_cache_Save ctx u a : models (W := W) (Save c ctx u a) (st_Save ctx u a).
Proof. apply models_Save. Qed.
Lemma models_cache_Get ctx a : models (W := W) (Get c ctx a) (st_Get ctx a).
Proof. apply models_Get. Qed.
Lemma models_cache_Delete ctx a : models (W := W) (Delete c ctx a) (st_Delete ctx a).
Proof. apply models_Delete. Qed.

#[local] Hint Resolve models_Gen models_CtxErr models_cache_Save models_cache_Get
  models_cache_Delete : models.

Lemma models_saveAlias ctx u a : models (W := W) (saveAlias c ctx u a) (Service.saveAlias ctx u a).
Proof. unfold saveAlias, Service.saveAlias. follow. Qed.

Lemma models_loop fuel ctx u attempt :
  models (W := W) (saveGenerated_loop c s fuel ctx u attempt)
    (Service.saveGenerated_loop fuel s ctx u attempt).
Proof.
  revert attempt. induction fuel as [|fuel IH]; intros attempt;
    cbn [saveGenerated_loop Service.saveGenerated_loop]; follow.
Qed.

#[local] Hint Resolve models_saveAlias models_loop : models.

Lemma models_URLService_Save ctx u a :
  models (W := W) (URLService_Save c s ctx u a)
    (Service.Save (Z.to_nat (Service.MaxRetries (Service.cfg s))) s ctx u a).
Proof.
  unfold URLService_Save, Service.Save, Service.saveGeneratedAlias. cbv zeta.
  destruct (bool_decide (TrimSpace u = "")); [follow|].
  destruct (bool_decide (TrimSpace a <> "")); [|follow].
  intros st. change (fmap (M := M (Z * W)) Some ?m) with (r ← m; mret (Some r)).
  revert st. follow.
Qed.

Lemma models_URLService_Get ctx a :
  models (W := W) (URLService_Get c ctx a) (Service.Get s ctx a).
Proof.
  unfold URLService_Get, Service.Get, check_err. cbv zeta.
  destruct (bool_decide (TrimSpace a = "")); follow.
Qed.

Lemma models_URLService_Delete ctx a :
  models (W := W) (URLService_Delete c ctx a) (Service.Delete s ctx a).
Proof.
  unfold URLService_Delete, Service.Delete. cbv zeta.
  destruct (bool_decide (TrimSpace a = "")); follow.
Qed.

#[local] Hint Resolve models_URLService_Save models_URLService_Get models_URLService_Delete : models.

(** A request that runs alone does to the world what the operation of [Service]
    over the sequential cache does, access by access, and is told the same. *)
Theorem request_alone_is_sequential q (st : Z * W) :
  interp (request_program c s q) st = run_request q st.
Proof.
  revert st. change (models (W := W) (request_program c s q) (run_request q)).
  destruct q; unfold request_program, run_request; follow.
Qed.
End Sequential.

(** ** What a request may rely on *)

Section Discipline.
Context `{Discipline} (c : Cache) (s : Service.Service).

(** A link under the alias [a], or under any when [a] is empty. *)
Definition save_permitted (u a : string) : Prop := forall b, a = "" \/ b = a -> may_save u b.

Definition request_permitted (q : request_call) : Prop :=
  match q with
  | RSave _ u a => save_permitted (TrimSpace u) (TrimSpace a)
  | RGet _ _ => True
  | RDelete _ a => TrimSpace a <> "" -> may_delete (TrimSpace a)
  end.

(** What the answer must have. *)
Definition request_ok (q : request_call) (m : gmap string string) (r : request_reply) : Prop :=
  match q, r with
  | RSave _ u _, Saved (Some (Ok a)) => Fact m a (TrimSpace u)
  | RGet _ a, Found r => result_ok (TrimSpace a) m r
  | _, _ => True
  end.

Lemma request_ok_stable q : stable (request_ok q).
Proof.
  intros m m' r HM. destruct q as [ctx u a|ctx a|ctx a], r as [[[b|e]|]|r|e]; simpl; try done.
  - by apply Fact_mono.
  - by apply result_ok_stable.
Qed.

Lemma wp_saveAlias m ctx u a : may_save u a ->
  wp m (saveAlias c ctx u a) (fun m' r => forall b, r = Ok b -> Fact m' b u).
Proof.
  intros Hs. apply wp_bind. eapply wp_weaken; [by apply wp_Save|].
  intros m' [e|] Hf b; [by intros [=]|]. intros [= <-]. by apply Hf.
Qed.

Lemma wp_loop fuel ctx u : (forall a, may_save u a) -> forall attempt m,
  wp m (saveGenerated_loop c s fuel ctx u attempt)
    (fun m' o => forall b, o = Some (Ok b) -> Fact m' b u).
Proof.
  intros Hs. induction fuel as [|fuel IH]; intros attempt m; cbn [saveGenerated_loop];
    (destruct (attempt <=? _); [|by intros b [=]]); [by intros b [=]|].
  apply wp_bind. intros [e|] m1 H1; [by intros b [=]|].
  apply wp_bind. intros [a|e] m2 H2; [|by intros b [=]].
  apply wp_bind. eapply wp_weaken; [by apply wp_Save|].
  intros m3 [e|] Hf; [|intros b [= <-]; by apply Hf].
  cbn beta iota. destruct (errors_Is e _); [apply IH|by intros b [=]].
Qed.

Lemma wp_URLService_Save m ctx u a : save_permitted (TrimSpace u) (TrimSpace a) ->
  wp m (URLService_Save c s ctx u a)
    (fun m' o => forall b, o = Some (Ok b) -> Fact m' b (TrimSpace u)).
Proof.
  intros Hp. unfold URLService_Save. cbv zeta. case_bool_decide; [by intros b [=]|].
  case_bool_decide as Ha.
  - apply wp_bind. eapply wp_weaken; [by apply wp_saveAlias, Hp; right|].
    intros m' r Hr b [= ->]. by apply Hr.
  - apply wp_loop. intros b. apply Hp. left. by destruct (TrimSpace a); [|destruct Ha].
Qed.

Lemma wp_URLService_Get m ctx a :
  wp m (URLService_Get c ctx a) (result_ok (TrimSpace a)).
Proof.
  unfold URLService_Get. cbv zeta. case_bool_decide; [by intros b [=]|]. apply wp_bind.
  eapply wp_weaken; [apply wp_Get|]. intros m' [u|e] Hf; [done|]. by intros b [=].
Qed.

Lemma wp_URLService_Delete m ctx a : (TrimSpace a <> "" -> may_delete (TrimSpace a)) ->
  wp m (URLService_Delete c ctx a) (fun _ _ => True).
Proof.
  intros Hp. unfold URLService_Delete. cbv zeta. case_bool_decide; [done|]. apply wp_bind.
  eapply wp_weaken; [by apply wp_Delete, Hp|]. by intros m' [e|].
Qed.

Lemma wp_request m q : request_permitted q -> wp m (request_program c s q) (request_ok q).
Proof.
  destruct q as [ctx u a|ctx a|ctx a]; intros Hp; apply wp_bind.
  - eapply wp_weaken; [by apply wp_URLService_Save|]. intros m' [[b|e]|] Hf; [|done..]. by apply Hf.
  - by eapply wp_weaken; [apply wp_URLService_Get|].
  - by eapply wp_weaken; [apply wp_URLService_Delete|].
Qed.

Lemma start_requests_ok qs sh : shared_ok sh -> Forall request_permitted qs ->
  state_ok request_ok (sh, start_requests c s qs).
Proof.
  intros Hs Hqs. split; [done|]. apply Forall_fmap. eapply Forall_impl; [exact Hqs|].
  intros q Hq. by apply wp_request.
Qed.
End Discipline.

(** ** Who is told an alias *)

Section Told.
Context (a : string) (c : Cache) (s : Service.Service).

Definition told (q : request_call) (r : request_reply) : Prop :=
  match q, r with RSave _ _ _, Saved (Some (Ok b)) => b = a | _, _ => False end.

Lemma clean_loop fuel ctx u : forall attempt,
  clean a (fun o => o <> Some (Ok a)) (saveGenerated_loop c s fuel ctx u attempt).
Proof.
  induction fuel as [|fuel IH]; intros attempt; cbn [saveGenerated_loop];
    (destruct (attempt <=? _); [|done]); [done|].
  apply clean_bind. intros [e|]; [done|]. apply clean_bind. intros [b|e]; [|done].
  apply clean_bind. eapply clean_weaken; [apply clean_Save|].
  intros [e|] He; [destruct (errors_Is e _); [apply IH|done]|]. intros [= ->]. by apply He.
Qed.

Lemma clean_URLService_Save ctx u b :
  clean a (fun o => o <> Some (Ok a)) (URLService_Save c s ctx u b).
Proof.
  unfold URLService_Save. cbv zeta. case_bool_decide; [done|]. case_bool_decide; [|apply clean_loop].
  apply clean_bind, clean_bind. eapply clean_weaken; [apply clean_Save|].
  intros [e|] He; [done|]. intros [= Hb]. by apply He.
Qed.

Lemma clean_request q : clean a (fun r => ~ told q r) (request_program c s q).
Proof.
  destruct q as [ctx u b|ctx b|ctx b]; apply clean_bind; [|by apply clean_true; intros ? []..].
  eapply clean_weaken; [apply clean_URLService_Save|].
  intros [[k|e]|] Ho; [|by intros []..]. intros Hk. by destruct Ho; rewrite Hk.
Qed.
End Told.

(** ** How long a request can run *)

Section Bounds.
Context (c : Cache) (s : Service.Service).

Lemma loop_calm fuel ctx u : forall attempt, calm (saveGenerated_loop c s fuel ctx u attempt).
Proof.
  induction fuel as [|fuel IH]; intros attempt; cbn [saveGenerated_loop];
    (destruct (attempt <=? _); [|done]); [done|].
  intros [e|]; [done|]. intros [a|e]; [|done].
  apply (calm_bind (Save c ctx u a)); [apply Save_calm|]. intros [e|]; [|done].
  destruct (errors_Is e _); [apply IH|done].
Qed.

Lemma URLService_Save_calm ctx u a : calm (URLService_Save c s ctx u a).
Proof.
  unfold URLService_Save. cbv zeta. case_bool_decide; [done|]. case_bool_decide; [|apply loop_calm].
  apply calm_bind; [|done]. apply calm_bind; [apply Save_calm|]. by intros [e|].
Qed.

Lemma URLService_Get_calm ctx a : calm (URLService_Get c ctx a).
Proof.
  unfold URLService_Get. cbv zeta. case_bool_decide; [done|]. apply calm_bind; [apply Get_calm|].
  by intros [u|e].
Qed.

Lemma URLService_Delete_calm ctx a : calm (URLService_Delete c ctx a).
Proof.
  unfold URLService_Delete. cbv zeta. case_bool_decide; [done|]. apply calm_bind; [apply Delete_calm|].
  by intros [e|].
Qed.

Lemma request_calm q : calm (request_program c s q).
Proof.
  destruct q as [ctx u a|ctx a|ctx a]; apply calm_bind; try done;
    auto using URLService_Save_calm, URLService_Get_calm, URLService_Delete_calm.
Qed.

(** Eight accesses for every round of the search. *)
Lemma loop_steps fuel ctx u : forall attempt,
  steps_le (8 * fuel) (saveGenerated_loop c s fuel ctx u attempt).
Proof.
  induction fuel as [|fuel IH]; intros attempt; cbn [saveGenerated_loop];
    (destruct (attempt <=? _); [|done]); [done|].
  apply (steps_le_mono _ (1 + (1 + (6 + 8 * fuel)))); [lia|].
  apply (steps_le_bind _ _ 1); [done|]. intros [e|]; [done|].
  apply (steps_le_bind _ _ 1); [done|]. intros [a|e]; [|done].
  apply (steps_le_bind _ _ 6); [apply Save_steps|]. intros [e|]; [|done].
  destruct (errors_Is e _); [apply IH|done].
Qed.

(** What a request takes at most. *)
Definition accesses : nat := 13 + 8 * Z.to_nat (Service.MaxRetries (Service.cfg s)).

Lemma URLService_Save_steps ctx u a : steps_le accesses (URLService_Save c s ctx u a).
Proof.
  unfold URLService_Save, accesses. cbv zeta. case_bool_decide; [done|]. case_bool_decide.
  - apply (steps_le_mono _ (6 + 0 + 0)); [lia|]. apply steps_le_bind; [|done].
    apply steps_le_bind; [apply Save_steps|by intros [e|]].
  - eapply steps_le_mono; [|apply loop_steps]. lia.
Qed.

Lemma URLService_Get_steps ctx a : steps_le accesses (URLService_Get c ctx a).
Proof.
  unfold URLService_Get, accesses. cbv zeta. case_bool_decide; [done|].
  apply (steps_le_mono _ (13 + 0)); [lia|]. apply steps_le_bind; [apply Get_steps|by intros [u|e]].
Qed.

Lemma URLService_Delete_steps ctx a : steps_le accesses (URLService_Delete c ctx a).
Proof.
  unfold URLService_Delete, accesses. cbv zeta. case_bool_decide; [done|].
  apply (steps_le_mono _ (6 + 0)); [lia|]. apply steps_le_bind; [apply Delete_steps|by intros [e|]].
Qed.

Lemma request_steps q : steps_le accesses (request_program c s q).
Proof.
  rewrite <- (Nat.add_0_r accesses). destruct q as [ctx u a|ctx a|ctx a]; apply steps_le_bind; try done;
    auto using URLService_Save_steps, URLService_Get_steps, URLService_Delete_steps.
Qed.
End Bounds.

(** ** Properties *)

(** However the requests interleave, and whatever fails, the service redirects to
    nothing that was not put in: any property [P] of the URLs that were there
    and of those that are posted (trimmed), that they are web addresses say, is
    one of every URL in the storage and in Redis, and of every URL a lookup is
    answered with. *)
Theorem concurrent_redirects_safe (P : string -> Prop) c s qs sh st :
  map_Forall (fun _ u => P u) (store sh) -> map_Forall (fun _ u => P u) (redis sh) ->
  delivered sh = [] ->
  (forall ctx u a, RSave ctx u a ∈ qs -> P (TrimSpace u)) ->
  rtc step (sh, start_requests c s qs) st ->
  map_Forall (fun _ u => P u) (store st.1) /\ map_Forall (fun _ u => P u) (redis st.1) /\
  forall ctx a u, answered st (RGet ctx a) (Found (Ok u)) -> P u.
Proof.
  intros Hs Hr Hd Hqs Hst.
  destruct (state_answered (H := provenance (fun _ u => P u)) _ request_ok_stable _ _ Hst)
    as [(Hs' & Hr' & _) Ha]; [apply start_requests_ok|].
  - split_and!; [done..|]. by rewrite Hd.
  - apply Forall_forall. intros [ctx u a|ctx a|ctx a] Hin; simpl; [|done..].
    intros b _. by eapply Hqs.
  - split_and!; [done..|]. intros ctx a u Hu. by eapply (Ha _ _ Hu).
Qed.

(** An alias [a] that no request deletes belongs to one link, however the requests
    interleave and whatever fails: a request that is told [a], whether it asked
    for it or got it from the generator, has its URL stored under it, and every
    lookup of [a] is answered with the URL in the storage; and at most one request
    is told [a].  A link that was there under [a] stays. *)
Theorem concurrent_links_kept a c s qs sh st :
  (forall u, redis sh !! a = Some u -> store sh !! a = Some u) -> delivered sh = [] ->
  (forall ctx b, RDelete ctx b ∈ qs -> TrimSpace b <> a) ->
  rtc step (sh, start_requests c s qs) st ->
  (forall u, redis st.1 !! a = Some u -> store st.1 !! a = Some u) /\
  (forall ctx u b, answered st (RSave ctx u b) (Saved (Some (Ok a))) ->
     store st.1 !! a = Some (TrimSpace u)) /\
  (forall ctx b u, answered st (RGet ctx b) (Found (Ok u)) -> TrimSpace b = a ->
     store st.1 !! a = Some u) /\
  (forall i j ctx ctx' u u' b b', st.2 !! i = Some (RSave ctx u b, Ret (Saved (Some (Ok a)))) ->
     st.2 !! j = Some (RSave ctx' u' b', Ret (Saved (Some (Ok a)))) -> i = j) /\
  (forall u, store sh !! a = Some u -> store st.1 !! a = Some u).
Proof.
  intros Hr Hd Hqs Hst.
  assert (Hok : state_ok (H := undeleted a) (request_ok (H := undeleted a))
    (sh, start_requests c s qs)).
  { apply start_requests_ok.
    - split_and!; [done| |by rewrite Hd]. by intros k u Hk ->; apply Hr.
    - apply Forall_forall. intros [ctx u b|ctx b|ctx b] Hin; simpl; [done..|].
      intros _. by eapply Hqs. }
  destruct (state_answered (H := undeleted a) _ request_ok_stable _ _ Hst Hok)
    as [(_ & Hr' & _) Ha].
  split_and!.
  - intros u Hu. by apply (Hr' a u Hu).
  - intros ctx u b Hu. by apply (Ha _ _ Hu).
  - intros ctx b u Hu Hb. by apply (Ha _ _ Hu u).
  - intros i j ctx ctx' u u' b b' Hi Hj.
    eapply (one_winner a _ (told a) request_ok_stable _ _ i j); [exact Hst|exact Hok| |by eauto..].
    apply Forall_fmap, Forall_true. intros q. apply clean_request.
  - intros u Hu. pose proof (steps_move (H := undeleted a) _ request_ok_stable _ _ Hst Hok) as [Hn|Heq];
      simpl in *; congruence.
Qed.

(** Every request is answered.  Let any requests be made at once, and let them
    interleave in any way, with any failures and collisions of aliases: they
    make at most thirteen accesses each and eight more for every retry allowed,
    no reachable state is stuck, and from wherever a run has got to there is a
    way to all the answers. *)
Theorem every_request_answered c s qs sh n st :
  flights sh = ∅ -> run n (sh, start_requests c s qs) st ->
  (n <= accesses s * length qs)%nat /\
  (all_answered st \/ exists st', thread_step st st') /\
  exists st', rtc thread_step st st' /\ all_answered st'.
Proof.
  intros Hf Hr. unfold start_requests in Hr.
  pose proof (pool_answered (accesses s) ((fun q => (q, request_program c s q)) <$> qs) sh n st Hf)
    as Hp.
  rewrite length_fmap in Hp. apply Hp; [|exact Hr].
  apply Forall_fmap, Forall_true. intros q. split; [apply request_calm|apply request_steps].
Qed.

(** ** Instances *)

(** Two rounds of the search are allowed. *)
Definition two_rounds : Service.Service := {| Service.cfg := {| Service.MaxRetries := 2 |} |}.

(** A link under a chosen alias, one under a generated one, and a lookup. *)
Definition three_requests : list request_call :=
  [RSave Background " https://a" "x"; RSave Background "https://b" ""; RGet Background "x "].
Definition three_answers : state request_call request_reply :=
  ({| clock := 0; down := redisCooldown; store := {["y" := "https://b"; "x" := "https://a"]};
      redis := {["x" := "https://a"]}; flights := ∅; delivered := [] |},
   [(RSave Background " https://a" "x", Ret (Saved (Some (Ok "x"))));
    (RSave Background "https://b" "", Ret (Saved (Some (Ok "y"))));
    (RGet Background "x ", Ret (Found (Ok "https://a")))]).

(** The first alias generated is the one that the other request has just taken;
    Redis loses the second link. *)
Lemma three_run :
  rtc step (empty_shared, start_requests (New Hour) two_rounds three_requests) three_answers.
Proof.
  apply (schedule_sound [(0, Works); (1, Works); (1, Gives (Ok "x")); (1, Works); (0, Works);
    (0, Works); (0, Works); (2, Works); (2, Works); (2, Works); (1, Works); (1, Gives (Ok "y"));
    (1, Works); (1, Works); (1, Works); (1, Fails (ErrorString "timeout")); (1, Works);
    (1, Works)]%nat).
  vm_compute. reflexivity.
Qed.

(** A disjunction of memberships in a concrete list. *)
Ltac in_requests H := unfold three_requests in H; rewrite !elem_of_cons, elem_of_nil in H.

Lemma concurrent_redirects_safe_witness :
  answered three_answers (RGet Background "x ") (Found (Ok "https://a")) /\
  map_Forall (fun _ u => String.prefix "https://" u = true) (redis three_answers.1).
Proof.
  split; [do 2 apply list_elem_of_further; apply list_elem_of_here|].
  refine (proj1 (proj2 (concurrent_redirects_safe (fun u => String.prefix "https://" u = true)
    (New Hour) two_rounds three_requests empty_shared three_answers _ _ eq_refl _ three_run))).
  - by intros a u [=].
  - by intros a u [=].
  - intros ctx u a Hin. in_requests Hin.
    destruct Hin as [[= -> -> ->]|[[= -> -> ->]|[[=]|[]]]]; vm_compute; eauto.
Defined.

Lemma concurrent_links_kept_witness :
  answered three_answers (RSave Background "https://b" "") (Saved (Some (Ok "y"))) /\
  store three_answers.1 !! "y" = Some (TrimSpace "https://b").
Proof.
  assert (Ha : answered three_answers (RSave Background "https://b" "") (Saved (Some (Ok "y"))))
    by apply list_elem_of_further, list_elem_of_here.
  split; [exact Ha|].
  destruct (concurrent_links_kept "y" (New Hour) two_rounds three_requests empty_shared
    three_answers) as (_ & HS & _); [done|done| |exact three_run|exact (HS _ _ _ Ha)].
  intros ctx b Hin. in_requests Hin. naive_solver.
Defined.

(** The second request has collided with the first, and its search goes on. *)
Lemma collided_run : exists st,
  run 4 (empty_shared, start_requests (New Hour) two_rounds three_requests) st /\ ~ all_answered st.
Proof.
  refine (schedule_run [(0, Works); (1, Works); (1, Gives (Ok "x")); (1, Works)]%nat _ _).
  vm_compute. reflexivity.
Qed.

Lemma every_request_answered_witness : exists st,
  run 4 (empty_shared, start_requests (New Hour) two_rounds three_requests) st /\
  ~ all_answered st /\ exists st', rtc thread_step st st' /\ all_answered st'.
Proof.
  destruct collided_run as (st & Hr & Hno). exists st. split; [exact Hr|]. split; [exact Hno|].
  destruct (every_request_answered (New Hour) two_rounds three_requests empty_shared 4 st eq_refl Hr)
    as (_ & _ & Hend).
  exact Hend.
Defined.

Lemma request_alone_is_sequential_witness :
  let s := SimRedis.start 0 ∅ [] in
  interp (request_program (New Hour) two_rounds (RSave Background " https://a" "")) s =
    (Saved (Some (Ok "ABCDEF")), (0, {| SimRedis.now := 1000 * Second; SimRedis.tick := 0;
       SimRedis.db := {["ABCDEF" := "https://a"]}; SimRedis.keys := {["ABCDEF" := "https://a"]};
       SimRedis.fails := [] |})).
Proof. intros s. rewrite request_alone_is_sequential. vm_compute. reflexivity. Defined.
