(* ===== verification/Panics.v ===== *)
(** * Panics of a request, and the Recoverer

    The one call of the program that can panic under a request is
    [random.Generator.Generate], whose [make] does so exactly when the alias
    length of the configuration is negative; nothing checks the length at
    start-up.  The panic unwinds the handler up to chi's [Recoverer], which
    router.go puts around all routes and which answers for the request.
    [recover] is a program under the Recoverer.  Then: programs that cannot
    panic run under it as without it, and threads that touch nothing shared
    can be left out of a pool. *)

From stdpp Require Import relations.
From Stdlib Require Import FunctionalExtensionality.
From S2P Require Import Prelude GoErrors GoStrings Authn Runtime Http Storage Cache Interleave Progress.
From S2P Require Import Requests.
From S2P Require Service Random.
#[local] Open Scope Z_scope.

(** chi's [middleware.Recoverer]: the answer to a request that panicked; as
    documented, an internal server error without a body. *)
Class Recoverer := panic_answer : response.
Class RecovererSpec `{Recoverer} : Prop :=
  panic_answer_spec : panic_answer = RespEmpty StatusInternalServerError.

(** ** When the generator panics *)

(** A reader at its end; a panic comes before anything is read. *)
#[local] Instance no_entropy : Random.io_Reader unit :=
  fun _ _ => (([], Some (Sentinel (SLib IoEOF))), tt).

(** Whether [Generate] panics for aliases of length [n]. *)
Definition generator_panics (n : Z) : bool :=
  match (Random.Generate 1 (Random.New n) tt).1 with Random.Panics => true | _ => false end.

(** Any reader and any fuel give the same verdict: the length decides. *)
Lemma generator_panics_length n : generator_panics n = (n <? 0).
Proof.
  unfold generator_panics. destruct (Random.Generate_outcome 1 (Random.New n) tt) as [Hp _].
  apply eq_true_iff_eq. rewrite Z.ltb_lt, <- Hp. by destruct (Random.Generate 1 _ tt).1.
Qed.

Lemma generator_panics_spec {R} `{Random.io_Reader R} n fuel (r : R) :
  generator_panics n = true <-> (Random.Generate fuel (Random.New n) r).1 = Random.Panics.
Proof.
  rewrite generator_panics_length, Z.ltb_lt.
  symmetry. apply (Random.Generate_outcome fuel (Random.New n) r).
Qed.

(** ** The Recoverer *)

(** [p] when the generator makes aliases of length [n], and [d] answers for a
    panic.  What follows the panic in the handler does not run.  The functions
    given to [singleflight] do not call the generator. *)
Fixpoint recover {A : Type} (n : Z) (d : A) (p : prog A) : prog A :=
  match p with
  | Ret a => Ret a
  | Now k => Now (fun t => recover n d (k t))
  | Load k => Load (fun t => recover n d (k t))
  | Store t k => Store t (recover n d k)
  | NextSave ctx u a k => NextSave ctx u a (fun e => recover n d (k e))
  | NextGet ctx a k => NextGet ctx a (fun r => recover n d (k r))
  | NextDelete ctx a k => NextDelete ctx a (fun e => recover n d (k e))
  | RdbGet ctx key k => RdbGet ctx key (fun r => recover n d (k r))
  | RdbSet ctx key v t k => RdbSet ctx key v t (fun e => recover n d (k e))
  | RdbDel ctx key k => RdbDel ctx key (fun e => recover n d (k e))
  | Gen k => if generator_panics n then Ret d else Gen (fun r => recover n d (k r))
  | CtxErr ctx k => CtxErr ctx (fun e => recover n d (k e))
  | Do key fn k => Do key fn (fun v => recover n d (k v))
  | Wait key m k => Wait key m (fun v => recover n d (k v))
  | Deliver key v k => Deliver key v (recover n d k)
  end.

(** ** What the Recoverer keeps *)

Section Kept.
Context {A : Type} (n : Z) (d : A).
Implicit Types (p : prog A).

Lemma wp_recover `{Discipline} p Q m :
  wp m p Q -> (forall m', Q m' d) -> wp m (recover n d p) Q.
Proof.
  intros Hp HQ. revert m Hp.
  induction p; simpl; intros m Hp; try done; try naive_solver.
  destruct (generator_panics n); [apply HQ|naive_solver].
Qed.

Lemma clean_recover a p Q : clean a Q p -> Q d -> clean a Q (recover n d p).
Proof.
  intros Hp HQ. induction p; simpl in *; try done; try naive_solver.
  destruct (generator_panics n); [done|naive_solver].
Qed.

Lemma calm_recover p : calm p -> calm (recover n d p).
Proof.
  intros Hp. induction p; simpl in *; try done; try naive_solver.
  destruct (generator_panics n); [done|naive_solver].
Qed.

Lemma steps_recover p b : steps_le b p -> steps_le b (recover n d p).
Proof.
  revert b. induction p; intros b; simpl; try done; try (destruct b; naive_solver).
  destruct b; [done|]. destruct (generator_panics n); [done|]. simpl. eauto.
Qed.
End Kept.

(** A generator that does not panic leaves it nothing to do. *)
Lemma interp_recover {W} `{Storage W, Redis W, Runtime W, Singleflight (Z * W),
    Service.AliasGenerator W} {A : Type} n (d : A) p (st : Z * W) :
  0 <= n -> interp (recover n d p) st = interp p st.
Proof.
  intros Hn. revert st. induction p; intros st; simpl; try done.
  all: try (rewrite generator_panics_length; destruct (Z.ltb_spec n 0); [lia|]; simpl).
  all: rewrite ?bind_eq; eauto.
Qed.

(** ** Programs that cannot panic *)

Fixpoint genless {A : Type} (p : prog A) : Prop :=
  match p with
  | Ret _ => True
  | Gen _ => False
  | Now k | Load k => forall t, genless (k t)
  | NextGet _ _ k | RdbGet _ _ k => forall r, genless (k r)
  | NextSave _ _ _ k | NextDelete _ _ k | RdbSet _ _ _ _ k | RdbDel _ _ k | CtxErr _ k =>
      forall e, genless (k e)
  | Do _ _ k | Wait _ _ k => forall v, genless (k v)
  | Store _ k | Deliver _ _ k => genless k
  end.

(** They are the same program under the Recoverer, whatever the length. *)
Lemma recover_genless {A : Type} n (d : A) p : genless p -> recover n d p = p.
Proof.
  intros Hp. induction p; simpl in *; try done; f_equal; try (by auto);
    apply functional_extensionality; by auto.
Qed.

Lemma genless_bind {A B : Type} (p : prog A) (f : A -> prog B) :
  genless p -> (forall a, genless (f a)) -> genless (p ≫= f).
Proof. change (p ≫= f) with (prog_bind f p). intros Hp Hf. induction p; simpl in *; naive_solver. Qed.

Ltac genless_run := repeat (intros; simpl in *; try case_match); done.

Lemma cache_Save_genless c ctx u a : genless (Interleave.Save c ctx u a).
Proof. unfold Interleave.Save, redisAvailable, markRedisDown. genless_run. Qed.
Lemma cache_Get_genless c ctx a : genless (Interleave.Get c ctx a).
Proof. unfold Interleave.Get, Interleave.Get_next, redisAvailable, markRedisDown. genless_run. Qed.
Lemma cache_Delete_genless c ctx a : genless (Interleave.Delete c ctx a).
Proof. unfold Interleave.Delete, redisAvailable, markRedisDown. genless_run. Qed.

(** The service calls the generator for a [Save] without an alias only. *)
Lemma URLService_Save_genless c s ctx u a : TrimSpace a <> "" ->
  genless (URLService_Save c s ctx u a).
Proof.
  intros Ha. unfold URLService_Save. cbv zeta. case_bool_decide; [done|].
  rewrite bool_decide_eq_true_2 by done.
  apply genless_bind; [apply genless_bind; [apply cache_Save_genless|by intros [e|]]|done].
Qed.

Lemma URLService_Get_genless c ctx a : genless (URLService_Get c ctx a).
Proof.
  unfold URLService_Get. cbv zeta. case_bool_decide; [done|].
  apply genless_bind; [apply cache_Get_genless|by intros [u|e]].
Qed.

Lemma URLService_Delete_genless c ctx a : genless (URLService_Delete c ctx a).
Proof.
  unfold URLService_Delete. cbv zeta. case_bool_decide; [done|].
  apply genless_bind; [apply cache_Delete_genless|by intros [e|]].
Qed.

(** ** Programs that touch nothing shared *)

(** [p] only reads the clock and asks contexts, and ends in [Q]. *)
Fixpoint quiet {A : Type} (Q : A -> Prop) (p : prog A) : Prop :=
  match p with
  | Ret a => Q a
  | Now k | Load k => forall t, quiet Q (k t)
  | CtxErr _ k => forall e, ctx_error e = true -> quiet Q (k e)
  | _ => False
  end.

Lemma quiet_access {A : Type} (Q : A -> Prop) s p s' p' :
  access s p s' p' -> quiet Q p -> s' = s /\ quiet Q p'.
Proof. by destruct 1; simpl; intros Hp; auto. Qed.

(** ** Leaving quiet threads out of a pool

    [gone]: what the threads to leave out were called for; [post] what they may
    answer. *)

Section Pool.
Context {C R : Type} (gone : C -> bool) (post : C -> R -> Prop).
Implicit Types (pool : list (thread C R)) (st : state C R).

Definition others (pool : list (thread C R)) : list (thread C R) :=
  filter (fun th => gone th.1 = false) pool.

Definition quiet_thread (th : thread C R) : Prop := gone th.1 = true -> quiet (post th.1) th.2.

(** Changing a thread that stays. *)
Lemma others_insert pool i th : pool !! i = Some th -> gone th.1 = false ->
  exists j, others pool !! j = Some th /\
    forall th', th'.1 = th.1 -> others (<[i := th']> pool) = <[j := th']> (others pool).
Proof.
  unfold others. intros Hi Hg. revert i Hi. induction pool as [|t pool IH]; intros [|i] Hi; try done.
  - injection Hi as ->. exists 0%nat. rewrite filter_cons, decide_True by done. split; [done|].
    intros th' Hth. cbn [insert list_insert]. by rewrite filter_cons, decide_True by (by rewrite Hth).
  - destruct (IH i Hi) as (j & Hj & Hins). rewrite filter_cons. case_decide.
    + exists (S j). split; [done|]. intros th' Hth. cbn [insert list_insert].
      rewrite filter_cons, decide_True by done. f_equal. by apply Hins.
    + exists j. split; [done|]. intros th' Hth. cbn [insert list_insert].
      rewrite filter_cons, decide_False by done. by apply Hins.
Qed.

Lemma others_insert_gone pool i th th' : pool !! i = Some th -> gone th.1 = true ->
  th'.1 = th.1 -> others (<[i := th']> pool) = others pool.
Proof.
  unfold others. intros Hi Hg Hth. revert i Hi.
  induction pool as [|t pool IH]; intros [|i] Hi; try done; cbn [insert list_insert];
    rewrite !filter_cons.
  - injection Hi as ->. rewrite !decide_False; [done|..]; congruence.
  - by rewrite IH.
Qed.

Lemma step_others st st' : step st st' -> Forall quiet_thread st.2 ->
  Forall quiet_thread st'.2 /\ rtc step (st.1, others st.2) (st'.1, others st'.2).
Proof.
  intros [Hst|Hst] Hq;
    [destruct Hst as [s pool i cl p s' p' Hi Ha]|destruct Hst as [s pool m t Hm Ht]]; simpl in *.
  - pose proof Hq as Hqi. rewrite Forall_lookup in Hqi. specialize (Hqi i _ Hi).
    destruct (gone cl) eqn:Hg.
    + destruct (quiet_access _ _ _ _ _ Ha (Hqi Hg)) as [-> Hp'].
      split; [apply Forall_insert; [done|]; intros _; exact Hp'|]. by rewrite (others_insert_gone _ _ (cl, p)).
    + split; [apply Forall_insert; [done|]; intros Hg'; simpl in Hg'; congruence|].
      destruct (others_insert _ _ _ Hi Hg) as (j & Hj & Hins). rewrite Hins by done.
      apply rtc_once, by_thread. by eapply step_thread.
  - split; [done|]. by apply rtc_once, by_world, step_world.
Qed.

(** What is left of a run is a run, and those left out answered as they may. *)
Lemma run_others st st' : rtc step st st' -> Forall quiet_thread st.2 ->
  Forall quiet_thread st'.2 /\ rtc step (st.1, others st.2) (st'.1, others st'.2).
Proof.
  induction 1 as [st|st st1 st2 Hst _ IH]; intros Hq; [done|].
  destruct (step_others _ _ Hst Hq) as [Hq1 Hr1]. destruct (IH Hq1) as [Hq2 Hr2].
  split; [done|by etransitivity].
Qed.
End Pool.
