(* ===== verification/Validation.v ===== *)
(** * internal/transport/http/validation: what a request may ask to store

    The two custom checks of the program, [alias] and [url_scheme], and the
    rules of [SaveRequest].  The engine that runs the rules is
    go-playground/validator, a library: [ValidatorEngine] is its interface and
    [EngineSpec] the documented meaning of the tags the program uses.  Of
    [url.Parse] the scheme and the rejection of control bytes are modelled;
    whether the rest of the text parses is a parameter. *)

From S2P Require Import Prelude GoErrors GoStrings GoFloat Authn Runtime Http Response.
From Stdlib Require Import Ascii.

(** ** Character classes *)

Definition in_range (lo hi : Z) (c : ascii) : bool := (lo <=? code c) && (code c <=? hi).
Definition letter (c : ascii) : bool := in_range 97 122 c || in_range 65 90 c.
Definition digit (c : ascii) : bool := in_range 48 57 c.

(** [[a-zA-Z0-9_-]] *)
Definition alias_char (c : ascii) : bool :=
  letter c || digit c || (code c =? 95) || (code c =? 45).

(** [aliasRegexp.MatchString]: [^[a-zA-Z0-9_-]+$] *)
Definition alias_MatchString (s : string) : bool :=
  bool_decide (s <> "") && forallb alias_char (bytes_of s).

(** ** The scheme of [url.Parse] *)

(** [stringContainsCTLByte] *)
Definition ctl_byte (c : ascii) : bool := (code c <? 32) || (code c =? 127).

(** [strings.Cut(rawURL, "#")], the part before *)
Fixpoint before_hash (l : list ascii) : list ascii :=
  match l with
  | [] => []
  | c :: l' => if code c =? 35 then [] else c :: before_hash l'
  end.

(** [getScheme], scanning from the [i]-th byte; [None] is "missing protocol
    scheme", the empty scheme stands for no scheme. *)
Fixpoint getScheme_from (first : bool) (acc l : list ascii) : option (list ascii) :=
  match l with
  | [] => Some []
  | c :: l' =>
      if letter c then getScheme_from false (acc ++ [c]) l'
      else if digit c || (code c =? 43) || (code c =? 45) || (code c =? 46) then
        if first then Some [] else getScheme_from false (acc ++ [c]) l'
      else if code c =? 58 then
        if first then None else Some acc
      else Some []
  end.
Definition getScheme (l : list ascii) : option (list ascii) := getScheme_from true [] l.

(** What [url.Parse] checks beyond the scheme and the control bytes. *)
Class URLRest := url_rest_ok : string -> bool.

(** [url.Parse], as far as [u.Scheme] and whether there is an error. *)
Definition url_Parse_scheme `{URLRest} (rawURL : string) : option string :=
  let u := before_hash (bytes_of rawURL) in
  if existsb ctl_byte u then None
  else if bool_decide (u = bytes_of "*") then
    (if url_rest_ok rawURL then Some "" else None)
  else match getScheme u with
       | None => None
       | Some scheme => if url_rest_ok rawURL then Some (ToLower (of_bytes scheme)) else None
       end.

(** [allowedSchemes] *)
Definition allowedSchemes (scheme : string) : bool :=
  bool_decide (scheme = "http") || bool_decide (scheme = "https").

(** The function registered for [url_scheme] in [registerURLScheme]. *)
Definition url_scheme `{URLRest} (s : string) : bool :=
  match url_Parse_scheme s with
  | None => false
  | Some scheme => allowedSchemes scheme
  end.

(** ** The rules *)

Inductive rule : Type :=
| Required | URLTag | URLScheme | OmitEmpty | MinLen (n : nat) | MaxLen (n : nat) | AliasTag.

Record field_rules := { fr_name : string; fr_value : string; fr_rules : list rule }.

(** [type SaveRequest struct] *)
Record SaveRequest := { URL : string; Alias : string }.

(** The [validate] tags of [SaveRequest]. *)
Definition SaveRequest_fields (req : SaveRequest) : list field_rules :=
  [{| fr_name := "URL"; fr_value := URL req; fr_rules := [Required; URLTag; URLScheme] |};
   {| fr_name := "Alias"; fr_value := Alias req;
      fr_rules := [OmitEmpty; MinLen 4; MaxLen 20; AliasTag] |}].

(** ** The engine *)

(** [validator.Struct]: nothing, the failing fields, or another error. *)
Inductive validate_error : Type :=
| ValidationErrors (errs : list FieldError)
| OtherValidateError (e : error).

Class ValidatorEngine := validate_Struct : list field_rules -> option validate_error.

(** The check of the [url] tag, which is the library's own. *)
Class URLCheck := isURL : string -> bool.

(** [utf8.RuneCountInString] of valid UTF-8: the bytes that start a rune. *)
Definition rune_count (s : string) : nat :=
  length (filter (fun c => in_range 128 191 c = false) (bytes_of s)).

Section Reference.
Context `{URLRest, URLCheck}.

(** The tag's name, parameter and check; [OmitEmpty] has none. *)
Definition rule_check (r : rule) (s : string) : option FieldError :=
  let fail tag param ok :=
    if ok : bool then None else Some {| fe_Field := ""; fe_Tag := tag; fe_Param := param |} in
  match r with
  | Required => fail "required" "" (bool_decide (s <> ""))
  | URLTag => fail "url" "" (isURL s)
  | URLScheme => fail "url_scheme" "" (url_scheme s)
  | MinLen n => fail "min" (pretty (Z.of_nat n)) (bool_decide (n <= rune_count s)%nat)
  | MaxLen n => fail "max" (pretty (Z.of_nat n)) (bool_decide (rune_count s <= n)%nat)
  | AliasTag => fail "alias" "" (alias_MatchString s)
  | OmitEmpty => None
  end.

(** The rules of a field are tried in order up to the first that fails;
    [omitempty] ends the list for an empty value. *)
Fixpoint first_failure (name s : string) (rs : list rule) : option FieldError :=
  match rs with
  | [] => None
  | OmitEmpty :: rs' => if bool_decide (s = "") then None else first_failure name s rs'
  | r :: rs' =>
      match rule_check r s with
      | Some fe => Some {| fe_Field := name; fe_Tag := fe_Tag fe; fe_Param := fe_Param fe |}
      | None => first_failure name s rs'
      end
  end.

Definition field_failure (f : field_rules) : option FieldError :=
  first_failure (fr_name f) (fr_value f) (fr_rules f).

Definition reference_Struct (fs : list field_rules) : option validate_error :=
  match omap field_failure fs with
  | [] => None
  | errs => Some (ValidationErrors errs)
  end.
End Reference.

(** The engine runs the rules as documented. *)
Class EngineSpec `{URLRest, URLCheck, ValidatorEngine} : Prop :=
  engine_spec fs : validate_Struct fs = reference_Struct fs.

(** ** What a valid request is *)

(** Starts with "http:" or "https:", in any case, before any other byte. *)
Definition web_url (s : string) : bool :=
  HasPrefix (ToLower s) "http:" || HasPrefix (ToLower s) "https:".

Definition good_alias (a : string) : Prop :=
  4 <= Z.of_nat (String.length a) <= 20 /\ alias_MatchString a = true.

(** ** Lemmas *)

(** A byte of the alias class is below 128 and no white space. *)
Lemma alias_char_plain c : alias_char c = true -> plain_byte c = true.
Proof. unfold alias_char, letter, digit, in_range, plain_byte, space1. lia. Qed.

Lemma alias_plain a : alias_MatchString a = true ->
  Forall (fun c => plain_byte c = true) (bytes_of a).
Proof.
  unfold alias_MatchString. rewrite andb_true_iff, forallb_forall. intros [_ Hf].
  apply Forall_forall. intros c Hc. apply alias_char_plain, Hf. by apply list_elem_of_In.
Qed.

Lemma alias_trimmed a : alias_MatchString a = true -> a <> "" /\ TrimSpace a = a.
Proof.
  intros Ha. split; [|by apply TrimSpace_plain, alias_plain].
  intros ->. by vm_compute in Ha.
Qed.

Lemma length_bytes_of s : length (bytes_of s) = String.length s.
Proof. induction s; simpl; congruence. Qed.

Lemma alias_rune_count a : alias_MatchString a = true -> rune_count a = String.length a.
Proof.
  intros Ha. unfold rune_count. rewrite <- length_bytes_of. f_equal.
  apply filter_all. pose proof (alias_plain a Ha) as Hp.
  eapply Forall_impl; [exact Hp|]. intros c Hc. unfold plain_byte in Hc. unfold in_range. lia.
Qed.

(** The scan of [getScheme] reads the scheme and a colon off the front. *)
Lemma getScheme_from_prefix first acc l s :
  getScheme_from first acc l = Some s -> s <> [] ->
  (first = true -> acc = []) ->
  exists mid rest, l = mid ++ colon :: rest /\ s = acc ++ mid.
Proof.
  revert first acc. induction l as [|c l IH]; intros first acc; simpl; [naive_solver|].
  intros Hs Hne Hacc.
  assert (Hstep : getScheme_from false (acc ++ [c]) l = Some s ->
    exists mid rest, c :: l = mid ++ colon :: rest /\ s = acc ++ mid).
  { intros Hs'. destruct (IH _ _ Hs' Hne) as (mid & rest & -> & ->); [done|].
    exists (c :: mid), rest. by rewrite <- (assoc_L app). }
  destruct (letter c); [by apply Hstep|].
  destruct (_ || _); [destruct first; [naive_solver|by apply Hstep]|].
  destruct (Z.eqb_spec (code c) 58) as [Hc|]; [|naive_solver].
  destruct first; [done|]. injection Hs as <-. exists [], l. rewrite app_nil_r. split; [|done].
  simpl. f_equal. apply code_inj. by rewrite Hc.
Qed.

Lemma getScheme_prefix l s : getScheme l = Some s -> s <> [] ->
  exists rest, l = s ++ colon :: rest.
Proof.
  intros Hs Hne. destruct (getScheme_from_prefix _ _ _ _ Hs Hne) as (mid & rest & -> & ->);
    [done|]. by exists rest.
Qed.

Lemma before_hash_prefix l : exists t, l = before_hash l ++ t.
Proof.
  induction l as [|c l [t IH]]; simpl; [by exists []|].
  case_match; [by exists (c :: l)|]. exists t. simpl. by f_equal.
Qed.

(** The text starts with a scheme that is "http" or "https" in lower case. *)
Lemma url_Parse_scheme_prefix `{URLRest} s scheme :
  url_Parse_scheme s = Some scheme -> scheme <> "" ->
  existsb ctl_byte (before_hash (bytes_of s)) = false /\
  exists rest, ToLower s = scheme +:+ String colon rest.
Proof.
  unfold url_Parse_scheme. intros Hs Hne.
  destruct (existsb _ _) eqn:Ectl; [done|]. split; [done|].
  case_bool_decide; [destruct (url_rest_ok s); naive_solver|].
  destruct (getScheme _) as [sc|] eqn:Eg; [|done].
  destruct (url_rest_ok s); [|done]. injection Hs as <-.
  destruct (getScheme_prefix _ _ Eg) as [rest Hr]; [by intros ->|].
  destruct (before_hash_prefix (bytes_of s)) as [t Ht]. rewrite Hr in Ht.
  exists (ToLower (of_bytes (rest ++ t))).
  apply bytes_of_inj. rewrite bytes_of_app. cbn [String.list_ascii_of_string].
  rewrite !ToLower_bytes, Ht, !String.list_ascii_of_string_of_list_ascii.
  rewrite <- (assoc_L app), fmap_app. reflexivity.
Qed.

Lemma web_url_bytes s : web_url s = true <->
  exists scheme rest, (scheme = "http" \/ scheme = "https") /\
    lower_byte <$> bytes_of s = bytes_of scheme ++ colon :: rest.
Proof.
  unfold web_url. rewrite orb_true_iff, !HasPrefix_bytes, !ToLower_bytes. split.
  - intros [[t Ht]|[t Ht]]; [exists "http", t|exists "https", t]; auto.
  - intros (scheme & rest & [-> | ->] & Hr); [left|right]; by exists rest.
Qed.

(** Lower-casing only moves the upper-case letters. *)
Lemma lower_byte_plain c : plain_byte (lower_byte c) = true -> plain_byte c = true.
Proof.
  assert (Hall : forallb (fun c => implb (plain_byte (lower_byte c)) (plain_byte c)) all_bytes
    = true) by (vm_compute; reflexivity).
  pose proof (forallb_all_bytes _ Hall c) as Hc. simpl in Hc.
  by destruct (plain_byte (lower_byte c)).
Qed.

Lemma lower_byte_plain_eq c d : lower_byte c = d -> plain_byte d = true -> plain_byte c = true.
Proof. intros <-. apply lower_byte_plain. Qed.

(** Trimming a web URL leaves a web URL. *)
Lemma web_url_trim s : web_url s = true -> web_url (TrimSpace s) = true.
Proof.
  rewrite !web_url_bytes. intros (scheme & rest & Hsch & Hs).
  assert (Hc : exists c l d r, bytes_of s = c :: l ++ d :: r /\ plain_byte c = true /\
    plain_byte d = true /\ lower_byte <$> (c :: l ++ [d]) = bytes_of scheme ++ [colon]).
  { change (bytes_of scheme ++ colon :: rest) with (bytes_of scheme ++ [colon] ++ rest) in Hs.
    rewrite (assoc_L app) in Hs. apply fmap_app_inv in Hs as (l1 & l2 & Hl1 & _ & Hs).
    assert (Hsp : exists c l d, l1 = c :: l ++ [d] /\ lower_byte c = "h"%char /\ lower_byte d = colon).
    { destruct l1 as [|d l1 _] using rev_ind; [by destruct Hsch as [-> | ->]|].
      rewrite fmap_app in Hl1. simpl in Hl1. apply app_inj_tail in Hl1 as [Hl1 Hd].
      destruct l1 as [|c l]; [by destruct Hsch as [-> | ->]|]. exists c, l, d.
      split; [done|]. split; [|done].
      destruct Hsch as [-> | ->]; simpl in Hl1; by injection Hl1. }
    destruct Hsp as (c & l & d & -> & Hc & Hd). exists c, l, d, l2.
    split_and!; [by rewrite Hs; simpl; rewrite <- (assoc_L app)|..|done].
    - by apply (lower_byte_plain_eq _ _ Hc).
    - by apply (lower_byte_plain_eq _ _ Hd). }
  destruct Hc as (c & l & d & r & Hb & Hpc & Hpd & Hl).
  destruct (TrimSpace_keep _ _ _ _ _ Hb Hpc Hpd) as [y Hy].
  exists scheme, (lower_byte <$> y). split; [done|]. rewrite Hy.
  change (c :: l ++ d :: y) with ((c :: l) ++ [d] ++ y). rewrite (assoc_L app), fmap_app.
  change ((c :: l) ++ [d]) with (c :: l ++ [d]). rewrite Hl.
  by rewrite <- (assoc_L app).
Qed.

Lemma url_scheme_web `{URLRest} s : url_scheme s = true -> web_url s = true.
Proof.
  unfold url_scheme, web_url. destruct (url_Parse_scheme s) as [scheme|] eqn:E; [|done].
  unfold allowedSchemes. rewrite orb_true_iff, !bool_decide_eq_true. intros Hsch.
  destruct (url_Parse_scheme_prefix _ _ E) as [_ [rest Hr]]; [by destruct Hsch as [-> | ->]|].
  rewrite Hr, orb_true_iff, !HasPrefix_bytes.
  destruct Hsch as [-> | ->]; [left|right]; by exists (bytes_of rest).
Qed.

(** What passes the validator. *)
Definition valid_SaveRequest `{URLRest, URLCheck} (req : SaveRequest) : Prop :=
  URL req <> "" /\ isURL (URL req) = true /\ url_scheme (URL req) = true /\
  (Alias req = "" \/ good_alias (Alias req)).

Lemma URL_rules `{URLRest, URLCheck} name u :
  first_failure name u [Required; URLTag; URLScheme] = None <->
  u <> "" /\ isURL u = true /\ url_scheme u = true.
Proof.
  simpl. case_bool_decide; destruct (isURL u), (url_scheme u); simpl; naive_solver.
Qed.

Lemma Alias_rules `{URLRest, URLCheck} name a :
  first_failure name a [OmitEmpty; MinLen 4; MaxLen 20; AliasTag] = None <->
  a = "" \/ good_alias a.
Proof.
  simpl. case_bool_decide as He; [tauto|]. unfold good_alias.
  destruct (alias_MatchString a) eqn:Em.
  - rewrite (alias_rune_count a Em). repeat case_bool_decide; simpl; naive_solver lia.
  - repeat case_bool_decide; simpl; naive_solver.
Qed.

Lemma first_failure_field `{URLRest, URLCheck} name s rs fe :
  first_failure name s rs = Some fe -> fe_Field fe = name.
Proof.
  induction rs as [|r rs IH]; cbn [first_failure]; [done|].
  destruct r; try (destruct (rule_check _ s); [by intros [= <-]|exact IH]).
  case_bool_decide; [done|exact IH].
Qed.

(** What is wrong with a [SaveRequest]: the field, the tag of the first rule it
    breaks, and the parameter of that tag. *)
Inductive complaint `{URLRest, URLCheck} (req : SaveRequest) : FieldError -> Prop :=
| no_url : URL req = "" ->
    complaint req {| fe_Field := "URL"; fe_Tag := "required"; fe_Param := "" |}
| not_url : URL req <> "" -> isURL (URL req) = false ->
    complaint req {| fe_Field := "URL"; fe_Tag := "url"; fe_Param := "" |}
| bad_scheme : isURL (URL req) = true -> url_scheme (URL req) = false ->
    complaint req {| fe_Field := "URL"; fe_Tag := "url_scheme"; fe_Param := "" |}
| too_short : Alias req <> "" -> (rune_count (Alias req) < 4)%nat ->
    complaint req {| fe_Field := "Alias"; fe_Tag := "min"; fe_Param := "4" |}
| too_long : (20 < rune_count (Alias req))%nat ->
    complaint req {| fe_Field := "Alias"; fe_Tag := "max"; fe_Param := "20" |}
| bad_alias : (4 <= rune_count (Alias req) <= 20)%nat -> alias_MatchString (Alias req) = false ->
    complaint req {| fe_Field := "Alias"; fe_Tag := "alias"; fe_Param := "" |}.

(** [errs] names the wrong fields of [req], in order, each once, and each by the
    first rule it breaks. *)
Definition complaints `{URLRest, URLCheck} (req : SaveRequest) (errs : list FieldError) : Prop :=
  (fe_Field <$> errs) `sublist_of` ["URL"; "Alias"] /\
  ("URL" ∈ fe_Field <$> errs <->
     ~ (URL req <> "" /\ isURL (URL req) = true /\ url_scheme (URL req) = true)) /\
  ("Alias" ∈ fe_Field <$> errs <-> ~ (Alias req = "" \/ good_alias (Alias req))) /\
  Forall (complaint req) errs.

Lemma URL_failure `{URLRest, URLCheck} req fe :
  first_failure "URL" (URL req) [Required; URLTag; URLScheme] = Some fe -> complaint req fe.
Proof.
  simpl. case_bool_decide; [|intros [= <-]; by constructor].
  destruct (isURL (URL req)) eqn:?; [|intros [= <-]; by constructor].
  destruct (url_scheme (URL req)) eqn:?; [done|intros [= <-]; by constructor].
Qed.

Lemma Alias_failure `{URLRest, URLCheck} req fe :
  first_failure "Alias" (Alias req) [OmitEmpty; MinLen 4; MaxLen 20; AliasTag] = Some fe ->
  complaint req fe.
Proof.
  simpl. case_bool_decide as He; [done|].
  case_bool_decide as H4; simpl; [|intros [= <-]; constructor; [done|lia]].
  case_bool_decide as H20; simpl; [|intros [= <-]; constructor; lia].
  destruct (alias_MatchString (Alias req)) eqn:?; [done|]. intros [= <-]. by constructor.
Qed.

(** The failures [errs], each of its field. *)
Ltac exists_complaints errs :=
  right; exists errs; cbn [fmap list_fmap];
  repeat match goal with E : fe_Field _ = _ |- _ => rewrite E; clear E end;
  split; [reflexivity|]; split; [|naive_solver];
  split; [by repeat constructor|]; split; [set_solver|]; split; [set_solver|];
  by repeat constructor.

(** The validator either accepts, or names the fields that are wrong. *)
Lemma Struct_SaveRequest `{EngineSpec} req :
  (validate_Struct (SaveRequest_fields req) = None /\ valid_SaveRequest req) \/
  (exists errs, validate_Struct (SaveRequest_fields req) = Some (ValidationErrors errs) /\
     complaints req errs /\ ~ valid_SaveRequest req).
Proof.
  rewrite engine_spec. unfold reference_Struct, valid_SaveRequest, complaints, SaveRequest_fields.
  pose proof (URL_rules "URL" (URL req)) as HU.
  pose proof (Alias_rules "Alias" (Alias req)) as HA.
  cbn [omap list_omap]. unfold field_failure. cbn [fr_name fr_value fr_rules].
  destruct (first_failure "URL" _ _) as [fu|] eqn:Eu;
    destruct (first_failure "Alias" _ _) as [fa|] eqn:Ea;
    try pose proof (URL_failure _ _ Eu); try pose proof (Alias_failure _ _ Ea);
    try apply first_failure_field in Eu; try apply first_failure_field in Ea.
  - exists_complaints [fu; fa].
  - exists_complaints [fu].
  - exists_complaints [fa].
  - by left; tauto.
Qed.

(** ** Properties *)

Section Properties.
Context `{EngineSpec}.

(** C33: [validator.Struct] accepts a [SaveRequest] exactly when its URL is there,
    is a URL to the library, and has an allowed scheme, and its alias is empty
    or 4 to 20 characters of the alias alphabet.  Otherwise it names exactly the
    fields that are wrong, the URL before the alias, each once and by the first
    of its tags that it breaks, and gives never another error. *)
Theorem SaveRequest_valid req :
  (validate_Struct (SaveRequest_fields req) = None <-> valid_SaveRequest req) /\
  (~ valid_SaveRequest req -> exists errs,
     validate_Struct (SaveRequest_fields req) = Some (ValidationErrors errs) /\
     complaints req errs).
Proof.
  destruct (Struct_SaveRequest req) as [[-> Hv]|(errs & -> & Hc & Hv)]; [done|].
  split; [done|]. intros _. by exists errs.
Qed.
End Properties.

(** What [url_scheme] lets through can only be followed as a web address: it
    starts with "http:" or "https:", still does once the service has trimmed it,
    and has no control byte before its fragment. *)
Theorem url_scheme_safe `{URLRest} s : url_scheme s = true ->
  web_url s = true /\ web_url (TrimSpace s) = true /\
  existsb ctl_byte (before_hash (bytes_of s)) = false.
Proof.
  intros Hs. pose proof (url_scheme_web s Hs) as Hw. split_and!; [done|by apply web_url_trim|].
  unfold url_scheme in Hs. destruct (url_Parse_scheme s) as [scheme|] eqn:E; [|done].
  apply (url_Parse_scheme_prefix _ _ E). by intros ->.
Qed.

(** ** Evaluation *)

(** The engine that is the reference, with a [url] tag and a parser that object
    to nothing. *)
Module PlainEngine.
#[global] Instance rest : URLRest := fun _ => true.
#[global] Instance check : URLCheck := fun _ => true.
#[global] Instance engine : ValidatorEngine := reference_Struct.
#[global] Instance spec : EngineSpec.
Proof. intros fs. reflexivity. Qed.
End PlainEngine.

Lemma SaveRequest_valid_witness :
  let req := {| URL := "https://example.com"; Alias := "a/b" |} in
  ~ valid_SaveRequest req /\
  (exists errs, validate_Struct (SaveRequest_fields req) = Some (ValidationErrors errs) /\
     ~ ("URL" ∈ fe_Field <$> errs) /\ "Alias" ∈ fe_Field <$> errs) /\
  validate_Struct (SaveRequest_fields {| URL := "https://example.com"; Alias := "" |}) = None.
Proof.
  intros req. destruct (SaveRequest_valid req) as [_ Hreq].
  assert (Hbad : ~ (Alias req = "" \/ good_alias (Alias req)))
    by (intros [[=]|[_ Hm]]; vm_compute in Hm; discriminate Hm).
  assert (Hno : ~ valid_SaveRequest req) by (intros (_ & _ & _ & Ha); exact (Hbad Ha)).
  split_and!; [exact Hno| |].
  - destruct (Hreq Hno) as (errs & HS & _ & HU & HA & _). exists errs.
    split_and!; [exact HS| |by apply HA]. rewrite HU. intros Hu. apply Hu.
    split_and!; [discriminate|reflexivity|vm_compute; reflexivity].
  - apply (proj1 (SaveRequest_valid {| URL := "https://example.com"; Alias := "" |})).
    split_and!; [discriminate|reflexivity|vm_compute; reflexivity|left; reflexivity].
Defined.

Lemma url_scheme_safe_witness : web_url (TrimSpace "HTTPS://example.com/#x  ") = true.
Proof.
  destruct (url_scheme_safe "HTTPS://example.com/#x  ") as (_ & Hw & _);
    [vm_compute; reflexivity|exact Hw].
Defined.
