(* ===== verification/Handlers.v ===== *)
(** * internal/transport/http/handlers (url.go, health.go) and the middleware

    The handlers of the links, the readiness probe, and the middleware that
    authenticates a request and carries its id.  [URLService] is the interface
    the handlers program against.  The body decoder (go-chi/render) and the
    validator are libraries and appear as classes.  Log lines are not modelled,
    except for the level at which the access log records a request. *)

From S2P Require Import Prelude GoErrors GoStrings GoFloat Authn Runtime Http Response.
From S2P Require Import Storage Validation.

(** [render.DecodeJSON(r.Body, &req)] into a request type *)
Class BodyDecoder (A : Type) := DecodeJSON : body_reader -> result A.

(** [type URLService interface] *)
Class URLService (W : Type) := {
  svc_Save : context -> string -> string -> M W (result string);
  svc_Get : context -> string -> M W (result string);
  svc_Delete : context -> string -> M W (option error);
}.

(** ** The link handlers *)

Definition maxSaveRequestBytes : Z := Z.shiftl 1 20.

(** [type SaveResponse struct], as JSON fields *)
Definition SaveResponse_fields (r : Response) (alias : string) : list (string * json) :=
  Response_fields r ++ (if bool_decide (alias = "") then [] else [("alias", JString alias)]).

Section URLHandlers.
Context {W} `{URLService W, ValidatorEngine, BodyDecoder SaveRequest}.

(** [Handler.Save] *)
Definition Handler_Save : Handler W := fun r =>
  let r := WithBody r (MaxBytesReader (Body r) maxSaveRequestBytes) in
  match DecodeJSON (Body r) with
  | Err _ => mret (Respond StatusBadRequest (Error_response "failed to decode request"))
  | Ok req =>
      match validate_Struct (SaveRequest_fields req) with
      | Some (ValidationErrors errs) => mret (Respond StatusBadRequest (ValidationError errs))
      | Some (OtherValidateError _) =>
          mret (Respond StatusInternalServerError (Error_response "validation error"))
      | None =>
          res ← svc_Save (Context_of r) (URL req) (Alias req);
          match res with
          | Err err =>
              mret (RespondError err StatusInternalServerError "failed add url"
                [Case (SDomain ErrURLExist) StatusConflict "url already exists";
                 Case (SDomain ErrInvalidURL) StatusBadRequest "url is required"]).2
          | Ok alias => mret (RespJSON StatusOK (JObject (SaveResponse_fields Ok_response alias)))
          end
      end
  end.

(** [Handler.Get] *)
Definition Handler_Get : Handler W := fun r =>
  let alias := URLParam r "alias" in
  if bool_decide (alias = "") then
    mret (Respond StatusBadRequest (Error_response "invalid request"))
  else
    res ← svc_Get (Context_of r) alias;
    match res with
    | Err err =>
        mret (RespondError err StatusInternalServerError "internal error"
          [Case (SDomain ErrURLNotFound) StatusNotFound "not found"]).2
    | Ok resURL => mret (RespRedirect StatusFound resURL)
    end.

(** [Handler.Delete] *)
Definition Handler_Delete : Handler W := fun r =>
  let alias := URLParam r "alias" in
  if bool_decide (alias = "") then
    mret (Respond StatusBadRequest (Error_response "invalid request"))
  else
    err ← svc_Delete (Context_of r) alias;
    match err with
    | Some err =>
        mret (RespondError err StatusInternalServerError "internal error"
          [Case (SDomain ErrURLNotFound) StatusNotFound "not found"]).2
    | None => mret (RespEmpty StatusNoContent)
    end.
End URLHandlers.

(** ** The readiness probe *)

(** [type Pinger interface], and the ping of the Redis client *)
Class Pinger (W : Type) := { db_Ping : context -> M W (option error);
                             redis_Ping : context -> M W (option error) }.

(** [ReadinessProbe] *)
Definition ReadinessProbe {W} `{Pinger W} : Handler W := fun r =>
  err ← db_Ping (Context_of r);
  match err with
  | Some _ => mret (RespText StatusServiceUnavailable "db down")
  | None =>
      err ← redis_Ping (Context_of r);
      match err with
      | Some _ => mret (RespText StatusServiceUnavailable "redis down")
      | None => mret (RespText StatusOK "ok")
      end
  end.

(** ** Middleware *)

Section Middleware.
Context {W : Type} `{Runtime W, JWT}.
Context (uint64_oob : float64 -> Z).

(** [auth.RequireAuth] *)
Definition RequireAuth (v : Verifier) : Middleware W := fun next r =>
  let prefix := "Bearer " in
  let header := Header_Get r "Authorization" in
  if negb (HasPrefix header prefix) then
    mret (Respond StatusUnauthorized (Error_response "missing bearer token"))
  else
    now ← time_Now;
    match Verify uint64_oob v now (TrimPrefix header prefix) with
    | Err _ => mret (Respond StatusUnauthorized (Error_response "invalid or expired token"))
    | Ok claims => next (WithContext r (with_user (Context_of r) claims))
    end.

(** [auth.User]: the claims and whether there are any *)
Definition User (ctx : context) : Claims * bool :=
  match ctx_user ctx with
  | Some claims => (claims, true)
  | None => ({| UserID := 0; Email := "" |}, false)
  end.

(** [reqid.Propagate] *)
Definition propagated (r : request) : request :=
  let id := ctx_chi_request_id (Context_of r) in
  if bool_decide (id <> "") then WithContext r (with_request_id (Context_of r) id) else r.
Definition Propagate : Middleware W := fun next r => next (propagated r).

(** The handler [logger.New] makes: the response, and the level of the access
    log line it writes, if it writes one. *)
Definition access_log (next : Handler W) (r : request) : M W (response * option level) :=
  if bool_decide (URL_Path r = "/health") then
    resp ← next r; mret (resp, None)
  else
    resp ← next r;
    let status := resp_code resp in
    mret (resp, Some (if 500 <=? status then LevelError
                      else if 400 <=? status then LevelWarn else LevelInfo)).
End Middleware.

(** ** Lemmas *)

Lemma TrimPrefix_spec s p : HasPrefix s p = true -> s = p +:+ TrimPrefix s p.
Proof.
  intros Hp. unfold TrimPrefix. rewrite Hp.
  revert s Hp. induction p as [|c p IH]; intros s Hp; [by destruct s|].
  destruct s as [|x s]; [done|]. simpl in Hp.
  apply andb_true_iff in Hp as [->%bool_decide_eq_true Hp].
  cbn [String.length drop_bytes]. rewrite (IH s Hp) at 1. done.
Qed.

(** The status of [Save]'s answer to an error of the service. *)
Definition save_error_code (e : error) : Z :=
  if errors_Is e (SDomain ErrURLExist) then StatusConflict
  else if errors_Is e (SDomain ErrInvalidURL) then StatusBadRequest
  else StatusInternalServerError.

(** ... and of [Get]'s and [Delete]'s. *)
Definition lookup_error_code (e : error) : Z :=
  if errors_Is e (SDomain ErrURLNotFound) then StatusNotFound else StatusInternalServerError.

Lemma save_error_code_not_ok e : save_error_code e <> StatusOK.
Proof. unfold save_error_code. by repeat case_match. Qed.
Lemma save_error_code_conflict e :
  save_error_code e = StatusConflict <-> errors_Is e (SDomain ErrURLExist) = true.
Proof. unfold save_error_code. by repeat case_match. Qed.

Lemma lookup_error_code_not_204 e : lookup_error_code e <> StatusNoContent.
Proof. unfold lookup_error_code. by case_match. Qed.

Section Handler_facts.
Context {W} `{URLService W, EngineSpec, BodyDecoder SaveRequest}.

Definition save_body (r : request) : body_reader := MaxBytesReader (Body r) maxSaveRequestBytes.

(** The ways through [Save]: turned down with nothing done, or the service is
    called, once, with a valid request. *)
Lemma Handler_Save_cases r (w : W) resp w' : Handler_Save r w = (resp, w') ->
  (w' = w /\ resp_code resp = StatusBadRequest /\
   match DecodeJSON (save_body r) with Err _ => True | Ok req => ~ valid_SaveRequest req end) \/
  exists req res, DecodeJSON (save_body r) = Ok req /\ valid_SaveRequest req /\
    svc_Save (Context_of r) (URL req) (Alias req) w = (res, w') /\
    match res with
    | Ok alias => resp = RespJSON StatusOK (JObject (SaveResponse_fields Ok_response alias))
    | Err e => resp_code resp = save_error_code e
    end.
Proof.
  unfold Handler_Save. cbn [Body WithBody Context_of]. fold (save_body r).
  destruct (DecodeJSON (save_body r)) as [req|e] eqn:Ed; [|intros [= <- <-]; by left].
  destruct (Struct_SaveRequest req) as [[-> Hv]|(errs & -> & _ & Hv)];
    [|intros [= <- <-]; by left].
  m_unfold. destruct (svc_Save _ _ _ w) as [res w1] eqn:Es. intros Hres. right.
  exists req, res. destruct res as [a|e].
  - by injection Hres as <- <-.
  - injection Hres as <- <-. split_and!; [done..|]. unfold save_error_code. cbn [RespondError Case].
    cbn [Target CaseStatus Msg]. by repeat case_match.
Qed.

Lemma Handler_Get_cases r (w : W) resp w' : Handler_Get r w = (resp, w') ->
  (URLParam r "alias" = "" /\ w' = w /\
     resp = Respond StatusBadRequest (Error_response "invalid request")) \/
  exists res, svc_Get (Context_of r) (URLParam r "alias") w = (res, w') /\
    match res with
    | Ok u => resp = RespRedirect StatusFound u
    | Err e => resp = Respond (lookup_error_code e) (Error_response
                 (if errors_Is e (SDomain ErrURLNotFound) then "not found" else "internal error"))
    end.
Proof.
  unfold Handler_Get. case_bool_decide; [intros [= <- <-]; by left|].
  m_unfold. destruct (svc_Get _ _ w) as [res w1] eqn:Es. intros Hres. right. exists res.
  destruct res as [u|e]; injection Hres as <- <-; (split; [done|]); [done|].
  unfold lookup_error_code. cbn [RespondError Case Target CaseStatus Msg]. by case_match.
Qed.

Lemma Handler_Delete_cases r (w : W) resp w' : Handler_Delete r w = (resp, w') ->
  (URLParam r "alias" = "" /\ w' = w /\
     resp = Respond StatusBadRequest (Error_response "invalid request")) \/
  exists err, svc_Delete (Context_of r) (URLParam r "alias") w = (err, w') /\
    match err with
    | None => resp = RespEmpty StatusNoContent
    | Some e => resp_code resp = lookup_error_code e
    end.
Proof.
  unfold Handler_Delete. case_bool_decide; [intros [= <- <-]; by left|].
  m_unfold. destruct (svc_Delete _ _ w) as [err w1] eqn:Es. intros Hres. right. exists err.
  destruct err as [e|]; injection Hres as <- <-; (split; [done|]); [|done].
  unfold lookup_error_code. cbn [RespondError Case Target CaseStatus Msg]. by case_match.
Qed.
End Handler_facts.

(** ** Properties *)

Section Properties.
Context {W : Type} `{Runtime W, JWT}.
Context (uint64_oob : float64 -> Z).

(** [RequireAuth] lets a request through only with a bearer token that the
    verifier accepts at that moment, and then the handler sees the token's
    claims; any other request is answered with 401 and nothing but the clock
    has been touched. *)
Theorem RequireAuth_sound v next r (w : W) resp w' :
  RequireAuth uint64_oob v next r w = (resp, w') ->
  (resp_code resp = StatusUnauthorized /\ (w' = w \/ w' = (time_Now w).2)) \/
  exists token claims,
    Header_Get r "Authorization" = "Bearer " +:+ token /\
    Verify uint64_oob v (time_Now w).1 token = Ok claims /\
    User (Context_of (WithContext r (with_user (Context_of r) claims))) = (claims, true) /\
    next (WithContext r (with_user (Context_of r) claims)) (time_Now w).2 = (resp, w').
Proof.
  unfold RequireAuth. destruct (HasPrefix _ _) eqn:Hp; simpl; [|intros [= <- <-]; by auto].
  m_unfold. destruct (time_Now w) as [now w1] eqn:Et. simpl.
  destruct (Verify _ v now _) as [claims|e] eqn:Ev; [|intros [= <- <-]; by auto].
  intros Hn. right. exists (TrimPrefix (Header_Get r "Authorization") "Bearer "), claims.
  split_and!; [by apply TrimPrefix_spec|done..].
Qed.

(** The probe answers 200 exactly when the database and Redis both answer
    their ping, and 503 otherwise; Redis is not asked when the database is
    down. *)
Theorem ReadinessProbe_correct `{Pinger W} r (w : W) :
  let '(dberr, w1) := db_Ping (Context_of r) w in
  let '(resp, w') := ReadinessProbe r w in
  match dberr with
  | Some _ => resp_code resp = StatusServiceUnavailable /\ w' = w1
  | None => let '(rerr, w2) := redis_Ping (Context_of r) w1 in
            w' = w2 /\ (resp_code resp = StatusOK <-> rerr = None) /\
            (resp_code resp = StatusServiceUnavailable <-> rerr <> None)
  end.
Proof.
  unfold ReadinessProbe. m_unfold.
  destruct (db_Ping _ w) as [[e|] w1]; [done|].
  destruct (redis_Ping _ w1) as [[e|] w2]; simpl; naive_solver.
Qed.
End Properties.

(** ** Evaluation *)

(** The token of the table lets the request through, with its claims. *)
Lemma RequireAuth_sound_witness :
  let r := {| Method := "POST"; URL_Path := "/url"; RemoteAddr := "";
              Header := {["Authorization" := "Bearer tok"]};
              Body := {| rd_bytes := ""; rd_err := None |}; URLParams := ∅;
              Context_of := Background |} in
  exists token claims, Header_Get r "Authorization" = "Bearer " +:+ token /\
    Verify (H := TableJWT.jwt TableJWT.table) (fun _ => 0) TableJWT.verifier 10 token = Ok claims.
Proof.
  intros r.
  destruct (RequireAuth_sound (H0 := TableJWT.jwt TableJWT.table) (fun _ => 0) TableJWT.verifier
    (fun r w => (RespEmpty (UserID (User (Context_of r)).1), w)) r 10 (RespEmpty 7) 10)
    as [[Hc _]|(token & claims & Ht & Hv & _)].
  - vm_compute. reflexivity.
  - discriminate Hc.
  - exists token, claims. split; [exact Ht|exact Hv].
Defined.
