(* ===== verification/Logging.v ===== *)
(** * pkg/logger/sl and the loggers of the layers

    log/slog as far as the code uses it: a logger is a format, a least level and
    the attributes it adds to every line ([With]).  Every layer derives its
    logger from the one it is given; the request id reaches the handlers under
    chi's context key and the service under [sl.RequestIDKey], which
    [reqid.Propagate] fills. *)

From S2P Require Import Prelude GoErrors GoStrings GoFloat Authn Runtime Http Response.
From S2P Require Import Storage Validation Handlers.

(** ** log/slog *)

(** [slog.Attr]; [NoAttr] is the zero value, which every handler skips. *)
Inductive attr : Type :=
| NoAttr
| AString (key value : string)
| AInt (key : string) (value : Z)
| AAny (key : string) (value : error)
| AGroup (key : string) (members : list attr).

Inductive format : Set := TextHandler | JSONHandler.

Record Logger := { log_format : format; min_level : level; log_attrs : list attr }.

(** [slog.New] *)
Definition slog_New (f : format) (l : level) : Logger :=
  {| log_format := f; min_level := l; log_attrs := [] |}.

(** [Logger.With] *)
Definition With (l : Logger) (attrs : list attr) : Logger :=
  {| log_format := log_format l; min_level := min_level l; log_attrs := log_attrs l ++ attrs |}.

Definition level_rank (l : level) : Z :=
  match l with LevelDebug => -4 | LevelInfo => 0 | LevelWarn => 4 | LevelError => 8 end.
Definition Enabled (logger : Logger) (l : level) : bool :=
  level_rank (min_level logger) <=? level_rank l.

Record line := { line_level : level; line_msg : string; line_attrs : list attr }.

Definition is_attr (a : attr) : bool := match a with NoAttr => false | _ => true end.

(** [logger.Log(level, msg, attrs...)]: the line, if one is written. *)
Definition Log (logger : Logger) (l : level) (msg : string) (attrs : list attr) : option line :=
  if Enabled logger l then
    Some {| line_level := l; line_msg := msg;
            line_attrs := filter (fun a => is_attr a = true) (log_attrs logger ++ attrs) |}
  else None.

(** ** pkg/logger/sl *)

(** [sl.Err] *)
Definition sl_Err (err : option error) : attr :=
  match err with None => NoAttr | Some e => AAny "error" e end.

(** [sl.LoggerWithCtx] *)
Definition LoggerWithCtx (ctx : context) (logger : Logger) : Logger :=
  match ctx_request_id ctx with
  | None => logger
  | Some reqID => With logger [AString "request_id" reqID]
  end.

(** ** The loggers of the layers *)

(** [handlers.New] and [Handler.logger] *)
Definition Handler_log (log : Logger) : Logger := With log [AString "layer" "handler"].
Definition Handler_logger (log : Logger) (r : request) (op : string) : Logger :=
  With (Handler_log log)
    [AString "op" op; AString "request_id" (ctx_chi_request_id (Context_of r))].

(** [handlers.NewAuth] *)
Definition AuthHandler_log (log : Logger) : Logger := With log [AString "layer" "auth_handler"].

(** [service.New], and the logger of [saveGeneratedAlias] *)
Definition Service_log (log : Logger) : Logger := With log [AString "layer" "service"].
Definition saveGenerated_log (log : Logger) (ctx : context) (op : string) : Logger :=
  With (LoggerWithCtx ctx (Service_log log)) [AString "op" op].

(** The attributes [logger.New] collects, and the line it writes. *)
Definition reqArgs (r : request) : list attr :=
  [AString "method" (Method r); AString "path" (URL_Path r);
   AString "remote_addr" (RemoteAddr r); AString "user_agent" (Header_Get r "User-Agent")] ++
  (let reqID := ctx_chi_request_id (Context_of r) in
   if bool_decide (reqID <> "") then [AString "request_id" reqID] else []).

Definition access_line (log : Logger) (r : request) (status bytes duration : Z) : option line :=
  let logger := With log [AString "component" "middleware/Logger"] in
  if bool_decide (URL_Path r = "/health") then None
  else
    let entry := With logger [AGroup "request" (reqArgs r)] in
    let resArgs := [AInt "status" status; AInt "bytes" bytes; AInt "duration" duration] in
    if 500 <=? status then Log entry LevelError "request failed" resArgs
    else if 400 <=? status then Log entry LevelWarn "request error" resArgs
    else Log entry LevelInfo "request completed" resArgs.

(** The line of [RespondError]. *)
Definition error_line (log : Logger) (entry : log_entry) : option line :=
  Log log (log_level entry) (log_msg entry) [AString "error" (log_error entry)].

(** ** Lemmas *)

Lemma Log_attrs logger l msg attrs ln : Log logger l msg attrs = Some ln ->
  line_level ln = l /\ forall a, is_attr a = true ->
    a ∈ log_attrs logger \/ a ∈ attrs <-> a ∈ line_attrs ln.
Proof.
  unfold Log. destruct (Enabled logger l); [|done]. intros [= <-]. split; [done|].
  intros a Ha. simpl. rewrite list_elem_of_filter, elem_of_app. naive_solver.
Qed.

Lemma propagated_ids r id : ctx_chi_request_id (Context_of r) = id -> id <> "" ->
  ctx_chi_request_id (Context_of (propagated r)) = id /\
  ctx_request_id (Context_of (propagated r)) = Some id.
Proof.
  intros Hid Hne. unfold propagated. rewrite Hid. by rewrite bool_decide_eq_true_2.
Qed.

(** ** Properties *)

(** The lines of one request can be put together: when chi gave the request an
    id, every line the handlers write about it, every line of the service's
    retry loop and the access log line carry that id under the key request_id,
    although the service only sees the context. *)
Theorem request_id_everywhere log r id op op' l msg attrs ln :
  ctx_chi_request_id (Context_of r) = id -> id <> "" ->
  (Log (Handler_logger log (propagated r) op) l msg attrs = Some ln ->
     AString "request_id" id ∈ line_attrs ln) /\
  (Log (saveGenerated_log log (Context_of (propagated r)) op') l msg attrs = Some ln ->
     AString "request_id" id ∈ line_attrs ln) /\
  (forall status bytes duration,
     access_line log (propagated r) status bytes duration = Some ln ->
     exists members, AGroup "request" members ∈ line_attrs ln /\
       AString "request_id" id ∈ members).
Proof.
  intros Hid Hne. destruct (propagated_ids r id Hid Hne) as [Hchi Hsl]. split_and!.
  - intros [_ Ha]%Log_attrs. apply Ha; [done|]. left. simpl. rewrite Hchi. set_solver.
  - intros [_ Ha]%Log_attrs. apply Ha; [done|]. left. unfold saveGenerated_log, LoggerWithCtx.
    rewrite Hsl. simpl. set_solver.
  - intros status bytes duration. unfold access_line. case_bool_decide; [done|]. intros Hl.
    exists (reqArgs (propagated r)). split.
    + repeat case_match; apply Log_attrs in Hl as [_ Ha]; (apply Ha; [done|left]);
        simpl; set_solver.
    + unfold reqArgs. rewrite Hchi, bool_decide_eq_true_2 by done. set_solver.
Qed.

(** The access log has the level [Handlers.access_log] gives the request. *)
Lemma access_line_level log r status bytes duration ln :
  access_line log r status bytes duration = Some ln ->
  URL_Path r <> "/health" /\
  line_level ln = (if 500 <=? status then LevelError
                   else if 400 <=? status then LevelWarn else LevelInfo).
Proof.
  unfold access_line. case_bool_decide; [done|]. intros Hl. split; [done|].
  repeat case_match; by apply Log_attrs in Hl as [-> _].
Qed.

(** ** Evaluation *)

Definition demo_request : request :=
  {| Method := "GET"; URL_Path := "/docs"; RemoteAddr := "10.0.0.1:999"; Header := ∅;
     Body := {| rd_bytes := ""; rd_err := None |}; URLParams := ∅;
     Context_of := {| ctx_signal := 0; ctx_deadline := None; ctx_chi_request_id := "host/1-000001";
                      ctx_request_id := None; ctx_user := None |} |}.

Lemma request_id_everywhere_witness :
  exists ln, Log (saveGenerated_log (slog_New TextHandler LevelDebug)
      (Context_of (propagated demo_request)) "op") LevelError "failed" [sl_Err None] = Some ln /\
    AString "request_id" "host/1-000001" ∈ line_attrs ln /\
    line_attrs ln = [AString "layer" "service"; AString "request_id" "host/1-000001";
                     AString "op" "op"].
Proof.
  eexists. split; [reflexivity|]. split; [|reflexivity].
  destruct (request_id_everywhere (slog_New TextHandler LevelDebug) demo_request "host/1-000001"
    "op" "op" LevelError "failed" [sl_Err None]
    {| line_level := LevelError; line_msg := "failed";
       line_attrs := [AString "layer" "service"; AString "request_id" "host/1-000001";
                      AString "op" "op"] |}) as (_ & Hs & _);
    [reflexivity|discriminate|exact (Hs eq_refl)].
Defined.
