(* ===== verification/Links.v ===== *)
(** * The link endpoints over the service and any storage

    The wiring of internal/bootstrap for the links: the handlers over the
    service, the service over a storage and the random generator.  The theorems
    are about HTTP requests and the links that are stored. *)

From S2P Require Import Prelude GoErrors GoStrings GoFloat Authn Runtime Http Response.
From S2P Require Import Random Storage Service Validation Handlers.

(** [*service.Service] as the handlers' [URLService]; with the fuel of
    [Service.Save_terminates] the loop gives a result. *)
Definition ServiceURLs {W} `{Storage W, AliasGenerator W, Runtime W} (s : Service) :
    URLService W := {|
  svc_Save ctx url alias :=
    r ← Service.Save (Z.to_nat (MaxRetries (cfg s))) s ctx url alias;
    mret (default (Err (ErrorString "out of fuel")) r);
  svc_Get := Service.Get s;
  svc_Delete := Service.Delete s |}.

(** The generator gives what [random.Generator] gives, of the configured
    length, on whatever the entropy source yields. *)
Class RandomAliases (W : Type) `{AliasGenerator W} (length : Z) : Prop :=
  random_alias (w : W) a w' : Generate w = (Ok a, w') ->
    exists (R : Set) (reader : io_Reader R) fuel (r r' : R),
      Random.Generate fuel (Random.New length) r = (Done (Ok a), r').

(** A link that may be stored. *)
Definition link_ok (a u : string) : Prop := alias_MatchString a = true /\ web_url u = true.

(** ** Lemmas *)

Lemma charset_alias_chars : forallb alias_char (bytes_of charset) = true.
Proof. vm_compute. reflexivity. Qed.

(** A generated alias passes the check a chosen one has to pass. *)
Lemma random_alias_MatchString W `{RandomAliases W n} (w : W) a w' :
  0 < n -> Generate w = (Ok a, w') ->
  Z.of_nat (String.length a) = n /\ alias_MatchString a = true.
Proof.
  intros Hn E. destruct (random_alias w a w' E) as (R & reader & fuel & r & r' & Hg).
  destruct (Generate_ok _ _ _ _ _ Hg) as [Hl Hc]. split; [exact Hl|].
  unfold alias_MatchString. apply andb_true_iff. split.
  - apply bool_decide_eq_true. intros ->. simpl in Hl. lia.
  - apply forallb_forall. intros c Hin%list_elem_of_In.
    rewrite Forall_forall in Hc. specialize (Hc c Hin).
    pose proof charset_alias_chars as Hall. rewrite forallb_forall in Hall.
    by apply Hall, list_elem_of_In.
Qed.

Lemma web_url_nonempty u : web_url u = true -> u <> "".
Proof. by intros Hu ->. Qed.

Lemma trimmed_link a u : alias_MatchString a = true -> web_url u = true ->
  link_ok (TrimSpace a) (TrimSpace u).
Proof.
  intros Ha Hu. destruct (alias_trimmed a Ha) as [_ ->]. split; [done|by apply web_url_trim].
Qed.

Lemma ServiceURLs_Save {W} `{Storage W, AliasGenerator W, Runtime W} s ctx u a (w : W) res w' :
  svc_Save (URLService := ServiceURLs s) ctx u a w = (res, w') ->
  exists o, Service.Save (Z.to_nat (MaxRetries (cfg s))) s ctx u a w = (o, w') /\
            res = default (Err (ErrorString "out of fuel")) o.
Proof.
  cbn [svc_Save ServiceURLs]. m_unfold.
  destruct (Service.Save _ _ _ _ _ w) as [o w1]. intros [= <- <-]. by exists o.
Qed.

(** ** Safety *)

Section Safety.
Context {W} `{SafeStorage W link_ok, AliasGenerator W, Runtime W}.
Context (n : Z) `{!RandomAliases W n} (n_pos : 0 < n).
Context `{!Preserves (keeps_safe link_ok) Generate} `{!RuntimePreserves (keeps_safe link_ok)}.
Implicit Types (w : W) (s : Service).

Lemma round_safe ctx u w o w' : web_url u = true -> safe w ->
  round ctx u w = (o, w') -> safe w'.
Proof.
  intros Hu Hs. unfold round. m_unfold. destruct (ctx_Err ctx w) as [c w1] eqn:Ec.
  pose proof (preserves_eq (keeps_safe link_ok) _ _ _ _ Ec Hs) as Hs1.
  destruct c as [c|]; [by intros [= <- <-]|].
  destruct (Generate w1) as [g w2] eqn:Eg.
  pose proof (preserves_eq (keeps_safe link_ok) _ _ _ _ Eg Hs1) as Hs2.
  destruct g as [a|e]; [|by intros [= <- <-]].
  destruct (st_Save ctx u a w2) as [e w3] eqn:Es. intros [= <- <-].
  destruct (random_alias_MatchString W w1 a w2 n_pos Eg) as [_ Ha].
  pose proof (safe_Save ctx u a w2 (conj Ha Hu) Hs2) as Hs3. by rewrite Es in Hs3.
Qed.

Lemma loop_safe fuel s ctx u attempt w o w' : web_url u = true -> safe w ->
  saveGenerated_loop fuel s ctx u attempt w = (o, w') -> safe w'.
Proof.
  intros Hu. revert attempt w. induction fuel as [|fuel IH]; intros attempt w Hs;
    destruct (Z.leb_spec attempt (MaxRetries (cfg s))) as [Ha|Ha].
  - cbn [saveGenerated_loop]. rewrite (proj2 (Z.leb_le _ _)) by done. by intros [= <- <-].
  - rewrite saveGenerated_loop_exit by done. by intros [= <- <-].
  - rewrite saveGenerated_loop_round by done. destruct (round ctx u w) as [[r|] w1] eqn:Er.
    + intros [= <- <-]. by eapply round_safe.
    + apply IH. by eapply round_safe.
  - rewrite saveGenerated_loop_exit by done. by intros [= <- <-].
Qed.

Lemma Service_Save_safe fuel s ctx u a w o w' :
  web_url u = true -> a = "" \/ alias_MatchString a = true -> safe w ->
  Service.Save fuel s ctx u a w = (o, w') -> safe w'.
Proof.
  intros Hu Ha Hs. unfold Service.Save. case_bool_decide; [by intros [= <- <-]|].
  case_bool_decide as Hne.
  - unfold saveAlias. m_unfold.
    destruct (st_Save ctx (TrimSpace u) (TrimSpace a) w) as [e w1] eqn:Es.
    destruct Ha as [->|Ha]; [done|].
    pose proof (safe_Save ctx _ _ w (trimmed_link a u Ha Hu) Hs) as Hs1. rewrite Es in Hs1.
    destruct e; by intros [= <- <-].
  - apply loop_safe; [by apply web_url_trim|done].
Qed.

Lemma Service_Get_safe s ctx a w r w' : safe w -> Service.Get s ctx a w = (r, w') ->
  safe w' /\ (forall u, r = Ok u -> link_ok (TrimSpace a) u).
Proof.
  intros Hs. unfold Service.Get. case_bool_decide; [by intros [= <- <-]|].
  unfold check_err. m_unfold. destruct (st_Get ctx (TrimSpace a) w) as [r1 w1] eqn:Eg.
  pose proof (safe_Get ctx (TrimSpace a) w Hs) as Hs1. rewrite Eg in Hs1.
  destruct r1 as [u|e]; intros [= <- <-]; (split; [done|]); [|done].
  intros ? [= <-]. by eapply (safe_Get_ok ctx (TrimSpace a) w).
Qed.

Lemma Service_Delete_safe s ctx a w e w' : safe w -> Service.Delete s ctx a w = (e, w') ->
  safe w'.
Proof.
  intros Hs. unfold Service.Delete. case_bool_decide; [by intros [= <- <-]|].
  m_unfold. destruct (st_Delete ctx (TrimSpace a) w) as [e1 w1] eqn:Ed.
  pose proof (safe_Delete ctx (TrimSpace a) w Hs) as Hs1. rewrite Ed in Hs1.
  destruct e1; by intros [= <- <-].
Qed.
End Safety.

(** One request to a link endpoint. *)
Inductive link_step {W} `{URLService W, ValidatorEngine, BodyDecoder SaveRequest} :
    W -> W -> Prop :=
| step_Save r w resp w' : Handler_Save r w = (resp, w') -> link_step w w'
| step_Get r w resp w' : Handler_Get r w = (resp, w') -> link_step w w'
| step_Delete r w resp w' : Handler_Delete r w = (resp, w') -> link_step w w'.

Section Steps.
Context {W} `{SafeStorage W link_ok, AliasGenerator W, Runtime W}.
Context (n : Z) `{!RandomAliases W n} (n_pos : 0 < n).
Context `{!Preserves (keeps_safe link_ok) Generate} `{!RuntimePreserves (keeps_safe link_ok)}.
Context `{EngineSpec, BodyDecoder SaveRequest}.
Variable s : Service.
#[local] Instance urls_service : URLService W := ServiceURLs s.

Lemma link_step_safe (w w' : W) : link_step w w' -> safe w -> safe w'.
Proof.
  intros [r ? resp ? E|r ? resp ? E|r ? resp ? E] Hs.
  - destruct (Handler_Save_cases _ _ _ _ E) as [(-> & _)|(req & res & _ & Hv & Hsvc & _)]; [done|].
    destruct Hv as (_ & _ & Hscheme & Halias). apply ServiceURLs_Save in Hsvc as (o & ES & _).
    eapply (Service_Save_safe n n_pos); [by apply url_scheme_web| |exact Hs|exact ES].
    destruct Halias as [?|[_ ?]]; auto.
  - destruct (Handler_Get_cases _ _ _ _ E) as [(_ & -> & _)|(res & Hsvc & _)]; [done|].
    by destruct (Service_Get_safe s _ _ _ _ _ Hs Hsvc).
  - destruct (Handler_Delete_cases _ _ _ _ E) as [(_ & -> & _)|(err & Hsvc & _)]; [done|].
    exact (Service_Delete_safe s _ _ _ _ _ Hs Hsvc).
Qed.

Lemma link_steps_safe (w w' : W) : rtc link_step w w' -> safe w -> safe w'.
Proof. induction 1; [done|]. intros Hs. by eauto using link_step_safe. Qed.
End Steps.

(** ** Properties *)

Section Redirects.
Context {W} `{SafeStorage W link_ok, AliasGenerator W, Runtime W}.
Context (n : Z) `{!RandomAliases W n}.
Context `{!Preserves (keeps_safe link_ok) Generate} `{!RuntimePreserves (keeps_safe link_ok)}.
Context `{EngineSpec, BodyDecoder SaveRequest}.
Variable s : Service.
#[local] Existing Instance urls_service.

(** A redirect out of a safe store. *)
Lemma Handler_Get_redirects (w : W) r code u w' :
  safe w -> Handler_Get (H := urls_service s) r w = (RespRedirect code u, w') ->
  code = StatusFound /\ web_url u = true /\
  alias_MatchString (TrimSpace (URLParam r "alias")) = true.
Proof.
  intros Hs HG.
  destruct (Handler_Get_cases _ _ _ _ HG) as [(_ & _ & Hres)|(res & Hsvc & Hres)]; [done|].
  destruct res as [v|e]; [|by unfold Respond in Hres]. injection Hres as -> ->.
  destruct (Service_Get_safe s _ _ _ _ _ Hs Hsvc) as [_ Hok].
  by destruct (Hok v eq_refl).
Qed.

(** The service never redirects to anything but a web address.  From a safe
    store (an empty one, say), after any sequence of requests to the link
    endpoints, whatever the storage does within its contract (stale answers
    of a cache included), a redirect goes to an http or https URL, under an
    alias of the alias alphabet. *)
Theorem redirects_safe (w0 w : W) r code u w' :
  0 < n -> safe w0 -> rtc (link_step (H := urls_service s)) w0 w ->
  Handler_Get (H := urls_service s) r w = (RespRedirect code u, w') ->
  code = StatusFound /\ web_url u = true /\
  alias_MatchString (TrimSpace (URLParam r "alias")) = true.
Proof.
  intros Hn Hs0 Hsteps. apply Handler_Get_redirects. by apply (link_steps_safe n Hn s w0).
Qed.
End Redirects.

Section RoundTrip.
Context {W} `{StorageSpec W, AliasGenerator W, Runtime W}.
Context `{!GeneratorSpec W} `{!RuntimePreserves same_store}.
Context `{EngineSpec, BodyDecoder SaveRequest}.
Variable s : Service.
#[local] Existing Instance urls_service.

(** The statuses of [POST /url] tell what happened to the store.  200 names
    the alias under which the trimmed URL is now stored and which was free;
    409 means that the alias asked for was taken, and nothing changed; on any
    answer no stored link has been overwritten or lost. *)
Theorem POST_url_statuses r (w : W) resp w' :
  store_wf w -> Handler_Save (H := urls_service s) r w = (resp, w') ->
  store_wf w' /\ urls w ⊆ urls w' /\
  (resp_code resp = StatusOK -> exists req a,
     DecodeJSON (save_body r) = Ok req /\ valid_SaveRequest req /\
     resp = RespJSON StatusOK (JObject (SaveResponse_fields Ok_response a)) /\
     (Alias req <> "" -> a = Alias req) /\
     urls w !! a = None /\ urls w' = <[a := TrimSpace (URL req)]> (urls w)) /\
  (resp_code resp = StatusConflict -> exists req,
     DecodeJSON (save_body r) = Ok req /\ is_Some (urls w !! Alias req) /\ urls w' = urls w).
Proof.
  intros Hwf HS.
  destruct (Handler_Save_cases _ _ _ _ HS)
    as [(-> & Hc & _)|(req & res & Hd & Hv & Hsvc & Hres)].
  { split_and!; [done|done|rewrite Hc; discriminate|rewrite Hc; discriminate]. }
  assert (Hta : TrimSpace (Alias req) = Alias req).
  { destruct Hv as (_ & _ & _ & [-> | [_ Ha]]); [done|by apply alias_trimmed]. }
  apply ServiceURLs_Save in Hsvc as [o [HSv Ho]].
  destruct (Save_outcome _ _ _ _ _ _ _ _ Hwf HSv) as (Hwf' & Hsub & Hout).
  split_and!; [done|done|..]; intros Hcode.
  - destruct o as [[a|e]|]; simpl in Ho; subst res; simpl in Hres.
    + destruct Hout as (Hfree & Hins & Hal). exists req, a.
      split_and!; [done..| |done|done]. rewrite Hta in Hal. auto.
    + rewrite Hres in Hcode. by apply save_error_code_not_ok in Hcode.
    + rewrite Hres in Hcode. by apply save_error_code_not_ok in Hcode.
  - exists req. destruct o as [[a|e]|]; simpl in Ho; subst res; simpl in Hres.
    + by subst resp.
    + rewrite Hres in Hcode. apply save_error_code_conflict in Hcode.
      rewrite Hta in Hout. by destruct (proj1 Hout Hcode).
    + by rewrite Hres in Hcode.
Qed.
End RoundTrip.

Section Lookups.
Context {W} `{StorageSpec W, AliasGenerator W, Runtime W}.
Context `{!GeneratorSpec W} `{!RuntimePreserves same_store}.
Context `{EngineSpec, BodyDecoder SaveRequest}.
Variable s : Service.
#[local] Existing Instance urls_service.

(** A stored link can be followed until it is deleted: [GET] redirects to its
    URL, or fails with 500, but never answers 404 or another URL; after a
    [DELETE] that answers 204, [GET] answers 404 or 500. *)
Theorem GET_after r r' (w w1 w2 : W) u resp resp' w' :
  store_wf w -> urls w !! TrimSpace (URLParam r "alias") = Some u ->
  TrimSpace (URLParam r "alias") <> "" ->
  (Handler_Get (H := urls_service s) r w = (resp, w') ->
     urls w' = urls w /\
     (resp = RespRedirect StatusFound u \/ resp_code resp = StatusInternalServerError)) /\
  (TrimSpace (URLParam r' "alias") = TrimSpace (URLParam r "alias") ->
   Handler_Delete (H := urls_service s) r w = (RespEmpty StatusNoContent, w1) ->
   Handler_Get (H := urls_service s) r' w1 = (resp', w2) ->
     resp_code resp' = StatusNotFound \/ resp_code resp' = StatusInternalServerError).
Proof.
  intros Hwf Hu Hne. split.
  - intros HG. destruct (Handler_Get_cases _ _ _ _ HG) as [(Ha & _)|(res & Hsvc & Hres)];
      [by rewrite Ha in Hne|].
    destruct (Get_effect _ _ _ _ _ _ Hwf Hsvc Hne) as (_ & Hu' & Hr). split; [done|].
    destruct res as [v|e]; simpl in Hr.
    + left. by simplify_eq.
    + right. subst resp. unfold lookup_error_code.
      destruct (errors_Is e _); [|done]. by rewrite Hr in Hu.
  - intros Ha' HD HG.
    destruct (Handler_Delete_cases _ _ _ _ HD) as [(_ & _ & Hres)|(err & Hsvc & Hres)]; [done|].
    destruct (Delete_effect _ _ _ _ _ _ Hwf Hsvc Hne) as (Hwf1 & Hd).
    destruct err as [e|]; [simpl in Hres; symmetry in Hres; by apply lookup_error_code_not_204 in Hres|].
    destruct Hd as [_ Hu1].
    destruct (Handler_Get_cases _ _ _ _ HG) as [(Ha & _)|(res & Hsvc' & Hres')];
      [by rewrite Ha in Ha'; rewrite <- Ha' in Hne|].
    rewrite <- Ha' in Hne.
    destruct (Get_effect _ _ _ _ _ _ Hwf1 Hsvc' Hne) as (_ & _ & Hr).
    destruct res as [v|e]; simpl in Hr.
    + rewrite Hu1, Ha', lookup_delete_eq in Hr. done.
    + subst resp'. unfold lookup_error_code. destruct (errors_Is e _); auto.
Qed.

(** An alias of white space only is a client's mistake that the service knows
    as [ErrEmptyAlias]; no handler maps that error, so the answer is 500. *)
Theorem blank_alias_is_500 r (w : W) :
  URLParam r "alias" <> "" -> TrimSpace (URLParam r "alias") = "" ->
  Handler_Get (H := urls_service s) r w =
    (Respond StatusInternalServerError (Error_response "internal error"), w) /\
  Handler_Delete (H := urls_service s) r w =
    (Respond StatusInternalServerError (Error_response "internal error"), w).
Proof.
  intros Hne Hblank. unfold Handler_Get, Handler_Delete.
  rewrite !bool_decide_eq_false_2 by done.
  cbn [svc_Get svc_Delete ServiceURLs urls_service]. unfold Service.Get, Service.Delete.
  by rewrite Hblank.
Qed.
End Lookups.

(** ** Evaluation *)

(** Entropy as a list of bytes, the store as a map, aliases of six characters,
    and a body that is the alias, a newline, and the URL. *)
Module Demo.
Definition world : Type := list Ascii.ascii * gmap string string.

#[global] Instance storage : Storage world := lift_storage _.
#[global] Instance spec : StorageSpec world := lift_spec _.
#[global] Instance runtime : Runtime world := lift_runtime _.
#[global] Instance generator : AliasGenerator world := fun '(bytes, m) =>
  match Random.Generate 100 (Random.New 6) bytes with
  | (Done (Ok a), bytes') => (Ok a, (bytes', m))
  | (_, bytes') => (Err (Sentinel (SLib IoUnexpectedEOF)), (bytes', m))
  end.

#[global] Instance random_aliases : RandomAliases world 6.
Proof.
  intros [bytes m] a w'. unfold Generate, generator.
  destruct (Random.Generate 100 (Random.New 6) bytes) as [[[a'|e]| |] bytes'] eqn:E; try done.
  intros [= <- <-]. by exists (list Ascii.ascii), _, 100%nat, bytes, bytes'.
Qed.

#[global] Instance generator_spec : GeneratorSpec world.
Proof.
  split.
  - intros [bytes m]. unfold Generate, generator. by repeat case_match.
  - intros w a w' E. apply alias_trimmed.
    by destruct (random_alias_MatchString (n := 6) world w a w').
  - intros [bytes m] e w' d. unfold Generate, generator.
    repeat case_match; intros [= <- <-]; done.
Qed.

#[global] Instance runtime_preserves : RuntimePreserves (W := world) same_store.
Proof. split; [intros [l m]|intros s [l m]]; by split. Qed.
#[global] Instance runtime_safe : RuntimePreserves (W := world) (keeps_safe link_ok).
Proof. split; [intros [l m]|intros s [l m]]; done. Qed.
#[global] Instance generator_safe : Preserves (W := world) (keeps_safe link_ok) Generate.
Proof. intros [bytes m] Hs. unfold Generate, generator in *. by repeat case_match. Qed.

Fixpoint split_line (acc : string) (s : string) : option (string * string) :=
  match s with
  | EmptyString => None
  | String c s' => if bool_decide (code c = 10) then Some (acc, s')
                   else split_line (acc +:+ String c EmptyString) s'
  end.
#[global] Instance decoder : BodyDecoder SaveRequest := fun b =>
  match split_line "" (rd_bytes b) with
  | Some (alias, url) => Ok {| URL := url; Alias := alias |}
  | None => Err (Sentinel (SLib IoEOF))
  end.

Definition service : Service := {| cfg := {| MaxRetries := 5 |} |}.
#[global] Instance service_urls : URLService world := urls_service service.

Definition newline : string := String (Ascii.ascii_of_nat 10) EmptyString.
Definition request_of (body alias : string) : request :=
  {| Method := ""; URL_Path := ""; RemoteAddr := ""; Header := ∅;
     Body := {| rd_bytes := body; rd_err := None |};
     URLParams := {["alias" := alias]}; Context_of := Background |}.
Definition w0 : world := (Ascii.ascii_of_nat <$> [0; 1; 2; 3; 4; 5]%nat, ∅).
Definition w1 : world := ([], {["ABCDEF" := "https://example.com"]}).
Definition post : request := request_of (newline +:+ "https://example.com") "".
Definition get : request := request_of "" "ABCDEF".
End Demo.

Lemma redirects_safe_witness :
  let '(resp, _) := Handler_Get Demo.get Demo.w1 in
  resp = RespRedirect StatusFound "https://example.com" /\
  web_url "https://example.com" = true.
Proof.
  destruct (Handler_Get Demo.get Demo.w1) as [resp w'] eqn:E.
  assert (resp = RespRedirect StatusFound "https://example.com") as ->
    by (vm_compute in E; injection E as <- _; reflexivity).
  split; [reflexivity|].
  destruct (redirects_safe 6 Demo.service Demo.w0 Demo.w1 Demo.get StatusFound
    "https://example.com" w') as (_ & Hw & _); [lia| | |exact E|exact Hw].
  - split; [exact I|]. change (map_Forall link_ok (∅ : gmap string string)). apply map_Forall_empty.
  - eapply rtc_l; [|apply rtc_refl]. apply (step_Save Demo.post _ (Handler_Save Demo.post Demo.w0).1).
    vm_compute. reflexivity.
Defined.

Lemma POST_url_statuses_witness :
  let '(resp, w') := Handler_Save Demo.post Demo.w0 in
  resp_code resp = 200 /\ urls Demo.w0 ⊆ urls w'.
Proof.
  destruct (Handler_Save Demo.post Demo.w0) as [resp w'] eqn:E.
  destruct (POST_url_statuses Demo.service Demo.post Demo.w0 resp w') as (_ & Hsub & _);
    [exact I|exact E|].
  split; [|exact Hsub]. vm_compute in E. injection E as <- _. reflexivity.
Defined.

Lemma GET_after_witness :
  let '(resp, w') := Handler_Get Demo.get Demo.w1 in
  urls w' = urls Demo.w1.
Proof.
  destruct (Handler_Get Demo.get Demo.w1) as [resp w'] eqn:E.
  destruct (GET_after Demo.service Demo.get Demo.get Demo.w1 Demo.w1 Demo.w1 "https://example.com"
    resp resp w') as [HG _]; [exact I|vm_compute; reflexivity|vm_compute; congruence|].
  destruct (HG E) as [Hu _]. exact Hu.
Defined.

Lemma blank_alias_is_500_witness :
  resp_code (Handler_Get (Demo.request_of "" "  ") Demo.w1).1 = 500.
Proof.
  destruct (blank_alias_is_500 Demo.service (Demo.request_of "" "  ") Demo.w1) as [HG _];
    [vm_compute; congruence|vm_compute; reflexivity|].
  unfold Demo.service_urls. rewrite HG. reflexivity.
Defined.
