(* ===== verification/Sso.v ===== *)
(** * internal/ssoclient and the auth handlers (handlers/handlers.go)

    The client of the SSO service and the handlers that proxy to it.  The
    generated gRPC stub ([AuthAPI]), the connection ([GrpcConn]) and
    [status.FromError] are libraries and appear as parameters, as do the body
    decoders; of [mail.ParseAddress] only whether it accepts an address
    matters. *)

From S2P Require Import Prelude GoErrors GoStrings GoFloat Authn Runtime Http Response.
From S2P Require Import Storage Handlers.

(** ** Libraries *)

(** [authv1.AuthClient]; a token pair is (access, refresh) *)
Class AuthAPI (W : Type) := {
  api_Register : context -> string -> string -> M W (result Z);
  api_Authenticate : context -> string -> string -> Z -> M W (result (string * string));
  api_RefreshTokens : context -> string -> Z -> M W (result (string * string));
  api_Logout : context -> string -> M W (option error);
}.

(** [connectivity.State]; the program only compares with [Ready]. *)
Inductive conn_state : Set := Ready | NotReady (n : nat).

(** [credentials.TransportCredentials]: those of package [insecure], or some the
    caller has made, which the program only passes on. *)
Inductive credentials : Set := Insecure | Transport (n : nat).

(** [keepalive.ClientParameters] *)
Record ClientParameters := { Time : Z; Timeout : Z; PermitWithoutStream : bool }.

(** [grpc.WithTransportCredentials] and [grpc.WithKeepaliveParams] *)
Record DialOptions := { dial_creds : credentials; dial_keepalive : ClientParameters }.

Class GrpcConn (W : Type) := {
  conn_NewClient : string -> DialOptions -> M W (result unit);
  conn_Connect : M W unit;
  conn_GetState : M W conn_state;
  (** true when the state changed, false when the context was done *)
  conn_WaitForStateChange : context -> conn_state -> M W bool;
  conn_Close : M W (option error);
}.

(** [status.FromError]: the code and the message, when there is a status *)
Class GrpcStatusLib := status_FromError : error -> option (Z * string).

Definition codes_InvalidArgument : Z := 3.
Definition codes_AlreadyExists : Z := 6.
Definition codes_Unauthenticated : Z := 16.

(** ** The client *)

Definition defaultDialTimeout : Z := 5 * Second.
Definition defaultRPCTimeout : Z := 5 * Second.

(** [type Options struct] *)
Record Options := {
  Addr : string;
  ApplicationID : Z;
  DialTimeout : Z;
  TLS : option credentials;
}.

(** The options [New] dials with. *)
Definition dial_options (opts : Options) : DialOptions :=
  {| dial_creds := default Insecure (TLS opts);
     dial_keepalive := {| Time := 10 * Second; Timeout := 3 * Second; PermitWithoutStream := true |} |}.

(** [Options.Validate] *)
Definition Validate (o : Options) : option error :=
  if bool_decide (Addr o = "") then Some (Sentinel (SSso ErrMissingAddress))
  else if ApplicationID o =? 0 then Some (Sentinel (SSso Sso_ErrMissingApplicationID))
  else None.

(** [mapErr] on a non-nil error *)
Definition mapErr `{GrpcStatusLib} (err : error) : error :=
  match status_FromError err with
  | None => err
  | Some (code, msg) =>
      if code =? codes_InvalidArgument
      then Errorf "" (Sentinel (SSso ErrInvalidCredentials)) (": " +:+ msg)
      else if code =? codes_AlreadyExists
      then Errorf "" (Sentinel (SSso ErrUserExists)) (": " +:+ msg)
      else if code =? codes_Unauthenticated
      then Errorf "" (Sentinel (SSso ErrRefreshInvalid)) (": " +:+ msg)
      else Errorf "sso rpc: " err ""
  end.

(** [type Client struct]; the connection is the world's *)
Record Client := { appID : Z }.

Section Dial.
Context {W} `{GrpcConn W, Runtime W}.

(** [waitUntilReady]; [None] when out of fuel, [Some None] for nil *)
Fixpoint waitUntilReady (fuel : nat) (ctx : context) : M W (option (option error)) :=
  match fuel with
  | O => mret None
  | S fuel' =>
      state ← conn_GetState;
      match state with
      | Ready => mret (Some None)
      | _ =>
          changed ← conn_WaitForStateChange ctx state;
          if negb changed then err ← ctx_Err ctx; mret (Some err)
          else waitUntilReady fuel' ctx
      end
  end.

(** [ssoclient.New]; [None] when out of fuel *)
Definition New (fuel : nat) (ctx : context) (opts : Options) : M W (option (result Client)) :=
  match Validate opts with
  | Some err => mret (Some (Err err))
  | None =>
      conn ← conn_NewClient (Addr opts) (dial_options opts);
      match conn with
      | Err err => mret (Some (Err (Errorf "ssoclient: create client: " err "")))
      | Ok _ =>
          let timeout := if DialTimeout opts <=? 0 then defaultDialTimeout
                         else DialTimeout opts in
          connectCtx ← WithTimeout ctx timeout;
          _ ← conn_Connect;
          ready ← waitUntilReady fuel connectCtx;
          match ready with
          | None => mret None
          | Some (Some err) =>
              _ ← conn_Close;
              mret (Some (Err (Errorf ("ssoclient: connect to " +:+ Addr opts +:+ ": ") err "")))
          | Some None => mret (Some (Ok {| appID := ApplicationID opts |}))
          end
      end
  end.

(** [Client.Close] *)
Definition Client_Close : M W (option error) := conn_Close.
End Dial.

Section Calls.
Context {W} `{AuthAPI W, Runtime W, GrpcStatusLib}.

(** [Client.Register] *)
Definition Client_Register (ctx : context) (email password : string) : M W (result Z) :=
  ctx ← WithTimeout ctx defaultRPCTimeout;
  resp ← api_Register ctx email password;
  match resp with Err err => mret (Err (mapErr err)) | Ok userID => mret (Ok userID) end.

(** [Client.Login] *)
Definition Client_Login (c : Client) (ctx : context) (email password : string) :
    M W (result (string * string)) :=
  ctx ← WithTimeout ctx defaultRPCTimeout;
  resp ← api_Authenticate ctx email password (appID c);
  match resp with Err err => mret (Err (mapErr err)) | Ok tokens => mret (Ok tokens) end.

(** [Client.RefreshTokens] *)
Definition Client_RefreshTokens (c : Client) (ctx : context) (refreshToken : string) :
    M W (result (string * string)) :=
  ctx ← WithTimeout ctx defaultRPCTimeout;
  resp ← api_RefreshTokens ctx refreshToken (appID c);
  match resp with Err err => mret (Err (mapErr err)) | Ok tokens => mret (Ok tokens) end.

(** [Client.Logout] *)
Definition Client_Logout (ctx : context) (refreshToken : string) : M W (option error) :=
  ctx ← WithTimeout ctx defaultRPCTimeout;
  err ← api_Logout ctx refreshToken;
  mret (mapErr <$> err).
End Calls.

(** ** The handlers *)

(** [type AuthService interface] *)
Class AuthService (W : Type) := {
  sso_Register : context -> string -> string -> M W (result Z);
  sso_Login : context -> string -> string -> M W (result (string * string));
  sso_RefreshTokens : context -> string -> M W (result (string * string));
  sso_Logout : context -> string -> M W (option error);
}.

#[export] Instance Client_AuthService {W} `{AuthAPI W, Runtime W, GrpcStatusLib} (c : Client) :
  AuthService W :=
  {| sso_Register := Client_Register; sso_Login := Client_Login c;
     sso_RefreshTokens := Client_RefreshTokens c; sso_Logout := Client_Logout |}.

Record registerRequest := { reg_Email : string; reg_Password : string }.
Record loginRequest := { login_Email : string; login_Password : string }.
Record refreshRequest := { RefreshToken : string }.

Definition maxAuthRequestBytes : Z := Z.shiftl 1 20.
Definition minPasswordLength : Z := 8.

(** [type tokenResponse struct], as JSON fields *)
Definition tokenResponse_fields (r : Response) (access refresh : string) : list (string * json) :=
  Response_fields r ++ [("access_token", JString access); ("refresh_token", JString refresh)].

(** Whether [mail.ParseAddress] accepts the address *)
Class MailLib := ParseAddress_ok : string -> bool.

(** [validateEmail] *)
Definition validateEmail `{MailLib} (email : string) : option error :=
  if bool_decide (email = "") then Some (ErrorString "email is required")
  else if negb (ParseAddress_ok email) then Some (ErrorString "email must be a valid address")
  else None.

Section AuthHandlers.
Context {W} `{AuthService W, MailLib}.
Context `{BodyDecoder registerRequest, BodyDecoder loginRequest, BodyDecoder refreshRequest}.

Definition auth_body (r : request) : body_reader := MaxBytesReader (Body r) maxAuthRequestBytes.

(** [AuthHandler.Register] *)
Definition Register : Handler W := fun r =>
  let r := WithBody r (auth_body r) in
  match DecodeJSON (Body r) with
  | Err _ => mret (Respond StatusBadRequest (Error_response "failed to decode request"))
  | Ok req =>
      match validateEmail (reg_Email req) with
      | Some err => mret (Respond StatusBadRequest (Error_response (error_text err)))
      | None =>
          if Z.of_nat (String.length (reg_Password req)) <? minPasswordLength then
            mret (Respond StatusBadRequest (Error_response
              ("password must be at least " +:+ pretty minPasswordLength +:+ " characters")))
          else
            res ← sso_Register (Context_of r) (reg_Email req) (reg_Password req);
            match res with
            | Err err =>
                if errors_Is err (SSso ErrUserExists)
                then mret (Respond StatusConflict (Error_response "user already exists"))
                else mret (Respond StatusInternalServerError (Error_response "failed to register"))
            | Ok _ => mret (Respond StatusCreated Ok_response)
            end
      end
  end.

(** [AuthHandler.Login] *)
Definition Login : Handler W := fun r =>
  let r := WithBody r (auth_body r) in
  match DecodeJSON (Body r) with
  | Err _ => mret (Respond StatusBadRequest (Error_response "failed to decode request"))
  | Ok req =>
      match validateEmail (login_Email req) with
      | Some err => mret (Respond StatusBadRequest (Error_response (error_text err)))
      | None =>
          if bool_decide (login_Password req = "") then
            mret (Respond StatusBadRequest (Error_response "password is required"))
          else
            res ← sso_Login (Context_of r) (login_Email req) (login_Password req);
            match res with
            | Err err =>
                if errors_Is err (SSso ErrInvalidCredentials)
                then mret (Respond StatusUnauthorized (Error_response "invalid email or password"))
                else mret (Respond StatusInternalServerError (Error_response "failed to login"))
            | Ok (access, refresh) =>
                mret (RespJSON StatusOK (JObject (tokenResponse_fields Ok_response access refresh)))
            end
      end
  end.

(** The token of a refresh or logout request: [err != nil || req.RefreshToken == ""] *)
Definition refresh_token (r : request) : option string :=
  match DecodeJSON (Body r) with
  | Err _ => None
  | Ok req => if bool_decide (RefreshToken req = "") then None else Some (RefreshToken req)
  end.

(** [AuthHandler.Refresh] *)
Definition Refresh : Handler W := fun r =>
  let r := WithBody r (auth_body r) in
  match refresh_token r with
  | None => mret (Respond StatusBadRequest (Error_response "refresh_token is required"))
  | Some token =>
      res ← sso_RefreshTokens (Context_of r) token;
      match res with
      | Err err =>
          if errors_Is err (SSso ErrRefreshInvalid)
          then mret (Respond StatusUnauthorized (Error_response "refresh token invalid or expired"))
          else mret (Respond StatusInternalServerError (Error_response "failed to refresh"))
      | Ok (access, refresh) =>
          mret (RespJSON StatusOK (JObject (tokenResponse_fields Ok_response access refresh)))
      end
  end.

(** [AuthHandler.Logout] *)
Definition Logout : Handler W := fun r =>
  let r := WithBody r (auth_body r) in
  match refresh_token r with
  | None => mret (Respond StatusBadRequest (Error_response "refresh_token is required"))
  | Some token =>
      err ← sso_Logout (Context_of r) token;
      match err with
      | Some _ => mret (Respond StatusInternalServerError (Error_response "failed to logout"))
      | None => mret (RespEmpty StatusNoContent)
      end
  end.
End AuthHandlers.

(** ** Lemmas *)

(** The sentinel [mapErr] attributes to a gRPC code. *)
Definition code_sentinel (code : Z) : option sso_error :=
  if code =? codes_InvalidArgument then Some ErrInvalidCredentials
  else if code =? codes_AlreadyExists then Some ErrUserExists
  else if code =? codes_Unauthenticated then Some ErrRefreshInvalid
  else None.

(** An error of the stub carries none of the client's sentinels. *)
Definition raw_error (err : error) : Prop := forall e, errors_Is err (SSso e) = false.

Lemma mapErr_Is `{GrpcStatusLib} err e : raw_error err ->
  errors_Is (mapErr err) (SSso e) =
    match status_FromError err with
    | Some (code, _) => bool_decide (code_sentinel code = Some e)
    | None => false
    end.
Proof.
  intros Hraw. unfold mapErr, code_sentinel.
  destruct (status_FromError err) as [[code msg]|]; [|apply Hraw].
  repeat case_match; cbn [errors_Is]; try apply bool_decide_ext; try naive_solver.
Qed.

Lemma code_status (code : Z) e k known other a b :
  code_sentinel k = Some e -> (forall k', code_sentinel k' = Some e -> k' = k) ->
  resp_code known = a -> resp_code other = b ->
  forall W (w : W),
  resp_code ((if bool_decide (code_sentinel code = Some e)
              then fun w => (known, w) else fun w : W => (other, w)) w).1 =
    (if decide (Some code = Some k) then a else b).
Proof.
  intros Hk Huniq Ha Hb W w. case_bool_decide as Hc.
  - rewrite decide_True by (f_equal; by apply Huniq). done.
  - rewrite decide_False by congruence. done.
Qed.

Lemma code_sentinel_inj k k' e : code_sentinel k = Some e -> code_sentinel k' = Some e -> k' = k.
Proof.
  unfold code_sentinel.
  repeat match goal with |- context [ ?x =? ?y ] => destruct (Z.eqb_spec x y) end; congruence.
Qed.

(** [WaitForStateChange] gives up only when the context is done. *)
Class GrpcConnSpec (W : Type) `{GrpcConn W, Runtime W} : Prop :=
  wait_done ctx st (w w' : W) : conn_WaitForStateChange ctx st w = (false, w') ->
    (ctx_Err ctx w').1 <> None.

Lemma waitUntilReady_ready {W} `{GrpcConnSpec W} fuel ctx (w w' : W) :
  waitUntilReady fuel ctx w = (Some None, w') -> exists w0, conn_GetState w0 = (Ready, w').
Proof.
  revert w. induction fuel as [|fuel IH]; intros w; cbn [waitUntilReady]; [done|].
  unfold mbind, M_bind. destruct (conn_GetState w) as [st w1] eqn:Eg.
  destruct st as [|k]; [intros [= <-]; by exists w|].
  destruct (conn_WaitForStateChange ctx _ w1) as [[|] w2] eqn:Ew; simpl; [apply IH|].
  apply wait_done in Ew. destruct (ctx_Err ctx w2) as [e w3] eqn:Ee. intros [= -> <-]. done.
Qed.

(** ** Properties *)

Section Properties.
Context {W} `{AuthAPI W, Runtime W, GrpcStatusLib, MailLib}.
Context `{BodyDecoder registerRequest, BodyDecoder loginRequest, BodyDecoder refreshRequest}.
Variable c : Client.
#[local] Instance client_service : AuthService W := Client_AuthService c.

Definition grpc_code (err : error) : option Z := fst <$> status_FromError err.

(** C37: What a failure of the SSO service becomes.  Each handler knows one gRPC
    code: [AlreadyExists] is 409 for a registration, [InvalidArgument] is 401
    for a login, [Unauthenticated] is 401 for a refresh; every other failure
    of any of the calls is a 500, the codes the other handlers know included. *)
Theorem auth_failure_statuses r (w wt w' : W) ctx err :
  WithTimeout (Context_of r) defaultRPCTimeout w = (ctx, wt) -> raw_error err ->
  (forall req, DecodeJSON (auth_body r) = Ok req -> validateEmail (reg_Email req) = None ->
     8 <= Z.of_nat (String.length (reg_Password req)) ->
     api_Register ctx (reg_Email req) (reg_Password req) wt = (Err err, w') ->
     resp_code (Register r w).1 = (if decide (grpc_code err = Some 6) then 409 else 500)) /\
  (forall req, DecodeJSON (auth_body r) = Ok req -> validateEmail (login_Email req) = None ->
     login_Password req <> "" ->
     api_Authenticate ctx (login_Email req) (login_Password req) (appID c) wt = (Err err, w') ->
     resp_code (Login r w).1 = (if decide (grpc_code err = Some 3) then 401 else 500)) /\
  (forall req, DecodeJSON (auth_body r) = Ok req -> RefreshToken req <> "" ->
     api_RefreshTokens ctx (RefreshToken req) (appID c) wt = (Err err, w') ->
     resp_code (Refresh r w).1 = (if decide (grpc_code err = Some 16) then 401 else 500)) /\
  (forall req, DecodeJSON (auth_body r) = Ok req -> RefreshToken req <> "" ->
     api_Logout ctx (RefreshToken req) wt = (Some err, w') ->
     resp_code (Logout r w).1 = 500).
Proof.
  intros Ht Hraw. unfold grpc_code. split_and!; intros req Hd.
  - intros Hm Hp Ha. unfold Register. cbn [Body WithBody Context_of].
    rewrite Hd, Hm, (proj2 (Z.ltb_ge _ _)) by exact Hp.
    cbn [sso_Register Client_AuthService client_service]. unfold Client_Register. m_unfold.
    rewrite Ht, Ha, mapErr_Is by done.
    destruct (status_FromError err) as [[code msg]|]; cbn [fmap option_fmap option_map fst];
      [|by case_decide].
    by eapply code_status; [reflexivity|intros k; by apply code_sentinel_inj|..].
  - intros Hm Hp Ha. unfold Login. cbn [Body WithBody Context_of].
    rewrite Hd, Hm, bool_decide_eq_false_2 by done.
    cbn [sso_Login Client_AuthService client_service]. unfold Client_Login. m_unfold.
    rewrite Ht, Ha, mapErr_Is by done.
    destruct (status_FromError err) as [[code msg]|]; cbn [fmap option_fmap option_map fst];
      [|by case_decide].
    by eapply code_status; [reflexivity|intros k; by apply code_sentinel_inj|..].
  - intros Hne Ha. unfold Refresh, refresh_token. cbn [Body WithBody Context_of].
    rewrite Hd, bool_decide_eq_false_2 by done.
    cbn [sso_RefreshTokens Client_AuthService client_service]. unfold Client_RefreshTokens. m_unfold.
    rewrite Ht, Ha, mapErr_Is by done.
    destruct (status_FromError err) as [[code msg]|]; cbn [fmap option_fmap option_map fst];
      [|by case_decide].
    by eapply code_status; [reflexivity|intros k; by apply code_sentinel_inj|..].
  - intros Hne Ha. unfold Logout, refresh_token. cbn [Body WithBody Context_of].
    rewrite Hd, bool_decide_eq_false_2 by done.
    cbn [sso_Logout Client_AuthService client_service]. unfold Client_Logout. m_unfold.
    by rewrite Ht, Ha.
Qed.

(** The SSO service is asked nothing that the handler can reject: a request
    that does not decode, an address that is missing or does not parse, a
    short or missing password, or a missing refresh token is a 400, and the
    world is untouched. *)
Theorem auth_inputs_checked r (w : W) :
  (match DecodeJSON (auth_body r) with
   | Ok req => reg_Email req = "" \/ ParseAddress_ok (reg_Email req) = false \/
               Z.of_nat (String.length (reg_Password req)) < 8
   | Err _ => True
   end -> exists body, Register r w = (RespJSON 400 body, w)) /\
  (match DecodeJSON (auth_body r) with
   | Ok req => login_Email req = "" \/ ParseAddress_ok (login_Email req) = false \/
               login_Password req = ""
   | Err _ => True
   end -> exists body, Login r w = (RespJSON 400 body, w)) /\
  (match DecodeJSON (auth_body r) with
   | Ok req => RefreshToken req = ""
   | Err _ => True
   end -> (exists body, Refresh r w = (RespJSON 400 body, w)) /\
          (exists body, Logout r w = (RespJSON 400 body, w))).
Proof.
  split_and!.
  - unfold Register. cbn [Body WithBody].
    destruct (DecodeJSON (auth_body r)) as [req|e]; [|by eexists].
    intros Hbad. unfold validateEmail. case_bool_decide; [by eexists|].
    destruct (ParseAddress_ok (reg_Email req)); simpl; [|by eexists].
    rewrite (proj2 (Z.ltb_lt _ _)) by (unfold minPasswordLength; naive_solver). by eexists.
  - unfold Login. cbn [Body WithBody].
    destruct (DecodeJSON (auth_body r)) as [req|e]; [|by eexists].
    intros Hbad. unfold validateEmail. case_bool_decide; [by eexists|].
    destruct (ParseAddress_ok (login_Email req)); simpl; [|by eexists].
    rewrite bool_decide_eq_true_2 by naive_solver. by eexists.
  - unfold Refresh, Logout, refresh_token. cbn [Body WithBody].
    destruct (DecodeJSON (auth_body r)) as [req|e]; [|by split; eexists].
    intros Hbad. rewrite bool_decide_eq_true_2 by done. by split; eexists.
Qed.
End Properties.

Section Dial_properties.
Context {W} `{GrpcConnSpec W}.

(** [New] gives a client only for options with an address and an application
    id, over a connection it has seen ready; when it gives up waiting it has
    closed the connection, and with bad options it never opened one. *)
Theorem New_sound fuel ctx opts (w w' : W) r :
  New fuel ctx opts w = (Some r, w') ->
  match r with
  | Ok c => Addr opts <> "" /\ appID c = ApplicationID opts /\ appID c <> 0 /\
            exists w0, conn_GetState w0 = (Ready, w')
  | Err e => (w' = w /\ (e = Sentinel (SSso ErrMissingAddress) \/
                         e = Sentinel (SSso Sso_ErrMissingApplicationID))) \/
             (exists w0 e0, conn_NewClient (Addr opts) (dial_options opts) w = (Err e0, w0) /\ w' = w0) \/
             (exists w0, w' = (conn_Close w0).2)
  end.
Proof.
  unfold New, Validate. case_bool_decide; [intros [= <- <-]; by auto|].
  destruct (Z.eqb_spec (ApplicationID opts) 0); [intros [= <- <-]; by auto|].
  unfold mbind, M_bind. destruct (conn_NewClient _ _ w) as [[[]|e] w1] eqn:En;
    [|intros [= <- <-]; right; left; by eexists _, _].
  destruct (WithTimeout _ _ w1) as [c w2]. destruct (conn_Connect w2) as [u w3].
  destruct (waitUntilReady fuel c w3) as [[[e|]|] w4] eqn:Ew; [..|done].
  - destruct (conn_Close w4) as [u' w5] eqn:Ec. intros [= <- <-]. right; right.
    exists w4. by rewrite Ec.
  - intros [= <- <-]. split_and!; [done..|]. by eapply waitUntilReady_ready.
Qed.

(** The wait ends: when the state can change only so often before the context
    is done ([m] bounds how often), that much fuel gives an answer. *)
Theorem waitUntilReady_terminates (m : W -> nat) ctx fuel (w : W) :
  (forall (w w1 w2 : W) st, st <> Ready -> conn_GetState w = (st, w1) ->
     conn_WaitForStateChange ctx st w1 = (true, w2) -> (m w2 < m w)%nat) ->
  (m w < fuel)%nat ->
  exists r w', waitUntilReady fuel ctx w = (Some r, w').
Proof.
  intros Hm. revert w. induction fuel as [|fuel IH]; intros w Hf; [lia|].
  cbn [waitUntilReady]. unfold mbind, M_bind.
  destruct (conn_GetState w) as [st w1] eqn:Eg. destruct st as [|k]; [by eexists _, _|].
  destruct (conn_WaitForStateChange ctx (NotReady k) w1) as [ch w2] eqn:Ew.
  destruct ch; simpl.
  - apply IH. specialize (Hm w w1 w2 (NotReady k) ltac:(discriminate) Eg Ew). lia.
  - destruct (ctx_Err ctx w2). by eexists _, _.
Qed.
End Dial_properties.

(** ** Evaluation *)

(** An SSO service that answers every call with one gRPC status, and a
    connection that becomes ready after some state changes. *)
Module Demo.
Definition down : error := GrpcStatus 14 "unavailable" "rpc error: unavailable".
Definition denied : error := GrpcStatus 3 "bad password" "rpc error: bad password".

#[global] Instance api : AuthAPI Z :=
  {| api_Register _ _ _ w := (Err denied, w); api_Authenticate _ _ _ _ w := (Err denied, w);
     api_RefreshTokens _ _ _ w := (Err denied, w); api_Logout _ _ w := (Some down, w) |}.
#[global] Instance status_lib : GrpcStatusLib := fun e =>
  match e with GrpcStatus code msg _ => Some (code, msg) | _ => None end.
#[global] Instance mail : MailLib := fun _ => true.
#[global] Instance dec_reg : BodyDecoder registerRequest :=
  fun b => Ok {| reg_Email := rd_bytes b; reg_Password := "password" |}.
#[global] Instance dec_login : BodyDecoder loginRequest :=
  fun b => Ok {| login_Email := rd_bytes b; login_Password := "password" |}.
#[global] Instance dec_refresh : BodyDecoder refreshRequest :=
  fun b => Ok {| RefreshToken := rd_bytes b |}.

Definition client : Client := {| appID := 7 |}.
#[global] Instance service : AuthService Z := client_service client.
Definition request_of (body : string) : request :=
  {| Method := "POST"; URL_Path := ""; RemoteAddr := ""; Header := ∅;
     Body := {| rd_bytes := body; rd_err := None |}; URLParams := ∅; Context_of := Background |}.

(** The world of the connection: the clock, and the changes still to come. *)
#[global] Instance conn_runtime : Runtime (Z * nat) :=
  {| time_Now w := (w.1, w); ctx_canceled _ w := (false, w) |}.
#[global] Instance conn : GrpcConn (Z * nat) :=
  {| conn_NewClient _ _ w := (Ok tt, w); conn_Connect w := (tt, w);
     conn_GetState w := (match w.2 with O => Ready | S k => NotReady k end, w);
     conn_WaitForStateChange _ _ w := (true, (w.1, pred w.2));
     conn_Close w := (None, w) |}.
#[global] Instance conn_spec : GrpcConnSpec (Z * nat).
Proof. intros ctx st w w' E. cbn in E. congruence. Qed.
End Demo.

(** A wrong password is a 401 for a login; the same status is a 500 for a
    registration and for a refresh. *)
Lemma auth_failure_statuses_witness :
  let r := Demo.request_of "a@b" in
  resp_code (Login r 0).1 = 401 /\ resp_code (Register r 0).1 = 500 /\
  resp_code (Refresh r 0).1 = 500 /\ resp_code (Logout r 0).1 = 500.
Proof.
  intros r.
  pose (ctx := (WithTimeout (W := Z) Background defaultRPCTimeout 0).1).
  assert (Ht : WithTimeout (Context_of r) defaultRPCTimeout 0 = (ctx, 0)) by reflexivity.
  assert (Hraw : raw_error Demo.denied) by (intros e; reflexivity).
  assert (Hraw' : raw_error Demo.down) by (intros e; reflexivity).
  destruct (auth_failure_statuses Demo.client r 0 0 0 ctx Demo.denied Ht Hraw)
    as (HR & HL & HF & _).
  destruct (auth_failure_statuses Demo.client r 0 0 0 ctx Demo.down Ht Hraw')
    as (_ & _ & _ & HO).
  split_and!.
  - exact (HL {| login_Email := "a@b"; login_Password := "password" |} eq_refl eq_refl
      ltac:(discriminate) eq_refl).
  - exact (HR {| reg_Email := "a@b"; reg_Password := "password" |} eq_refl eq_refl
      ltac:(vm_compute; congruence) eq_refl).
  - exact (HF {| RefreshToken := "a@b" |} eq_refl ltac:(discriminate) eq_refl).
  - exact (HO {| RefreshToken := "a@b" |} eq_refl ltac:(discriminate) eq_refl).
Defined.

Lemma auth_inputs_checked_witness :
  exists body, Logout (Demo.request_of "") 0 = (RespJSON 400 body, 0).
Proof.
  destruct (auth_inputs_checked Demo.client (Demo.request_of "") 0) as (_ & _ & H).
  destruct (H eq_refl) as [_ HL]. exact HL.
Defined.

Definition demo_options : Options := {| Addr := "sso:44044"; ApplicationID := 7; DialTimeout := 0; TLS := None |}.

Lemma New_sound_witness :
  exists c, New 4 Background demo_options (0, 3%nat) = (Some (Ok c), (0, O)) /\ appID c <> 0.
Proof.
  exists {| appID := 7 |}. split; [vm_compute; reflexivity|].
  destruct (New_sound 4 Background demo_options (0, 3%nat) (0, O) (Ok {| appID := 7 |}))
    as (_ & _ & Hid & _); [vm_compute; reflexivity|exact Hid].
Defined.

Lemma waitUntilReady_terminates_witness :
  exists r w', waitUntilReady 4 Background (0, 3%nat) = (Some r, w').
Proof.
  apply (waitUntilReady_terminates snd); [|simpl; lia].
  intros [t [|k]] w1 w2 st Hst [= <- <-]; [by destruct Hst|]. intros [= <-]. simpl. lia.
Defined.
