(* ===== verification/Router.v ===== *)
(** * internal/transport/http/router.go: the routes

    The table of [NewRouter] and the handler it builds, over a world that holds
    the two rate limiters beside the world of the handlers.  chi is a library:
    [Mux] is its matching of a path against the table, [MuxSpec] the documented
    precedence (a static pattern before a mounted router before a parameter)
    and its answers when nothing matches (405 when only the method is wrong, 404
    otherwise), [RequestID] its middleware of that name.  [URL_Path] is the path
    chi matches; that it takes [URL.RawPath] for it when an encoded path needs
    one is left out.  The Recoverer, which answers for a handler that panics, is
    in Panics. *)

From S2P Require Import Prelude GoErrors GoStrings GoFloat Authn Runtime Http Response.
From S2P Require Import RateLimit Storage Validation Handlers Sso.
From Stdlib Require Import Ascii.

(** ** The table *)

Inductive endpoint : Set :=
| EpRegister | EpLogin | EpRefresh | EpLogout
| EpGet | EpSave | EpDelete | EpHealthz
| EpAuth.  (* the mounted router *)

#[export] Instance endpoint_eq_dec : EqDecision endpoint.
Proof. solve_decision. Defined.

Inductive pattern : Type :=
| Static (path : string)
| Mount (prefix : string)
| AliasParam.  (* "/{alias}" *)

Record route := { rt_method : option string; rt_pattern : pattern; rt_endpoint : endpoint }.

Definition on (m : string) (p : pattern) (e : endpoint) : route :=
  {| rt_method := Some m; rt_pattern := p; rt_endpoint := e |}.

(** The router of [router.Route("/auth", ...)]; paths below the mount point. *)
Definition auth_routes : list route :=
  [on "POST" (Static "/register") EpRegister; on "POST" (Static "/login") EpLogin;
   on "POST" (Static "/refresh") EpRefresh; on "POST" (Static "/logout") EpLogout].

Definition routes : list route :=
  [{| rt_method := None; rt_pattern := Mount "/auth"; rt_endpoint := EpAuth |};
   on "GET" AliasParam EpGet;
   on "POST" (Static "/url") EpSave;
   on "DELETE" AliasParam EpDelete;
   on "GET" (Static "/healthz") EpHealthz].

(** ** Matching *)

Definition slash : ascii := "/"%char.

(** The alias of a path that "/{alias}" matches. *)
Definition alias_of (path : string) : option string :=
  match path with
  | String c rest =>
      if bool_decide (c = slash) && bool_decide (rest <> "") &&
         bool_decide (slash ∉ bytes_of rest)
      then Some rest else None
  | EmptyString => None
  end.

Definition method_ok (rt : route) (m : string) : bool :=
  match rt_method rt with None => true | Some m' => bool_decide (m = m') end.

Definition is_static (rt : route) (m path : string) : bool :=
  match rt_pattern rt with
  | Static p => method_ok rt m && bool_decide (path = p)
  | _ => false
  end.
Definition is_mount (rt : route) (m path : string) : bool :=
  match rt_pattern rt with
  | Mount p => method_ok rt m && (bool_decide (path = p) || HasPrefix path (p +:+ "/"))
  | _ => false
  end.
Definition is_param (rt : route) (m path : string) : bool :=
  match rt_pattern rt with
  | AliasParam => method_ok rt m && bool_decide (is_Some (alias_of path))
  | _ => false
  end.

(** The methods chi routes; any other is answered with 405. *)
Definition known_methods : list string :=
  ["CONNECT"; "DELETE"; "GET"; "HEAD"; "OPTIONS"; "PATCH"; "POST"; "PUT"; "TRACE"].
Definition known_method (m : string) : bool := bool_decide (m ∈ known_methods).

(** Whether a route is for the path, whatever the method. *)
Definition path_ok (rt : route) (path : string) : bool :=
  match rt_pattern rt with
  | Static p => bool_decide (path = p)
  | Mount p => bool_decide (path = p) || HasPrefix path (p +:+ "/")
  | AliasParam => bool_decide (is_Some (alias_of path))
  end.

(** chi's choice among the routes for a method and a path, and its answer
    when there is none. *)
Class Mux := {
  find_route : list route -> string -> string -> option route;
  no_route : list route -> string -> string -> response;
}.

Definition reference_find (rts : list route) (m path : string) : option route :=
  if negb (known_method m) then None else
  match filter (fun rt => is_static rt m path = true) rts with
  | rt :: _ => Some rt
  | [] =>
      match filter (fun rt => is_mount rt m path = true) rts with
      | rt :: _ => Some rt
      | [] => head (filter (fun rt => is_param rt m path = true) rts)
      end
  end.

(** [http.NotFound] and the answer 405 *)
Definition not_found_body : string := "404 page not found" +:+ String (ascii_of_nat 10) "".
Definition not_found_answer : response := RespText StatusNotFound not_found_body.
Definition not_allowed_answer : response := RespEmpty StatusMethodNotAllowed.

Definition reference_no_route (rts : list route) (m path : string) : response :=
  if negb (known_method m) || existsb (fun rt => path_ok rt path) rts
  then not_allowed_answer else not_found_answer.

Class MuxSpec `{Mux} : Prop := {
  mux_spec rts m path : find_route rts m path = reference_find rts m path;
  mux_no_route rts m path : find_route rts m path = None ->
    no_route rts m path = reference_no_route rts m path;
}.

(** chi's [middleware.RequestID] *)
Class RequestIDs := RequestID : request -> request.

Definition WithAlias (r : request) (alias : string) : request :=
  {| Method := Method r; URL_Path := URL_Path r; RemoteAddr := RemoteAddr r;
     Header := Header r; Body := Body r; URLParams := {["alias" := alias]};
     Context_of := Context_of r |}.

(** The path below the mount point; the mount point itself is "/". *)
Definition sub_path (path prefix : string) : string :=
  let rest := TrimPrefix path prefix in if bool_decide (rest = "") then "/" else rest.

(** ** The router *)

Section Router.
Context {W} `{URLService W, AuthService W, Pinger W, Runtime W}.
Context `{JWT, ValidatorEngine, MailLib, Mux, RequestIDs}.
Context `{BodyDecoder SaveRequest, BodyDecoder registerRequest, BodyDecoder loginRequest,
          BodyDecoder refreshRequest}.
Context (uint64_oob : float64 -> Z) (verifier : Verifier).

(** The auth limiter, the write limiter, and the handlers' world. *)
Definition sys : Type := Limiter * (Limiter * W).

#[local] Instance runtime_lift (C V : Type) `{Runtime V} : Runtime (C * V) :=
  lift_runtime C.

(** The handlers of the mounted router. *)
Definition serve_auth_route : Handler sys := fun r =>
  match find_route auth_routes (Method r) (sub_path (URL_Path r) "/auth") with
  | Some rt =>
      match rt_endpoint rt with
      | EpRegister => lift_snd (lift_snd (Register r))
      | EpLogin => lift_snd (lift_snd (Login r))
      | EpRefresh => lift_snd (lift_snd (Refresh r))
      | EpLogout => lift_snd (lift_snd (Logout r))
      | _ => mret (no_route auth_routes (Method r) (sub_path (URL_Path r) "/auth"))
      end
  | None => mret (no_route auth_routes (Method r) (sub_path (URL_Path r) "/auth"))
  end.

(** ... behind the auth limiter. *)
Definition serve_auth : Handler sys := Limiter_Middleware serve_auth_route.

(** [r.Use(RequireAuth); r.Use(writeLimiter.Middleware)] around a handler *)
Definition serve_write (h : Handler W) : Handler sys := fun r =>
  lift_snd (RequireAuth uint64_oob verifier (Limiter_Middleware (fun r => lift_snd (h r))) r).

Definition serve_route : Handler sys := fun r =>
  let r := match alias_of (URL_Path r) with Some a => WithAlias r a | None => r end in
  match find_route routes (Method r) (URL_Path r) with
  | Some rt =>
      match rt_endpoint rt with
      | EpAuth => serve_auth r
      | EpGet => lift_snd (lift_snd (Handler_Get r))
      | EpSave => serve_write Handler_Save r
      | EpDelete => serve_write Handler_Delete r
      | EpHealthz => lift_snd (lift_snd (ReadinessProbe r))
      | _ => mret (no_route routes (Method r) (URL_Path r))
      end
  | None => mret (no_route routes (Method r) (URL_Path r))
  end.

(** The handler [NewRouter] returns, with the level of its access log line. *)
Definition NewRouter (r : request) : M sys (response * option level) :=
  access_log serve_route (propagated (RequestID r)).

(** The limiters [NewRouter] starts with. *)
Definition start_limiters (w : W) : sys :=
  (RateLimit.New authEndpointRate authEndpointBurst limiterEntryTTL,
   (RateLimit.New writeEndpointRate writeEndpointBurst limiterEntryTTL, w)).
End Router.

(** ** Lemmas *)

Lemma decide_bool (b : bool) {A} (x y : A) : (if decide (b = true) then x else y) = if b then x else y.
Proof. by destruct b; case_decide. Qed.

Section Table.
Context `{MuxSpec}.

(** The endpoint the table gives, in the order of precedence. *)
Definition table_endpoint (m path : string) : option endpoint :=
  if bool_decide (m = "POST") && bool_decide (path = "/url") then Some EpSave
  else if bool_decide (m = "GET") && bool_decide (path = "/healthz") then Some EpHealthz
  else if negb (known_method m) then None
  else if bool_decide (path = "/auth") || HasPrefix path "/auth/" then Some EpAuth
  else match alias_of path with
       | None => None
       | Some _ => if bool_decide (m = "GET") then Some EpGet
                   else if bool_decide (m = "DELETE") then Some EpDelete else None
       end.

Lemma find_routes m path : rt_endpoint <$> find_route routes m path = table_endpoint m path.
Proof.
  rewrite mux_spec. unfold reference_find, routes. destruct (known_method m) eqn:Ek; cbn [negb].
  2:{ unfold table_endpoint. rewrite Ek.
      destruct (decide (m = "POST")) as [->|]; [done|].
      destruct (decide (m = "GET")) as [->|]; [done|]. by rewrite (bool_decide_eq_false_2 (m = "POST")), (bool_decide_eq_false_2 (m = "GET")). }
  rewrite !filter_cons, !filter_nil.
  unfold is_static, is_mount, is_param, method_ok. cbn [rt_pattern rt_method rt_endpoint on].
  change ("/auth" +:+ "/") with "/auth/". rewrite !decide_bool. unfold table_endpoint. rewrite Ek.
  destruct (bool_decide (m = "POST")) eqn:Ep; destruct (bool_decide (m = "GET")) eqn:Eg;
    destruct (bool_decide (m = "DELETE")) eqn:Ed;
    rewrite ?bool_decide_eq_true in *; try congruence;
    destruct (bool_decide (path = "/url")); destruct (bool_decide (path = "/healthz"));
    destruct (bool_decide (path = "/auth") || HasPrefix path "/auth/");
    destruct (alias_of path); reflexivity.
Qed.
End Table.

Lemma alias_no_slash a : alias_MatchString a = true -> slash ∉ bytes_of a.
Proof.
  unfold alias_MatchString. rewrite andb_true_iff, forallb_forall. intros [_ Hf] Hin.
  apply list_elem_of_In, Hf in Hin. by vm_compute in Hin.
Qed.

(** The path of an alias. *)
Lemma alias_of_path a : alias_MatchString a = true -> alias_of ("/" +:+ a) = Some a.
Proof.
  intros Ha. destruct (alias_trimmed a Ha) as [Hne _]. change ("/" +:+ a) with (String slash a).
  unfold alias_of.
  rewrite !bool_decide_eq_true_2 by first [done|by apply alias_no_slash]. done.
Qed.

Lemma alias_not_below_auth a : alias_MatchString a = true -> HasPrefix ("/" +:+ a) "/auth/" = false.
Proof.
  intros Ha. destruct (HasPrefix _ _) eqn:E; [|done]. apply HasPrefix_bytes in E as [t Ht].
  exfalso. apply (alias_no_slash a Ha). change ("/" +:+ a) with (String slash a) in Ht. simpl in Ht.
  injection Ht as Ht. rewrite Ht. set_solver.
Qed.

Lemma path_inj a b : "/" +:+ a = String slash b -> a = b.
Proof. intros H. change (String slash a = String slash b) in H. congruence. Qed.

Lemma table_GET_alias a : alias_MatchString a = true -> a <> "healthz" -> a <> "auth" ->
  table_endpoint "GET" ("/" +:+ a) = Some EpGet.
Proof.
  intros Ha Hh Hau. unfold table_endpoint. rewrite alias_not_below_auth, alias_of_path by done.
  rewrite (bool_decide_eq_false_2 ("GET" = "POST")) by done.
  rewrite (bool_decide_eq_false_2 ("/" +:+ a = "/healthz")) by (by intros E%(path_inj a)).
  rewrite (bool_decide_eq_false_2 ("/" +:+ a = "/auth")) by (by intros E%(path_inj a)).
  rewrite andb_false_r. done.
Qed.

Lemma table_DELETE_alias a : alias_MatchString a = true -> a <> "auth" ->
  table_endpoint "DELETE" ("/" +:+ a) = Some EpDelete.
Proof.
  intros Ha Hau. unfold table_endpoint. rewrite alias_not_below_auth, alias_of_path by done.
  rewrite (bool_decide_eq_false_2 ("/" +:+ a = "/auth")) by (by intros E%(path_inj a)).
  done.
Qed.

Lemma table_endpoint_inv m path ep : table_endpoint m path = Some ep ->
  match ep with
  | EpSave => m = "POST" /\ path = "/url"
  | EpDelete => m = "DELETE" /\ is_Some (alias_of path)
  | EpGet => m = "GET" /\ is_Some (alias_of path)
  | EpHealthz | EpAuth => True
  | _ => False
  end.
Proof.
  unfold table_endpoint. destruct (known_method m); simpl;
    repeat case_bool_decide; simpl; destruct (HasPrefix path "/auth/"); simpl;
    destruct (alias_of path) eqn:Ea; try by intros [= <-]; subst; try by eauto.
Qed.

Lemma find_route_endpoint `{MuxSpec} m path e1 e2 :
  table_endpoint m path = Some e1 \/ table_endpoint m path = Some e2 ->
  exists rt, find_route routes m path = Some rt /\ (rt_endpoint rt = e1 \/ rt_endpoint rt = e2).
Proof.
  rewrite <- find_routes. destruct (find_route routes m path) as [rt|]; [|by intros [[=]|[=]]].
  exists rt. split; [done|]. naive_solver.
Qed.

(** ** Who may change what *)

Section Frames.
Context {W} `{URLService W, AuthService W, Pinger W, Runtime W}.
Context `{JWT, EngineSpec, MailLib, MuxSpec, RequestIDs}.
Context `{BodyDecoder SaveRequest, BodyDecoder registerRequest, BodyDecoder loginRequest,
          BodyDecoder refreshRequest}.
Context (uint64_oob : float64 -> Z) (verifier : Verifier).
Abbreviation serve_route := (serve_route uint64_oob verifier).
Abbreviation serve_write := (serve_write uint64_oob verifier).

(** The request carries a bearer token that verifies at the time [w] shows. *)
Definition authenticated (r : request) (w : W) : Prop :=
  exists token claims, Header_Get r "Authorization" = "Bearer " +:+ token /\
    Verify uint64_oob verifier (time_Now w).1 token = Ok claims.

Lemma lift_snd_eq {C V A : Type} (m : M V A) (c : C) (v : V) : lift_snd m (c, v) = ((m v).1, (c, (m v).2)).
Proof. unfold lift_snd. by destruct (m v). Qed.

(** Without a valid token a write goes no further than the middleware. *)
Lemma serve_write_unauthenticated h r (al wl : Limiter) (w : W) :
  ~ authenticated r w ->
  exists w', (w' = w \/ w' = (time_Now w).2) /\
    resp_code (serve_write h r (al, (wl, w))).1 = StatusUnauthorized /\
    (serve_write h r (al, (wl, w))).2 = (al, (wl, w')).
Proof.
  intros Hno. unfold Router.serve_write. rewrite lift_snd_eq. unfold RequireAuth.
  destruct (HasPrefix _ _) eqn:Hp; cbn [negb]; [|exists w; auto].
  unfold mbind, M_bind, time_Now, runtime_lift, lift_runtime. rewrite lift_snd_eq.
  exists (time_Now w).2. split; [auto|].
  destruct (Verify _ verifier _ _) as [claims|e] eqn:Ev; [|done].
  destruct Hno. exists (TrimPrefix (Header_Get r "Authorization") "Bearer "), claims.
  split; [by apply TrimPrefix_spec|exact Ev].
Qed.

(** The rate limiter reads the clock, asks [allow], and runs the handler or not. *)
Lemma Limiter_Middleware_eq {V} `{Runtime V} (next : Handler (Limiter * V)) r l v :
  Limiter_Middleware next r (l, v) =
    let '(ok, l1) := allow l (time_Now v).1 (clientIP r) in
    if ok then next r (l1, (time_Now v).2)
    else (Respond StatusTooManyRequests (Error_response "rate limit exceeded"),
          (l1, (time_Now v).2)).
Proof.
  unfold Limiter_Middleware. m_unfold. destruct (time_Now v) as [now v1]. simpl.
  by destruct (allow l now (clientIP r)) as [[|] l1].
Qed.

(** It is not seen by [R]. *)
Lemma Limiter_Middleware_frame {V} `{Runtime V} (R : V -> V -> Prop) (next : Handler (Limiter * V)) r l v :
  Reflexive R -> Transitive R -> Preserves R time_Now ->
  (forall l v, R v (next r (l, v)).2.2) ->
  R v (Limiter_Middleware next r (l, v)).2.2.
Proof.
  intros Hrefl Htrans Ht Hn. rewrite Limiter_Middleware_eq.
  destruct (allow l _ (clientIP r)) as [[|] l1]; [|apply Ht].
  etransitivity; [apply Ht|apply Hn].
Qed.

Lemma authenticated_dec r (w : W) : authenticated r w \/ ~ authenticated r w.
Proof.
  destruct (HasPrefix (Header_Get r "Authorization") "Bearer ") eqn:Hp.
  - destruct (Verify uint64_oob verifier (time_Now w).1
      (TrimPrefix (Header_Get r "Authorization") "Bearer ")) as [claims|e] eqn:Ev.
    + left. eexists _, claims. split; [by apply TrimPrefix_spec|done].
    + right. intros (token & claims & Ht & Hv). apply TrimPrefix_spec in Hp.
      rewrite Ht in Hp at 1. apply (inj (String.append "Bearer ")) in Hp. congruence.
  - right. intros (token & claims & Ht & _).
    assert (HasPrefix (Header_Get r "Authorization") "Bearer " = true); [|congruence].
    rewrite Ht. apply HasPrefix_bytes. exists (bytes_of token). by rewrite bytes_of_app.
Qed.

Section Preserve.
Context (R : W -> W -> Prop) `{!Reflexive R, !Transitive R}.

Lemma Handler_Get_preserves r (w : W) :
  (forall ctx a, Preserves R (svc_Get ctx a)) -> R w (Handler_Get r w).2.
Proof.
  intros HG. unfold Handler_Get. case_bool_decide; [done|]. m_unfold.
  pose proof (HG (Context_of r) (URLParam r "alias") w) as Hw.
  by destruct (svc_Get _ _ w) as [[u|e] w1].
Qed.

Lemma Handler_Save_preserves r (w : W) :
  (forall ctx u a, Preserves R (svc_Save ctx u a)) -> R w (Handler_Save r w).2.
Proof.
  intros HS. destruct (Handler_Save r w) as [resp w'] eqn:E.
  destruct (Handler_Save_cases _ _ _ _ E) as [(-> & _)|(req & res & _ & _ & Hs & _)]; [done|].
  pose proof (HS (Context_of r) (URL req) (Alias req) w) as Hw. by rewrite Hs in Hw.
Qed.

Lemma Handler_Delete_preserves r (w : W) :
  Preserves R (svc_Delete (Context_of r) (URLParam r "alias")) -> R w (Handler_Delete r w).2.
Proof.
  intros HD. destruct (Handler_Delete r w) as [resp w'] eqn:E.
  destruct (Handler_Delete_cases _ _ _ _ E) as [(_ & -> & _)|(err & Hs & _)]; [done|].
  specialize (HD w). by rewrite Hs in HD.
Qed.

Lemma ReadinessProbe_preserves r (w : W) :
  (forall ctx, Preserves R (db_Ping ctx)) -> (forall ctx, Preserves R (redis_Ping ctx)) ->
  R w (ReadinessProbe r w).2.
Proof.
  intros HD HR. unfold ReadinessProbe. m_unfold. pose proof (HD (Context_of r) w) as Hw.
  destruct (db_Ping _ w) as [[e|] w1]; [done|].
  pose proof (HR (Context_of r) w1) as Hw1. simpl in *.
  destruct (redis_Ping _ w1) as [[e|] w2]; by etransitivity.
Qed.

Lemma serve_auth_route_preserves r (al wl : Limiter) (w : W) :
  (forall ctx e p, Preserves R (sso_Register ctx e p)) ->
  (forall ctx e p, Preserves R (sso_Login ctx e p)) ->
  (forall ctx t, Preserves R (sso_RefreshTokens ctx t)) ->
  (forall ctx t, Preserves R (sso_Logout ctx t)) ->
  exists w', (serve_auth_route r (al, (wl, w))).2 = (al, (wl, w')) /\ R w w'.
Proof.
  intros HReg HLogin HRef HOut. unfold serve_auth_route.
  destruct (find_route auth_routes _ _) as [rt|]; [|by exists w].
  destruct (rt_endpoint rt); try (by exists w); rewrite !lift_snd_eq; cbn [fst snd];
    eexists; (split; [reflexivity|]).
  - unfold Register. repeat case_match; try done. m_unfold.
    match goal with |- context [ sso_Register ?c ?a ?b w ] =>
      pose proof (HReg c a b w) as Hv; destruct (sso_Register c a b w) as [[]?] end.
    all: by repeat case_match.
  - unfold Login. repeat case_match; try done. m_unfold.
    match goal with |- context [ sso_Login ?c ?a ?b w ] =>
      pose proof (HLogin c a b w) as Hv; destruct (sso_Login c a b w) as [[]?] end.
    all: by repeat case_match.
  - unfold Refresh. case_match; [|done]. m_unfold.
    match goal with |- context [ sso_RefreshTokens ?c ?a w ] =>
      pose proof (HRef c a w) as Hv; destruct (sso_RefreshTokens c a w) as [[]?] end.
    all: by repeat case_match.
  - unfold Logout. case_match; [|done]. m_unfold.
    match goal with |- context [ sso_Logout ?c ?a w ] =>
      pose proof (HOut c a w) as Hv; destruct (sso_Logout c a w) as [[]?] end.
    all: by repeat case_match.
Qed.

Lemma serve_auth_preserves r (al wl : Limiter) (w : W) :
  Preserves R time_Now ->
  (forall ctx e p, Preserves R (sso_Register ctx e p)) ->
  (forall ctx e p, Preserves R (sso_Login ctx e p)) ->
  (forall ctx t, Preserves R (sso_RefreshTokens ctx t)) ->
  (forall ctx t, Preserves R (sso_Logout ctx t)) ->
  R w (serve_auth r (al, (wl, w))).2.2.2.
Proof.
  intros Ht HReg HLogin HRef HOut. unfold serve_auth.
  apply (Limiter_Middleware_frame (fun v v' : Limiter * W => R v.2 v'.2) _ r al (wl, w)).
  - intros v. reflexivity.
  - intros v1 v2 v3. apply transitivity.
  - intros [l v]. unfold time_Now, runtime_lift, lift_runtime. rewrite lift_snd_eq. apply Ht.
  - intros l [l' v]. destruct (serve_auth_route_preserves r l l' v) as (w' & E & Hw); [done..|].
    change (R v (serve_auth_route r (l, (l', v))).2.2.2). by rewrite E.
Qed.

Lemma serve_write_preserves (h : Handler W) r (al wl : Limiter) (w : W) :
  Preserves R time_Now -> (forall ctx w, R w (h (WithContext r ctx) w).2) ->
  R w (serve_write h r (al, (wl, w))).2.2.2.
Proof.
  intros Ht Hh. unfold Router.serve_write. rewrite lift_snd_eq. unfold RequireAuth.
  destruct (negb _); [done|]. unfold mbind, M_bind, time_Now, runtime_lift, lift_runtime.
  rewrite lift_snd_eq. pose proof (Ht w) as Htw.
  destruct (Verify _ verifier _ _) as [claims|e]; [|done].
  etransitivity; [exact Htw|]. cbn [fst snd].
  apply (Limiter_Middleware_frame R); [done..|]. intros l v. rewrite lift_snd_eq. apply Hh.
Qed.

(** A write is turned down, without a trace in [R]; or it is authenticated and
    the handler's, on a world [R] relates. *)
Lemma serve_write_done (h : Handler W) r (al wl : Limiter) (w : W) :
  Preserves R time_Now ->
  ((resp_code (serve_write h r (al, (wl, w))).1 = StatusUnauthorized \/
    resp_code (serve_write h r (al, (wl, w))).1 = StatusTooManyRequests) /\
   R w (serve_write h r (al, (wl, w))).2.2.2) \/
  authenticated r w /\ exists ctx w1, R w w1 /\
    (serve_write h r (al, (wl, w))).1 = (h (WithContext r ctx) w1).1 /\
    (serve_write h r (al, (wl, w))).2.2.2 = (h (WithContext r ctx) w1).2.
Proof.
  intros Ht. unfold Router.serve_write. rewrite lift_snd_eq. unfold RequireAuth.
  destruct (HasPrefix _ _) eqn:Hp; cbn [negb]; [|by left; split; [left|]].
  unfold Limiter_Middleware, mbind, M_bind.
  unfold time_Now, runtime_lift, lift_runtime. rewrite !lift_snd_eq.
  pose proof (Ht w) as Hw. pose proof (Ht (time_Now w).2) as Hw1. unfold time_Now in Hw, Hw1.
  destruct (Verify _ verifier _ _) as [claims|e] eqn:Ev; [|left; split; [by left|exact Hw]].
  unfold get_fst, put_fst. cbn [fst snd]. rewrite !lift_snd_eq. cbn [fst snd].
  match goal with |- context [ allow wl ?now ?k ] => destruct (allow wl now k) as [[|] wl'] end;
    [right|left; split; [by right|by etransitivity]].
  rewrite !lift_snd_eq. split.
  - exists (TrimPrefix (Header_Get r "Authorization") "Bearer "), claims.
    split; [by apply TrimPrefix_spec|exact Ev].
  - eexists _, _. split; [|done]. by etransitivity.
Qed.

(** A request does what its handler does, as far as [R] can tell; of the deletes
    only the one the request asks for matters. *)
Lemma serve_route_preserves r s :
  Preserves R time_Now ->
  (forall r w, R w (Handler_Get r w).2) -> (forall r w, R w (Handler_Save r w).2) ->
  (Method r = "DELETE" -> forall a, alias_of (URL_Path r) = Some a ->
     forall ctx w, R w (Handler_Delete (WithContext (WithAlias r a) ctx) w).2) ->
  (forall r w, R w (ReadinessProbe r w).2) ->
  (forall ctx e p, Preserves R (sso_Register ctx e p)) ->
  (forall ctx e p, Preserves R (sso_Login ctx e p)) ->
  (forall ctx t, Preserves R (sso_RefreshTokens ctx t)) ->
  (forall ctx t, Preserves R (sso_Logout ctx t)) ->
  R s.2.2 (serve_route r s).2.2.2.
Proof.
  intros Ht HG HS HD HP HReg HLogin HRef HOut. destruct s as [al [wl w]]. unfold Router.serve_route.
  set (r' := match alias_of (URL_Path r) with Some a => WithAlias r a | None => r end).
  assert (Hr' : Method r' = Method r /\ URL_Path r' = URL_Path r)
    by (subst r'; by destruct (alias_of (URL_Path r))).
  destruct Hr' as [Hm Hp]. rewrite Hm, Hp.
  pose proof (find_routes (Method r) (URL_Path r)) as Hf.
  destruct (find_route routes _ _) as [rt|]; [|done].
  symmetry in Hf. apply table_endpoint_inv in Hf. cbn [fst snd].
  destruct (rt_endpoint rt); try done; rewrite ?lift_snd_eq; cbn [fst snd];
    auto using serve_auth_preserves.
  - by apply serve_write_preserves.
  - destruct Hf as [Hd [a Ha]]. apply serve_write_preserves; [done|].
    subst r'. rewrite Ha. by apply HD.
Qed.
End Preserve.

(** The mount point itself is no route of the mounted router. *)
Lemma serve_auth_root r s : Method r = "GET" -> URL_Path r = "/auth" ->
  resp_code (serve_auth r s).1 = StatusNotFound \/
  resp_code (serve_auth r s).1 = StatusTooManyRequests.
Proof.
  intros Hm Hp. unfold serve_auth, Limiter_Middleware, serve_auth_route. destruct s as [al v].
  unfold mbind, M_bind. rewrite lift_snd_eq. unfold get_fst, put_fst. cbn [fst snd].
  destruct (allow al _ _) as [[|] l]; [left|by right].
  assert (Hf : find_route auth_routes (Method r) (sub_path (URL_Path r) "/auth") = None)
    by (rewrite mux_spec, Hm, Hp; reflexivity).
  rewrite Hf. cbn. rewrite (mux_no_route _ _ _ Hf), Hm, Hp. reflexivity.
Qed.

(** The lemma behind [only_authenticated_writes]. *)
Lemma request_frame (R : W -> W -> Prop) r (al wl : Limiter) (w : W) :
  Reflexive R -> Transitive R -> Preserves R time_Now ->
  (forall ctx a, Preserves R (svc_Get ctx a)) ->
  (forall ctx e p, Preserves R (sso_Register ctx e p)) ->
  (forall ctx e p, Preserves R (sso_Login ctx e p)) ->
  (forall ctx t, Preserves R (sso_RefreshTokens ctx t)) ->
  (forall ctx t, Preserves R (sso_Logout ctx t)) ->
  (forall ctx, Preserves R (db_Ping ctx)) -> (forall ctx, Preserves R (redis_Ping ctx)) ->
  R w (serve_route r (al, (wl, w))).2.2.2 \/
  (authenticated r w /\
   (Method r = "POST" /\ URL_Path r = "/url" \/
    Method r = "DELETE" /\ is_Some (alias_of (URL_Path r)))).
Proof.
  intros Hrefl Htrans Htime HGet HReg HLogin HRef HOut HdbP HrP.
  unfold Router.serve_route.
  set (r' := match alias_of (URL_Path r) with Some a => WithAlias r a | None => r end).
  assert (Hr' : Method r' = Method r /\ URL_Path r' = URL_Path r /\ Header r' = Header r)
    by (subst r'; by destruct (alias_of (URL_Path r))).
  destruct Hr' as (Hm & Hp & Hh). rewrite Hm, Hp.
  assert (Hauth : authenticated r' w -> authenticated r w).
  { intros (token & claims & Ht & Hv). exists token, claims.
    unfold Header_Get in *. by rewrite <- Hh. }
  assert (Hwrite : forall h : Handler W,
    R w (serve_write h r' (al, (wl, w))).2.2.2 \/
    authenticated r w).
  { intros h. destruct (authenticated_dec r' w) as [Ha|Ha]; [auto|].
    destruct (serve_write_unauthenticated h r' al wl w Ha) as (w' & Hw' & _ & ->). left. simpl. destruct Hw' as [-> | ->]; [done|apply Htime]. }
  pose proof (find_routes (Method r) (URL_Path r)) as Hf.
  destruct (find_route routes (Method r) (URL_Path r)) as [rt|]; [|by left].
  simpl in Hf. symmetry in Hf. apply table_endpoint_inv in Hf.
  destruct (rt_endpoint rt); try (by left); rewrite ?lift_snd_eq; cbn [fst snd].
  - left. by apply Handler_Get_preserves.
  - destruct (Hwrite Handler_Save); auto.
  - destruct (Hwrite Handler_Delete); auto.
  - left. by apply ReadinessProbe_preserves.
  - left. by apply serve_auth_preserves.
Qed.
End Frames.

(** ** Properties *)

Section Properties.
Context {W} `{URLService W, AuthService W, Pinger W, Runtime W}.
Context `{JWT, EngineSpec, MailLib, MuxSpec, RequestIDs}.
Context `{BodyDecoder SaveRequest, BodyDecoder registerRequest, BodyDecoder loginRequest,
          BodyDecoder refreshRequest}.
Context (uint64_oob : float64 -> Z) (verifier : Verifier).
Abbreviation serve_route := (serve_route uint64_oob verifier).

(** C5: Without a bearer token that verifies, [POST /url] and [DELETE /{alias}]
    are a 401, and nothing happens: the links, Redis and the tokens of both
    rate limiters are as they were, only the clock may have been read. *)
Theorem writes_need_a_token r (al wl : Limiter) (w : W) :
  (Method r = "POST" /\ URL_Path r = "/url") \/
  (exists a, Method r = "DELETE" /\ URL_Path r = "/" +:+ a /\ good_alias a /\ a <> "auth") ->
  ~ authenticated uint64_oob verifier r w ->
  exists w', (w' = w \/ w' = (time_Now w).2) /\
    resp_code (serve_route r (al, (wl, w))).1 = StatusUnauthorized /\
    (serve_route r (al, (wl, w))).2 = (al, (wl, w')).
Proof.
  intros Hwrite Hno.
  assert (He : table_endpoint (Method r) (URL_Path r) = Some EpSave \/
               table_endpoint (Method r) (URL_Path r) = Some EpDelete).
  { destruct Hwrite as [[-> ->]|(a & -> & -> & [_ Ha] & Hau)]; [by left|right].
    by apply table_DELETE_alias. }
  unfold Router.serve_route.
  set (r' := match alias_of (URL_Path r) with Some a => WithAlias r a | None => r end).
  assert (Hr' : Method r' = Method r /\ URL_Path r' = URL_Path r /\ Header r' = Header r)
    by (subst r'; by destruct (alias_of (URL_Path r))).
  destruct Hr' as (Hm & Hp & Hh). rewrite Hm, Hp.
  assert (Hno' : ~ authenticated uint64_oob verifier r' w).
  { intros (token & claims & Ht & Hv). apply Hno. exists token, claims.
    unfold Header_Get in *. by rewrite <- Hh. }
  destruct (find_route_endpoint _ _ _ _ He) as (rt & -> & [-> | ->]);
    by apply serve_write_unauthenticated.
Qed.


(** C34: Which aliases can be followed: [GET] of any good alias reaches the link
    handler with that alias, except "healthz", which is the probe, and "auth",
    where the mounted router answers 404 (or 429).  Both are good aliases, so
    a link under them can be created but not followed. *)
Theorem aliases_reached r a (al wl : Limiter) (w : W) :
  Method r = "GET" -> URL_Path r = "/" +:+ a -> good_alias a ->
  (a <> "healthz" -> a <> "auth" ->
     serve_route r (al, (wl, w)) =
       lift_snd (lift_snd (Handler_Get (WithAlias r a))) (al, (wl, w)) /\
     URLParam (WithAlias r a) "alias" = a) /\
  (a = "healthz" -> serve_route r (al, (wl, w)) =
       lift_snd (lift_snd (ReadinessProbe (WithAlias r a))) (al, (wl, w))) /\
  (a = "auth" -> resp_code (serve_route r (al, (wl, w))).1 = StatusNotFound \/
                 resp_code (serve_route r (al, (wl, w))).1 = StatusTooManyRequests) /\
  good_alias "healthz" /\ good_alias "auth".
Proof.
  intros Hm Hp [Hl Ha]. unfold Router.serve_route. rewrite Hp, alias_of_path by done.
  change (Method (WithAlias r a)) with (Method r).
  change (URL_Path (WithAlias r a)) with (URL_Path r). rewrite Hm, Hp.
  pose proof (find_routes "GET" ("/" +:+ a)) as Hf.
  split_and!.
  - intros Hh Hau. rewrite table_GET_alias in Hf by done.
    destruct (find_route routes "GET" ("/" +:+ a)) as [rt|]; [|done]. injection Hf as ->.
    split; [done|]. unfold URLParam. simpl. by rewrite lookup_singleton_eq.
  - intros ->. change (table_endpoint "GET" ("/" +:+ "healthz")) with (Some EpHealthz) in Hf.
    destruct (find_route routes "GET" ("/" +:+ "healthz")) as [rt|]; [|done]. by injection Hf as ->.
  - intros ->. change (table_endpoint "GET" ("/" +:+ "auth")) with (Some EpAuth) in Hf.
    destruct (find_route routes "GET" ("/" +:+ "auth")) as [rt|]; [|done]. injection Hf as ->.
    apply serve_auth_root; [exact Hm|exact Hp].
  - by split; [vm_compute; split; congruence|].
  - by split; [vm_compute; split; congruence|].
Qed.
(** C4: The links change only for the holder of a token.  [R] is any relation
    that the calls of the public endpoints respect (that the links are the
    same, say): a request either leaves the world related, or it is a [POST]
    of [/url] or a [DELETE] that carries a token that verifies. *)
Theorem only_authenticated_writes (R : W -> W -> Prop) r (al wl : Limiter) (w : W) :
  Reflexive R -> Transitive R -> Preserves R time_Now ->
  (forall ctx a, Preserves R (svc_Get ctx a)) ->
  (forall ctx e p, Preserves R (sso_Register ctx e p)) ->
  (forall ctx e p, Preserves R (sso_Login ctx e p)) ->
  (forall ctx t, Preserves R (sso_RefreshTokens ctx t)) ->
  (forall ctx t, Preserves R (sso_Logout ctx t)) ->
  (forall ctx, Preserves R (db_Ping ctx)) -> (forall ctx, Preserves R (redis_Ping ctx)) ->
  R w (serve_route r (al, (wl, w))).2.2.2 \/
  (authenticated uint64_oob verifier r w /\
   (Method r = "POST" /\ URL_Path r = "/url" \/
    Method r = "DELETE" /\ is_Some (alias_of (URL_Path r)))).
Proof. apply request_frame. Qed.
End Properties.

(** ** Evaluation *)

(** A world that counts the writes; the chosen token library knows one token. *)
Module RouterDemo.
#[global] Instance urls : URLService Z :=
  {| svc_Save _ _ a w := (Ok a, w + 1); svc_Get _ _ w := (Ok "https://example.com", w);
     svc_Delete _ _ w := (None, w + 1) |}.
#[global] Instance pinger : Pinger Z :=
  {| db_Ping _ w := (None, w); redis_Ping _ w := (None, w) |}.
#[global] Instance tokens : JWT := TableJWT.jwt TableJWT.table.
#[global] Instance mux : Mux := {| find_route := reference_find; no_route := reference_no_route |}.
#[global] Instance mux_ok : MuxSpec.
Proof. split; reflexivity. Qed.
#[global] Instance ids : RequestIDs := fun r => r.
#[global] Instance dec_save : BodyDecoder SaveRequest :=
  fun b => Ok {| URL := rd_bytes b; Alias := "" |}.

Definition oob : float64 -> Z := fun _ => 0.
Definition limiters (w : Z) := start_limiters w.
Definition request_of (m path token : string) : request :=
  {| Method := m; URL_Path := path; RemoteAddr := "10.0.0.1:999";
     Header := {["Authorization" := token]}; Body := {| rd_bytes := "https://a"; rd_err := None |};
     URLParams := ∅; Context_of := Background |}.
End RouterDemo.

(** A token the service did not issue. *)
Lemma writes_need_a_token_witness :
  exists w', (w' = 10 \/ w' = (time_Now 10).2) /\
    resp_code (serve_route RouterDemo.oob TableJWT.verifier
      (RouterDemo.request_of "DELETE" "/docs" "Bearer x") (RouterDemo.limiters 10)).1 = 401 /\
    (serve_route RouterDemo.oob TableJWT.verifier
      (RouterDemo.request_of "DELETE" "/docs" "Bearer x") (RouterDemo.limiters 10)).2 =
      RouterDemo.limiters w'.
Proof.
  apply (writes_need_a_token RouterDemo.oob TableJWT.verifier).
  - right. exists "docs". split_and!; [reflexivity|reflexivity| |discriminate].
    vm_compute. split; [split; congruence|reflexivity].
  - intros (token & claims & Ht & Hv). change ("Bearer x" = "Bearer " +:+ token) in Ht.
    apply (inj (String.append "Bearer ") "x") in Ht. subst token. vm_compute in Hv. discriminate Hv.
Defined.

(** With the token the write goes through, and the world changes. *)
Lemma only_authenticated_writes_witness :
  let r := RouterDemo.request_of "POST" "/url" "Bearer tok" in
  authenticated RouterDemo.oob TableJWT.verifier r 10 /\
  (serve_route RouterDemo.oob TableJWT.verifier r (RouterDemo.limiters 10)).2.2.2 = 11.
Proof.
  intros r. split; [|vm_compute; reflexivity].
  destruct (only_authenticated_writes RouterDemo.oob TableJWT.verifier eq r
    (RouterDemo.limiters 10).1 (RouterDemo.limiters 10).2.1 10) as [Heq|[Ha _]];
    [intros x; reflexivity|intros x y z -> ->; reflexivity|intros w; reflexivity
    |intros ctx a w; reflexivity|intros ctx e p w; reflexivity|intros ctx e p w; reflexivity
    |intros ctx t w; reflexivity|intros ctx t w; reflexivity|intros ctx w; reflexivity
    |intros ctx w; reflexivity|vm_compute in Heq; discriminate Heq|exact Ha].
Defined.

Lemma aliases_reached_witness :
  serve_route RouterDemo.oob TableJWT.verifier (RouterDemo.request_of "GET" "/healthz" "")
    (RouterDemo.limiters 10) = (RespText 200 "ok", RouterDemo.limiters 10) /\
  serve_route RouterDemo.oob TableJWT.verifier (RouterDemo.request_of "GET" "/docs" "")
    (RouterDemo.limiters 10) = (RespRedirect 302 "https://example.com", RouterDemo.limiters 10).
Proof.
  destruct (aliases_reached RouterDemo.oob TableJWT.verifier
    (RouterDemo.request_of "GET" "/healthz" "") "healthz" (RouterDemo.limiters 10).1
    (RouterDemo.limiters 10).2.1 10) as (_ & Hh & _);
    [reflexivity|reflexivity|vm_compute; split; [split; congruence|reflexivity]|].
  destruct (aliases_reached RouterDemo.oob TableJWT.verifier
    (RouterDemo.request_of "GET" "/docs" "") "docs" (RouterDemo.limiters 10).1
    (RouterDemo.limiters 10).2.1 10) as (Hd & _);
    [reflexivity|reflexivity|vm_compute; split; [split; congruence|reflexivity]|].
  split; [exact (Hh eq_refl)|].
  destruct Hd as [Hd _]; [discriminate|discriminate|exact Hd].
Defined.
