(* ===== verification/Schema.v ===== *)
(** * The API as types: what every endpoint can answer

    A small type system for JSON bodies and responses ([has_type], [answers]),
    the schema of every endpoint read off the response structs and the statuses
    of the handlers ([api]), and the theorem that the router is well typed: no
    request makes it answer outside the schema of its method and path. *)

From S2P Require Import Prelude GoErrors GoStrings GoFloat Authn Runtime Http Response.
From S2P Require Import RateLimit Storage Validation Handlers Sso Router.

(** ** Types of bodies *)

(** A field of a struct is its name, its type, and whether it is always there
    ([false] for [omitempty]). *)
Inductive jtype : Type :=
| TString
| TConst (s : string)
| TArray (t : jtype)
| TStruct (fields : list (string * jtype * bool)).

(** A struct is encoded in the order of its fields. *)
Fixpoint has_type (t : jtype) (j : json) {struct t} : bool :=
  match t, j with
  | TString, JString _ => true
  | TConst s, JString s' => bool_decide (s = s')
  | TArray t, JArray l => forallb (has_type t) l
  | TStruct ts, JObject fs =>
      (fix fields (ts : list (string * jtype * bool)) (fs : list (string * json)) {struct ts} :=
         match ts with
         | [] => match fs with [] => true | _ => false end
         | (n, t, always) :: ts' =>
             match fs with
             | (n', j) :: fs' =>
                 if bool_decide (n = n') then has_type t j && fields ts' fs'
                 else negb always && fields ts' fs
             | [] => negb always && fields ts' []
             end
         end) ts fs
  | _, _ => false
  end.

Inductive body_type : Type :=
| BJson (t : jtype)
| BText (s : string)
| BRedirect
| BEmpty.

Definition has_body (b : body_type) (resp : response) : bool :=
  match b, resp with
  | BJson t, RespJSON _ j => has_type t j
  | BText s, RespText _ s' => bool_decide (s = s')
  | BRedirect, RespRedirect _ _ => true
  | BEmpty, RespEmpty _ => true
  | _, _ => false
  end.

(** The answers of an endpoint: statuses with the type of their body. *)
Definition schema : Type := list (Z * body_type).
Definition answers (sch : schema) (resp : response) : bool :=
  existsb (fun '(code, b) => (resp_code resp =? code) && has_body b resp) sch.

(** ** The schema of the API *)

Definition TDetail : jtype := TStruct [("field", TString, true); ("message", TString, true)].
(** [Response] with status "Error", with or without details *)
Definition TError : jtype :=
  TStruct [("status", TConst "Error", true); ("error", TString, true);
           ("details", TArray TDetail, false)].
Definition TOk : jtype := TStruct [("status", TConst "OK", true)].
Definition TSave : jtype := TStruct [("status", TConst "OK", true); ("alias", TString, false)].
Definition TTokens : jtype :=
  TStruct [("status", TConst "OK", true); ("access_token", TString, true);
           ("refresh_token", TString, true)].

Definition errors_of (codes : list Z) : schema := (fun code => (code, BJson TError)) <$> codes.

Definition endpoint_schema (ep : endpoint) : schema :=
  match ep with
  | EpGet => (StatusFound, BRedirect) ::
      errors_of [StatusBadRequest; StatusNotFound; StatusInternalServerError]
  | EpSave => (StatusOK, BJson TSave) ::
      errors_of [StatusBadRequest; StatusUnauthorized; StatusConflict; StatusTooManyRequests;
                 StatusInternalServerError]
  | EpDelete => (StatusNoContent, BEmpty) ::
      errors_of [StatusBadRequest; StatusUnauthorized; StatusNotFound; StatusTooManyRequests;
                 StatusInternalServerError]
  | EpHealthz => [(StatusOK, BText "ok"); (StatusServiceUnavailable, BText "db down");
                  (StatusServiceUnavailable, BText "redis down")]
  | EpRegister => (StatusCreated, BJson TOk) ::
      errors_of [StatusBadRequest; StatusConflict; StatusTooManyRequests;
                 StatusInternalServerError]
  | EpLogin | EpRefresh => (StatusOK, BJson TTokens) ::
      errors_of [StatusBadRequest; StatusUnauthorized; StatusTooManyRequests;
                 StatusInternalServerError]
  | EpLogout => (StatusNoContent, BEmpty) ::
      errors_of [StatusBadRequest; StatusTooManyRequests; StatusInternalServerError]
  | EpAuth => []
  end.

(** Where no route matches: 405 if one matches the path, else 404. *)
Definition unrouted_schema (rts : list route) (m path : string) : schema :=
  if negb (known_method m) || existsb (fun rt => path_ok rt path) rts
  then [(StatusMethodNotAllowed, BEmpty)] else [(StatusNotFound, BText not_found_body)].

(** The endpoint of the mounted router. *)
Definition auth_endpoint (m path : string) : option endpoint :=
  if bool_decide (m = "POST") then
    if bool_decide (path = "/register") then Some EpRegister
    else if bool_decide (path = "/login") then Some EpLogin
    else if bool_decide (path = "/refresh") then Some EpRefresh
    else if bool_decide (path = "/logout") then Some EpLogout
    else None
  else None.

(** The schema of a method and a path. *)
Definition api (m path : string) : schema :=
  match table_endpoint m path with
  | None => unrouted_schema routes m path
  | Some EpAuth =>
      let path := sub_path path "/auth" in
      match auth_endpoint m path with
      | Some ep => endpoint_schema ep
      | None => errors_of [StatusTooManyRequests] ++ unrouted_schema auth_routes m path
      end
  | Some ep => endpoint_schema ep
  end.

(** ** Lemmas *)

(** The body of every error the handlers send. *)
Lemma has_type_error msg : msg <> "" ->
  has_type TError (JObject (Response_fields (Error_response msg))) = true.
Proof. intros Hmsg. unfold Response_fields. simpl. by rewrite bool_decide_eq_false_2. Qed.

Lemma has_type_details ds :
  has_type (TArray TDetail) (JArray (Detail_fields <$> ds)) = true.
Proof. induction ds as [|d ds IH]; [done|]. exact IH. Qed.

Lemma has_type_validation errs :
  has_type TError (JObject (Response_fields (ValidationError errs))) = true.
Proof.
  destruct errs as [|e errs]; [done|].
  transitivity (has_type (TArray TDetail)
    (JArray (Detail_fields <$> Details (ValidationError (e :: errs)))) && true); [reflexivity|].
  by rewrite has_type_details.
Qed.

Lemma has_type_save alias :
  has_type TSave (JObject (SaveResponse_fields Ok_response alias)) = true.
Proof. unfold SaveResponse_fields. by case_bool_decide. Qed.

Lemma answers_head code b sch resp :
  resp_code resp = code -> has_body b resp = true -> answers ((code, b) :: sch) resp = true.
Proof. intros <- Hb. unfold answers. simpl. by rewrite Z.eqb_refl, Hb. Qed.

Lemma answers_tail cb sch resp : answers sch resp = true -> answers (cb :: sch) resp = true.
Proof. unfold answers. simpl. intros ->. apply orb_true_r. Qed.

(** An error response is in a schema that lists its status. *)
Lemma answers_error_body codes code v : code ∈ codes ->
  has_type TError (JObject (Response_fields v)) = true ->
  answers (errors_of codes) (Respond code v) = true.
Proof.
  intros Hc Hv. induction Hc as [c codes|c c' codes _ IH];
    [by apply answers_head|by apply answers_tail, IH].
Qed.
Lemma answers_error codes code msg : code ∈ codes -> msg <> "" ->
  answers (errors_of codes) (Respond code (Error_response msg)) = true.
Proof. intros Hc Hm. by apply answers_error_body, has_type_error. Qed.

Definition no_redirect (sch : schema) : bool :=
  forallb (fun cb => match cb.2 with BRedirect => false | _ => true end) sch.

Lemma answers_redirect sch code u : answers sch (RespRedirect code u) = true ->
  no_redirect sch = false.
Proof.
  unfold answers, no_redirect. induction sch as [|[c b] sch IH]; [done|].
  cbn [existsb forallb snd]. intros [Ha|Ha]%orb_true_iff; [|rewrite (IH Ha); apply andb_false_r].
  apply andb_true_iff in Ha as [_ Ha]. by destruct b.
Qed.

#[global] Arguments answers : simpl never.
#[global] Arguments endpoint_schema : simpl never.
#[global] Arguments errors_of : simpl never.

(** A status that is in the list. *)
Ltac listed := repeat first [apply list_elem_of_here|apply list_elem_of_further].

(** What the branches of a handler come down to. *)
Ltac typed :=
  first
  [ reflexivity
  | apply answers_head; [reflexivity|first [reflexivity|apply has_type_save]]
  | simpl; repeat case_match; apply answers_tail; (apply answers_error; [listed|done])
  | apply answers_tail; apply answers_error_body; [listed|apply has_type_validation] ].

Lemma unrouted_answers `{MuxSpec} rts m path : find_route rts m path = None ->
  answers (unrouted_schema rts m path) (no_route rts m path) = true.
Proof.
  intros Hf. rewrite (mux_no_route _ _ _ Hf). unfold reference_no_route, unrouted_schema.
  by destruct (_ || _).
Qed.

Lemma auth_endpoint_inv m path ep : auth_endpoint m path = Some ep ->
  ep ∈ [EpRegister; EpLogin; EpRefresh; EpLogout].
Proof. unfold auth_endpoint. repeat case_bool_decide; intros [= <-]; listed. Qed.

Lemma find_auth_routes `{MuxSpec} m path :
  rt_endpoint <$> find_route auth_routes m path = auth_endpoint m path.
Proof.
  rewrite mux_spec. unfold reference_find, auth_routes, auth_endpoint.
  destruct (decide (m = "POST")) as [->|Hm].
  - change (negb (known_method "POST")) with false. cbn [negb].
    rewrite !filter_cons, !filter_nil. unfold is_static, is_mount, is_param, method_ok.
    cbn [rt_pattern rt_method rt_endpoint on]. rewrite !decide_bool.
    rewrite (bool_decide_eq_true_2 ("POST" = "POST")) by done. cbn [andb].
    by repeat case_bool_decide.
  - rewrite (bool_decide_eq_false_2 (m = "POST")) by done. destruct (negb (known_method m)); [done|].
    rewrite !filter_cons, !filter_nil. unfold is_static, is_mount, is_param, method_ok.
    cbn [rt_pattern rt_method rt_endpoint on]. rewrite !decide_bool.
    by rewrite (bool_decide_eq_false_2 (m = "POST")) by done.
Qed.

(** ** The handlers *)

Section Handlers.
Context {W} `{URLService W, AuthService W, Pinger W, ValidatorEngine, MailLib}.
Context `{BodyDecoder SaveRequest, BodyDecoder registerRequest, BodyDecoder loginRequest,
          BodyDecoder refreshRequest}.

Lemma Handler_Get_answers r (w : W) :
  answers (endpoint_schema EpGet) (Handler_Get r w).1 = true.
Proof.
  unfold Handler_Get. case_bool_decide; [typed|]. m_unfold.
  destruct (svc_Get _ _ w) as [[u|e] w1]; typed.
Qed.

Lemma Handler_Save_answers r (w : W) :
  answers (endpoint_schema EpSave) (Handler_Save r w).1 = true.
Proof.
  unfold Handler_Save. destruct (DecodeJSON _) as [req|e]; [|typed].
  destruct (validate_Struct _) as [[errs|e]|]; [typed..|]. m_unfold.
  destruct (svc_Save _ _ _ w) as [[a|e] w1]; typed.
Qed.

Lemma Handler_Delete_answers r (w : W) :
  answers (endpoint_schema EpDelete) (Handler_Delete r w).1 = true.
Proof.
  unfold Handler_Delete. case_bool_decide; [typed|]. m_unfold.
  destruct (svc_Delete _ _ w) as [[e|] w1]; typed.
Qed.

Lemma ReadinessProbe_answers r (w : W) :
  answers (endpoint_schema EpHealthz) (ReadinessProbe r w).1 = true.
Proof.
  unfold ReadinessProbe. m_unfold. destruct (db_Ping _ w) as [[e|] w1]; [typed|].
  destruct (redis_Ping _ w1) as [[e|] w2]; typed.
Qed.

Lemma validateEmail_error email err : validateEmail email = Some err -> error_text err <> "".
Proof. unfold validateEmail. repeat case_match; by intros [= <-]. Qed.

Lemma Register_answers r (w : W) : answers (endpoint_schema EpRegister) (Register r w).1 = true.
Proof.
  unfold Register. destruct (DecodeJSON _) as [req|e]; [|typed].
  destruct (validateEmail _) as [e|] eqn:Ee.
  { apply answers_tail, answers_error; [listed|by eapply validateEmail_error]. }
  case_match; [typed|]. m_unfold.
  destruct (sso_Register _ _ _ w) as [[id|e] w1]; [|case_match]; typed.
Qed.

Lemma Login_answers r (w : W) : answers (endpoint_schema EpLogin) (Login r w).1 = true.
Proof.
  unfold Login. destruct (DecodeJSON _) as [req|e]; [|typed].
  destruct (validateEmail _) as [e|] eqn:Ee.
  { apply answers_tail, answers_error; [listed|by eapply validateEmail_error]. }
  case_bool_decide; [typed|]. m_unfold.
  destruct (sso_Login _ _ _ w) as [[[a t]|e] w1]; [|case_match]; typed.
Qed.

Lemma Refresh_answers r (w : W) : answers (endpoint_schema EpRefresh) (Refresh r w).1 = true.
Proof.
  unfold Refresh. destruct (refresh_token _) as [t|]; [|typed]. m_unfold.
  destruct (sso_RefreshTokens _ _ w) as [[[a t']|e] w1]; [|case_match]; typed.
Qed.

Lemma Logout_answers r (w : W) : answers (endpoint_schema EpLogout) (Logout r w).1 = true.
Proof.
  unfold Logout. destruct (refresh_token _) as [t|]; [|typed]. m_unfold.
  destruct (sso_Logout _ _ w) as [[e|] w1]; typed.
Qed.

End Handlers.

(** What the middleware answers itself. *)
Definition limited : response :=
  Respond StatusTooManyRequests (Error_response "rate limit exceeded").

Lemma Limiter_Middleware_answers {V} `{Runtime V} sch (next : Handler (Limiter * V)) r s :
  answers sch limited = true -> (forall s, answers sch (next r s).1 = true) ->
  answers sch (Limiter_Middleware next r s).1 = true.
Proof.
  intros Hl Hn. destruct s as [l v]. unfold Limiter_Middleware, mbind, M_bind.
  rewrite lift_snd_eq. unfold get_fst, put_fst. cbn [fst snd].
  by destruct (allow l _ _) as [[|] l1].
Qed.

Lemma RequireAuth_answers {W} `{Runtime W, JWT} oob v sch (next : Handler W) r s :
  (forall msg, msg <> "" ->
     answers sch (Respond StatusUnauthorized (Error_response msg)) = true) ->
  (forall r s, answers sch (next r s).1 = true) ->
  answers sch (RequireAuth oob v next r s).1 = true.
Proof.
  intros Hu Hn. unfold RequireAuth. destruct (negb _); [by apply Hu|]. unfold mbind, M_bind.
  destruct (time_Now s) as [now s1]. destruct (Verify _ _ _ _) as [c|e]; [apply Hn|by apply Hu].
Qed.

(** ** The property *)

(** chi's [RequestID] adds a value to the context and leaves the rest alone. *)
Class RequestIDsSpec `{RequestIDs} : Prop :=
  request_id_spec r : exists ctx, RequestID r = WithContext r ctx.

(** The middleware around the routes leaves the rest of the request alone. *)
Lemma routed_request `{RequestIDsSpec} r : exists ctx, propagated (RequestID r) = WithContext r ctx.
Proof.
  destruct (request_id_spec r) as [ctx Hid]. unfold propagated. rewrite Hid.
  case_bool_decide; by eexists.
Qed.

Section Property.
Context {W} `{URLService W, AuthService W, Pinger W, Runtime W}.
Context `{JWT, ValidatorEngine, MailLib, MuxSpec, RequestIDsSpec}.
Context `{BodyDecoder SaveRequest, BodyDecoder registerRequest, BodyDecoder loginRequest,
          BodyDecoder refreshRequest}.
Context (uint64_oob : float64 -> Z) (verifier : Verifier).

Lemma serve_write_answers ep (h : Handler W) r s : ep = EpSave \/ ep = EpDelete ->
  (forall r w, answers (endpoint_schema ep) (h r w).1 = true) ->
  answers (endpoint_schema ep) (serve_write uint64_oob verifier h r s).1 = true.
Proof.
  intros Hep Hh. destruct s as [al s]. unfold serve_write. rewrite lift_snd_eq.
  apply RequireAuth_answers.
  - intros msg Hm. destruct Hep as [-> | ->]; (apply answers_tail, answers_error; [listed|done]).
  - intros r' s'. apply Limiter_Middleware_answers; [by destruct Hep as [-> | ->]|].
    intros [l w]. rewrite lift_snd_eq. apply Hh.
Qed.

Lemma serve_auth_answers r s :
  answers (match auth_endpoint (Method r) (sub_path (URL_Path r) "/auth") with
           | Some ep => endpoint_schema ep
           | None => errors_of [StatusTooManyRequests] ++
               unrouted_schema auth_routes (Method r) (sub_path (URL_Path r) "/auth")
           end) (serve_auth r s).1 = true.
Proof.
  pose proof (find_auth_routes (Method r) (sub_path (URL_Path r) "/auth")) as Hf.
  unfold serve_auth, serve_auth_route. apply Limiter_Middleware_answers.
  - rewrite <- Hf. destruct (find_route auth_routes _ _) as [rt|]; simpl in *;
      [|by apply answers_head]. symmetry in Hf. revert Hf. unfold auth_endpoint.
    by repeat case_bool_decide; intros [= <-].
  - intros [l [l' w]]. destruct (find_route auth_routes _ _) as [rt|] eqn:Er; simpl in Hf;
      rewrite <- Hf; [|by apply answers_tail, unrouted_answers].
    assert (Hep : rt_endpoint rt ∈ [EpRegister; EpLogin; EpRefresh; EpLogout])
      by (by eapply auth_endpoint_inv).
    destruct (rt_endpoint rt); try by (exfalso; set_solver).
    all: rewrite !lift_snd_eq; cbn [fst snd].
    + apply Register_answers.
    + apply Login_answers.
    + apply Refresh_answers.
    + apply Logout_answers.
Qed.
Lemma serve_route_answers r s :
  answers (api (Method r) (URL_Path r)) (serve_route uint64_oob verifier r s).1 = true.
Proof.
  unfold serve_route.
  set (r' := match alias_of (URL_Path r) with Some a => WithAlias r a | None => r end).
  assert (Hr' : Method r' = Method r /\ URL_Path r' = URL_Path r)
    by (subst r'; by destruct (alias_of (URL_Path r))).
  destruct Hr' as (Hm & Hp). rewrite Hm, Hp. unfold api. clearbody r'.
  pose proof (find_routes (Method r) (URL_Path r)) as Hf. rewrite <- Hf.
  destruct s as [al [wl w]].
  destruct (find_route routes _ _) as [rt|] eqn:Er; [|by apply unrouted_answers].
  symmetry in Hf. apply table_endpoint_inv in Hf. cbn [fmap option_fmap option_map].
  destruct (rt_endpoint rt); try done; rewrite ?lift_snd_eq; cbn [fst snd].
  - apply Handler_Get_answers.
  - apply serve_write_answers; [by left|apply Handler_Save_answers].
  - apply serve_write_answers; [by right|apply Handler_Delete_answers].
  - apply ReadinessProbe_answers.
  - rewrite <- Hm, <- Hp. apply serve_auth_answers.
Qed.

(** A redirect is the answer of a lookup. *)
Lemma redirect_is_lookup r s code u :
  (serve_route uint64_oob verifier r s).1 = RespRedirect code u ->
  exists r', serve_route uint64_oob verifier r s = lift_snd (lift_snd (Handler_Get r')) s.
Proof.
  intros Hr. pose proof (serve_route_answers r s) as Ha. rewrite Hr in Ha.
  apply answers_redirect in Ha.
  pose proof (find_routes (Method r) (URL_Path r)) as Hf. unfold api in Ha.
  unfold serve_route in *.
  set (r' := match alias_of (URL_Path r) with Some a => WithAlias r a | None => r end) in *.
  assert (Hr' : Method r' = Method r /\ URL_Path r' = URL_Path r)
    by (subst r'; by destruct (alias_of (URL_Path r))).
  destruct Hr' as (Hm & Hp). rewrite Hm, Hp in *. rewrite <- Hf in Ha.
  destruct (find_route routes _ _) as [rt|]; cbn [fmap option_fmap option_map] in Ha;
    [|revert Ha; unfold unrouted_schema; by case_match].
  symmetry in Hf. apply table_endpoint_inv in Hf.
  destruct (rt_endpoint rt); try done; [by exists r'|].
  exfalso. destruct (auth_endpoint _ _) as [ep|] eqn:Ep.
  - apply auth_endpoint_inv in Ep. destruct ep; first [discriminate Ha|set_solver].
  - revert Ha. unfold unrouted_schema. by destruct (_ || existsb _ _).
Qed.

(** The level of the access log line for a path and a response. *)
Definition logged_level (path : string) (resp : response) : option level :=
  if bool_decide (path = "/health") then None
  else Some (if 500 <=? resp_code resp then LevelError
             else if 400 <=? resp_code resp then LevelWarn else LevelInfo).

(** The middleware around the routes only changes the context. *)
Lemma NewRouter_route r s : exists ctx,
  NewRouter uint64_oob verifier r s =
    let '(resp, s') := serve_route uint64_oob verifier (WithContext r ctx) s in
    ((resp, logged_level (URL_Path r) resp), s').
Proof.
  destruct (routed_request r) as [ctx' Hr]. exists ctx'. unfold NewRouter. rewrite Hr.
  unfold access_log, logged_level, mbind, M_bind.
  change (URL_Path (WithContext r ctx')) with (URL_Path r).
  destruct (bool_decide (URL_Path r = "/health"));
    by destruct (serve_route uint64_oob verifier (WithContext r ctx') s).
Qed.

(** C16: Every answer is well typed.  Whatever the request, the state and the
    services behind the handlers do, the router answers with a status of the
    schema of its method and path and with a body of the type the schema gives
    to that status; a path without a route is answered 405 if the path is
    routed for another method and 404 otherwise.  The access log has one line,
    at the level of the status, for every path but /health. *)
Theorem responses_typed r s :
  exists resp s',
    NewRouter uint64_oob verifier r s = ((resp, logged_level (URL_Path r) resp), s') /\
    answers (api (Method r) (URL_Path r)) resp = true.
Proof.
  destruct (NewRouter_route r s) as [ctx ->].
  pose proof (serve_route_answers (WithContext r ctx) s) as Ha.
  destruct (serve_route uint64_oob verifier (WithContext r ctx) s) as [resp s'].
  by exists resp, s'.
Qed.
End Property.

(** ** Evaluation *)

#[export] Instance demo_ids_ok : RequestIDsSpec.
Proof. intros r. exists (Context_of r). by destruct r. Qed.

(** The schemas of some paths: a link under /auth, a wrong method, no route. *)
Example api_examples :
  api "PUT" "/docs" = [(405, BEmpty)] /\ api "GET" "/a/b" = [(404, BText not_found_body)] /\
  api "GET" "/url" = endpoint_schema EpGet /\ api "POST" "/auth/login" = endpoint_schema EpLogin /\
  api "GET" "/auth/login" = [(429, BJson TError); (405, BEmpty)].
Proof. by vm_compute. Qed.

(** A body that is not of the type is told apart. *)
Example has_type_rejects :
  has_type TTokens (JObject (Response_fields Ok_response)) = false /\
  has_type TError (JObject (Response_fields Ok_response)) = false /\
  answers (endpoint_schema EpGet) (RespRedirect 301 "https://a") = false.
Proof. by vm_compute. Qed.

Lemma responses_typed_witness :
  exists resp s',
    NewRouter RouterDemo.oob TableJWT.verifier (RouterDemo.request_of "PUT" "/docs" "")
      (RouterDemo.limiters 10) = ((resp, Some LevelWarn), s') /\
    answers [(405, BEmpty)] resp = true.
Proof.
  destruct (responses_typed RouterDemo.oob TableJWT.verifier
    (RouterDemo.request_of "PUT" "/docs" "") (RouterDemo.limiters 10)) as (resp & s' & He & Ha).
  exists resp, s'. split; [|exact Ha].
  assert (resp = RespEmpty 405) as -> by (vm_compute in He; by injection He). exact He.
Defined.
