(* ===== verification/Throttle.v ===== *)
(** * The auth endpoints are throttled

    The router and the rate limiter together: of the requests of one address to
    "/auth", only so many get past the auth limiter in a span of time, whatever
    else the service is asked to do in between.  [Router] says where a request
    goes, [RateSpan] what a limiter lets through. *)

From S2P Require Import Prelude GoErrors GoStrings GoFloat Authn Runtime Http Response.
From S2P Require Import RateLimit RateSpan Random Storage Service.
From S2P Require Import Validation Handlers Links Sso Router Schema.

(** Requests below the mount point of the auth endpoints. *)
Definition is_auth (r : request) : bool :=
  match table_endpoint (Method r) (URL_Path r) with Some EpAuth => true | _ => false end.

(** The requests of an address to the auth endpoints, and those among them that
    were not turned down by a limiter. *)
Fixpoint attempts (ip : string) (log : list (request * response)) : Z :=
  match log with
  | [] => 0
  | (r, _) :: log =>
      (if is_auth r && bool_decide (clientIP r = ip) then 1 else 0) + attempts ip log
  end.
Fixpoint let_in (ip : string) (log : list (request * response)) : Z :=
  match log with
  | [] => 0
  | (r, resp) :: log =>
      (if is_auth r && bool_decide (clientIP r = ip) &&
          negb (resp_code resp =? StatusTooManyRequests) then 1 else 0) + let_in ip log
  end.

Section Throttle.
Context {W} `{URLService W, AuthService W, Pinger W, Runtime W}.
Context `{JWT, EngineSpec, MailLib, MuxSpec, RequestIDsSpec}.
Context `{BodyDecoder SaveRequest, BodyDecoder registerRequest, BodyDecoder loginRequest,
          BodyDecoder refreshRequest}.
Context (uint64_oob : float64 -> Z) (verifier : Verifier).
Variable clock : W -> Z.

Definition forward (w w' : W) : Prop := clock w <= clock w'.

#[local] Instance forward_refl : Reflexive forward.
Proof. intros w. unfold forward. lia. Qed.
#[local] Instance forward_trans : Transitive forward.
Proof. intros w1 w2 w3. unfold forward. lia. Qed.

(** The monotonic clock: a reading lies between the clock before and after, and
    nothing turns it back. *)
Class Clock : Prop := {
  clock_reading w : clock w <= (time_Now w).1 <= clock (time_Now w).2;
  svc_Save_forward ctx u a :: Preserves forward (svc_Save ctx u a);
  svc_Get_forward ctx a :: Preserves forward (svc_Get ctx a);
  svc_Delete_forward ctx a :: Preserves forward (svc_Delete ctx a);
  sso_Register_forward ctx e p :: Preserves forward (sso_Register ctx e p);
  sso_Login_forward ctx e p :: Preserves forward (sso_Login ctx e p);
  sso_RefreshTokens_forward ctx t :: Preserves forward (sso_RefreshTokens ctx t);
  sso_Logout_forward ctx t :: Preserves forward (sso_Logout ctx t);
  db_Ping_forward ctx :: Preserves forward (db_Ping ctx);
  redis_Ping_forward ctx :: Preserves forward (redis_Ping ctx);
}.

Context `{!Clock}.

#[local] Instance time_Now_forward : Preserves forward time_Now.
Proof. intros w. pose proof (clock_reading w). unfold forward. lia. Qed.

#[local] Abbreviation state := (sys (W := W)).
#[local] Existing Instance runtime_lift.

(** A run of the service: requests, passes of the sweepers, and time. *)
Inductive runs : state -> list (request * response) -> state -> Prop :=
| runs_nil s : runs s [] s
| runs_request s r resp lvl s1 log s2 :
    NewRouter uint64_oob verifier r s = ((resp, lvl), s1) -> runs s1 log s2 ->
    runs s ((r, resp) :: log) s2
| runs_sweep_auth al wl w c log s2 :
    c <= clock w -> runs (sweep al c, (wl, w)) log s2 -> runs (al, (wl, w)) log s2
| runs_sweep_write al wl w c log s2 :
    c <= clock w -> runs (al, (sweep wl c, w)) log s2 -> runs (al, (wl, w)) log s2
| runs_time al wl w w' log s2 :
    forward w w' -> runs (al, (wl, w')) log s2 -> runs (al, (wl, w)) log s2.

(** ** One request *)

(** A request to the auth endpoints is one call of [allow]. *)
Lemma serve_auth_limited r (al wl : Limiter) (w : W) :
  exists now w', clock w <= now <= clock w' /\
    (serve_auth r (al, (wl, w))).2 = ((allow al now (clientIP r)).2, (wl, w')) /\
    ((allow al now (clientIP r)).1 = false ->
     resp_code (serve_auth r (al, (wl, w))).1 = StatusTooManyRequests).
Proof.
  exists (time_Now w).1. pose proof (clock_reading w) as Hr. unfold serve_auth.
  rewrite Limiter_Middleware_eq.
  assert (E : time_Now (W := Limiter * W) (wl, w) = ((time_Now w).1, (wl, (time_Now w).2)))
    by apply lift_snd_eq.
  rewrite E. cbn [fst snd].
  destruct (allow al (time_Now w).1 (clientIP r)) as [[|] l1]; cbn [fst snd].
  - destruct (serve_auth_route_preserves forward r l1 wl (time_Now w).2) as (w' & E' & Hw);
      [apply _..|]. exists w'. unfold forward in Hw. split; [lia|]. by split.
  - exists (time_Now w).2. split; [exact Hr|]. split; [reflexivity|]. intros _. reflexivity.
Qed.

(** Other requests leave the auth limiter alone. *)
Lemma serve_write_unlimited (h : Handler W) r (s : state) :
  (serve_write uint64_oob verifier h r s).2.1 = s.1.
Proof. destruct s as [al v]. unfold serve_write. by rewrite lift_snd_eq. Qed.

Lemma route_limited r (al wl : Limiter) (w : W) :
  let s' := (serve_route uint64_oob verifier r (al, (wl, w))).2 in
  forward w s'.2.2 /\
  if is_auth r then
    exists now, clock w <= now <= clock s'.2.2 /\ s'.1 = (allow al now (clientIP r)).2 /\
      ((allow al now (clientIP r)).1 = false ->
       resp_code (serve_route uint64_oob verifier r (al, (wl, w))).1 = StatusTooManyRequests)
  else s'.1 = al.
Proof.
  intros s'. split.
  { subst s'. apply (serve_route_preserves uint64_oob verifier forward r (al, (wl, w))).
    all: try apply _.
    - intros. apply Handler_Get_preserves; apply _.
    - intros. apply Handler_Save_preserves; apply _.
    - intros. apply Handler_Delete_preserves; apply _.
    - intros. apply ReadinessProbe_preserves; apply _. }
  subst s'. unfold is_auth, serve_route. pose proof (find_routes (Method r) (URL_Path r)) as Hf.
  set (r' := match alias_of (URL_Path r) with Some a => WithAlias r a | None => r end).
  assert (Hr' : Method r' = Method r /\ URL_Path r' = URL_Path r /\ clientIP r' = clientIP r)
    by (subst r'; by destruct (alias_of (URL_Path r))).
  destruct Hr' as (Hm & Hp & Hip). rewrite Hm, Hp.
  destruct (find_route routes _ _) as [rt|]; simpl in Hf; rewrite <- Hf; [|done].
  symmetry in Hf. apply table_endpoint_inv in Hf.
  destruct (rt_endpoint rt); try done; rewrite ?lift_snd_eq; try apply serve_write_unlimited; [done..|].
  destruct (serve_auth_limited r' al wl w) as (now & w' & Hnow & -> & Hcode). rewrite Hip in *.
  by exists now.
Qed.

(** ** Runs *)

Lemma timed_before es t0 t0' t1 : t0' <= t0 -> timed t0 t1 es -> timed t0' t1 es.
Proof. destruct es as [|e es]; simpl; [lia|]. intros Ht (? & ? & ?). split_and!; [lia|done|done]. Qed.

(** A request, in the terms of the limiter. *)
Lemma request_limited r (s : state) resp lvl s1 :
  NewRouter uint64_oob verifier r s = ((resp, lvl), s1) ->
  clock s.2.2 <= clock s1.2.2 /\
  if is_auth r then
    exists now, clock s.2.2 <= now <= clock s1.2.2 /\ s1.1 = (allow s.1 now (clientIP r)).2 /\
      ((allow s.1 now (clientIP r)).1 = false -> resp_code resp = StatusTooManyRequests)
  else s1.1 = s.1.
Proof.
  destruct (NewRouter_route uint64_oob verifier r s) as [ctx ->]. destruct s as [al [wl w]].
  pose proof (route_limited (WithContext r ctx) al wl w) as Hl. simpl in Hl.
  destruct (serve_route uint64_oob verifier (WithContext r ctx) (al, (wl, w))) as [resp1 s2].
  intros [= <- _ <-]. exact Hl.
Qed.

(** The run of the auth limiter inside a run of the service. *)
Lemma runs_limiter ip s log s' : runs s log s' ->
  exists es, timed (clock s.2.2) (clock s'.2.2) es /\
    let_in ip log <= passed ip (run s.1 es).1 /\
    requests ip (run s.1 es).1 <= attempts ip log.
Proof.
  induction 1 as [s|s r resp lvl s1 log s2 E _ (es & Ht & Hp & Hr)
    |al wl w c log s2 Hc _ (es & Ht & Hp & Hr)|al wl w c log s2 Hc _ IH
    |al wl w w' log s2 Hw _ (es & Ht & Hp & Hr)].
  - exists []. simpl. split_and!; [lia|done|done].
  - apply request_limited in E as [Hfwd E]. simpl. destruct (is_auth r); simpl.
    + destruct E as (now & Hnow & Hal & Hcode). exists (Request now (clientIP r) :: es).
      cbn [timed event_time event_ok run apply].
      destruct (allow s.1 now (clientIP r)) as [ok l1]. simpl in Hal, Hcode. rewrite Hal in Hp, Hr.
      destruct (run l1 es) as [rs l2]. simpl in Hp, Hr |- *. rewrite passed_cons, requests_cons.
      split_and!; [lia|done|eapply timed_before; [|exact Ht]; lia| |lia].
      destruct ok; [destruct (bool_decide _), (resp_code resp =? _); simpl; lia|].
      rewrite Hcode by done. rewrite andb_false_r. simpl. lia.
    + exists es. rewrite E in Hp, Hr. split_and!; [by eapply timed_before|lia|lia].
  - exists (Tick c (clock w) :: es). simpl in *. destruct (run (sweep al c) es) as [rs l2].
    simpl in *. split_and!; (done || lia).
  - exact IH.
  - exists es. split_and!; [by eapply timed_before|done|done].
Qed.

(** C6: A client that tries passwords gets so far: of the requests of one address to
    the auth endpoints, whatever else the service serves meanwhile and whenever
    its sweepers run, at most the burst, what the rate refills in the time, and
    one more are not answered with 429. *)
Theorem auth_endpoints_throttled s log s' T ip r b :
  runs s log s' -> limiter_ok s.1 (clock s.2.2) -> 0 <= clock s.2.2 ->
  clock s'.2.2 <= int64_max -> ttl_covers s.1 T ->
  0 < r < 2 ^ 53 -> rate s.1 = F_of_Z r -> 0 < b < 2 ^ 53 -> burst s.1 = F_of_Z b ->
  attempts ip log * b <= 2 ^ 48 ->
  let_in ip log <= b + r * (clock s'.2.2 - clock s.2.2) / Second + 1.
Proof.
  intros Hruns Hl Hstart Hend HT Hr Er Hb Eb Hn.
  destruct (runs_limiter ip _ _ _ Hruns) as (es & Ht & Hp & Hq).
  etransitivity; [exact Hp|]. apply (rate_bound s.1 _ _ T); try done. nia.
Qed.
End Throttle.

(** ** Evaluation *)

(** Eight logins of one client at once, with a redirect in between. *)
Definition logins : list request :=
  replicate 4 (RouterDemo.request_of "POST" "/auth/login" "") ++
  [RouterDemo.request_of "GET" "/docs" ""] ++
  replicate 4 (RouterDemo.request_of "POST" "/auth/login" "").

Fixpoint serve_log (rs : list request) (s : sys (W := Z)) : list (request * response) * sys (W := Z) :=
  match rs with
  | [] => ([], s)
  | r :: rs =>
      let '((resp, _), s1) := NewRouter RouterDemo.oob TableJWT.verifier r s in
      let '(log, s2) := serve_log rs s1 in ((r, resp) :: log, s2)
  end.

Lemma serve_log_runs rs s :
  runs RouterDemo.oob TableJWT.verifier id s (serve_log rs s).1 (serve_log rs s).2.
Proof.
  revert s. induction rs as [|r rs IH]; intros s; simpl; [constructor|].
  destruct (NewRouter RouterDemo.oob TableJWT.verifier r s) as [[resp lvl] s1] eqn:E.
  specialize (IH s1). destruct (serve_log rs s1) as [log s2]. by econstructor.
Qed.

#[local] Instance demo_clock : Clock (W := Z) id.
Proof.
  split; try (intros; intros w; unfold forward; simpl; repeat case_match; simpl; lia).
  intros w. simpl. lia.
Qed.

(** Five of the eight logins get through, and the redirect is none of them. *)
Lemma auth_endpoints_throttled_witness :
  let log := (serve_log logins (RouterDemo.limiters 10)).1 in
  attempts "10.0.0.1" log = 8 /\ let_in "10.0.0.1" log = 5 /\
  let_in "10.0.0.1" log <= 5 + 1 * (10 - 10) / Second + 1.
Proof.
  intros log. split; [vm_compute; reflexivity|]. split; [vm_compute; reflexivity|].
  apply (auth_endpoints_throttled RouterDemo.oob TableJWT.verifier id (RouterDemo.limiters 10) log
    (serve_log logins (RouterDemo.limiters 10)).2 600 "10.0.0.1" 1 5).
  - apply serve_log_runs.
  - apply New_ok; [apply authLimiter_config|done].
  - discriminate.
  - vm_compute. discriminate.
  - exact authLimiter_ttl.
  - lia.
  - reflexivity.
  - lia.
  - reflexivity.
  - vm_compute. discriminate.
Defined.
