(* ===== verification/Bootstrap.v ===== *)
(** * Start-up and shutdown: internal/bootstrap, internal/app, internal/config, cmd

    The providers, the constructors of the connections ([InitPostgres],
    [InitRedis]), the wiring of wire_gen.go with its cleanups, the HTTP server,
    [App.Run] and [main].  The drivers, the HTTP server, the file system and the configuration
    reader are libraries and appear as the class [Infra]; a cleanup is a
    computation, as it is a [func()] in Go. *)

From S2P Require Import Prelude GoErrors GoStrings GoFloat Authn Runtime.
From S2P Require Import Http Response Logging Random Storage Service Sso.
From S2P Require Cache.

(** ** Configuration *)

(** [type SSOConfig struct] *)
Record SSOConfig := {
  SSO_Addr : string; SSO_ApplicationID : Z; AppSecret : string; SSO_DialTimeout : Z }.

(** [type HTTPServer struct] *)
Record HTTPServer := { Address : string; Timeout : Z; IdleTimeout : Z }.

(** [type Config struct] *)
Record Config := {
  Env : string;
  DatabaseURL : string;
  RedisAddr : string;
  ServerConfig : HTTPServer;
  AliasLength : Z;
  Cfg_MaxRetries : Z;
  Cfg_TTL : Z;
  RunMigrations_flag : bool;
  SSO : SSOConfig;
}.

(** ** The outside *)

(** [pgxpool.Config], as far as the code sets it *)
Record pool_config := {
  ConnString : string;
  MaxConns : Z; MinConns : Z; MaxConnLifetime : Z; MaxConnIdleTime : Z; HealthCheckPeriod : Z }.

(** [redis.Options] *)
Record redis_Options := {
  rd_Addr : string; PoolSize : Z; MinIdleConns : Z;
  rd_DialTimeout : Z; rd_ReadTimeout : Z; rd_WriteTimeout : Z }.

(** [http.Server]; its handler is a parameter of the type. *)
Record http_Server (H : Type) := {
  Srv_Addr : string; Srv_Handler : H;
  Srv_ReadTimeout : Z; Srv_WriteTimeout : Z; Srv_IdleTimeout : Z }.
Arguments Srv_Addr {H} _.
Arguments Srv_Handler {H} _.
Arguments Srv_ReadTimeout {H} _.
Arguments Srv_WriteTimeout {H} _.
Arguments Srv_IdleTimeout {H} _.

(** What the goroutine of the server and the signal channel can deliver to
    [App.Run]: a signal, or the result of [ListenAndServe]. *)
Inductive app_event : Type :=
| EvSignal
| EvListen (err : option error).

Class Infra (W : Type) := {
  (** pgxpool *)
  pgx_ParseConfig : string -> M W (result pool_config);
  pgx_NewPool : context -> pool_config -> M W (option error);
  pgx_New : context -> string -> M W (option error);
  pgx_Ping : context -> M W (option error);
  pgx_Close : M W unit;
  (** go-redis *)
  rd_NewClient : redis_Options -> M W unit;
  rd_Ping : context -> M W (option error);
  rd_Close : M W (option error);
  (** the validator's [RegisterValidation] of a tag *)
  RegisterValidation : string -> M W (option error);
  (** net/http's server, os/signal *)
  srv_Serve : string -> M W unit;
  next_event : M W app_event;
  srv_Shutdown : context -> M W (option error);
  (** migrate *)
  migrate_New : string -> string -> M W (option error);
  migrate_Up : M W (option error);
  migrate_Close : M W unit;
  (** os, flag, cleanenv *)
  flag_config : M W string;
  Getenv : string -> M W string;
  os_Stat : string -> M W (option error);
  ReadConfig : string -> M W (result Config);
}.

(** ** Connections *)

Definition poolMaxConns : Z := 20.
Definition poolMinConns : Z := 2.
Definition poolMaxConnLifetime : Z := Hour.
Definition poolMaxConnIdleTime : Z := 15 * Minute.
Definition poolHealthCheckPeriod : Z := Minute.
Definition connectTimeout : Z := 5 * Second.

Definition dialTimeout : Z := 3 * Second.
Definition readTimeout : Z := 2 * Second.
Definition writeTimeout : Z := 2 * Second.
Definition pingTimeout : Z := 3 * Second.

(** The limits [InitPostgres] sets, whatever the DSN asked for. *)
Definition tuned (poolCfg : pool_config) : pool_config :=
  {| ConnString := ConnString poolCfg;
     MaxConns := poolMaxConns; MinConns := poolMinConns;
     MaxConnLifetime := poolMaxConnLifetime; MaxConnIdleTime := poolMaxConnIdleTime;
     HealthCheckPeriod := poolHealthCheckPeriod |}.

Section Init.
Context {W} `{Infra W, GrpcConn W, Runtime W}.

(** [postgres.InitPostgres]; the repository is the world's, what is returned
    is the cleanup. *)
Definition InitPostgres (dsn : string) : M W (result (M W unit)) :=
  let op := "postgres.InitPostgres" in
  ctx ← WithTimeout Background connectTimeout;
  poolCfg ← pgx_ParseConfig dsn;
  match poolCfg with
  | Err err => mret (Err (wrap_op op err))
  | Ok poolCfg =>
      err ← pgx_NewPool ctx (tuned poolCfg);
      match err with
      | Some err => mret (Err (wrap_op op err))
      | None =>
          err ← pgx_Ping ctx;
          match err with
          | Some err => _ ← pgx_Close; mret (Err (wrap_op op err))
          | None => mret (Ok pgx_Close)
          end
      end
  end.

(** [postgres.New] and [PostgresRepo.Close]; of the repository only whether its
    pool is nil matters. *)
Record repo := { has_pool : bool }.
Definition Postgres_New (ctx : context) (connString : string) : M W (result repo) :=
  let op := "storage.postgres.New" in
  err ← pgx_New ctx connString;
  match err with
  | Some err => mret (Err (wrap_op op err))
  | None => mret (Ok {| has_pool := true |})
  end.
Definition Postgres_Close (s : repo) : M W unit :=
  if has_pool s then pgx_Close else mret tt.

(** [redis.InitRedis] *)
Definition InitRedis (addr : string) : M W (result (M W unit)) :=
  let op := "redis.InitRedis" in
  ctx ← WithTimeout Background pingTimeout;
  _ ← rd_NewClient {| rd_Addr := addr; PoolSize := 10; MinIdleConns := 2;
                      rd_DialTimeout := dialTimeout; rd_ReadTimeout := readTimeout;
                      rd_WriteTimeout := writeTimeout |};
  err ← rd_Ping ctx;
  match err with
  | Some err => mret (Err (wrap_op op err))
  | None => mret (Ok (_ ← rd_Close; mret tt))
  end.

(** ** Providers *)

Definition provideServiceConfig (cfg : Config) : Service.Config :=
  {| MaxRetries := Cfg_MaxRetries cfg |}.
Definition provideAliasGenerator (cfg : Config) : Generator := Random.New (AliasLength cfg).
Definition provideRedis (cfg : Config) : M W (result (M W unit)) := InitRedis (RedisAddr cfg).
Definition provideDatabaseURL (cfg : Config) : string := DatabaseURL cfg.
Definition provideCacheTTL (cfg : Config) : Z := Cfg_TTL cfg.

(** [registerURLScheme] and [validation.New] *)
Definition registerURLScheme : M W (option error) := RegisterValidation "url_scheme".
Definition validation_New : M W (result unit) :=
  err ← RegisterValidation "alias";
  match err with
  | Some err => mret (Err err)
  | None =>
      err ← registerURLScheme;
      match err with
      | Some err => mret (Err err)
      | None => mret (Ok tt)
      end
  end.
Definition provideValidator : M W (result unit) := validation_New.

(** [provideLogger] *)
Definition envLocal : string := "local".
Definition envDev : string := "dev".
Definition envProd : string := "prod".
Definition provideLogger (cfg : Config) : Logger :=
  let base :=
    if bool_decide (Env cfg = envLocal) then slog_New TextHandler LevelDebug
    else if bool_decide (Env cfg = envDev) then slog_New JSONHandler LevelDebug
    else if bool_decide (Env cfg = envProd) then slog_New JSONHandler LevelInfo
    else slog_New JSONHandler LevelInfo in
  With base [AString "service" "url-shortener"].

Definition defaultSSODialTimeout : Z := 5 * Second.

Definition provideSSOClientOptions (cfg : Config) : Options :=
  {| Addr := SSO_Addr (SSO cfg); ApplicationID := SSO_ApplicationID (SSO cfg);
     DialTimeout := if SSO_DialTimeout (SSO cfg) =? 0 then defaultSSODialTimeout
                    else SSO_DialTimeout (SSO cfg);
     TLS := None |}.

(** [provideSSOClient]; [None] when the dial is out of fuel *)
Definition provideSSOClient (fuel : nat) (opts : Options) :
    M W (option (result (Client * M W unit))) :=
  r ← Sso.New fuel Background opts;
  mret (match r with
        | None => None
        | Some (Err err) => Some (Err (Errorf "connect to sso: " err ""))
        | Some (Ok c) => Some (Ok (c, _ ← Client_Close; mret tt))
        end).

Definition provideAuthVerifier (cfg : Config) : result Verifier :=
  NewVerifier (AppSecret (SSO cfg)) (SSO_ApplicationID (SSO cfg)).

(** ** The wiring *)

(** What the router is built from: the handler [NewRouter] returns is a
    function of these. *)
Record wiring := {
  w_logger : Logger; w_cache : Cache.Cache; w_service : Service; w_generator : Generator;
  w_client : Client; w_verifier : Verifier }.

(** The steps [InitializeRouter] and [InitializeApp] share: everything up to
    the router, which [finish] is given. *)
Definition assemble {A} (finish : wiring -> A) (fuel : nat) (cfg : Config) :
    M W (option (result (A * M W unit))) :=
  let logger := provideLogger cfg in
  pg ← InitPostgres (provideDatabaseURL cfg);
  match pg with
  | Err err => mret (Some (Err err))
  | Ok cleanup =>
      rd ← provideRedis cfg;
      match rd with
      | Err err => _ ← cleanup; mret (Some (Err err))
      | Ok cleanup2 =>
          let cache := Cache.New (provideCacheTTL cfg) in
          let generator := provideAliasGenerator cfg in
          match Service.New (provideServiceConfig cfg) with
          | Err err => _ ← cleanup2; _ ← cleanup; mret (Some (Err err))
          | Ok service =>
              validate ← provideValidator;
              match validate with
              | Err err => _ ← cleanup2; _ ← cleanup; mret (Some (Err err))
              | Ok _ =>
                  sso ← provideSSOClient fuel (provideSSOClientOptions cfg);
                  match sso with
                  | None => mret None
                  | Some (Err err) => _ ← cleanup2; _ ← cleanup; mret (Some (Err err))
                  | Some (Ok (client, cleanup3)) =>
                      match provideAuthVerifier cfg with
                      | Err err =>
                          _ ← cleanup3; _ ← cleanup2; _ ← cleanup; mret (Some (Err err))
                      | Ok verifier =>
                          mret (Some (Ok (finish {| w_logger := logger; w_cache := cache;
                                                    w_service := service;
                                                    w_generator := generator;
                                                    w_client := client;
                                                    w_verifier := verifier |},
                                          (_ ← cleanup3; _ ← cleanup2; cleanup))))
                      end
                  end
              end
          end
      end
  end.

(** [InitializeRouter] *)
Definition InitializeRouter (fuel : nat) (cfg : Config) :
    M W (option (result (wiring * M W unit))) := assemble (fun handler => handler) fuel cfg.

(** [httptransport.NewServer] *)
Definition NewServer (cfg : Config) (handler : wiring) : http_Server wiring :=
  {| Srv_Addr := Address (ServerConfig cfg); Srv_Handler := handler;
     Srv_ReadTimeout := Timeout (ServerConfig cfg);
     Srv_WriteTimeout := Timeout (ServerConfig cfg);
     Srv_IdleTimeout := IdleTimeout (ServerConfig cfg) |}.

(** [type App struct] and [app.New] *)
Record App := { app_log : Logger; app_server : http_Server wiring }.
Definition app_New (log : Logger) (server : http_Server wiring) : App :=
  {| app_log := log; app_server := server |}.

(** [InitializeApp] *)
Definition InitializeApp (fuel : nat) (cfg : Config) : M W (option (result (App * M W unit))) :=
  assemble (fun handler => app_New (w_logger handler) (NewServer cfg handler)) fuel cfg.

(** [RunMigrations] *)
Definition RunMigrations (path : string) (cfg : Config) : M W (option error) :=
  let op := "bootstrap.RunMigrations" in
  err ← migrate_New path (DatabaseURL cfg);
  match err with
  | Some err => mret (Some (Errorf (op +:+ ": create migrate instance: ") err ""))
  | None =>
      err ← migrate_Up;
      _ ← migrate_Close;
      mret (match err with
            | None => None
            | Some err => if errors_Is err (SLib MigrateErrNoChange) then None
                          else Some (Errorf (op +:+ ": apply migrations: ") err "")
            end)
  end.

(** ** [App.Run] *)

Definition shutdownTimeout : Z := 10 * Second.

(** The [select]: a failure of the server, unless it is [ErrServerClosed], or
    a signal; [None] when out of fuel. *)
Fixpoint await (fuel : nat) : M W (option (option error)) :=
  match fuel with
  | O => mret None
  | S fuel' =>
      ev ← next_event;
      match ev with
      | EvSignal => mret (Some None)
      | EvListen (Some err) =>
          if errors_Is err (SLib HttpErrServerClosed) then await fuel'
          else mret (Some (Some err))
      | EvListen None => await fuel'
      end
  end.

(** [App.Run]; [cleanup] may be nil. *)
Definition Run (fuel : nat) (a : App) (cleanup : option (M W unit)) :
    M W (option (option error)) :=
  let cleanup := default (mret tt) cleanup in
  _ ← srv_Serve (Srv_Addr (app_server a));
  ev ← await fuel;
  match ev with
  | None => mret None
  | Some (Some err) => _ ← cleanup; mret (Some (Some (Errorf "http server: " err "")))
  | Some None =>
      ctx ← WithTimeout Background shutdownTimeout;
      _ ← srv_Shutdown ctx;
      _ ← cleanup;
      mret (Some None)
  end.

(** ** [main] *)

(** How the process ends. *)
Inductive exit : Type :=
| ExitOk
| Panicked (msg : string)
| Fatal (msg : string).

(** [config.MustLoad] *)
Definition MustLoad (configPath : string) : M W (exit + Config) :=
  if bool_decide (configPath = "") then mret (inl (Panicked "config path is empty"))
  else
    err ← os_Stat configPath;
    match err with
    | Some e =>
        if errors_Is e (SLib OsErrNotExist)
        then mret (inl (Panicked ("config file does not exist: " +:+ configPath)))
        else
          c ← ReadConfig configPath;
          mret (match c with
                | Err e => inl (Panicked ("failed to read config: " +:+ error_text e))
                | Ok cfg => inr cfg
                end)
    | None =>
        c ← ReadConfig configPath;
        mret (match c with
              | Err e => inl (Panicked ("failed to read config: " +:+ error_text e))
              | Ok cfg => inr cfg
              end)
    end.

(** [fetchConfigPath] *)
Definition fetchConfigPath : M W string :=
  res ← flag_config;
  if bool_decide (res = "") then Getenv "CONFIG_PATH" else mret res.

(** [main]; [None] when out of fuel *)
Definition main (fuel : nat) : M W (option exit) :=
  path ← fetchConfigPath;
  loaded ← MustLoad path;
  match loaded with
  | inl ex => mret (Some ex)
  | inr cfg =>
      merr ← (if RunMigrations_flag cfg then RunMigrations "file://./migrations" cfg
              else mret None);
      match merr with
      | Some err => mret (Some (Fatal (error_text err)))
      | None =>
          app ← InitializeApp fuel cfg;
          match app with
          | None => mret None
          | Some (Err err) =>
              mret (Some (Fatal ("failed to initialize app: " +:+ error_text err)))
          | Some (Ok (application, cleanup)) =>
              rerr ← Run fuel application (Some cleanup);
              mret (match rerr with
                    | None => None
                    | Some (Some err) => Some (Fatal (error_text err))
                    | Some None => Some ExitOk
                    end)
          end
      end
  end.
End Init.

(** ** Tracing the resources *)

(** The pool, the Redis client, the SSO connection, and the connections that an
    instance of [migrate] holds. *)
Inductive resource : Set := RPostgres | RRedis | RSso | RMigrate.

(** [Migrated ok]: the migrations were run, and are applied; [Served]: the
    goroutine of the HTTP server was started; [ShutDown]: [server.Shutdown] has
    returned. *)
Inductive event : Set :=
| Opened (r : resource)
| Closed (r : resource)
| Migrated (ok : bool)
| Served
| ShutDown.

(** A failure of [Up] that means there was nothing to do is none. *)
Definition applied (err : option error) : bool :=
  match err with Some err => errors_Is err (SLib MigrateErrNoChange) | None => true end.

Definition traced (W : Type) : Type := list event * W.

Section Traced.
Context {W} `{Infra W, GrpcConn W, Runtime W}.

(** Append the events of the result. *)
Definition note {A} (evs : A -> list event) (m : M W A) : M (traced W) A :=
  fun '(l, w) => let '(a, w') := m w in (a, (l ++ evs a, w')).

Definition event_if {A} (ok : A -> bool) (ev : event) (a : A) : list event :=
  if ok a then [ev] else [].

(** No error. *)
Definition succeeds (err : option error) : bool := bool_decide (err = None).

#[local] Instance traced_runtime : Runtime (traced W) := lift_runtime _.
#[local] Instance traced_infra : Infra (traced W) := {|
  pgx_ParseConfig dsn := lift_snd (pgx_ParseConfig dsn);
  pgx_NewPool ctx cfg :=
    note (event_if succeeds (Opened RPostgres)) (pgx_NewPool ctx cfg);
  pgx_New ctx dsn := note (event_if succeeds (Opened RPostgres)) (pgx_New ctx dsn);
  pgx_Ping ctx := lift_snd (pgx_Ping ctx);
  pgx_Close := note (fun _ => [Closed RPostgres]) pgx_Close;
  rd_NewClient opts := note (fun _ => [Opened RRedis]) (rd_NewClient opts);
  rd_Ping ctx := lift_snd (rd_Ping ctx);
  rd_Close := note (fun _ => [Closed RRedis]) rd_Close;
  RegisterValidation tag := lift_snd (RegisterValidation tag);
  srv_Serve addr := note (fun _ => [Served]) (srv_Serve addr);
  next_event := lift_snd next_event;
  srv_Shutdown ctx := note (fun _ => [ShutDown]) (srv_Shutdown ctx);
  migrate_New p d := note (event_if succeeds (Opened RMigrate)) (migrate_New p d);
  migrate_Up := note (fun e => [Migrated (applied e)]) migrate_Up;
  migrate_Close := note (fun _ => [Closed RMigrate]) migrate_Close;
  flag_config := lift_snd flag_config;
  Getenv k := lift_snd (Getenv k);
  os_Stat p := lift_snd (os_Stat p);
  ReadConfig p := lift_snd (ReadConfig p);
|}.
#[local] Instance traced_conn : GrpcConn (traced W) := {|
  conn_NewClient addr opts := note (event_if is_ok (Opened RSso)) (conn_NewClient addr opts);
  conn_Connect := lift_snd conn_Connect;
  conn_GetState := lift_snd conn_GetState;
  conn_WaitForStateChange ctx st := lift_snd (conn_WaitForStateChange ctx st);
  conn_Close := note (fun _ => [Closed RSso]) conn_Close;
|}.

(** *** A logic of traces *)

(** [m] appends events that [P] relates to its result. *)
Definition logs {A} (P : A -> list event -> Prop) (m : M (traced W) A) : Prop :=
  forall s a s', m s = (a, s') -> exists evs, s'.1 = s.1 ++ evs /\ P a evs.

Lemma logs_ret {A} (P : A -> list event -> Prop) a : P a [] -> logs P (mret a).
Proof. intros HP s b s' [= <- <-]. exists []. by rewrite app_nil_r. Qed.

Lemma logs_bind {A B} (P : A -> list event -> Prop) (Q : B -> list event -> Prop)
    (m : M (traced W) A) (k : A -> M (traced W) B) :
  logs P m -> (forall a evs, P a evs -> logs (fun b evs' => Q b (evs ++ evs')) (k a)) ->
  logs Q (m ≫= k).
Proof.
  intros Hm Hk s b s'. unfold mbind, M_bind. destruct (m s) as [a s1] eqn:E.
  destruct (Hm _ _ _ E) as (evs & Hs1 & HP). intros E'.
  destruct (Hk a evs HP _ _ _ E') as (evs' & Hs2 & HQ).
  exists (evs ++ evs'). by rewrite Hs2, Hs1, (assoc_L app).
Qed.

Lemma logs_weaken {A} (P Q : A -> list event -> Prop) (m : M (traced W) A) :
  logs P m -> (forall a evs, P a evs -> Q a evs) -> logs Q m.
Proof. intros Hm HPQ s a s' E. destruct (Hm _ _ _ E) as (evs & ? & ?). eauto. Qed.

Definition silent {A} (_ : A) (evs : list event) : Prop := evs = [].

Lemma logs_lift {A} (m : M W A) : logs silent (lift_snd m).
Proof.
  intros [l w] a s'. unfold lift_snd. destruct (m w). intros [= _ <-]. exists [].
  by rewrite app_nil_r.
Qed.

Lemma logs_note {A} evs (m : M W A) : logs (fun a l => l = evs a) (note evs m).
Proof.
  intros [l w] a s'. unfold note. destruct (m w) as [b w1]. intros [= -> <-]. by eexists.
Qed.

Lemma logs_silent_bind {A B} (Q : B -> list event -> Prop) (m : M (traced W) A) k :
  logs silent m -> (forall a, logs Q (k a)) -> logs Q (m ≫= k).
Proof. intros Hm Hk. eapply logs_bind; [exact Hm|]. intros a evs ->. apply Hk. Qed.

Lemma logs_WithTimeout ctx d : logs silent (WithTimeout ctx d).
Proof.
  unfold WithTimeout. apply logs_silent_bind; [apply logs_lift|]. intros t. by apply logs_ret.
Qed.

Lemma logs_ctx_Err ctx : logs silent (ctx_Err ctx).
Proof.
  unfold ctx_Err. apply logs_silent_bind; [apply logs_lift|]. intros [|]; [by apply logs_ret|].
  destruct (ctx_deadline ctx); [|by apply logs_ret].
  apply logs_silent_bind; [apply logs_lift|]. intros t. by apply logs_ret.
Qed.

Lemma logs_waitUntilReady fuel ctx : logs silent (waitUntilReady fuel ctx).
Proof.
  induction fuel as [|fuel IH]; [by apply logs_ret|]. cbn [waitUntilReady].
  apply logs_silent_bind; [apply logs_lift|]. intros [|n]; [by apply logs_ret|].
  apply logs_silent_bind; [apply logs_lift|]. intros [|]; [exact IH|].
  apply logs_silent_bind; [apply logs_ctx_Err|]. intros e. by apply logs_ret.
Qed.

(** Events of the constructors. *)
Lemma logs_InitPostgres dsn :
  logs (fun r evs => match r with
    | Ok cleanup => evs = [Opened RPostgres] /\ cleanup = pgx_Close
    | Err _ => evs = [] \/ evs = [Opened RPostgres; Closed RPostgres]
    end) (InitPostgres dsn).
Proof.
  unfold InitPostgres. apply logs_silent_bind; [apply logs_WithTimeout|]. intros ctx.
  apply logs_silent_bind; [apply logs_lift|]. intros [poolCfg|e]; [|by apply logs_ret; left].
  eapply logs_bind; [apply logs_note|]. intros [e|] evs ->; [by apply logs_ret; left|].
  apply logs_silent_bind; [apply logs_lift|]. intros [e|]; [|by apply logs_ret].
  eapply logs_bind; [apply logs_note|]. intros u evs ->. by apply logs_ret; right.
Qed.

Lemma logs_InitRedis addr :
  logs (fun r evs => evs = [Opened RRedis] /\
    match r with Ok cleanup => cleanup = (_ ← rd_Close; mret tt) | Err _ => True end)
    (InitRedis addr).
Proof.
  unfold InitRedis. apply logs_silent_bind; [apply logs_WithTimeout|]. intros ctx.
  eapply logs_bind; [apply logs_note|]. intros u evs ->.
  apply logs_silent_bind; [apply logs_lift|]. intros [e|]; by apply logs_ret.
Qed.

Lemma logs_provideSSOClient fuel opts :
  logs (fun r evs => match r with
    | Some (Ok (_, cleanup)) => evs = [Opened RSso] /\ cleanup = (_ ← Client_Close; mret tt)
    | Some (Err _) => evs = [] \/ evs = [Opened RSso; Closed RSso]
    | None => True
    end) (provideSSOClient fuel opts).
Proof.
  unfold provideSSOClient, Sso.New.
  eapply (logs_bind (fun r evs => match r with
    | Some (Ok _) => evs = [Opened RSso]
    | Some (Err _) => evs = [] \/ evs = [Opened RSso; Closed RSso]
    | None => True end)).
  - destruct (Validate opts); [by apply logs_ret; left|].
    eapply logs_bind; [apply logs_note|]. intros [u|e] evs ->; [|by apply logs_ret; left].
    apply logs_silent_bind; [apply logs_WithTimeout|]. intros ctx.
    apply logs_silent_bind; [apply logs_lift|]. intros u'.
    apply logs_silent_bind; [apply logs_waitUntilReady|].
    intros [[e|]|]; [|by apply logs_ret..].
    eapply logs_bind; [apply logs_note|]. intros v evs ->. by apply logs_ret; right.
  - intros [[c|e]|] evs Hevs; apply logs_ret; rewrite ?app_nil_r; done.
Qed.
End Traced.

Lemma provideSSOClient_ok {W} `{GrpcConn W, Runtime W} fuel cfg (w w' : W) client cleanup :
  provideSSOClient fuel (provideSSOClientOptions cfg) w = (Some (Ok (client, cleanup)), w') ->
  SSO_Addr (SSO cfg) <> "" /\ client = {| appID := SSO_ApplicationID (SSO cfg) |}.
Proof.
  unfold provideSSOClient, mbind, M_bind.
  destruct (Sso.New _ _ _ w) as [[[c|e]|] w1] eqn:En; try by intros [=].
  intros [= -> _ _]. revert En. unfold Sso.New, Validate. cbn [Addr provideSSOClientOptions].
  case_bool_decide; [by intros [=]|]. case_match; [by intros [=]|].
  unfold mbind, M_bind. destruct (conn_NewClient _ _ w) as [[u|e] w2]; [|by intros [=]].
  destruct (WithTimeout _ _ w2) as [ctx w3]. destruct (conn_Connect w3) as [u' w4].
  destruct (waitUntilReady _ _ w4) as [[[e|]|] w5]; [by destruct (conn_Close w5)| |by intros [=]].
  by intros [= <- _].
Qed.

Lemma await_error {W} `{Infra W} fuel (w w' : W) e :
  await fuel w = (Some (Some e), w') -> errors_Is e (SLib HttpErrServerClosed) = false.
Proof.
  revert w. induction fuel as [|fuel IH]; intros w; cbn [await]; [done|].
  unfold mbind, M_bind. destruct (next_event w) as [[|[e'|]] w1]; [done| |apply IH].
  destruct (errors_Is e' _) eqn:He; [apply IH|]. by intros [= <- <-].
Qed.

(** ** Properties *)

(** The traces of a start-up that fails: what was opened is closed, in reverse
    order, except the Redis client whose ping failed. *)
Definition failed_startup_traces : list (list event) :=
  [[];
   [Opened RPostgres; Closed RPostgres];
   [Opened RPostgres; Opened RRedis; Closed RPostgres];
   [Opened RPostgres; Opened RRedis; Closed RRedis; Closed RPostgres];
   [Opened RPostgres; Opened RRedis; Opened RSso; Closed RSso; Closed RRedis; Closed RPostgres]].

Section Properties.
Context {W} `{Infra W, GrpcConn W, Runtime W}.
#[local] Existing Instances traced_runtime traced_infra traced_conn.

Lemma logs_cleanup2 : logs (W := W) (fun _ evs => evs = [Closed RRedis]) (_ ← rd_Close; mret tt).
Proof. eapply logs_bind; [apply logs_note|]. intros e evs ->. by apply logs_ret. Qed.

Lemma logs_pgx_Close : logs (W := W) (fun _ evs => evs = [Closed RPostgres]) pgx_Close.
Proof. apply logs_note. Qed.

Lemma logs_conn_Close : logs (W := W) (fun _ evs => evs = [Closed RSso]) (_ ← Client_Close; mret tt).
Proof. eapply logs_bind; [apply logs_note|]. intros e evs ->. by apply logs_ret. Qed.

(** Closing what is open after the step that failed, then giving up. *)
Lemma logs_exit_with {A} (P : option (result A) -> list event -> Prop) (close : M (traced W) unit)
    evs e :
  logs (fun _ evs' => evs' = evs) close -> P (Some (Err e)) evs ->
  logs P (_ ← close; mret (Some (Err e))).
Proof.
  intros Hc HP. eapply logs_bind; [exact Hc|]. intros u evs' ->. apply logs_ret.
  by rewrite app_nil_r.
Qed.

Lemma logs_provideValidator : logs (W := W) silent provideValidator.
Proof.
  apply logs_silent_bind; [apply logs_lift|]. intros [e|]; [by apply logs_ret|].
  apply logs_silent_bind; [apply logs_lift|]. intros [e|]; by apply logs_ret.
Qed.

Definition startup_trace {A} (r : option (result (A * M (traced W) unit)))
    (evs : list event) : Prop :=
  match r with
  | None => True
  | Some (Err _) => evs ∈ failed_startup_traces
  | Some (Ok (_, cleanup)) =>
      evs = [Opened RPostgres; Opened RRedis; Opened RSso] /\
      logs (fun _ evs => evs = [Closed RSso; Closed RRedis; Closed RPostgres]) cleanup
  end.

Ltac in_traces := unfold startup_trace, failed_startup_traces; simpl; set_solver.

Lemma logs_assemble {A} (finish : wiring -> A) fuel cfg :
  logs startup_trace (assemble finish fuel cfg).
Proof.
  unfold assemble. eapply logs_bind; [apply logs_InitPostgres|].
  intros [cleanup|e] evs Hpg; [destruct Hpg as [-> ->]|apply logs_ret; rewrite app_nil_r;
    destruct Hpg as [-> | ->]; in_traces].
  eapply logs_bind; [apply logs_InitRedis|].
  intros [cleanup2|e] evs [-> Hrd]; [subst cleanup2|
    eapply logs_exit_with; [apply logs_pgx_Close|in_traces]].
  assert (Hboth : forall e, logs
    (fun (b : option (result (A * _))) evs' => startup_trace b ([Opened RPostgres] ++ [Opened RRedis] ++ evs'))
    (_ ← (_ ← rd_Close; mret tt); _ ← pgx_Close; mret (Some (Err e)))).
  { intros e. eapply logs_bind; [apply logs_cleanup2|]. intros u evs ->.
    eapply logs_exit_with; [apply logs_pgx_Close|in_traces]. }
  destruct (Service.New _) as [service|e]; [|apply Hboth].
  apply logs_silent_bind; [apply logs_provideValidator|]. intros [v|e]; [|apply Hboth].
  eapply logs_bind; [apply logs_provideSSOClient|].
  intros [[[client cleanup3]|e]|] evs Hsso; [destruct Hsso as [-> ->]| |by apply logs_ret].
  - destruct (provideAuthVerifier cfg) as [verifier|e].
    + apply logs_ret. split; [done|].
      eapply logs_bind; [apply logs_conn_Close|]. intros u evs ->.
      eapply logs_bind; [apply logs_cleanup2|]. intros u' evs ->.
      eapply logs_weaken; [apply logs_pgx_Close|]. by intros ? ? ->.
    + eapply logs_bind; [apply logs_conn_Close|]. intros u evs ->.
      eapply logs_bind; [apply logs_cleanup2|]. intros u' evs ->.
      eapply logs_exit_with; [apply logs_pgx_Close|in_traces].
  - destruct Hsso as [-> | ->].
    + apply Hboth.
    + eapply logs_bind; [apply logs_cleanup2|]. intros u evs ->.
      eapply logs_exit_with; [apply logs_pgx_Close|in_traces].
Qed.

(** Start-up and its cleanup balance: if it succeeds, the three connections
    are open and the cleanup closes each once, in reverse order; if any step
    fails, what was open is closed in reverse order, with the one exception
    of a Redis client whose ping failed. *)
Theorem startup_balanced fuel cfg (w w' : W) r l :
  InitializeApp fuel cfg (([], w) : traced W) = (Some r, (l, w')) ->
  match r with
  | Ok (_, cleanup) =>
      l = [Opened RPostgres; Opened RRedis; Opened RSso] /\
      forall l1 w1, (cleanup (l1, w1)).2.1 = l1 ++ [Closed RSso; Closed RRedis; Closed RPostgres]
  | Err _ => l ∈ failed_startup_traces
  end.
Proof.
  intros E. destruct (logs_assemble _ fuel cfg _ _ _ E) as (evs & Hl & Ht).
  simpl in Hl. subst l. destruct r as [[wr cleanup]|e]; [|exact Ht].
  destruct Ht as [-> Hc]. split; [done|]. intros l1 w1.
  destruct (cleanup (l1, w1)) as [u s'] eqn:Ec. destruct (Hc _ _ _ Ec) as (evs & Hs & ->).
  exact Hs.
Qed.

(** The migrations, when their instance could be made. *)
Definition migration (ok : bool) : list event := [Opened RMigrate; Migrated ok; Closed RMigrate].

(** What happens between a start-up and the end [ex]: the server runs, and is shut
    down first if the end is a regular one. *)
Definition life_trace (ex : exit) : list event :=
  [Opened RPostgres; Opened RRedis; Opened RSso; Served] ++
  match ex with ExitOk => [ShutDown] | _ => [] end ++
  [Closed RSso; Closed RRedis; Closed RPostgres].

(** The events of a whole run of [main] up to its exit. *)
Definition main_trace (o : option exit) (evs : list event) : Prop :=
  match o with
  | None => True
  | Some ex =>
      (ex <> ExitOk /\ evs = migration false) \/
      exists before after, evs = before ++ after /\ (before = [] \/ before = migration true) /\
        (after = life_trace ex \/ (ex <> ExitOk /\ after ∈ failed_startup_traces))
  end.

Lemma logs_fetchConfigPath : logs (W := W) silent fetchConfigPath.
Proof.
  apply logs_silent_bind; [apply logs_lift|]. intros p. case_bool_decide; [apply logs_lift|].
  by apply logs_ret.
Qed.

Lemma logs_MustLoad path :
  logs (W := W) (fun r evs => evs = [] /\ r <> inl ExitOk) (MustLoad path).
Proof.
  unfold MustLoad. case_bool_decide; [by apply logs_ret|].
  apply logs_silent_bind; [apply logs_lift|]. intros [e|]; [case_match; [by apply logs_ret|]|];
    (apply logs_silent_bind; [apply logs_lift|]; intros [c|e']; by apply logs_ret).
Qed.

Lemma logs_RunMigrations path cfg :
  logs (W := W) (fun r evs => match r with
    | None => evs = migration true
    | Some _ => evs = [] \/ evs = migration false
    end) (RunMigrations path cfg).
Proof.
  unfold RunMigrations. eapply logs_bind; [apply logs_note|].
  intros [e|] evs ->; [by apply logs_ret; left|].
  eapply logs_bind; [apply logs_note|]. intros err evs ->.
  eapply logs_bind; [apply logs_note|]. intros u evs ->. apply logs_ret.
  destruct err as [err|]; [|done]. simpl. destruct (errors_Is err _); [done|by right].
Qed.

Lemma logs_await fuel : logs (W := W) silent (await fuel).
Proof.
  induction fuel as [|fuel IH]; [by apply logs_ret|]. cbn [await].
  apply logs_silent_bind; [apply logs_lift|]. intros [|[e|]]; [by apply logs_ret| |exact IH].
  case_match; [exact IH|by apply logs_ret].
Qed.

Lemma logs_Run fuel a (cleanup : M (traced W) unit) closing :
  logs (fun _ evs => evs = closing) cleanup ->
  logs (fun r evs => match r with
    | None => True
    | Some None => evs = Served :: ShutDown :: closing
    | Some (Some _) => evs = Served :: closing
    end) (Run fuel a (Some cleanup)).
Proof.
  intros Hc. unfold Run. change (default (mret tt) (Some cleanup)) with cleanup. cbv zeta.
  eapply logs_bind; [apply logs_note|]. intros u evs ->.
  apply logs_silent_bind; [apply logs_await|]. intros [[e|]|]; [| |by apply logs_ret].
  - eapply logs_bind; [exact Hc|]. intros v evs ->. apply logs_ret. by rewrite app_nil_r.
  - apply logs_silent_bind; [apply logs_WithTimeout|]. intros ctx.
    eapply logs_bind; [apply logs_note|]. intros e evs ->.
    eapply logs_bind; [exact Hc|]. intros v evs ->. apply logs_ret. by rewrite app_nil_r.
Qed.

(** [main] once the migrations are behind it. *)
Lemma logs_started fuel cfg before : before = [] \/ before = migration true ->
  logs (W := W) (fun o evs => main_trace o (before ++ evs))
    (app ← InitializeApp fuel cfg;
     match app with
     | None => mret None
     | Some (Err err) => mret (Some (Fatal ("failed to initialize app: " +:+ error_text err)))
     | Some (Ok (application, cleanup)) =>
         rerr ← Run fuel application (Some cleanup);
         mret (match rerr with
               | None => None
               | Some (Some err) => Some (Fatal (error_text err))
               | Some None => Some ExitOk
               end)
     end).
Proof.
  intros Hb.
  assert (Hex : forall ex after, after = life_trace ex \/ (ex <> ExitOk /\ after ∈ failed_startup_traces) ->
    main_trace (Some ex) (before ++ after)) by (intros ex after Ha; right; by exists before, after).
  eapply logs_bind; [apply logs_assemble|]. intros [[[a cleanup]|e]|] evs; cbn [startup_trace].
  - intros [-> Hc]. eapply logs_bind; [by apply logs_Run|].
    intros [[e|]|] evs Hevs; apply logs_ret; [| |done]; rewrite app_nil_r, Hevs; apply Hex; by left.
  - intros Hevs. apply logs_ret. rewrite app_nil_r. apply Hex. by right.
  - intros _. by apply logs_ret.
Qed.

Lemma logs_main fuel : logs main_trace (main fuel).
Proof.
  unfold main. apply logs_silent_bind; [apply logs_fetchConfigPath|]. intros path.
  assert (Hno : forall ex, ex <> ExitOk -> main_trace (Some ex) []).
  { intros ex Hex. right. exists [], []. split_and!; [done|by left|].
    right. split; [done|apply list_elem_of_here]. }
  eapply logs_bind; [apply logs_MustLoad|]. intros [ex|cfg] evs [-> Hex].
  { apply logs_ret, Hno. congruence. }
  apply (logs_bind (fun r evs => match r with
      | None => evs = [] \/ evs = migration true
      | Some _ => evs = [] \/ evs = migration false
      end) main_trace (if RunMigrations_flag cfg then _ else _)).
  { destruct (RunMigrations_flag cfg); [|by apply logs_ret; left].
    eapply logs_weaken; [apply logs_RunMigrations|]. intros [e|] evs Hevs; [done|by right]. }
  intros [e|] evs Hevs; [|by apply logs_started].
  apply logs_ret. rewrite app_nil_r. destruct Hevs as [-> | ->]; [by apply Hno|by left].
Qed.

(** C39: However the program ends, nothing it opened stays open.  A run of [main]
    that comes to its end, by a panic of the configuration, [log.Fatal] or
    regularly, has first run the migrations, if at all, and closed their
    connections; if the migrations failed it ends there.  Then it has opened
    PostgreSQL, Redis and the SSO connection in this order, up to the step that
    failed if one did, and closed them in reverse order, each once, after the
    server has been shut down if the end is a regular one; with the one
    exception of a Redis client whose ping failed.  A regular end has had all
    three open, and no migration that failed. *)
Theorem main_releases fuel (w w' : W) ex l :
  main fuel (([], w) : traced W) = (Some ex, (l, w')) ->
  (ex <> ExitOk /\ l = [Opened RMigrate; Migrated false; Closed RMigrate]) \/
  exists before after, l = before ++ after /\
    (before = [] \/ before = [Opened RMigrate; Migrated true; Closed RMigrate]) /\
    (after = life_trace ex \/ (ex <> ExitOk /\ after ∈ failed_startup_traces)).
Proof.
  intros E. destruct (logs_main fuel _ _ _ E) as (evs & Hl & Ht). simpl in Hl. by subst l.
Qed.

(** [InitRedis] leaves the client open when its ping fails, unlike
    [InitPostgres], and nobody else can close it: the caller gets no client
    and no cleanup. *)
Theorem failed_ping_leaks_client addr (w w' : W) e l l' :
  InitRedis addr ((l, w) : traced W) = (Err e, (l', w')) -> l' = l ++ [Opened RRedis].
Proof.
  intros E. destruct (logs_InitRedis addr _ _ _ E) as (evs & Hl & -> & _). exact Hl.
Qed.

(** The service does not start without its SSO settings: with no address, no
    application id or no secret, no start-up succeeds; nor does one with a
    [max_retries] that is not positive.  What it starts with comes from the
    configuration; the length of the aliases and the lifetime of the cache
    entries are taken as they are. *)
Theorem startup_requirements fuel cfg (w w' : W) a cleanup :
  InitializeApp fuel cfg w = (Some (Ok (a, cleanup)), w') ->
  let wr := Srv_Handler (app_server a) in
  SSO_Addr (SSO cfg) <> "" /\ SSO_ApplicationID (SSO cfg) <> 0 /\ AppSecret (SSO cfg) <> "" /\
  0 < Cfg_MaxRetries cfg /\
  w_verifier wr = {| secret := AppSecret (SSO cfg); applicationID := SSO_ApplicationID (SSO cfg) |} /\
  MaxRetries (Service.cfg (w_service wr)) = Cfg_MaxRetries cfg /\
  w_generator wr = Random.New (AliasLength cfg) /\ w_cache wr = Cache.New (Cfg_TTL cfg) /\
  w_client wr = {| appID := SSO_ApplicationID (SSO cfg) |} /\
  app_server a = NewServer cfg wr.
Proof.
  unfold InitializeApp, assemble, mbind, M_bind.
  destruct (InitPostgres _ w) as [[c1|e] w1]; [|done].
  destruct (provideRedis _ w1) as [[c2|e] w2]; [|by destruct (c1 w2)].
  destruct (Service.New _) as [s|e] eqn:Es; [|by destruct (c2 w2) as [? w3]; destruct (c1 w3)].
  destruct (provideValidator w2) as [[v|e] w3]; [|by destruct (c2 w3) as [? w4]; destruct (c1 w4)].
  destruct (provideSSOClient _ _ w3) as [[[[client c3]|e]|] w4] eqn:Esso;
    [|by destruct (c2 w4) as [? w5]; destruct (c1 w5)|done].
  destruct (provideAuthVerifier cfg) as [ver|e] eqn:Ev;
    [|by destruct (c3 w4) as [? w5]; destruct (c2 w5) as [? w6]; destruct (c1 w6)].
  intros [= <- <- <-]. apply NewVerifier_ok in Ev as (Hid & Hsec & ->).
  apply provideSSOClient_ok in Esso as [Haddr ->].
  unfold Service.New, validate in Es. cbn [MaxRetries provideServiceConfig] in Es.
  destruct (Z.leb_spec (Cfg_MaxRetries cfg) 0); [done|]. injection Es as <-.
  by split_and!.
Qed.

(** C40: What the logs keep of a failure.  A response of 500 or more that
    [RespondError] sends leaves a line at error level, with the text of the
    error and the name of the service, in every environment; a mapped failure
    below 500 leaves one exactly when the environment is "local" or "dev". *)
Theorem internal_errors_logged cfg r op err st msg cases :
  500 <= st ->
  let '(entry, resp) := RespondError err st msg cases in
  let written := error_line (Handler_logger (provideLogger cfg) r op) entry in
  (500 <= resp_code resp -> exists ln, written = Some ln /\ line_level ln = LevelError /\
     AString "error" (error_text err) ∈ line_attrs ln /\
     AString "service" "url-shortener" ∈ line_attrs ln) /\
  (resp_code resp < 500 -> is_Some written <-> Env cfg = envLocal \/ Env cfg = envDev).
Proof.
  intros Hst. destruct (RespondError err st msg cases) as [entry resp] eqn:E.
  destruct (RespondError_entry _ _ _ _ _ _ Hst E) as [Herr Hlvl].
  set (logger := Handler_logger (provideLogger cfg) r op).
  assert (Hen : Enabled logger LevelError = true /\
    (Enabled logger LevelDebug = true <-> Env cfg = envLocal \/ Env cfg = envDev)).
  { unfold logger, Handler_logger, Handler_log, provideLogger, envLocal, envDev, envProd.
    repeat case_bool_decide; (split; [done|]); naive_solver. }
  destruct Hen as [He Hd]. unfold error_line, Log. rewrite Hlvl. split.
  - intros H500%Z.leb_le. rewrite H500, He. eexists. split; [done|]. split; [done|].
    rewrite Herr. split; simpl; apply list_elem_of_filter; (split; [done|]);
      unfold provideLogger; simpl; set_solver.
  - intros Hlt%Z.leb_gt. rewrite Hlt.
    destruct (Enabled logger LevelDebug); rewrite <- Hd; [by split|split; [by intros []|done]].
Qed.

(** [Run] runs the cleanup, and after everything else: after the shutdown on
    a signal, and also when the server fails; only a failure of the server
    other than [ErrServerClosed] is reported, wrapped. *)
Lemma Run_cleans_up fuel a (cleanup : M W unit) (w w' : W) r :
  Run fuel a (Some cleanup) w = (Some r, w') ->
  (exists w1, cleanup w1 = (tt, w')) /\
  (forall e, r = Some e -> exists e0, e = Errorf "http server: " e0 "" /\
                                      errors_Is e (SLib HttpErrServerClosed) = false).
Proof.
  unfold Run, mbind, M_bind. destruct (srv_Serve _ w) as [u w0].
  destruct (await fuel w0) as [[[e|]|] w1] eqn:Ea; [..|done].
  - cbn. destruct (cleanup w1) as [[] w2] eqn:Ec. intros [= <- <-].
    split; [by exists w1|]. intros ? [= <-]. exists e. split; [done|].
    exact (await_error _ _ _ _ Ea).
  - destruct (WithTimeout _ _ w1) as [ctx w2]. destruct (srv_Shutdown ctx w2) as [e w3].
    cbn. destruct (cleanup w3) as [[] w4] eqn:Ec. intros [= <- <-].
    split; [by exists w3|done].
Qed.
End Properties.

(** ** Evaluation *)

(** A world in which everything works, but Redis may be down. *)
Module StartDemo.
Definition config : Config := {|
  Env := "local"; DatabaseURL := "postgres://"; RedisAddr := "redis:6379";
  ServerConfig := {| Address := "localhost:8080"; Timeout := 4 * Second;
                     IdleTimeout := 60 * Second |};
  AliasLength := 6; Cfg_MaxRetries := 5; Cfg_TTL := Hour; RunMigrations_flag := true;
  SSO := {| SSO_Addr := "sso:44044"; SSO_ApplicationID := 42; AppSecret := "k";
            SSO_DialTimeout := 0 |} |}.

Definition refused : error := ErrorString "connection refused".

#[global] Instance runtime : Runtime bool :=
  {| time_Now up := (0, up); ctx_canceled _ up := (false, up) |}.
#[global] Instance conn : GrpcConn bool :=
  {| conn_NewClient _ _ up := (Ok tt, up); conn_Connect up := (tt, up);
     conn_GetState up := (Ready, up); conn_WaitForStateChange _ _ up := (true, up);
     conn_Close up := (None, up) |}.
#[global] Instance infra : Infra bool := {|
  pgx_ParseConfig dsn up := (Ok {| ConnString := dsn; MaxConns := 4; MinConns := 0;
    MaxConnLifetime := Hour; MaxConnIdleTime := 30 * Minute; HealthCheckPeriod := Minute |}, up);
  pgx_NewPool _ _ up := (None, up);
  pgx_New _ _ up := (None, up); pgx_Ping _ up := (None, up); pgx_Close up := (tt, up);
  rd_NewClient _ up := (tt, up);
  rd_Ping _ up := (if up : bool then None else Some refused, up); rd_Close up := (None, up);
  RegisterValidation _ up := (None, up); srv_Serve _ up := (tt, up);
  next_event up := (EvSignal, up); srv_Shutdown _ up := (None, up);
  migrate_New _ _ up := (None, up); migrate_Up up := (None, up); migrate_Close up := (tt, up);
  flag_config up := ("local.yaml"%string, up); Getenv _ up := (""%string, up); os_Stat _ up := (None, up);
  ReadConfig _ up := (Ok config, up);
|}.
End StartDemo.

Lemma startup_balanced_witness :
  exists r l, InitializeApp (H := traced_infra) (H0 := traced_conn) (H1 := traced_runtime) 1
      StartDemo.config (([], false) : traced bool) = (Some r, (l, false)) /\
    is_ok r = false /\ l ∈ failed_startup_traces.
Proof.
  destruct (InitializeApp (H := traced_infra) (H0 := traced_conn) (H1 := traced_runtime) 1
    StartDemo.config (([], false) : traced bool)) as [r [l w']] eqn:E.
  pose proof E as E'. vm_compute in E'. injection E' as Hr Hl Hw. subst r w'.
  eexists _, l. split; [reflexivity|]. split; [reflexivity|].
  exact (startup_balanced 1 StartDemo.config false false _ l E).
Defined.

Lemma failed_ping_leaks_client_witness :
  exists e l', InitRedis (H := traced_infra) (H1 := traced_runtime) "redis:6379"
      (([], false) : traced bool) = (Err e, (l', false)) /\ l' = [Opened RRedis].
Proof.
  eexists _, _. split; [vm_compute; reflexivity|].
  apply (failed_ping_leaks_client "redis:6379" false false
    (wrap_op "redis.InitRedis" StartDemo.refused) [] [Opened RRedis]).
  vm_compute. reflexivity.
Defined.

Lemma startup_requirements_witness :
  exists a cleanup, InitializeApp 1 StartDemo.config true = (Some (Ok (a, cleanup)), true) /\
    w_verifier (Srv_Handler (app_server a)) = {| secret := "k"; applicationID := 42 |}.
Proof.
  eexists _, _. split; [reflexivity|].
  edestruct (startup_requirements 1 StartDemo.config true) as (_ & _ & _ & _ & Hv & _);
    [reflexivity|exact Hv].
Defined.

(** The program migrates, starts, gets a signal and stops; without Redis it fails
    to start. *)
Lemma main_releases_witness :
  (exists l, main (H := traced_infra) (H0 := traced_conn) (H1 := traced_runtime) 1
      (([], true) : traced bool) = (Some ExitOk, (l, true)) /\
    exists before, l = before ++ [Opened RPostgres; Opened RRedis; Opened RSso; Served; ShutDown;
                                  Closed RSso; Closed RRedis; Closed RPostgres]) /\
  (exists ex l, main (H := traced_infra) (H0 := traced_conn) (H1 := traced_runtime) 1
      (([], false) : traced bool) = (Some ex, (l, false)) /\
    l = [Opened RMigrate; Migrated true; Closed RMigrate; Opened RPostgres; Opened RRedis;
         Closed RPostgres]).
Proof.
  split.
  - destruct (main (H := traced_infra) (H0 := traced_conn) (H1 := traced_runtime) 1
      (([], true) : traced bool)) as [r [l w']] eqn:E.
    pose proof E as E'. vm_compute in E'. injection E' as Hr Hl Hw. subst r w'.
    exists l. split; [reflexivity|].
    destruct (main_releases 1 true true ExitOk l E)
      as [[Hne _]|(before & after & Ht & _ & [Ha|[Hne _]])]; [by destruct Hne| |by destruct Hne].
    exists before. rewrite Ht, Ha. reflexivity.
  - eexists _, _. split; [vm_compute; reflexivity|reflexivity].
Defined.

(** In production a refused connection is logged, a conflict is not. *)
Lemma internal_errors_logged_witness :
  let cfg := {| Env := "prod"; DatabaseURL := ""; RedisAddr := "";
                ServerConfig := ServerConfig StartDemo.config; AliasLength := 6;
                Cfg_MaxRetries := 5; Cfg_TTL := Hour; RunMigrations_flag := false;
                SSO := SSO StartDemo.config |} in
  let log := Handler_logger (provideLogger cfg) demo_request "op" in
  (exists ln, error_line log (RespondError StartDemo.refused 500 "failed" []).1 = Some ln) /\
  error_line log (RespondError (Sentinel (SDomain ErrURLExist)) 500 "failed"
    [Case (SDomain ErrURLExist) 409 "exists"]).1 = None.
Proof.
  intros cfg log. split; [|reflexivity].
  destruct (internal_errors_logged cfg demo_request "op" StartDemo.refused 500 "failed" [])
    as [Hl _]; [lia|].
  destruct Hl as (ln & Hln & _); [vm_compute; discriminate|]. exists ln. exact Hln.
Defined.
