(* ===== verification/Wire.v ===== *)
(** * internal/bootstrap/wire.go: the provider sets, and what they ask for

    wire.go declares which providers there are and which interface is served by
    which type; wire_gen.go is the code Wire generated from it, and Bootstrap
    models that.  Here the declarations are data: [plan] is the order in which
    the sets have to be called for a type, [run_calls] runs such a plan with the
    error returns and the cleanups of an injector, and the code of wire_gen.go is
    proved to be that. *)

From S2P Require Import Prelude GoErrors GoStrings GoFloat Authn Runtime.
From S2P Require Import Http Response Logging Random Storage Service Sso Bootstrap.
From S2P Require Cache.

(** ** Types and providers *)

(** The types that are passed; the last five are interfaces. *)
Inductive ty : Set :=
| TConfig | TLogger | TString | TPostgresRepo | TRedisClient | TDuration | TCache
| TGenerator | TServiceConfig | TService | TValidate | THandler
| TOptions | TClient | TAuthHandler | TVerifier | THTTPHandler | TServer | TApp
| IStorage | IURLRepository | IAliasGenerator | IURLService | IAuthService.

#[export] Instance ty_eq_dec : EqDecision ty.
Proof. solve_decision. Defined.

Inductive provider : Set :=
| P_provideLogger | P_provideDatabaseURL | P_InitPostgres | P_provideRedis | P_provideCacheTTL
| P_cache_New | P_provideAliasGenerator | P_provideServiceConfig | P_service_New
| P_provideSSOClientOptions | P_provideSSOClient | P_handlers_NewAuth | P_provideAuthVerifier
| P_provideValidator | P_handlers_New | P_NewRouter | P_NewServer | P_app_New.

#[export] Instance provider_eq_dec : EqDecision provider.
Proof. solve_decision. Defined.

(** The parameters of a provider, in order, and what it returns besides a cleanup
    and an error. *)
Definition params (p : provider) : list ty :=
  match p with
  | P_provideLogger | P_provideDatabaseURL | P_provideCacheTTL | P_provideAliasGenerator
  | P_provideServiceConfig | P_provideSSOClientOptions | P_provideAuthVerifier => [TConfig]
  | P_InitPostgres => [TLogger; TString]
  | P_provideRedis => [TConfig; TLogger]
  | P_cache_New => [TLogger; IStorage; TRedisClient; TDuration]
  | P_service_New => [TLogger; IURLRepository; IAliasGenerator; TServiceConfig]
  | P_provideSSOClient => [TOptions]
  | P_handlers_NewAuth => [TLogger; IAuthService]
  | P_provideValidator => []
  | P_handlers_New => [TLogger; IURLService; TValidate]
  | P_NewRouter => [TLogger; THandler; TAuthHandler; TVerifier; TPostgresRepo; TRedisClient]
  | P_NewServer => [TConfig; THTTPHandler]
  | P_app_New => [TLogger; TServer]
  end.

Definition returns (p : provider) : ty :=
  match p with
  | P_provideLogger => TLogger
  | P_provideDatabaseURL => TString
  | P_InitPostgres => TPostgresRepo
  | P_provideRedis => TRedisClient
  | P_provideCacheTTL => TDuration
  | P_cache_New => TCache
  | P_provideAliasGenerator => TGenerator
  | P_provideServiceConfig => TServiceConfig
  | P_service_New => TService
  | P_provideSSOClientOptions => TOptions
  | P_provideSSOClient => TClient
  | P_handlers_NewAuth => TAuthHandler
  | P_provideAuthVerifier => TVerifier
  | P_provideValidator => TValidate
  | P_handlers_New => THandler
  | P_NewRouter => THTTPHandler
  | P_NewServer => TServer
  | P_app_New => TApp
  end.

(** ** The sets *)

(** A provider, or [wire.Bind(new(iface), new(concrete))]. *)
Inductive item : Set :=
| Provide (p : provider)
| Bind (iface concrete : ty).

Definition StorageSet : list item :=
  [Provide P_provideDatabaseURL; Provide P_InitPostgres; Bind IStorage TPostgresRepo;
   Provide P_provideRedis; Provide P_provideCacheTTL; Provide P_cache_New;
   Bind IURLRepository TCache].

Definition ServiceSet : list item :=
  [Provide P_provideAliasGenerator; Bind IAliasGenerator TGenerator;
   Provide P_provideServiceConfig; Provide P_service_New; Bind IURLService TService].

Definition AuthSet : list item :=
  [Provide P_provideSSOClientOptions; Provide P_provideSSOClient; Bind IAuthService TClient;
   Provide P_handlers_NewAuth; Provide P_provideAuthVerifier].

Definition HTTPSet : list item :=
  [Provide P_provideValidator; Provide P_handlers_New; Provide P_NewRouter; Provide P_NewServer].

(** The arguments of [wire.Build] in [InitializeRouter] and [InitializeApp]. *)
Definition router_build : list item :=
  [Provide P_provideLogger] ++ StorageSet ++ ServiceSet ++ AuthSet ++
  [Provide P_provideValidator; Provide P_handlers_New; Provide P_NewRouter].

Definition app_build : list item :=
  [Provide P_provideLogger] ++ StorageSet ++ ServiceSet ++ AuthSet ++ HTTPSet ++
  [Provide P_app_New].

(** ** The plan *)

(** A call, with the types of the variables it is given. *)
Record call := { callee : provider; args : list ty }.

Definition outs (cs : list call) : list ty := (fun c => returns (callee c)) <$> cs.

Section Plan.
Context (items : list item).

(** The type that serves [t]. *)
Definition served_by (t : ty) : ty :=
  default t (head (omap (fun i => match i with
    | Bind iface concrete => if decide (iface = t) then Some concrete else None
    | Provide _ => None
    end) items)).

Definition provider_of (t : ty) : option provider :=
  head (omap (fun i => match i with
    | Provide p => if decide (returns p = t) then Some p else None
    | Bind _ _ => None
    end) items).

(** The calls that make [t], after those of [sofar]: what a provider needs comes
    before it, in the order of its parameters, and nothing is made twice. *)
Fixpoint visit (fuel : nat) (t : ty) (sofar : list call) : option (list call) :=
  match fuel with
  | O => None
  | S fuel' =>
      let t := served_by t in
      if decide (t = TConfig \/ t ∈ outs sofar) then Some sofar
      else
        p ← provider_of t;
        sofar' ← foldl (fun acc u => acc ≫= visit fuel' u) (Some sofar) (params p);
        Some (sofar' ++ [{| callee := p; args := served_by <$> params p |}])
  end.

Definition plan (t : ty) : option (list call) := visit (S (length items)) t [].
End Plan.

(** ** The code of wire_gen.go *)

(** The calls of [InitializeRouter], in order, with the variables they are given. *)
Definition router_calls : list call :=
  [{| callee := P_provideLogger; args := [TConfig] |};
   {| callee := P_provideDatabaseURL; args := [TConfig] |};
   {| callee := P_InitPostgres; args := [TLogger; TString] |};
   {| callee := P_provideRedis; args := [TConfig; TLogger] |};
   {| callee := P_provideCacheTTL; args := [TConfig] |};
   {| callee := P_cache_New; args := [TLogger; TPostgresRepo; TRedisClient; TDuration] |};
   {| callee := P_provideAliasGenerator; args := [TConfig] |};
   {| callee := P_provideServiceConfig; args := [TConfig] |};
   {| callee := P_service_New; args := [TLogger; TCache; TGenerator; TServiceConfig] |};
   {| callee := P_provideValidator; args := [] |};
   {| callee := P_handlers_New; args := [TLogger; TService; TValidate] |};
   {| callee := P_provideSSOClientOptions; args := [TConfig] |};
   {| callee := P_provideSSOClient; args := [TOptions] |};
   {| callee := P_handlers_NewAuth; args := [TLogger; TClient] |};
   {| callee := P_provideAuthVerifier; args := [TConfig] |};
   {| callee := P_NewRouter;
      args := [TLogger; THandler; TAuthHandler; TVerifier; TPostgresRepo; TRedisClient] |}].

(** ... and of [InitializeApp]. *)
Definition app_calls : list call :=
  router_calls ++
  [{| callee := P_NewServer; args := [TConfig; THTTPHandler] |};
   {| callee := P_app_New; args := [TLogger; TServer] |}].

(** ** Running a plan *)

(** What the variables of an injector hold, as far as Bootstrap distinguishes it. *)
Inductive value : Type :=
| VConfig (cfg : Config)
| VLogger (log : Logger)
| VString (s : string)
| VPostgresRepo
| VRedisClient
| VDuration (d : Z)
| VCache (c : Cache.Cache)
| VGenerator (g : Generator)
| VServiceConfig (sc : Service.Config)
| VService (s : Service) (c : Cache.Cache) (g : Generator)
| VValidate
| VHandler (s : Service) (c : Cache.Cache) (g : Generator)
| VOptions (opts : Options)
| VClient (client : Client)
| VAuthHandler (client : Client)
| VVerifier (v : Verifier)
| VHTTPHandler (wr : wiring)
| VServer (srv : http_Server wiring)
| VApp (app : App).

Section Run.
Context {W} `{Infra W, GrpcConn W, Runtime W}.

(** What a provider gives: a value, with its cleanup if it has one. *)
Definition provided : Type := option (result (value * list (M W unit))).

Definition just (v : value) : M W provided := mret (Some (Ok (v, []))).
Definition or_error {A} (r : result A) (v : A -> value) : M W provided :=
  mret (Some (match r with Ok a => Ok (v a, []) | Err e => Err e end)).

(** The providers on their arguments. *)
Definition provide (fuel : nat) (p : provider) (vs : list value) : M W provided :=
  match p, vs with
  | P_provideLogger, [VConfig cfg] => just (VLogger (provideLogger cfg))
  | P_provideDatabaseURL, [VConfig cfg] => just (VString (provideDatabaseURL cfg))
  | P_InitPostgres, [VLogger _; VString dsn] =>
      r ← InitPostgres dsn;
      mret (Some (match r with Ok cleanup => Ok (VPostgresRepo, [cleanup]) | Err e => Err e end))
  | P_provideRedis, [VConfig cfg; VLogger _] =>
      r ← provideRedis cfg;
      mret (Some (match r with Ok cleanup => Ok (VRedisClient, [cleanup]) | Err e => Err e end))
  | P_provideCacheTTL, [VConfig cfg] => just (VDuration (provideCacheTTL cfg))
  | P_cache_New, [VLogger _; VPostgresRepo; VRedisClient; VDuration d] =>
      just (VCache (Cache.New d))
  | P_provideAliasGenerator, [VConfig cfg] => just (VGenerator (provideAliasGenerator cfg))
  | P_provideServiceConfig, [VConfig cfg] => just (VServiceConfig (provideServiceConfig cfg))
  | P_service_New, [VLogger _; VCache c; VGenerator g; VServiceConfig sc] =>
      or_error (Service.New sc) (fun s => VService s c g)
  | P_provideSSOClientOptions, [VConfig cfg] => just (VOptions (provideSSOClientOptions cfg))
  | P_provideSSOClient, [VOptions opts] =>
      r ← provideSSOClient fuel opts;
      mret (match r with
            | None => None
            | Some (Ok (client, cleanup)) => Some (Ok (VClient client, [cleanup]))
            | Some (Err e) => Some (Err e)
            end)
  | P_handlers_NewAuth, [VLogger _; VClient client] => just (VAuthHandler client)
  | P_provideAuthVerifier, [VConfig cfg] => or_error (provideAuthVerifier cfg) VVerifier
  | P_provideValidator, [] => r ← provideValidator; or_error r (fun _ => VValidate)
  | P_handlers_New, [VLogger _; VService s c g; VValidate] => just (VHandler s c g)
  | P_NewRouter, [VLogger log; VHandler s c g; VAuthHandler client; VVerifier v;
                  VPostgresRepo; VRedisClient] =>
      just (VHTTPHandler {| w_logger := log; w_cache := c; w_service := s; w_generator := g;
                            w_client := client; w_verifier := v |})
  | P_NewServer, [VConfig cfg; VHTTPHandler wr] => just (VServer (NewServer cfg wr))
  | P_app_New, [VLogger log; VServer srv] => just (VApp (app_New log srv))
  | _, _ => mret None
  end.

(** The cleanups, the last one first: before an error return, and as a function. *)
Fixpoint closing {A} (cleanups : list (M W unit)) (k : M W A) : M W A :=
  match cleanups with
  | [] => k
  | c :: cs => _ ← c; closing cs k
  end.

Fixpoint cleanup_of (cleanups : list (M W unit)) : M W unit :=
  match cleanups with
  | [] => mret tt
  | [c] => c
  | c :: cs => _ ← c; cleanup_of cs
  end.

Definition variable (env : list (ty * value)) (t : ty) : option value :=
  head (omap (fun tv => if decide (tv.1 = t) then Some tv.2 else None) env).

(** The injector: the calls one after the other; at the first error what is open
    is closed and the error returned, at the end [t] and the cleanup are. *)
Fixpoint run_calls (fuel : nat) (cs : list call) (t : ty) (env : list (ty * value))
    (cleanups : list (M W unit)) : M W (option (result (value * M W unit))) :=
  match cs with
  | [] => mret (v ← variable env t; Some (Ok (v, cleanup_of cleanups)))
  | c :: cs =>
      match mapM (variable env) (args c) with
      | None => mret None
      | Some vs =>
          r ← provide fuel (callee c) vs;
          match r with
          | None => mret None
          | Some (Err e) => closing cleanups (mret (Some (Err e)))
          | Some (Ok (v, cl)) =>
              run_calls fuel cs t ((returns (callee c), v) :: env) (cl ++ cleanups)
          end
      end
  end.

Definition inject (fuel : nat) (items : list item) (t : ty) (cfg : Config) :
    M W (option (result (value * M W unit))) :=
  match plan items t with
  | None => mret None
  | Some cs => run_calls fuel cs t [(TConfig, VConfig cfg)] []
  end.

(** An injector's result as a value. *)
Definition as_value {A} (f : A -> value) (r : option (result (A * M W unit))) :
    option (result (value * M W unit)) :=
  match r with
  | None => None
  | Some (Err e) => Some (Err e)
  | Some (Ok (a, cleanup)) => Some (Ok (f a, cleanup))
  end.

Lemma ret_eq {A} (a : A) (w : W) : (mret a : M W A) w = (a, w).
Proof. done. Qed.

Lemma run_call fuel c cs t env cleanups vs (w : W) :
  mapM (variable env) (args c) = Some vs ->
  run_calls fuel (c :: cs) t env cleanups w =
    let '(r, w') := provide fuel (callee c) vs w in
    match r with
    | None => (None, w')
    | Some (Err e) => closing cleanups (mret (Some (Err e))) w'
    | Some (Ok (v, cl)) =>
        run_calls fuel cs t ((returns (callee c), v) :: env) (cl ++ cleanups) w'
    end.
Proof.
  intros Hvs. cbn [run_calls]. rewrite Hvs, bind_eq.
  destruct (provide fuel (callee c) vs w) as [[[[v cl]|e]|] w']; done.
Qed.

(** Make the next call of the plan. *)
Ltac call :=
  cbn [fst snd app]; erewrite run_call by reflexivity;
  cbn [callee returns provide fst snd]; unfold just, or_error; rewrite ?bind_eq, ?ret_eq;
  cbn [fst snd app].

(** An error return: both sides close the same. *)
Ltac exit := cbn [fst snd app closing]; by rewrite ?bind_eq, ?ret_eq.

Lemma assemble_run {A} (finish : wiring -> A) (f : A -> value) fuel cfg cs t (w : W) :
  (forall wr env cleanups w, variable env THTTPHandler = Some (VHTTPHandler wr) ->
     variable env TConfig = Some (VConfig cfg) -> variable env TLogger = Some (VLogger (w_logger wr)) ->
     run_calls fuel cs t env cleanups w = (Some (Ok (f (finish wr), cleanup_of cleanups)), w)) ->
  run_calls fuel (router_calls ++ cs) t [(TConfig, VConfig cfg)] [] w =
    (r ← assemble finish fuel cfg; mret (as_value f r)) w.
Proof.
  intros Hcs. unfold assemble, router_calls. rewrite !bind_eq. cbn [app].
  do 3 call. destruct (InitPostgres (provideDatabaseURL cfg) w) as [[cleanup|e] w1]; [|done].
  call. destruct (provideRedis cfg w1) as [[cleanup2|e] w2]; [|exit].
  do 4 call.
  call. destruct (Service.New _) as [service|e]; [|exit].
  call.
  destruct (provideValidator w2) as [[u|e] w3]; [|exit].
  do 2 call.
  call. destruct (provideSSOClient fuel (provideSSOClientOptions cfg) w3) as [[[[client cleanup3]|e]|] w4];
    [|exit|done].
  do 2 call. destruct (provideAuthVerifier cfg) as [verifier|e]; [|exit].
  call. cbn [fst snd app]. rewrite Hcs with (wr := {|
    w_logger := provideLogger cfg; w_cache := Cache.New (provideCacheTTL cfg);
    w_service := service; w_generator := provideAliasGenerator cfg;
    w_client := client; w_verifier := verifier |}); done.
Qed.
End Run.

(** ** What a plan is *)

(** Every call is given the configuration or what an earlier call returned. *)
Definition ordered (cs : list call) : Prop :=
  forall l1 c l2, cs = l1 ++ c :: l2 -> Forall (fun t => t = TConfig \/ t ∈ outs l1) (args c).

Definition made (cs : list call) (t : ty) : Prop := t = TConfig \/ t ∈ outs cs.

Lemma made_app cs cs' t : made cs t -> made (cs ++ cs') t.
Proof.
  intros [Ht|Ht]; [by left|right]. unfold outs. rewrite fmap_app. apply elem_of_app. by left.
Qed.

Lemma ordered_snoc cs c : ordered cs -> Forall (made cs) (args c) -> ordered (cs ++ [c]).
Proof.
  intros Hcs Hc l1 c' l2 E.
  induction l2 as [|c2 l2 _] using rev_ind.
  - apply app_inj_tail in E as [-> ->]. exact Hc.
  - rewrite app_comm_cons, app_assoc in E. apply app_inj_tail in E as [-> ->]. by eapply Hcs.
Qed.

(** Calls in order that make what was asked for, after those that were there. *)
Lemma visit_ordered items fuel : forall t sofar cs,
  visit items fuel t sofar = Some cs -> ordered sofar ->
  ordered cs /\ made cs (served_by items t) /\ exists more, cs = sofar ++ more.
Proof.
  induction fuel as [|fuel IH]; intros t sofar cs; cbn [visit]; [done|].
  destruct (decide _) as [Hmade|_]; [intros [= ->] Hd; split_and!; [done|done|by exists []; rewrite app_nil_r]|].
  destruct (provider_of items (served_by items t)) as [p|] eqn:Hp; [|done]. simpl.
  assert (Hparams : forall us d d', foldl (fun acc u => acc ≫= visit items fuel u) (Some d) us
      = Some d' -> ordered d ->
      ordered d' /\ Forall (made d') (served_by items <$> us) /\ exists more, d' = d ++ more).
  { intros us. induction us as [|u us IHu] using rev_ind; intros d d'.
    - intros [= ->] Hd. split_and!; [done|by constructor|by exists []; rewrite app_nil_r].
    - rewrite foldl_app. simpl.
      destruct (foldl _ _ us) as [d1|] eqn:Ef; [|done]. simpl. intros Hv Hd.
      destruct (IHu _ _ Ef Hd) as (Hd1 & Hm1 & more1 & ->).
      destruct (IH _ _ _ Hv Hd1) as (Hd' & Hu & more2 & ->). split_and!; [done| |].
      + rewrite fmap_app. apply Forall_app. split; [|by constructor].
        eapply Forall_impl; [exact Hm1|]. intros x. apply made_app.
      + exists (more1 ++ more2). by rewrite app_assoc. }
  destruct (foldl _ _ (params p)) as [d'|] eqn:Ef; [|done]. intros [= <-] Hd.
  destruct (Hparams _ _ _ Ef Hd) as (Hd' & Hm & more & ->). split_and!.
  - by apply ordered_snoc.
  - right. unfold outs. rewrite fmap_app. apply elem_of_app. right. simpl.
    apply list_elem_of_singleton. unfold provider_of in Hp.
    apply head_Some_elem_of, list_elem_of_omap in Hp as ([p'|] & _ & Hp'); [|done].
    case_decide; [|done]. by injection Hp' as <-.
  - eexists. symmetry. apply app_assoc.
Qed.

(** Which providers the arguments of [wire.Build] name. *)
Definition providers (items : list item) : list provider :=
  omap (fun i => match i with Provide p => Some p | Bind _ _ => None end) items.

(** ** Property *)

Section Property.
Context {W} `{Infra W, GrpcConn W, Runtime W}.

(** C20: wire_gen.go is what wire.go asks for.  Its injectors make the calls the sets
    need, each after what it is given and with the interfaces served as bound,
    call every provider of the sets exactly once, and do as such a plan does:
    the first error is returned after the cleanups so far, the last one first,
    and without an error the cleanup returned runs them all. *)
Theorem wire_gen_follows_sets fuel cfg (w : W) :
  plan router_build THTTPHandler = Some router_calls /\ plan app_build TApp = Some app_calls /\
  ordered router_calls /\ ordered app_calls /\
  providers router_build ≡ₚ callee <$> router_calls /\ providers app_build ≡ₚ callee <$> app_calls /\
  inject fuel router_build THTTPHandler cfg w =
    (r ← InitializeRouter fuel cfg; mret (as_value VHTTPHandler r)) w /\
  inject fuel app_build TApp cfg w = (r ← InitializeApp fuel cfg; mret (as_value VApp r)) w.
Proof.
  assert (Hrouter : plan router_build THTTPHandler = Some router_calls) by (vm_compute; reflexivity).
  assert (Happ : plan app_build TApp = Some app_calls) by (vm_compute; reflexivity).
  assert (Hnil : ordered []) by (intros [|? ?] ? ? [=]).
  split_and!; [done|done|..].
  - by apply (visit_ordered _ _ _ _ _ Hrouter).
  - by apply (visit_ordered _ _ _ _ _ Happ).
  - apply (bool_decide_unpack _). vm_compute. exact I.
  - apply (bool_decide_unpack _). vm_compute. exact I.
  - unfold inject. rewrite Hrouter, <- (app_nil_r router_calls). apply assemble_run.
    intros wr env cleanups w' Hv _ _. cbn [run_calls]. by rewrite Hv.
  - unfold inject. rewrite Happ. apply assemble_run.
    intros wr env cleanups w' Hv Hc Hl.
    rewrite (run_call _ _ _ _ _ _ [VConfig cfg; VHTTPHandler wr]) by (simpl; by rewrite Hv, Hc).
    cbn [callee provide returns]. unfold just. rewrite ret_eq.
    rewrite (run_call _ _ _ _ _ _ [VLogger (w_logger wr); VServer (NewServer cfg wr)]); [done|].
    transitivity (log ← variable env TLogger; Some [log; VServer (NewServer cfg wr)]);
      [reflexivity|by rewrite Hl].
Qed.
End Property.
