(* ===== verification/Stack.v ===== *)
(** * The deployed service, end to end

    What [InitializeApp] puts together: the router over the handlers, the
    handlers over the service, the service over the cache, the cache over the
    PostgreSQL repository.  The theorems of the components are composed: they
    are about HTTP requests on one side and the rows of the table on the other.
    Requests are handled one after the other; Traffic has those that overlap. *)

From S2P Require Import Prelude GoErrors GoStrings GoFloat Authn Runtime Http Response.
From S2P Require Import RateLimit Random Storage Service.
From S2P Require Postgres Cache.
From S2P Require Import Validation Handlers Links Sso Router Schema Bootstrap.

(** [redis.Client.Ping], for the readiness probe *)
Class RedisPing (W : Type) := rdb_Ping : context -> M W (option error).

Section Stack.
Context {W : Type} `{!Postgres.PgPool W, !Runtime W, !Postgres.PgPoolSpec W}.
#[local] Existing Instances Postgres.PostgresRepo Postgres.PostgresRepo_spec.
Context `{!Cache.Redis W, !Cache.RedisSpec W, !Cache.Singleflight (Z * W),
          !Cache.SingleflightSpec (Z * W)}.
Context `{!AliasGenerator W, !AuthAPI W, !RedisPing W, GrpcStatusLib}.
Context `{JWT, EngineSpec, MailLib, MuxSpec, RequestIDsSpec}.
Context `{BodyDecoder SaveRequest, BodyDecoder registerRequest, BodyDecoder loginRequest,
          BodyDecoder refreshRequest}.
Context (uint64_oob : float64 -> Z).

(** Whatever else the world does leaves the table alone and adds nothing to
    Redis. *)
Class QuietOutside : Prop := {
  Generate_quiet :: Preserves (W := W) Cache.quiet Generate;
  canceled_quiet n :: Preserves (W := W) Cache.quiet (ctx_canceled n);
  api_Register_quiet ctx e p :: Preserves (W := W) Cache.quiet (api_Register ctx e p);
  api_Authenticate_quiet ctx e p app :: Preserves (W := W) Cache.quiet (api_Authenticate ctx e p app);
  api_RefreshTokens_quiet ctx t app :: Preserves (W := W) Cache.quiet (api_RefreshTokens ctx t app);
  api_Logout_quiet ctx t :: Preserves (W := W) Cache.quiet (api_Logout ctx t);
  db_Ping_quiet ctx :: Preserves (W := W) Cache.quiet (Postgres.Ping ctx);
  rdb_Ping_quiet ctx :: Preserves (W := W) Cache.quiet (rdb_Ping ctx);
}.

(** ** The composition *)

(** The world of the handlers: the breaker of the cache beside the rest. *)
Definition world : Type := Z * W.

#[local] Instance stack_runtime : Runtime world := lift_runtime Z.
#[local] Instance stack_generator : AliasGenerator world := lift_snd Generate.
#[local] Instance stack_auth : AuthAPI world := {|
  api_Register ctx e p := lift_snd (api_Register ctx e p);
  api_Authenticate ctx e p app := lift_snd (api_Authenticate ctx e p app);
  api_RefreshTokens ctx t app := lift_snd (api_RefreshTokens ctx t app);
  api_Logout ctx t := lift_snd (api_Logout ctx t) |}.
#[local] Instance stack_pinger : Pinger world := {|
  db_Ping ctx := lift_snd (Postgres.Ping ctx); redis_Ping ctx := lift_snd (rdb_Ping ctx) |}.

Section Wired.
Variable wr : wiring.

#[local] Instance stack_storage : Storage world := Cache.CacheStorage (w_cache wr).
#[local] Instance stack_urls : URLService world := ServiceURLs (w_service wr).
#[local] Instance stack_sso : AuthService world := Client_AuthService (w_client wr).

(** The handler of the deployed service. *)
Definition serve (r : request) : M (sys (W := world)) (response * option level) :=
  NewRouter uint64_oob (w_verifier wr) r.

(** The state after one more request. *)
Definition http_step (s s' : sys (W := world)) : Prop := exists r, s' = (serve r s).2.

(** The rows of the table, and the keys of Redis. *)
Definition rows (s : sys (W := world)) : list Postgres.url_row := Postgres.table s.2.2.2.
Definition keys (s : sys (W := world)) : gmap string string := Cache.rmap s.2.2.2.

Definition good_row (row : Postgres.url_row) : Prop :=
  link_ok (Postgres.row_alias row) (Postgres.row_url row).

(** Every row is a good link, no alias has two, and Redis knows good links only. *)
Definition links_ok (s : sys (W := world)) : Prop :=
  Postgres.unique_aliases (rows s) /\ Forall good_row (rows s) /\ map_Forall link_ok (keys s).

(** ** What does not touch the links *)

(** [R] does not see what is quiet. *)
Section Quiet.
Context `{!QuietOutside} (R : world -> world -> Prop) `{!Reflexive R, !Transitive R}.
Context (R_quiet : forall d w w', Cache.quiet w w' -> R (d, w) (d, w')).

#[local] Instance lift_quiet {A} (m : M W A) : Preserves Cache.quiet m ->
  Preserves R (lift_snd m : M world A).
Proof.
  intros Hm [d w]. rewrite lift_snd_eq. apply R_quiet, Hm.
Qed.

#[local] Instance now_quiet : Preserves Cache.quiet (time_Now (W := W)).
Proof. intros w. destruct (time_Now w) as [t w'] eqn:E. by eapply Cache.time_Now_quiet. Qed.

#[local] Instance now_R : Preserves R (time_Now (W := world)).
Proof. apply lift_quiet, _. Qed.

#[local] Instance canceled_R n : Preserves R (ctx_canceled (W := world) n).
Proof. apply lift_quiet, _. Qed.

Lemma runtime_R : RuntimePreserves (W := world) R.
Proof. split; apply _. Qed.

(** A call of the SSO client. *)
Lemma call_R {A B} ctx d (api : context -> M W A) (k : A -> M world B) :
  (forall ctx, Preserves Cache.quiet (api ctx)) -> (forall a, Preserves R (k a)) ->
  Preserves R (ctx ← WithTimeout ctx d; resp ← lift_snd (api ctx); k resp).
Proof.
  intros Hapi Hk. pose proof runtime_R. apply Preserves_bind; [done|by apply WithTimeout_preserves|].
  intros c. apply Preserves_bind; [done| |exact Hk]. apply lift_quiet, Hapi.
Qed.

Lemma probe_R r v : R v (ReadinessProbe r v).2.
Proof.
  apply (ReadinessProbe_preserves R); intros ctx; apply lift_quiet, _.
Qed.

Lemma sso_R :
  (forall ctx e p, Preserves R (sso_Register (W := world) ctx e p)) /\
  (forall ctx e p, Preserves R (sso_Login (W := world) ctx e p)) /\
  (forall ctx t, Preserves R (sso_RefreshTokens (W := world) ctx t)) /\
  (forall ctx t, Preserves R (sso_Logout (W := world) ctx t)).
Proof.
  split_and!.
  - intros ctx e p. apply (call_R ctx defaultRPCTimeout (fun c => api_Register c e p));
      [apply _|intros [|]; by apply Preserves_ret].
  - intros ctx e p.
    apply (call_R ctx defaultRPCTimeout (fun c => api_Authenticate c e p (appID (w_client wr))));
      [apply _|intros [|]; by apply Preserves_ret].
  - intros ctx t.
    apply (call_R ctx defaultRPCTimeout (fun c => api_RefreshTokens c t (appID (w_client wr))));
      [apply _|intros [|]; by apply Preserves_ret].
  - intros ctx t. apply (call_R ctx defaultRPCTimeout (fun c => api_Logout c t));
      [apply _|intros a; by apply Preserves_ret].
Qed.

(** The whole request, when the link handlers do not show either. *)
Lemma request_R r (s : sys (W := world)) :
  (forall r v, R v (Handler_Get r v).2) -> (forall r v, R v (Handler_Save r v).2) ->
  (Method r = "DELETE" -> forall a, alias_of (URL_Path r) = Some a ->
     forall ctx v, R v (Handler_Delete (WithContext (WithAlias r a) ctx) v).2) ->
  R s.2.2 (serve_route uint64_oob (w_verifier wr) r s).2.2.2.
Proof.
  intros HG HS HD. destruct sso_R as (? & ? & ? & ?).
  apply (serve_route_preserves _ _ R); try done; [apply _|intros; apply probe_R].
Qed.

(** The whole request, when a lookup does not show. *)
Lemma request_R_or r al wl v :
  (forall ctx a, Preserves R (svc_Get (W := world) ctx a)) ->
  R v (serve_route uint64_oob (w_verifier wr) r (al, (wl, v))).2.2.2 \/
  (authenticated uint64_oob (w_verifier wr) r v /\
   (Method r = "POST" /\ URL_Path r = "/url" \/
    Method r = "DELETE" /\ is_Some (alias_of (URL_Path r)))).
Proof.
  intros HG. destruct sso_R as (? & ? & ? & ?).
  apply (request_frame uint64_oob (w_verifier wr) R); try done; [apply _|..];
    intros ctx; apply lift_quiet, _.
Qed.
End Quiet.

(** ** The links stay good *)

Section Good.
Context `{!QuietOutside} (n : Z) `{!RandomAliases W n} (n_pos : 0 < n).

#[local] Instance stack_safe : SafeStorage world link_ok :=
  Cache.cache_SafeStorage (w_cache wr) link_ok.

Lemma quiet_keeps d w w' : Cache.quiet w w' -> keeps_safe (W := world) link_ok (d, w) (d, w').
Proof. intros Hq Hs. exact (Cache.quiet_safe link_ok d d w w' Hq Hs). Qed.

#[local] Instance stack_aliases : RandomAliases world n.
Proof.
  intros [d w] a [d' w']. unfold Generate, stack_generator. rewrite lift_snd_eq.
  destruct (Generate w) as [r w1] eqn:E. cbn [fst snd]. intros [= -> -> ->].
  by apply (random_alias w a w').
Qed.

#[local] Instance stack_generator_safe :
  Preserves (W := world) (keeps_safe link_ok) Generate.
Proof.
  intros [d w]. unfold Generate, stack_generator. rewrite lift_snd_eq. apply quiet_keeps.
  apply Generate_quiet.
Qed.

#[local] Instance stack_runtime_safe : RuntimePreserves (W := world) (keeps_safe link_ok).
Proof. apply runtime_R, quiet_keeps. Qed.

Lemma link_step_keeps v v' : link_step v v' -> keeps_safe (W := world) link_ok v v'.
Proof. intros Hstep Hv. by apply (link_step_safe n n_pos (w_service wr) v v'). Qed.

Lemma request_keeps r (s : sys (W := world)) :
  keeps_safe link_ok s.2.2 (serve_route uint64_oob (w_verifier wr) r s).2.2.2.
Proof.
  apply (request_R (keeps_safe link_ok) quiet_keeps); intros; apply link_step_keeps.
  - eapply step_Get, surjective_pairing.
  - eapply step_Save, surjective_pairing.
  - eapply step_Delete, surjective_pairing.
Qed.

(** A redirect of the whole service goes to a web address. *)
Lemma request_redirect r (s : sys (W := world)) code u : safe s.2.2 ->
  (serve_route uint64_oob (w_verifier wr) r s).1 = RespRedirect code u ->
  code = StatusFound /\ web_url u = true.
Proof.
  intros Hs Hr. destruct (redirect_is_lookup uint64_oob (w_verifier wr) r s code u Hr) as [r' E].
  rewrite E in Hr. destruct s as [al [wl v]]. rewrite !lift_snd_eq in Hr. cbn [fst snd] in Hr.
  destruct (Handler_Get r' v) as [resp v'] eqn:EG. simpl in Hr. subst resp.
  by destruct (Handler_Get_redirects (w_service wr) v r' code u v' Hs EG) as (? & ? & _).
Qed.
End Good.

(** ** Who changes the table *)

Section Table.
Context `{!QuietOutside}.

(** The store under the cache holds the same links. *)
Definition same_links (v v' : world) : Prop :=
  store_wf v.2 -> store_wf v'.2 /\ urls v'.2 = urls v.2.

#[local] Instance same_links_refl : Reflexive same_links.
Proof. by intros v Hv. Qed.
#[local] Instance same_links_trans : Transitive same_links.
Proof. intros u v w Huv Hvw Hu. destruct (Huv Hu) as [Hv <-]. by apply Hvw. Qed.

Lemma quiet_links d w w' : Cache.quiet w w' -> same_links (d, w) (d, w').
Proof. intros [[Hwf Hu] _] Hw. by split; [apply Hwf|]. Qed.

(** A lookup through the cache. *)
Lemma cache_Get_links ctx a v : same_links v (st_Get (W := world) ctx a v).2.
Proof.
  intros Hwf. destruct v as [d w]. destruct (st_Get (W := world) ctx a (d, w)) as [r v'] eqn:E.
  assert (Hc : Cache.coherent_except (dom (Cache.rmap w)) w).
  { intros b u Hb Hu. destruct Hb. by apply elem_of_dom_2 in Hu. }
  by destruct (Cache.Get_run _ _ _ _ _ _ _ _ Hwf Hc E) as (? & _ & ? & _).
Qed.

Lemma svc_Get_links ctx a : Preserves same_links (svc_Get (W := world) ctx a).
Proof.
  intros v. cbn [svc_Get stack_urls ServiceURLs]. unfold Service.Get.
  case_bool_decide; [done|]. unfold check_err, mbind, M_bind.
  pose proof (cache_Get_links ctx (TrimSpace a) v) as Hv.
  by destruct (st_Get (W := world) ctx (TrimSpace a) v) as [[u|e] v'].
Qed.

Lemma request_links r al wl v :
  same_links v (serve_route uint64_oob (w_verifier wr) r (al, (wl, v))).2.2.2 \/
  (authenticated uint64_oob (w_verifier wr) r v /\
   (Method r = "POST" /\ URL_Path r = "/url" \/
    Method r = "DELETE" /\ is_Some (alias_of (URL_Path r)))).
Proof. apply request_R_or; [apply _..|apply quiet_links|apply svc_Get_links]. Qed.
End Table.

(** ** Rows and maps *)

Lemma links_ok_safe d w (al wl : Limiter) :
  links_ok (al, (wl, (d, w))) <-> Cache.cache_safe link_ok (d, w).
Proof.
  unfold links_ok, Cache.cache_safe, rows, keys. cbn [fst snd].
  change (store_wf w) with (Postgres.unique_aliases (Postgres.table w)).
  change (urls w) with (Postgres.table_urls (Postgres.table w)).
  unfold Postgres.unique_aliases. generalize (Postgres.table w) as t. intros t.
  assert (Hmap : NoDup (Postgres.row_alias <$> t) ->
    Forall good_row t <-> map_Forall link_ok (Postgres.table_urls t)).
  { intros Hnd. rewrite <- Postgres.row_entry_fst in Hnd. unfold Postgres.table_urls.
    rewrite Forall_forall. unfold map_Forall. split.
    - intros Hrows a u Hl. apply elem_of_list_to_map in Hl; [|done].
      apply list_elem_of_fmap in Hl as (row & [= -> ->] & Hrow). by apply Hrows.
    - intros Hm row Hrow. apply Hm. apply elem_of_list_to_map; [done|].
      apply list_elem_of_fmap. by exists row. }
  naive_solver.
Qed.

(** ** One request *)

Lemma serve_links_ok `{!QuietOutside} n `{!RandomAliases W n} r s :
  0 < n -> links_ok s -> links_ok (serve r s).2.
Proof.
  intros Hn Hs. unfold serve. destruct (NewRouter_route uint64_oob (w_verifier wr) r s) as [ctx ->].
  pose proof (request_keeps n Hn (WithContext r ctx) s) as Hk.
  destruct (serve_route uint64_oob (w_verifier wr) (WithContext r ctx) s) as [resp s'].
  destruct s as [al [wl [d w]]], s' as [al' [wl' [d' w']]]. apply links_ok_safe in Hs.
  apply links_ok_safe. exact (Hk Hs).
Qed.

Lemma serve_redirects `{!QuietOutside} n `{!RandomAliases W n} r s code u lvl s' :
  0 < n -> links_ok s -> serve r s = ((RespRedirect code u, lvl), s') ->
  code = StatusFound /\ web_url u = true.
Proof.
  intros Hn Hs. unfold serve. destruct (NewRouter_route uint64_oob (w_verifier wr) r s) as [ctx ->].
  destruct (serve_route uint64_oob (w_verifier wr) (WithContext r ctx) s) as [resp s1] eqn:E.
  intros [= -> _ _]. destruct s as [al [wl [d w]]]. apply links_ok_safe in Hs.
  exact (request_redirect (WithContext r ctx) (al, (wl, (d, w))) code u Hs
    (f_equal fst E)).
Qed.

(** A request that may change the table. *)
Definition is_write (r : request) : Prop :=
  (Method r = "POST" /\ URL_Path r = "/url") \/
  (Method r = "DELETE" /\ is_Some (alias_of (URL_Path r))).

Lemma serve_writes `{!QuietOutside, !JWTLaws} r s :
  links_ok s ->
  Postgres.table_urls (rows (serve r s).2) = Postgres.table_urls (rows s) \/
  (is_write r /\ exists token, Header_Get r "Authorization" = "Bearer " +:+ token /\
     signature_ok token "HS256" (secret (w_verifier wr))).
Proof.
  intros [Hwf _]. unfold serve.
  destruct (NewRouter_route uint64_oob (w_verifier wr) r s) as [ctx ->].
  destruct s as [al [wl [d w]]].
  destruct (request_links (WithContext r ctx) al wl (d, w)) as [Hlinks|[Ha Hw]].
  - left. destruct (serve_route _ _ _ _) as [resp s']. by destruct (Hlinks Hwf).
  - right. split; [exact Hw|]. destruct Ha as (token & claims & Ht & Hv). exists token.
    split; [exact Ht|]. by destruct (Verify_ok_signed _ _ _ _ _ Hv).
Qed.

(** ** A link that is there *)

Section There.
Context `{!QuietOutside} (a u : string).

(** The link is in the table, and Redis knows nothing else under its alias. *)
Definition link_there (v : world) : Prop :=
  store_wf v.2 /\ (urls v.2 !! a = Some u) /\ (exists X : gset string, (a ∉ X) /\ Cache.coherent_except X v.2).
Definition keeps_link (v v' : world) : Prop := link_there v -> link_there v'.

#[local] Instance keeps_link_refl : Reflexive keeps_link.
Proof. by intros v Hv. Qed.
#[local] Instance keeps_link_trans : Transitive keeps_link.
Proof. intros v1 v2 v3 Hl Hr Hv. by apply Hr, Hl. Qed.

Lemma quiet_keeps_link d w w' : Cache.quiet w w' -> keeps_link (d, w) (d, w').
Proof.
  intros Hq (Hwf & Hu & X & Ha & Hc). destruct (Cache.quiet_run _ _ _ Hq Hwf Hc) as (? & ? & Hu').
  split_and!; [done|cbn [snd]; by rewrite Hu'|by exists X].
Qed.

#[local] Instance generate_keeps_link : Preserves (W := world) keeps_link Generate.
Proof.
  intros [d w]. unfold Generate, stack_generator. rewrite lift_snd_eq.
  apply quiet_keeps_link, Generate_quiet.
Qed.

#[local] Instance runtime_keeps_link : RuntimePreserves (W := world) keeps_link.
Proof. apply runtime_R, quiet_keeps_link. Qed.

Lemma st_Save_keeps_link ctx u' b : Preserves keeps_link (st_Save (W := world) ctx u' b).
Proof.
  intros [d w] (Hwf & Hu & X & Ha & Hc).
  destruct (st_Save (W := world) ctx u' b (d, w)) as [e v'] eqn:E.
  destruct (Cache.Save_run _ _ _ _ _ _ _ _ _ Hwf Hc E) as (? & ? & Hr).
  apply save_rel_subseteq in Hr. split_and!; [done|by eapply lookup_weaken|by exists X].
Qed.

Lemma st_Get_keeps_link ctx b : Preserves keeps_link (st_Get (W := world) ctx b).
Proof.
  intros [d w] (Hwf & Hu & X & Ha & Hc).
  destruct (st_Get (W := world) ctx b (d, w)) as [r v'] eqn:E.
  destruct (Cache.Get_run _ _ _ _ _ _ _ _ Hwf Hc E) as (? & ? & Hu' & _).
  split_and!; [done|cbn [snd]; by rewrite Hu'|by exists X].
Qed.

Lemma st_Delete_keeps_link ctx b : b <> a -> Preserves keeps_link (st_Delete (W := world) ctx b).
Proof.
  intros Hb [d w] (Hwf & Hu & X & Ha & Hc).
  destruct (st_Delete (W := world) ctx b (d, w)) as [e v'] eqn:E.
  destruct (Cache.Delete_run X (w_cache wr) ctx b d w e v' Hwf Hc E) as (? & ? & Hr).
  apply delete_rel_effect in Hr. split_and!; [done| |by exists ({[b]} ∪ X); set_solver].
  eapply lookup_weaken; [|exact Hr]. by rewrite lookup_delete_ne.
Qed.

(** The request asks for the alias to be deleted. *)
Definition deletes (r : request) : Prop :=
  Method r = "DELETE" /\ exists b, alias_of (URL_Path r) = Some b /\ TrimSpace b = a.

Lemma request_keeps_link r (s : sys (W := world)) : ~ deletes r ->
  keeps_link s.2.2 (serve_route uint64_oob (w_verifier wr) r s).2.2.2.
Proof.
  intros Hno. apply (request_R keeps_link quiet_keeps_link).
  - intros r' v. apply (Handler_Get_preserves keeps_link). intros ctx b.
    apply (Service.Get_preserves keeps_link), st_Get_keeps_link.
  - intros r' v. apply (Handler_Save_preserves keeps_link). intros ctx u' b.
    apply Preserves_bind; [apply _| |intros o; apply _].
    apply (Service.Save_preserves keeps_link). apply st_Save_keeps_link.
  - intros Hm b Hb ctx v. apply (Handler_Delete_preserves keeps_link).
    apply (Service.Delete_preserves keeps_link), st_Delete_keeps_link.
    change (URLParam _ "alias") with (URLParam (WithAlias r b) "alias").
    unfold URLParam. simpl. rewrite lookup_singleton_eq. simpl. intros Ht.
    apply Hno. split; [done|]. by exists b.
Qed.

Lemma Handler_Get_there r (v : world) : link_there v ->
  TrimSpace (URLParam r "alias") = a -> a <> "" ->
  (Handler_Get r v).1 = RespRedirect StatusFound u \/
  resp_code (Handler_Get r v).1 = StatusInternalServerError.
Proof.
  intros (Hwf & Hu & X & Ha & Hc) Ht Hne. destruct (Handler_Get r v) as [resp v'] eqn:E.
  destruct (Handler_Get_cases _ _ _ _ E) as [(Hempty & _)|(res & Hs & Hr)];
    [by rewrite Hempty in Ht|].
  cbn [svc_Get stack_urls ServiceURLs] in Hs. unfold Service.Get in Hs. rewrite Ht in Hs.
  rewrite bool_decide_eq_false_2 in Hs by done. unfold check_err, mbind, M_bind in Hs.
  destruct v as [d w]. destruct (st_Get (W := world) (Context_of r) a (d, w)) as [r1 v1] eqn:Eg.
  destruct (Cache.Get_run _ _ _ _ _ _ _ _ Hwf Hc Eg) as (_ & _ & _ & Hg). specialize (Hg Ha).
  destruct r1 as [u1|e].
  - injection Hs as <- <-. left.
    assert (Some u1 = Some u) as [= ->] by (etransitivity; [symmetry; exact Hg|exact Hu]). exact Hr.
  - injection Hs as <- <-. right. rewrite Hr. simpl. unfold lookup_error_code. simpl.
    destruct (errors_Is e _) eqn:He; [|done].
    assert (None = Some u) by (etransitivity; [symmetry; exact (Hg He)|exact Hu]). done.
Qed.
End There.

(** ** A link that is created *)

Section Created.
Context `{!QuietOutside, !GeneratorSpec W} (X : gset string).

(** [Save] alone keeps the contract of the store, with Redis coherent except
    at [X]; it does not look at the other operations. *)
#[local] Instance saves : Storage world := {|
  st_Save := Cache.Save (w_cache wr);
  st_Get _ _ := mret (Err (ErrorString "")); st_Delete _ _ := mret (Some (ErrorString "")) |}.

#[local] Program Instance saves_spec : StorageSpec world :=
  {| urls v := urls v.2; store_wf v := store_wf v.2 /\ Cache.coherent_except X v.2 |}.
Next Obligation.
  intros ctx u a [d w] e v' [Hwf Hc] E.
  by destruct (Cache.Save_run X (w_cache wr) ctx u a d w e v' Hwf Hc E) as (? & ? & ?).
Qed.
Next Obligation. intros ctx a v r v' [Hwf Hc] [= <- <-]. split; [done|]. split; [done|discriminate]. Qed.
Next Obligation. intros ctx a v e v' [Hwf Hc] [= <- <-]. split; [done|]. by left. Qed.

Lemma quiet_same_store d w w' : Cache.quiet w w' -> same_store (W := world) (d, w) (d, w').
Proof.
  intros Hq. pose proof Hq as [[_ Hu] _]. split; [|exact Hu]. intros [Hwf Hc].
  by destruct (Cache.quiet_run _ _ _ Hq Hwf Hc) as (? & ? & _).
Qed.

#[local] Instance saves_generator : GeneratorSpec world.
Proof.
  split.
  - intros [d w]. unfold Generate, stack_generator. rewrite lift_snd_eq.
    apply quiet_same_store, Generate_quiet.
  - intros [d w] a v'. unfold Generate, stack_generator. rewrite lift_snd_eq. intros [= Hg _].
    apply (Generate_trimmed (W := W) w a (Generate w).2). rewrite <- Hg. apply surjective_pairing.
  - intros [d w] e v' n. unfold Generate, stack_generator. rewrite lift_snd_eq. intros [= Hg _].
    apply (Generate_error (W := W) w e (Generate w).2 n). rewrite <- Hg. apply surjective_pairing.
Qed.

#[local] Instance saves_runtime : RuntimePreserves (W := world) same_store.
Proof. apply runtime_R, quiet_same_store. Qed.

(** An answer 200 of [POST /url] names an alias under which the link now is. *)
Lemma Handler_Save_creates r (v v' : world) resp :
  store_wf v.2 -> Cache.coherent_except X v.2 ->
  Handler_Save r v = (resp, v') -> resp_code resp = StatusOK ->
  exists req a, DecodeJSON (save_body r) = Ok req /\
    resp = RespJSON StatusOK (JObject (SaveResponse_fields Ok_response a)) /\
    (a ∉ X -> link_there a (TrimSpace (URL req)) v').
Proof.
  intros Hwf Hc E Hcode.
  destruct (Handler_Save_cases _ _ _ _ E) as [(_ & Hbad & _)|(req & res & Hd & _ & Hs & Hr)];
    [by rewrite Hbad in Hcode|].
  apply ServiceURLs_Save in Hs as (o & Hs & ->).
  destruct (Save_outcome (W := world) (H := saves_spec) _ _ _ _ _ _ o v' (conj Hwf Hc) Hs) as ([Hwf' Hc'] & _ & Ho).
  destruct o as [[a|e]|]; simpl in Hr.
  - exists req, a. split_and!; [done..|]. intros Ha. destruct Ho as (_ & Hu & _).
    split_and!; [done| |by exists X]. simpl in Hu |- *. rewrite Hu. apply lookup_insert_eq.
  - rewrite Hr in Hcode. by apply save_error_code_not_ok in Hcode.
  - rewrite Hr in Hcode. by apply save_error_code_not_ok in Hcode.
Qed.

(** What a write passes on to its handler. *)
Definition still_coherent (v v' : world) : Prop :=
  store_wf v.2 /\ Cache.coherent_except X v.2 -> store_wf v'.2 /\ Cache.coherent_except X v'.2.

#[local] Instance still_coherent_refl : Reflexive still_coherent.
Proof. by intros v Hv. Qed.
#[local] Instance still_coherent_trans : Transitive still_coherent.
Proof. intros v1 v2 v3 Hl Hr Hv. by apply Hr, Hl. Qed.

Lemma quiet_coherent d w w' : Cache.quiet w w' -> still_coherent (d, w) (d, w').
Proof.
  intros Hq [Hwf Hc]. by destruct (Cache.quiet_run _ _ _ Hq Hwf Hc) as (? & ? & _).
Qed.

Lemma post_creates r (s : sys (W := world)) :
  Method r = "POST" -> URL_Path r = "/url" ->
  store_wf s.2.2.2 -> Cache.coherent_except X s.2.2.2 ->
  resp_code (serve_route uint64_oob (w_verifier wr) r s).1 = StatusOK ->
  exists req a, DecodeJSON (save_body r) = Ok req /\
    (serve_route uint64_oob (w_verifier wr) r s).1 =
      RespJSON StatusOK (JObject (SaveResponse_fields Ok_response a)) /\
    (a ∉ X -> link_there a (TrimSpace (URL req))
                (serve_route uint64_oob (w_verifier wr) r s).2.2.2).
Proof.
  intros Hm Hp Hwf Hc. destruct s as [al [wl v]]. cbn [fst snd] in *.
  unfold serve_route. rewrite Hp. change (alias_of "/url") with (Some "url"). cbv zeta beta iota.
  change (Method (WithAlias r "url")) with (Method r).
  change (URL_Path (WithAlias r "url")) with (URL_Path r). rewrite Hm, Hp.
  pose proof (find_routes "POST" "/url") as Hf.
  change (table_endpoint "POST" "/url") with (Some EpSave) in Hf.
  destruct (find_route routes "POST" "/url") as [rt|]; [|done]. injection Hf as ->.
  destruct (serve_write_done uint64_oob (w_verifier wr) still_coherent Handler_Save
    (WithAlias r "url") al wl v) as [[Hcode _]|(_ & ctx & v1 & Hv1 & Hresp & Hv')].
  - apply runtime_R, quiet_coherent.
  - by destruct Hcode as [Hcode|Hcode]; rewrite Hcode.
  - rewrite Hresp, Hv'. destruct (Hv1 (conj Hwf Hc)) as [Hwf1 Hc1].
    destruct (Handler_Save (WithContext (WithAlias r "url") ctx) v1) as [resp v'] eqn:E.
    intros Hcode. exact (Handler_Save_creates _ _ _ _ Hwf1 Hc1 E Hcode).
Qed.
End Created.

(** A request that does not ask for the alias to be deleted. *)
Definition other_step (a : string) (s s' : sys (W := world)) : Prop :=
  exists r, ~ deletes a r /\ s' = (serve r s).2.

Lemma other_steps_keep `{!QuietOutside} a u s s' : rtc (other_step a) s s' ->
  link_there a u s.2.2 -> link_there a u s'.2.2.
Proof.
  induction 1 as [|s s1 s2 [r [Hno ->]] _ IH]; [done|]. intros Hs. apply IH. unfold serve.
  destruct (NewRouter_route uint64_oob (w_verifier wr) r s) as [ctx ->].
  pose proof (request_keeps_link a u (WithContext r ctx) s Hno Hs) as Hk.
  by destruct (serve_route _ _ _ _) as [resp s'].
Qed.

Lemma get_follows `{!QuietOutside} a u g s : link_there a u s.2.2 ->
  alias_MatchString a = true -> a <> "healthz" -> a <> "auth" ->
  Method g = "GET" -> URL_Path g = "/" +:+ a ->
  (serve g s).1.1 = RespRedirect StatusFound u \/
  resp_code (serve g s).1.1 = StatusInternalServerError.
Proof.
  intros Hs Ha Hh Hau Hm Hp. unfold serve.
  destruct (NewRouter_route uint64_oob (w_verifier wr) g s) as [ctx ->].
  assert (Hr : serve_route uint64_oob (w_verifier wr) (WithContext g ctx) s =
    lift_snd (lift_snd (Handler_Get (WithAlias (WithContext g ctx) a))) s).
  { unfold serve_route. change (URL_Path (WithContext g ctx)) with (URL_Path g).
    rewrite Hp, alias_of_path by done.
    change (URL_Path (WithAlias _ a)) with (URL_Path g).
    change (Method (WithAlias _ a)) with (Method g). rewrite Hm, Hp.
    pose proof (find_routes "GET" ("/" +:+ a)) as Hf. rewrite table_GET_alias in Hf by done.
    destruct (find_route routes _ _) as [rt|]; [|done]. by injection Hf as ->. }
  rewrite Hr. destruct s as [al [wl v]]. rewrite !lift_snd_eq. cbn [fst snd].
  apply (Handler_Get_there a u); [done| |by intros ->].
  unfold URLParam. simpl. rewrite lookup_singleton_eq. by apply alias_trimmed.
Qed.

(** C3: A link that was created can be followed.  [X] are the aliases whose Redis
    entries may be out of date.  An answer 200 of [POST /url] names an alias;
    unless it is one of [X], the probe or the mount point, then after any other
    requests that do not delete it, from anybody and for any links, and whatever
    fails meanwhile, [GET] of that alias redirects to the trimmed URL of the
    request, or fails with 500: it never goes anywhere else, and is never
    answered 404. *)
Theorem created_link_followed `{!QuietOutside, !GeneratorSpec W} n `{!RandomAliases W n}
    (X : gset string) r resp lvl s0 s1 :
  0 < n -> links_ok s0 -> Cache.coherent_except X s0.2.2.2 ->
  Method r = "POST" -> URL_Path r = "/url" ->
  serve r s0 = ((resp, lvl), s1) -> resp_code resp = StatusOK ->
  exists req a, DecodeJSON (save_body r) = Ok req /\
    resp = RespJSON StatusOK (JObject (SaveResponse_fields Ok_response a)) /\
    (a ∉ X -> a <> "healthz" -> a <> "auth" ->
     forall s g, rtc (other_step a) s1 s -> Method g = "GET" -> URL_Path g = "/" +:+ a ->
       (serve g s).1.1 = RespRedirect StatusFound (TrimSpace (URL req)) \/
       resp_code (serve g s).1.1 = StatusInternalServerError).
Proof.
  intros Hn Hs0 Hc Hm Hp Hserve Hcode.
  pose proof (serve_links_ok n r s0 Hn Hs0) as Hs1. rewrite Hserve in Hs1. cbn [snd] in Hs1.
  revert Hserve. unfold serve at 1.
  destruct (NewRouter_route uint64_oob (w_verifier wr) r s0) as [ctx ->].
  pose proof (post_creates X (WithContext r ctx) s0 Hm Hp (proj1 Hs0) Hc) as Hpost.
  destruct (serve_route _ _ _ _) as [resp' s'] eqn:E. intros [= -> _ ->].
  cbn [fst snd] in Hpost. destruct (Hpost Hcode) as (req & a & Hd & -> & Hthere). exists req, a.
  split; [done|]. split; [done|]. intros Ha Hh Hau s g Hsteps Hg Hgp.
  specialize (Hthere Ha).
  assert (Hgood : link_ok a (TrimSpace (URL req))).
  { destruct s1 as [al [wl [d w]]]. apply links_ok_safe in Hs1 as (_ & Hall & _).
    apply Hall, Hthere. }
  destruct Hgood as [Hgood _]. eapply get_follows; eauto using other_steps_keep.
Qed.
End Wired.

(** ** The property *)

Section Deployed.
Context `{!QuietOutside, !Infra W, !GrpcConn W, !JWTLaws}.

(** C1: What the deployed service promises.  The program starts with a positive
    alias length and any other configuration it accepts, on a table and a Redis
    with good links only (empty ones, say).  Then after any sequence of HTTP
    requests, and whatever fails meanwhile, no alias has two rows, every row is
    an http or https URL under a well-formed alias, and Redis holds nothing
    else; the next request is redirected to web addresses only; and it changes
    the links only if it is a [POST] of [/url] or a [DELETE] with a bearer token
    that is signed with HS256 under the configured secret. *)
Theorem deployed_service_safe fuel cfg (w w0 : W) a cleanup s :
  InitializeApp fuel cfg w = (Some (Ok (a, cleanup)), w0) ->
  0 < AliasLength cfg -> RandomAliases W (AliasLength cfg) ->
  let wr := Srv_Handler (app_server a) in
  let s0 := start_limiters (Cache.downUntil0, w0) in
  links_ok s0 -> rtc (http_step wr) s0 s ->
  links_ok s /\
  forall r resp lvl s', serve wr r s = ((resp, lvl), s') ->
    (forall code u, resp = RespRedirect code u -> code = StatusFound /\ web_url u = true) /\
    (Postgres.table_urls (rows s') = Postgres.table_urls (rows s) \/
     (is_write r /\ exists token, Header_Get r "Authorization" = "Bearer " +:+ token /\
        signature_ok token "HS256" (AppSecret (SSO cfg)))).
Proof.
  intros Happ Hlen Haliases wr s0 Hs0 Hsteps.
  assert (Hs : links_ok s).
  { clear Happ. induction Hsteps as [s|s s1 s2 [r ->] _ IH]; [done|].
    by apply IH, (serve_links_ok wr (AliasLength cfg)). }
  split; [done|]. intros r resp lvl s' Hserve. split.
  - intros code u ->. by eapply (serve_redirects wr (AliasLength cfg)).
  - destruct (startup_requirements _ _ _ _ _ _ Happ) as (_ & _ & _ & _ & Hver & _).
    pose proof (serve_writes wr r s Hs) as Hw. rewrite Hserve in Hw. fold wr in Hver.
    by rewrite Hver in Hw.
Qed.
End Deployed.
End Stack.

(** ** Evaluation *)

(** PostgreSQL and Redis in memory, and entropy as a list of bytes; everything
    else is up and answers at once. *)
Module Deploy.
Record machine := { pg : Postgres.SimPg.world; kv : gmap string string; entropy : list Ascii.ascii }.

Definition on_pg {A} (m : M Postgres.SimPg.world A) : M machine A := fun w =>
  let '(a, p) := m (pg w) in (a, {| pg := p; kv := kv w; entropy := entropy w |}).
Definition with_kv (w : machine) (m : gmap string string) : machine :=
  {| pg := pg w; kv := m; entropy := entropy w |}.
Definition always {A} (a : A) : M machine A := fun w => (a, w).

#[global] Instance pool : Postgres.PgPool machine := {|
  Postgres.pool_Exec ctx q args := on_pg (Postgres.pool_Exec ctx q args);
  Postgres.pool_QueryRow ctx q args := on_pg (Postgres.pool_QueryRow ctx q args);
  Postgres.pool_Ping ctx := always None |}.
#[global] Instance clock : Runtime machine :=
  {| time_Now := always 0; ctx_canceled _ := always false |}.

#[global] Program Instance pool_spec : Postgres.PgPoolSpec machine :=
  {| Postgres.table w := Postgres.SimPg.rows (pg w) |}.
Next Obligation.
  intros ctx u a w r w'. cbn. unfold on_pg.
  destruct (Postgres.SimPg.Exec _ _ _ (pg w)) as [r1 p] eqn:E. intros [= <- <-].
  exact (Postgres.Exec_insert ctx u a (pg w) r1 p E).
Qed.
Next Obligation.
  intros ctx a w r w'. cbn. unfold on_pg.
  destruct (Postgres.SimPg.QueryRow _ _ _ (pg w)) as [r1 p] eqn:E. intros [= <- <-].
  exact (Postgres.QueryRow_select ctx a (pg w) r1 p E).
Qed.
Next Obligation.
  intros ctx a w r w'. cbn. unfold on_pg.
  destruct (Postgres.SimPg.Exec _ _ _ (pg w)) as [r1 p] eqn:E. intros [= <- <-].
  exact (Postgres.Exec_delete ctx a (pg w) r1 p E).
Qed.
Next Obligation. by split. Qed.

#[global] Instance repo : Storage machine := Postgres.PostgresRepo.
#[global] Instance repo_spec : StorageSpec machine := Postgres.PostgresRepo_spec.

#[global] Instance redis : Cache.Redis machine := {|
  Cache.rdb_Get ctx k w :=
    (match kv w !! k with Some v => Ok v | None => Err (Sentinel (SLib RedisNil)) end, w);
  Cache.rdb_Set ctx k v _ w := (None, with_kv w (<[k := v]> (kv w)));
  Cache.rdb_Del ctx k w := (None, with_kv w (delete k (kv w))) |}.

(** The database does not see Redis. *)
Lemma on_pg_kv {A} (m : M Postgres.SimPg.world A) w : kv (on_pg m w).2 = kv w.
Proof. unfold on_pg. by destruct (m (pg w)). Qed.

Lemma repo_kv ctx u a w :
  kv (st_Save ctx u a w).2 = kv w /\ kv (st_Get ctx a w).2 = kv w /\
  kv (st_Delete ctx a w).2 = kv w.
Proof.
  cbn. unfold Postgres.Save, Postgres.Get, Postgres.Delete, WithTimeout, mbind, M_bind. cbn.
  split_and!;
    match goal with |- context [ on_pg ?m w ] =>
      pose proof (on_pg_kv m w) as Hk; destruct (on_pg m w) as [r w'] end;
    repeat case_match; exact Hk.
Qed.

#[global] Program Instance redis_spec : Cache.RedisSpec machine := {| Cache.rmap := kv |}.
Next Obligation. intros ctx k w r w'. simpl. intros [= <- <-]. by destruct (kv w !! k). Qed.
Next Obligation. intros ctx k v t w e w'. simpl. intros [= <- <-]. by left. Qed.
Next Obligation.
  intros ctx k w e w'. simpl. intros [= <- <-].
  split; [apply delete_subseteq|intros _; apply lookup_delete_eq].
Qed.
Next Obligation. intros ctx k w. by split. Qed.
Next Obligation. intros ctx k v t w. by split. Qed.
Next Obligation. intros ctx k w. by split. Qed.
Next Obligation. intros ctx u a w. by rewrite (proj1 (repo_kv ctx u a w)). Qed.
Next Obligation. intros ctx a w. by rewrite (proj1 (proj2 (repo_kv ctx "" a w))). Qed.
Next Obligation. intros ctx a w. by rewrite (proj2 (proj2 (repo_kv ctx "" a w))). Qed.
Next Obligation. done. Qed.

#[global] Instance flight : Cache.Singleflight (Z * machine) := fun _ fn => fn.
#[global] Instance flight_spec : Cache.SingleflightSpec (Z * machine).
Proof. intros key fn s. reflexivity. Qed.

#[global] Instance generator : AliasGenerator machine := fun w =>
  let '(o, bytes) := Random.Generate 100 (Random.New 6) (entropy w) in
  (match o with Done (Ok a) => Ok a | _ => Err (Sentinel (SLib IoUnexpectedEOF)) end,
   {| pg := pg w; kv := kv w; entropy := bytes |}).
#[global] Instance random_aliases : RandomAliases machine 6.
Proof.
  intros w a w'. unfold Service.Generate, generator.
  destruct (Random.Generate 100 (Random.New 6) (entropy w)) as [[[a'|e]| |] bytes'] eqn:E; try done.
  intros [= <- <-]. by exists (list Ascii.ascii), _, 100%nat, (entropy w), bytes'.
Qed.

#[global] Instance api : AuthAPI machine := {|
  api_Register _ _ _ := always (Ok 1); api_Authenticate _ _ _ _ := always (Ok ("a", "r"));
  api_RefreshTokens _ _ _ := always (Ok ("a", "r")); api_Logout _ _ := always None |}.
#[global] Instance ping : RedisPing machine := fun _ => always None.
#[global] Instance conn : GrpcConn machine := {|
  conn_NewClient _ _ := always (Ok tt); conn_Connect := always tt; conn_GetState := always Ready;
  conn_WaitForStateChange _ _ := always true; conn_Close := always None |}.
#[global] Instance infra : Infra machine := {|
  pgx_ParseConfig dsn := always (Ok {| ConnString := dsn; MaxConns := 4; MinConns := 0;
    MaxConnLifetime := Hour; MaxConnIdleTime := 30 * Minute; HealthCheckPeriod := Minute |});
  pgx_NewPool _ _ := always None; pgx_New _ _ := always None; pgx_Ping _ := always None;
  pgx_Close := always tt; rd_NewClient _ := always tt; rd_Ping _ := always None;
  rd_Close := always None; RegisterValidation _ := always None; srv_Serve _ := always tt;
  next_event := always EvSignal; srv_Shutdown _ := always None; migrate_New _ _ := always None;
  migrate_Up := always None; migrate_Close := always tt;
  flag_config := always "local.yaml"%string; Getenv _ := always ""%string;
  os_Stat _ := always None; ReadConfig _ := always (Ok StartDemo.config) |}.

Definition boot : machine :=
  {| pg := {| Postgres.SimPg.now := 0; Postgres.SimPg.rows := []; Postgres.SimPg.faults := [] |};
     kv := ∅; entropy := Ascii.ascii_of_nat <$> [0; 1; 2; 3; 4; 5]%nat |}.
Definition post : request := RouterDemo.request_of "POST" "/url" "Bearer tok".
Definition get : request := RouterDemo.request_of "GET" "/ABCDEF" "".
End Deploy.

Definition deployed_app : App :=
  match (InitializeApp 1 StartDemo.config Deploy.boot).1 with
  | Some (Ok (a, _)) => a
  | _ => app_New (provideLogger StartDemo.config)
           (NewServer StartDemo.config {| w_logger := provideLogger StartDemo.config;
              w_cache := Cache.New 0; w_service := {| cfg := {| MaxRetries := 0 |} |};
              w_generator := Random.New 0; w_client := {| appID := 0 |};
              w_verifier := TableJWT.verifier |})
  end.
Definition deployed : wiring := Srv_Handler (app_server deployed_app).
Definition after_boot : sys (W := Z * Deploy.machine) :=
  start_limiters (Cache.downUntil0, Deploy.boot).

#[local] Instance deploy_quiet : QuietOutside (W := Deploy.machine).
Proof.
  split; try by intros; split.
  intros w. unfold Generate, Deploy.generator. by destruct (Random.Generate _ _ _) as [[[a|e]| |] b].
Qed.

(** The program starts, an authenticated client posts a link, and another
    follows it. *)
Lemma deployed_service_safe_witness :
  let serve := serve RouterDemo.oob deployed in
  let s := (serve Deploy.post after_boot).2 in
  (serve Deploy.get s).1 = (RespRedirect 302 "https://a", Some LevelInfo) /\
  links_ok s /\ length (rows s) = 1%nat /\ web_url "https://a" = true.
Proof.
  intros sv s.
  destruct (InitializeApp 1 StartDemo.config Deploy.boot) as [r w0] eqn:E.
  assert (exists cleanup, r = Some (Ok (deployed_app, cleanup)) /\ w0 = Deploy.boot)
    as (cleanup & -> & ->).
  { pose proof E as E'. vm_compute in E'. injection E' as <- <-. eexists. split; reflexivity. }
  destruct (deployed_service_safe RouterDemo.oob 1 StartDemo.config Deploy.boot Deploy.boot
    deployed_app cleanup s E) as [Hs Hnext].
  - reflexivity.
  - exact Deploy.random_aliases.
  - split; [apply NoDup_nil_2|]. split; [apply Forall_nil_2|]. apply map_Forall_empty.
  - eapply rtc_l; [|apply rtc_refl]. exists Deploy.post. reflexivity.
  - assert (Hget : sv Deploy.get s = ((RespRedirect 302 "https://a", Some LevelInfo),
      (sv Deploy.get s).2)) by (vm_compute; reflexivity).
    split; [by rewrite Hget|]. split; [exact Hs|]. split; [vm_compute; reflexivity|].
    destruct (Hnext _ _ _ _ Hget) as [Hred _]. by destruct (Hred _ _ eq_refl).
Defined.

#[local] Instance deploy_generator : GeneratorSpec Deploy.machine.
Proof.
  split.
  - intros w. pose proof (Generate_quiet (W := Deploy.machine) w) as [Hs _]. exact Hs.
  - intros w a w' E. apply alias_trimmed.
    by destruct (random_alias_MatchString (n := 6) Deploy.machine w a w').
  - intros w e w' d. unfold Generate, Deploy.generator.
    destruct (Random.Generate _ _ _) as [[[a|e']| |] b]; by intros [= <- _].
Qed.

(** After the post somebody deletes another alias; the link is still there. *)
Lemma created_link_followed_witness :
  let serve := serve RouterDemo.oob deployed in
  let s1 := (serve Deploy.post after_boot).2 in
  let s := (serve (RouterDemo.request_of "DELETE" "/other" "Bearer tok") s1).2 in
  (serve Deploy.post after_boot).1.1 =
    RespJSON 200 (JObject [("status", JString "OK"); ("alias", JString "ABCDEF")]) /\
  ((serve Deploy.get s).1.1 = RespRedirect 302 "https://a" \/
   resp_code (serve Deploy.get s).1.1 = 500).
Proof.
  intros sv s1 s.
  assert (Hpost : sv Deploy.post after_boot = ((RespJSON 200 (JObject (SaveResponse_fields
    Ok_response "ABCDEF")), Some LevelInfo), s1)) by (vm_compute; reflexivity).
  split; [by rewrite Hpost|].
  destruct (created_link_followed RouterDemo.oob deployed 6 ∅ Deploy.post
    (RespJSON 200 (JObject (SaveResponse_fields Ok_response "ABCDEF"))) (Some LevelInfo)
    after_boot s1 ltac:(lia)) as (req & a & Hd & Hr & Hget);
    [|intros a v _ Hv; discriminate Hv|reflexivity|reflexivity|exact Hpost|reflexivity|].
  - split; [apply NoDup_nil_2|]. split; [apply Forall_nil_2|]. apply map_Forall_empty.
  - assert (a = "ABCDEF") as ->.
    { destruct (decide (a = "")) as [->|Hne]; [discriminate Hr|].
      unfold SaveResponse_fields in Hr. rewrite (bool_decide_eq_false_2 (a = "")) in Hr by done.
      by injection Hr. }
    vm_compute in Hd. injection Hd as <-.
    apply (Hget ltac:(set_solver) ltac:(done) ltac:(done) s Deploy.get); [|reflexivity|reflexivity].
    eapply rtc_l; [|apply rtc_refl].
    exists (RouterDemo.request_of "DELETE" "/other" "Bearer tok"). split; [|reflexivity].
    intros (_ & b & Hb & Ht). vm_compute in Hb. injection Hb as <-. vm_compute in Ht. discriminate Ht.
Defined.
