(* ===== verification/Contract.v ===== *)
(** * What the service promises over HTTP

    An abstract service: a book of links, the aliases whose Redis entries may be
    out of date, and for every request the answers and the books that may
    follow.  It knows nothing of handlers, services, caches, tables or limiters.
    The deployed service refines it: whatever fails, any sequence of requests is
    answered as the abstract service may answer it. *)

From S2P Require Import Prelude GoErrors GoStrings GoFloat Authn Runtime Http Response.
From S2P Require Import RateLimit Random Storage Service.
From S2P Require Postgres Cache.
From S2P Require Import Validation Handlers Links Sso Router Schema Bootstrap Stack.

(** ** The abstract service *)

Record book := {
  links : gmap string string;
  (** aliases that may still be answered from Redis with a link that is gone *)
  stale : gset string;
}.

Section Abstract.
Context `{JWT, !JWTLaws, EngineSpec, BodyDecoder SaveRequest}.
Variable secret : string.
Implicit Types (m : gmap string string) (b : book) (r : request) (resp : response).

(** The bearer of a token signed under the secret. *)
Definition authorized r : Prop :=
  exists token, Header_Get r "Authorization" = "Bearer " +:+ token /\
    signature_ok token "HS256" secret.

(** One more link, under an alias nobody has: the one asked for, if any. *)
Definition one_more m (req : SaveRequest) (a : string) m' : Prop :=
  m !! a = None /\ m' = <[a := TrimSpace (URL req)]> m /\ (Alias req <> "" -> a = Alias req).

(** [POST /url] *)
Definition post_rel m r resp m' : Prop :=
  (m' = m /\ (resp_code resp = StatusUnauthorized \/ resp_code resp = StatusTooManyRequests)) \/
  (authorized r /\
   ((m' = m /\ resp_code resp = StatusBadRequest /\
     match DecodeJSON (save_body r) with Err _ => True | Ok req => ~ valid_SaveRequest req end) \/
    exists req, DecodeJSON (save_body r) = Ok req /\ valid_SaveRequest req /\
      ((exists a, resp = RespJSON StatusOK (JObject (SaveResponse_fields Ok_response a)) /\
          one_more m req a m') \/
       (resp_code resp = StatusConflict /\ is_Some (m !! Alias req) /\ m' = m) \/
       ((resp_code resp = StatusBadRequest \/ resp_code resp = StatusInternalServerError) /\
        (m' = m \/ exists a, one_more m req a m'))))).

(** [DELETE /{alias}] *)
Definition remove_rel m r (a : string) resp m' : Prop :=
  (m' = m /\ (resp_code resp = StatusUnauthorized \/ resp_code resp = StatusTooManyRequests)) \/
  (authorized r /\
   ((resp = RespEmpty StatusNoContent /\ is_Some (m !! a) /\ m' = delete a m) \/
    (resp_code resp = StatusNotFound /\ m !! a = None /\ m' = m) \/
    (resp_code resp = StatusInternalServerError /\ (m' = m \/ m' = delete a m)))).

(** [GET /{alias}]: the link that is in the book, unless the entry is stale. *)
Definition follow_rel b (a : string) resp : Prop :=
  (exists u, resp = RespRedirect StatusFound u /\ (a ∉ stale b -> links b !! a = Some u)) \/
  (resp_code resp = StatusNotFound /\ (a ∉ stale b -> links b !! a = None)) \/
  resp_code resp = StatusInternalServerError.

(** The alias in the path, as the service reads it. *)
Definition path_alias r : string := TrimSpace (default "" (alias_of (URL_Path r))).

Definition http_rel b r resp b' : Prop :=
  match table_endpoint (Method r) (URL_Path r) with
  | Some EpSave => post_rel (links b) r resp (links b') /\ stale b' = stale b
  | Some EpDelete =>
      remove_rel (links b) r (path_alias r) resp (links b') /\
      stale b' = (if decide (links b' = links b) then stale b else {[path_alias r]} ∪ stale b)
  | Some EpGet => b' = b /\ follow_rel b (path_alias r) resp
  | _ => b' = b
  end.

Inductive http_trace : book -> list request -> list response -> book -> Prop :=
| http_nil b : http_trace b [] [] b
| http_cons b r resp b1 rs resps b2 :
    http_rel b r resp b1 -> http_trace b1 rs resps b2 ->
    http_trace b (r :: rs) (resp :: resps) b2.

End Abstract.

(** ** The deployed service *)

Section Refinement.
Context {W : Type} `{!Postgres.PgPool W, !Runtime W, !Postgres.PgPoolSpec W}.
#[local] Existing Instances Postgres.PostgresRepo Postgres.PostgresRepo_spec.
Context `{!Cache.Redis W, !Cache.RedisSpec W, !Cache.Singleflight (Z * W),
          !Cache.SingleflightSpec (Z * W)}.
Context `{!AliasGenerator W, !AuthAPI W, !RedisPing W, GrpcStatusLib}.
Context `{JWT, EngineSpec, MailLib, MuxSpec, RequestIDsSpec, !JWTLaws}.
Context `{BodyDecoder SaveRequest, BodyDecoder registerRequest, BodyDecoder loginRequest,
          BodyDecoder refreshRequest}.
Context (uint64_oob : float64 -> Z).
Context `{!QuietOutside (W := W), !GeneratorSpec W}.
Variable wr : wiring.

#[local] Existing Instances stack_runtime stack_generator stack_auth stack_pinger.
#[local] Hint Extern 0 (Storage _) => exact (stack_storage wr) : typeclass_instances.
#[local] Hint Extern 0 (URLService _) => exact (stack_urls wr) : typeclass_instances.
#[local] Hint Extern 0 (AuthService _) => exact (stack_sso wr) : typeclass_instances.

#[local] Abbreviation secret := (secret (w_verifier wr)).
#[local] Abbreviation state := (sys (W := world (W := W))).

(** A sequence of requests, one after the other. *)
Fixpoint serve_all (rs : list request) : M state (list response) :=
  match rs with
  | [] => mret []
  | r :: rs => a ← serve uint64_oob wr r; resps ← serve_all rs; mret (a.1 :: resps)
  end.

(** The world stands for the book. *)
Definition world_stands (v : world (W := W)) (b : book) : Prop :=
  store_wf v.2 /\ Cache.coherent_except (stale b) v.2 /\ urls v.2 = links b.
Definition stands_for (s : state) (b : book) : Prop := world_stands s.2.2 b.

(** Whatever the world stood for it stands for still. *)
Definition same_book (v v' : world (W := W)) : Prop :=
  forall b, world_stands v b -> world_stands v' b.

#[local] Instance same_book_refl : Reflexive same_book.
Proof. by intros v b Hv. Qed.
#[local] Instance same_book_trans : Transitive same_book.
Proof. intros v1 v2 v3 Hl Hr b Hv. by apply Hr, Hl. Qed.

Lemma quiet_same_book d (w w' : W) : Cache.quiet w w' -> same_book (d, w) (d, w').
Proof.
  intros Hq b (Hwf & Hc & Hu). destruct (Cache.quiet_run _ _ _ Hq Hwf Hc) as (? & ? & Hu').
  split_and!; [done|done|]. simpl in *. by rewrite Hu'.
Qed.

#[local] Instance now_same_book : Preserves same_book (time_Now (W := world)).
Proof. apply (runtime_R same_book quiet_same_book). Qed.
(** *** The handlers *)

Lemma Handler_Save_book r (v v' : world (W := W)) resp b :
  world_stands v b -> Handler_Save r v = (resp, v') -> authorized secret r ->
  exists m', world_stands v' {| links := m'; stale := stale b |} /\
    post_rel secret (links b) r resp m'.
Proof.
  intros (Hwf & Hc & Hu) E Hauth.
  destruct (Handler_Save_cases _ _ _ _ E) as [(-> & Hbad & Hreq)|(req & res & Hd & Hv & Hs & Hr)].
  { exists (links b). split; [by split_and!|]. right. split; [done|]. by left. }
  assert (Hta : TrimSpace (Alias req) = Alias req).
  { destruct Hv as (_ & _ & _ & [-> | [_ Ha]]); [done|by apply alias_trimmed]. }
  apply ServiceURLs_Save in Hs as (o & Hs & ->).
  destruct (Save_outcome (W := world) (H := saves_spec wr (stale b))
    (GeneratorSpec0 := saves_generator wr (stale b))
    (RuntimePreserves0 := saves_runtime wr (stale b)) _ _ _ _ _ _ o v' (conj Hwf Hc) Hs)
    as ([Hwf' Hc'] & _ & Ho).
  cbn [urls saves_spec] in Ho. rewrite Hu, Hta in Ho.
  exists (urls v'.2). split; [by split_and!|]. right. split; [done|]. right. exists req.
  split; [done|]. split; [done|]. destruct o as [[a|e]|]; simpl in Hr.
  - left. exists a. split; [exact Hr|]. destruct Ho as (? & ? & ?). by split_and!.
  - right. destruct Ho as [Hx Hch]. unfold save_error_code in Hr.
    destruct (errors_Is e (SDomain ErrURLExist)); [left; by destruct (Hx eq_refl)|right].
    split; [destruct (errors_Is e _); auto|].
    destruct Hch as [?|(a & ? & ? & ?)]; [by left|right]. exists a. by split_and!.
  - right; right. split; [by right|by left].
Qed.

Lemma Handler_Get_book r (v v' : world (W := W)) resp b a :
  world_stands v b -> Handler_Get r v = (resp, v') -> URLParam r "alias" = a -> a <> "" ->
  world_stands v' b /\ follow_rel b (TrimSpace a) resp.
Proof.
  intros Hv E Ha Hne. pose proof Hv as (Hwf & Hc & Hu).
  destruct (Handler_Get_cases _ _ _ _ E) as [(Hempty & _)|(res & Hs & Hr)]; [congruence|].
  cbn [svc_Get stack_urls ServiceURLs] in Hs. unfold Service.Get in Hs. rewrite Ha in Hs.
  case_bool_decide as Ht.
  - injection Hs as <- <-. split; [done|]. right; right. rewrite Hr. done.
  - unfold check_err, mbind, M_bind in Hs. destruct v as [d w].
    destruct (st_Get (W := world) (Context_of r) (TrimSpace a) (d, w)) as [r1 v1] eqn:Eg.
    destruct (Cache.Get_run _ _ _ _ _ _ _ _ Hwf Hc Eg) as (Hwf1 & Hc1 & Hu1 & Hg).
    rewrite Hu in Hu1, Hg.
    destruct r1 as [u|e]; injection Hs as <- <-; (split; [by split_and!|]).
    + left. exists u. by split.
    + right. subst resp. simpl. unfold lookup_error_code. rewrite errors_Is_wrap_op.
      simpl in Hg. destruct (errors_Is e (SDomain ErrURLNotFound)); [left; split; auto|by right].
Qed.

(** The aliases that are stale after a delete. *)
Definition stale_after (b : book) (a : string) (m' : gmap string string) : gset string :=
  if decide (m' = links b) then stale b else {[a]} ∪ stale b.

Lemma Handler_Delete_book r (v v' : world (W := W)) resp b a :
  world_stands v b -> Handler_Delete r v = (resp, v') -> URLParam r "alias" = a -> a <> "" ->
  authorized secret r ->
  exists m', world_stands v' {| links := m'; stale := stale_after b (TrimSpace a) m' |} /\
    remove_rel secret (links b) r (TrimSpace a) resp m'.
Proof.
  intros Hv E Ha Hne Hauth. pose proof Hv as (Hwf & Hc & Hu).
  destruct (Handler_Delete_cases _ _ _ _ E) as [(Hempty & _)|(err & Hs & Hr)]; [congruence|].
  cbn [svc_Delete stack_urls ServiceURLs] in Hs. unfold Service.Delete in Hs. rewrite Ha in Hs.
  case_bool_decide as Ht.
  - injection Hs as <- <-. exists (links b). unfold stale_after. rewrite decide_True by done.
    split; [done|]. right. split; [done|]. right; right. split; [rewrite Hr; done|by left].
  - unfold mbind, M_bind in Hs. destruct v as [d w].
    destruct (st_Delete (W := world) (Context_of r) (TrimSpace a) (d, w)) as [e v1] eqn:Ed.
    destruct (Cache.Delete_run (stale b) (w_cache wr) (Context_of r) (TrimSpace a) d w e v1 Hwf Hc Ed) as (Hwf1 & Hc1 & Hd).
    pose proof (Cache.Delete_kept (stale b) (w_cache wr) (Context_of r) (TrimSpace a) d w e v1 Hwf Hc Ed) as Hkept.
    cbn [snd] in Hu. rewrite Hu in Hd, Hkept. exists (urls v1.2).
    assert (v' = v1) as -> by (destruct e; by injection Hs as <- <-). split.
    { split_and!; [done| |done]. unfold stale_after. simpl. case_decide; auto. }
    right. split; [done|]. destruct e as [e|]; injection Hs as <-.
    + right. unfold lookup_error_code in Hr. rewrite errors_Is_wrap_op in Hr. simpl in Hd.
      destruct (errors_Is e (SDomain ErrURLNotFound)); [left; by destruct Hd|by right].
    + left. by destruct Hd.
Qed.

(** *** The routes *)

Lemma authenticated_authorized r (v : world (W := W)) :
  authenticated uint64_oob (w_verifier wr) r v -> authorized secret r.
Proof.
  intros (token & claims & Ht & Hv). exists token. split; [done|].
  exact (proj1 (Verify_ok_signed _ _ _ _ _ Hv)).
Qed.

(** A write through the middleware. *)
Lemma serve_write_book (h : Handler (world (W := W))) r (al wl : Limiter) v b (P : response -> book -> Prop) :
  world_stands v b ->
  (forall ctx v1 resp v', world_stands v1 b -> authorized secret r ->
     h (WithContext r ctx) v1 = (resp, v') -> exists b', world_stands v' b' /\ P resp b') ->
  (forall resp, resp_code resp = StatusUnauthorized \/ resp_code resp = StatusTooManyRequests ->
     P resp b) ->
  exists b', stands_for (serve_write uint64_oob (w_verifier wr) h r (al, (wl, v))).2 b' /\
    P (serve_write uint64_oob (w_verifier wr) h r (al, (wl, v))).1 b'.
Proof.
  intros Hv Hh Hno.
  destruct (serve_write_done uint64_oob (w_verifier wr) same_book h r al wl v now_same_book)
    as [[Hcode Hs]|(Ha & ctx & v1 & Hs & -> & Hv')].
  - exists b. split; [by apply Hs|by apply Hno].
  - unfold stands_for. rewrite Hv'. destruct (h (WithContext r ctx) v1) as [resp v'] eqn:E.
    apply (Hh ctx v1); [by apply Hs|by eapply authenticated_authorized|exact E].
Qed.

Lemma alias_of_nonempty path a : alias_of path = Some a -> a <> "".
Proof.
  unfold alias_of. destruct path as [|c rest]; [done|]. case_match eqn:Hb; [|done].
  intros [= <-]. apply andb_true_iff in Hb as [Hb _]. apply andb_true_iff in Hb as [_ Hb].
  by apply bool_decide_eq_true in Hb.
Qed.

Lemma URLParam_alias r a : URLParam (WithAlias r a) "alias" = a.
Proof. unfold URLParam. simpl. by rewrite lookup_singleton_eq. Qed.

(** One request. *)
Lemma route_book r (s : state) b : stands_for s b ->
  exists b', stands_for (serve_route uint64_oob (w_verifier wr) r s).2 b' /\
    http_rel secret b r (serve_route uint64_oob (w_verifier wr) r s).1 b'.
Proof.
  intros Hs. destruct s as [al [wl v]]. unfold stands_for in Hs. cbn [snd] in Hs.
  unfold http_rel, path_alias, serve_route.
  pose proof (find_routes (Method r) (URL_Path r)) as Hf.
  set (r' := match alias_of (URL_Path r) with Some a => WithAlias r a | None => r end).
  assert (Hr' : Method r' = Method r /\ URL_Path r' = URL_Path r)
    by (subst r'; by destruct (alias_of (URL_Path r))).
  destruct Hr' as [Hm Hp]. rewrite Hm, Hp.
  destruct (find_route routes (Method r) (URL_Path r)) as [rt|]; simpl in Hf; rewrite <- Hf;
    [|by exists b].
  symmetry in Hf. pose proof (table_endpoint_inv _ _ _ Hf) as Hinv.
  destruct (rt_endpoint rt); try done.
  - destruct Hinv as [_ [a Ha]]. subst r'. rewrite Ha, !lift_snd_eq. cbn [fst snd].
    destruct (Handler_Get (WithAlias r a) v) as [resp v'] eqn:E.
    destruct (Handler_Get_book _ _ _ _ b a Hs E (URLParam_alias r a)) as [Hs' Hrel];
      [by eapply alias_of_nonempty|]. exists b. by split.
  - destruct Hinv as [_ Hurl]. subst r'. rewrite Hurl. change (alias_of "/url") with (Some "url"). cbn iota beta.
    apply (serve_write_book _ _ _ _ _ b (fun resp b' => post_rel secret (links b) r resp (links b') /\
      stale b' = stale b)); [done|..].
    + intros ctx v1 resp v' Hv1 Ha E.
      destruct (Handler_Save_book _ _ _ _ _ Hv1 E Ha) as (m' & Hs' & Hrel). by eexists.
    + intros resp Hcode. split; [by left|done].
  - destruct Hinv as [_ [a Ha]]. subst r'. rewrite Ha. simpl.
    apply (serve_write_book _ _ _ _ _ b (fun resp b' =>
      remove_rel secret (links b) r (TrimSpace a) resp (links b') /\
      stale b' = stale_after b (TrimSpace a) (links b'))); [done|..].
    + intros ctx v1 resp v' Hv1 Hauth E.
      destruct (Handler_Delete_book _ _ _ _ _ a Hv1 E) as (m' & Hs' & Hrel);
        [exact (URLParam_alias r a)|by eapply alias_of_nonempty|exact Hauth|]. by eexists.
    + intros resp Hcode. split; [by left|]. unfold stale_after. by rewrite decide_True.
  - rewrite !lift_snd_eq. cbn [fst snd]. exists b. split; [|done].
    by apply (probe_R same_book quiet_same_book).
  - exists b. split; [|done]. destruct (sso_R wr same_book quiet_same_book) as (? & ? & ? & ?).
    apply (serve_auth_preserves same_book _ al wl v); first [done | exact now_same_book].
Qed.

Lemma serve_book r (s : state) b resp lvl s' : stands_for s b ->
  serve uint64_oob wr r s = ((resp, lvl), s') ->
  exists b', stands_for s' b' /\ http_rel secret b r resp b'.
Proof.
  intros Hs. unfold serve. destruct (NewRouter_route uint64_oob (w_verifier wr) r s) as [ctx ->].
  pose proof (route_book (WithContext r ctx) s b Hs) as Hr.
  destruct (serve_route uint64_oob (w_verifier wr) (WithContext r ctx) s) as [resp1 s1].
  intros [= <- _ <-]. exact Hr.
Qed.

(** C2: The deployed service refines the abstract one.  Whatever the database, Redis,
    the clock, the generator and the SSO service do within their contracts, any
    sequence of HTTP requests is answered as the abstract service may answer it
    from the book the world stands for, and the world stands for the abstract
    service's book after it.  So a 200 stores one link more under a free alias;
    a 401, 409 or 429 and the 400 of a post that is not valid change nothing,
    and a valid post that fails otherwise has stored its link or nothing; a 204
    removes a link that was there; a redirect of an alias that is not stale
    leads to the URL in the book and a 404 means it has none; only aliases that
    were deleted become stale; and the book changes for the bearer of a signed
    token only. *)
Theorem service_refines_book rs (s : state) b resps s' : stands_for s b ->
  serve_all rs s = (resps, s') ->
  exists b', stands_for s' b' /\ http_trace secret b rs resps b'.
Proof.
  revert s b resps. induction rs as [|r rs IH]; intros s b resps Hs; simpl.
  - intros [= <- <-]. exists b. split; [done|constructor].
  - unfold mbind, M_bind. destruct (serve uint64_oob wr r s) as [[resp lvl] s1] eqn:E.
    destruct (serve_all rs s1) as [resps1 s2] eqn:Er. intros [= <- <-].
    destruct (serve_book _ _ _ _ _ _ Hs E) as (b1 & Hs1 & Hrel).
    destruct (IH _ _ _ Hs1 Er) as (b2 & Hs2 & Htr). exists b2. split; [done|by econstructor].
Qed.
End Refinement.

(** ** Evaluation *)

#[local] Existing Instances deploy_quiet deploy_generator.

(** A link is posted, followed, deleted, and followed again. *)
Definition life_of_a_link : list request :=
  [Deploy.post; Deploy.get; RouterDemo.request_of "DELETE" "/ABCDEF" "Bearer tok"; Deploy.get].

Lemma service_refines_book_witness :
  let '(resps, s') := serve_all RouterDemo.oob deployed life_of_a_link after_boot in
  resp_code <$> resps = [200; 302; 204; 404] /\
  exists b', http_trace (secret (w_verifier deployed)) {| links := ∅; stale := ∅ |}
    life_of_a_link resps b' /\ links b' = ∅.
Proof.
  destruct (serve_all RouterDemo.oob deployed life_of_a_link after_boot) as [resps s'] eqn:E.
  assert (Hcodes : resp_code <$> (serve_all RouterDemo.oob deployed life_of_a_link after_boot).1 =
    [200; 302; 204; 404]) by (vm_compute; reflexivity).
  assert (Hrows : Postgres.SimPg.rows (Deploy.pg s'.2.2.2) = []).
  { assert (Hs : Postgres.SimPg.rows (Deploy.pg
      (serve_all RouterDemo.oob deployed life_of_a_link after_boot).2.2.2.2) = [])
      by (vm_compute; reflexivity). by rewrite E in Hs. }
  rewrite E in Hcodes. split; [exact Hcodes|].
  destruct (service_refines_book RouterDemo.oob deployed life_of_a_link after_boot
    {| links := ∅; stale := ∅ |} resps s') as (b' & (_ & _ & Hu) & Htr); [|exact E|].
  - split; [apply NoDup_nil_2|]. split; [|reflexivity]. intros a v _ Hv. discriminate Hv.
  - exists b'. split; [exact Htr|]. rewrite <- Hu.
    change (Postgres.table_urls (Postgres.SimPg.rows (Deploy.pg s'.2.2.2)) = ∅).
    rewrite Hrows. reflexivity.
Defined.
