(* ===== verification/Traffic.v ===== *)
(** * The link endpoints in traffic

    HTTP requests on the links that run at the same time: the router, the
    authentication, the limiter and the handlers as programs on the accesses of
    [Interleave], over the service of [Requests].  What the limiter answers is
    the business of [Mutex] and [RateSpan]: here it may let in whom it likes, and
    so may the endpoints of the accounts and the probe answer what they like,
    which touch no link. *)

From stdpp Require Import relations.
From S2P Require Import Prelude GoErrors GoStrings GoFloat Authn Runtime Http Response.
From S2P Require Import RateLimit Storage Cache Interleave Progress Requests Panics.
From S2P Require Import Validation Handlers Links Sso Router Schema Contract.
From S2P Require Service.
#[local] Open Scope Z_scope.

(** A request, the verdict of the limiter, and what the other endpoints say. *)
Record arrival := { arr_request : request; arr_let_in : bool; arr_other : response }.

(** ** The handlers and the middleware *)

Section Programs.
Context (c : Cache) (s : Service.Service).
Context `{JWT, ValidatorEngine, Mux, RequestIDs, Recoverer, BodyDecoder SaveRequest}.
Context (uint64_oob : float64 -> Z) (verifier : Verifier).

(** [ServiceURLs] *)
Definition urls_Save (ctx : context) (url alias : string) : prog (result string) :=
  r ← URLService_Save c s ctx url alias;
  mret (default (Err (ErrorString "out of fuel")) r).

(** [Handler.Save] *)
Definition Handler_Save_prog (r : request) : prog response :=
  let r := WithBody r (MaxBytesReader (Body r) maxSaveRequestBytes) in
  match DecodeJSON (Body r) with
  | Err _ => mret (Respond StatusBadRequest (Error_response "failed to decode request"))
  | Ok req =>
      match validate_Struct (SaveRequest_fields req) with
      | Some (ValidationErrors errs) => mret (Respond StatusBadRequest (ValidationError errs))
      | Some (OtherValidateError _) =>
          mret (Respond StatusInternalServerError (Error_response "validation error"))
      | None =>
          res ← urls_Save (Context_of r) (URL req) (Alias req);
          match res with
          | Err err =>
              mret (RespondError err StatusInternalServerError "failed add url"
                [Case (SDomain ErrURLExist) StatusConflict "url already exists";
                 Case (SDomain ErrInvalidURL) StatusBadRequest "url is required"]).2
          | Ok alias => mret (RespJSON StatusOK (JObject (SaveResponse_fields Ok_response alias)))
          end
      end
  end.

(** [Handler.Get] *)
Definition Handler_Get_prog (r : request) : prog response :=
  let alias := URLParam r "alias" in
  if bool_decide (alias = "") then
    mret (Respond StatusBadRequest (Error_response "invalid request"))
  else
    res ← URLService_Get c (Context_of r) alias;
    match res with
    | Err err =>
        mret (RespondError err StatusInternalServerError "internal error"
          [Case (SDomain ErrURLNotFound) StatusNotFound "not found"]).2
    | Ok resURL => mret (RespRedirect StatusFound resURL)
    end.

(** [Handler.Delete] *)
Definition Handler_Delete_prog (r : request) : prog response :=
  let alias := URLParam r "alias" in
  if bool_decide (alias = "") then
    mret (Respond StatusBadRequest (Error_response "invalid request"))
  else
    err ← URLService_Delete c (Context_of r) alias;
    match err with
    | Some err =>
        mret (RespondError err StatusInternalServerError "internal error"
          [Case (SDomain ErrURLNotFound) StatusNotFound "not found"]).2
    | None => mret (RespEmpty StatusNoContent)
    end.

(** [auth.RequireAuth] *)
Definition RequireAuth_prog (next : request -> prog response) (r : request) : prog response :=
  let prefix := "Bearer " in
  let header := Header_Get r "Authorization" in
  if negb (HasPrefix header prefix) then
    mret (Respond StatusUnauthorized (Error_response "missing bearer token"))
  else
    now ← Now Ret;
    match Verify uint64_oob verifier now (TrimPrefix header prefix) with
    | Err _ => mret (Respond StatusUnauthorized (Error_response "invalid or expired token"))
    | Ok claims => next (WithContext r (with_user (Context_of r) claims))
    end.

(** [Limiter.Middleware]: [allow] reads the clock and gives its verdict. *)
Definition Limiter_prog (ok : bool) (next : request -> prog response) (r : request) :
    prog response :=
  _ ← Now Ret;
  if ok then next r
  else mret (Respond StatusTooManyRequests (Error_response "rate limit exceeded")).

Definition write_prog (ok : bool) (h : request -> prog response) : request -> prog response :=
  RequireAuth_prog (Limiter_prog ok h).

(** The routes of [NewRouter]. *)
Definition route_prog (ok : bool) (other : response) (r : request) : prog response :=
  let r := match alias_of (URL_Path r) with Some a => WithAlias r a | None => r end in
  match find_route routes (Method r) (URL_Path r) with
  | Some rt =>
      match rt_endpoint rt with
      | EpGet => Handler_Get_prog r
      | EpSave => write_prog ok Handler_Save_prog r
      | EpDelete => write_prog ok Handler_Delete_prog r
      | EpAuth | EpHealthz => mret other
      | _ => mret (no_route routes (Method r) (URL_Path r))
      end
  | None => mret (no_route routes (Method r) (URL_Path r))
  end.

(** The handler [NewRouter] returns, with a generator of aliases of length [n]; its
    access log line is left out. *)
Definition http_prog (n : Z) (ar : arrival) : prog response :=
  recover n panic_answer
    (route_prog (arr_let_in ar) (arr_other ar) (propagated (RequestID (arr_request ar)))).

(** All the requests, none of them begun. *)
Definition start_http (n : Z) (ars : list arrival) : list (thread arrival response) :=
  (fun ar => (ar, http_prog n ar)) <$> ars.
End Programs.

(** ** The shape of a request *)

(** The answer that a link is saved under [a]. *)
Definition created (a : string) : response :=
  RespJSON StatusOK (JObject (SaveResponse_fields Ok_response a)).

Lemma created_inj a b : created a = created b -> a = b.
Proof. unfold created, SaveResponse_fields. do 2 case_bool_decide; simpl; intros [=]; congruence. Qed.

Lemma error_not_created err code msg cases a :
  code <> StatusOK -> Forall (fun cs => CaseStatus cs <> StatusOK) cases ->
  (RespondError err code msg cases).2 <> created a.
Proof.
  intros Hc Hcs. unfold RespondError. induction Hcs as [|cs cases Hne Hcs IH]; simpl.
  - by intros [=].
  - case_match; [by intros [=]|done].
Qed.

Section Shape.
Context (c : Cache) (s : Service.Service).
Context `{JWT, EngineSpec, MuxSpec, RequestIDsSpec, RecovererSpec, BodyDecoder SaveRequest}.
Context (uint64_oob : float64 -> Z) (verifier : Verifier).
#[local] Abbreviation route_prog := (route_prog c s uint64_oob verifier).
#[local] Abbreviation write_prog := (write_prog uint64_oob verifier).
#[local] Abbreviation http_prog := (http_prog c s uint64_oob verifier).

(** What holds of the programs of the link endpoints, and of programs that answer
    at once, holds of every request. *)
Lemma route_shape (P : prog response -> Prop) ok other r :
  (forall a, table_endpoint (Method r) (URL_Path r) = Some EpGet -> alias_of (URL_Path r) = Some a ->
     P (Handler_Get_prog c (WithAlias r a))) ->
  (table_endpoint (Method r) (URL_Path r) = Some EpSave ->
     P (write_prog ok (Handler_Save_prog c s) (WithAlias r "url"))) ->
  (forall a, table_endpoint (Method r) (URL_Path r) = Some EpDelete -> alias_of (URL_Path r) = Some a ->
     P (write_prog ok (Handler_Delete_prog c) (WithAlias r a))) ->
  (table_endpoint (Method r) (URL_Path r) <> Some EpGet ->
   table_endpoint (Method r) (URL_Path r) <> Some EpSave -> forall resp, P (Ret resp)) ->
  P (route_prog ok other r).
Proof.
  intros HG HS HD HO. unfold Traffic.route_prog.
  set (r' := match alias_of (URL_Path r) with Some a => WithAlias r a | None => r end).
  assert (Hr' : Method r' = Method r /\ URL_Path r' = URL_Path r)
    by (subst r'; by destruct (alias_of (URL_Path r))).
  destruct Hr' as [Hm Hp]. rewrite Hm, Hp.
  pose proof (find_routes (Method r) (URL_Path r)) as Hf.
  destruct (find_route routes _ _) as [rt|]; simpl in Hf; rewrite <- Hf in *; [|by apply HO].
  symmetry in Hf. pose proof (table_endpoint_inv _ _ _ Hf) as Hinv.
  destruct (rt_endpoint rt); try (by apply HO).
  - destruct Hinv as [_ [a Ha]]. subst r'. rewrite Ha. by apply HG.
  - destruct Hinv as [_ Hurl]. subst r'. rewrite Hurl. by apply HS.
  - destruct Hinv as [_ [a Ha]]. subst r'. rewrite Ha. by apply HD.
Qed.

(** The answers of the middleware. *)
Definition turned_down (resp : response) : Prop :=
  resp_code resp = StatusUnauthorized \/ resp_code resp = StatusTooManyRequests.

(** A write reads the clock at most twice, and is turned down, or is its handler
    for the bearer of a token that verifies. *)
Lemma write_rule (P : nat -> prog response -> Prop) n ok h r :
  (forall n resp, turned_down resp -> P n (Ret resp)) ->
  (forall n k, (forall t, P n (k t)) -> P (S n) (Now k)) ->
  (forall token now claims ctx, Header_Get r "Authorization" = "Bearer " +:+ token ->
     Verify uint64_oob verifier now token = Ok claims -> P n (h (WithContext r ctx))) ->
  P (S (S n)) (write_prog ok h r).
Proof.
  intros Hret Hnow Hh. unfold Traffic.write_prog, RequireAuth_prog.
  destruct (HasPrefix _ _) eqn:Hp; [|apply Hret; by left]. apply TrimPrefix_spec in Hp.
  apply Hnow. intros now. simpl. destruct (Verify uint64_oob verifier now _) as [claims|e] eqn:Ev;
    [|apply Hret; by left].
  apply Hnow. intros t. destruct ok; [by eapply Hh|apply Hret; by right].
Qed.

(** The middleware keeps what the endpoints are chosen by. *)
Lemma http_routed n ar : exists ctx,
  http_prog n ar = recover n panic_answer
    (route_prog (arr_let_in ar) (arr_other ar) (WithContext (arr_request ar) ctx)).
Proof.
  destruct (routed_request (arr_request ar)) as [ctx Hr]. exists ctx. unfold Traffic.http_prog.
  by rewrite Hr.
Qed.
End Shape.

(** ** What a request may rely on *)

Section Discipline.
Context `{Discipline} (c : Cache) (s : Service.Service).
Context `{JWT, !JWTLaws, EngineSpec, MuxSpec, RequestIDsSpec, RecovererSpec, BodyDecoder SaveRequest}.
Context (uint64_oob : float64 -> Z) (verifier : Verifier).

#[local] Abbreviation endpoint_of r := (table_endpoint (Method r) (URL_Path r)).

(** A link that the bearer of a token asks for. *)
Definition asked (r : request) (req : SaveRequest) : Prop :=
  authorized (secret verifier) r /\ DecodeJSON (save_body r) = Ok req /\ valid_SaveRequest req.

Definition http_permitted (r : request) : Prop :=
  match endpoint_of r with
  | Some EpSave => forall req, asked r req -> save_permitted (TrimSpace (URL req)) (TrimSpace (Alias req))
  | Some EpDelete =>
      authorized (secret verifier) r -> path_alias r <> "" -> may_delete (path_alias r)
  | _ => True
  end.

(** What the answer must have. *)
Definition http_ok (r : request) (m : gmap string string) (resp : response) : Prop :=
  match endpoint_of r with
  | Some EpGet => forall code u, resp = RespRedirect code u ->
      code = StatusFound /\ Fact m (path_alias r) u
  | Some EpSave => forall a, resp = created a -> exists req,
      asked r req /\ Fact m a (TrimSpace (URL req))
  | _ => True
  end.

Lemma http_ok_stable r : stable (http_ok r).
Proof.
  intros m m' resp HM. unfold http_ok. destruct (endpoint_of r) as [[]|]; try done.
  - intros Hr code u Hu. destruct (Hr code u Hu). split; [done|]. by eapply Fact_mono.
  - intros Hr a Ha. destruct (Hr a Ha) as (req & ? & ?). exists req. split; [done|].
    by eapply Fact_mono.
Qed.

Lemma wp_Handler_Get m r : wp m (Handler_Get_prog c r) (fun m' resp =>
  forall code u, resp = RespRedirect code u ->
    code = StatusFound /\ Fact m' (TrimSpace (URLParam r "alias")) u).
Proof.
  unfold Handler_Get_prog. cbv zeta. case_bool_decide; [by intros code u [=]|]. apply wp_bind.
  eapply wp_weaken; [apply wp_URLService_Get|]. intros m' [u|e] Hf code u'.
  - intros [= <- <-]. split; [done|]. by apply Hf.
  - destruct (RespondError_resp_code e StatusInternalServerError "internal error"
      [Case (SDomain ErrURLNotFound) StatusNotFound "not found"]); simpl; by case_match.
Qed.

Lemma wp_Handler_Save m r :
  (forall req, DecodeJSON (save_body r) = Ok req -> valid_SaveRequest req ->
     save_permitted (TrimSpace (URL req)) (TrimSpace (Alias req))) ->
  wp m (Handler_Save_prog c s r) (fun m' resp => forall a, resp = created a -> exists req,
    DecodeJSON (save_body r) = Ok req /\ valid_SaveRequest req /\ Fact m' a (TrimSpace (URL req))).
Proof.
  intros Hp. unfold Handler_Save_prog. cbn [Body WithBody Context_of]. fold (save_body r).
  destruct (DecodeJSON (save_body r)) as [req|e] eqn:Ed; [|by intros a [=]].
  destruct (Struct_SaveRequest req) as [[-> Hv]|(errs & -> & _)]; [|by intros a [=]].
  apply wp_bind, wp_bind. eapply wp_weaken; [by apply wp_URLService_Save, Hp|].
  intros m' [[b|e]|] Hf a Ha; simpl in Ha.
  - apply created_inj in Ha as <-. exists req. split_and!; [done..|]. by apply Hf.
  - destruct (error_not_created e StatusInternalServerError "failed add url"
      [Case (SDomain ErrURLExist) StatusConflict "url already exists";
       Case (SDomain ErrInvalidURL) StatusBadRequest "url is required"] a); [done| |exact Ha].
    by repeat constructor.
  - discriminate Ha.
Qed.

Lemma wp_Handler_Delete m r a : URLParam r "alias" = a ->
  (TrimSpace a <> "" -> may_delete (TrimSpace a)) ->
  wp m (Handler_Delete_prog c r) (fun _ _ => True).
Proof.
  intros <- Hp. unfold Handler_Delete_prog. cbv zeta. case_bool_decide; [done|]. apply wp_bind.
  eapply wp_weaken; [by apply wp_URLService_Delete|]. by intros m' [e|].
Qed.

(** A write through the middleware. *)
Lemma wp_write m ok h r (Q : gmap string string -> response -> Prop) :
  (forall m' resp, turned_down resp -> Q m' resp) ->
  (authorized (secret verifier) r -> forall ctx m', wp m' (h (WithContext r ctx)) Q) ->
  wp m (write_prog uint64_oob verifier ok h r) Q.
Proof.
  intros Hno Hh. revert m.
  apply (write_rule uint64_oob verifier (fun _ p => forall m, wp m p Q) 0).
  - intros _ resp Hd m. by apply Hno.
  - intros _ k Hk m t m' HM. apply Hk.
  - intros token now claims ctx Ht Hv m. apply Hh. exists token. split; [done|].
    exact (proj1 (Verify_ok_signed _ _ _ _ _ Hv)).
Qed.

Lemma panic_ok r m : http_ok r m panic_answer.
Proof. rewrite panic_answer_spec. unfold http_ok. by destruct (endpoint_of r) as [[]|]. Qed.

Lemma wp_http n m ar : http_permitted (arr_request ar) ->
  wp m (http_prog c s uint64_oob verifier n ar) (http_ok (arr_request ar)).
Proof.
  destruct (http_routed c s uint64_oob verifier n ar) as [ctx ->]. set (r := arr_request ar).
  unfold http_permitted. intros Hp. apply wp_recover; [|intros m'; apply panic_ok].
  apply (route_shape c s uint64_oob verifier (fun p => wp m p (http_ok r)));
    change (endpoint_of (WithContext r ctx)) with (endpoint_of r); unfold http_ok.
  - intros a He Ha. rewrite He in *. unfold path_alias. change (alias_of (URL_Path r) = Some a) in Ha.
    rewrite Ha. eapply wp_weaken; [apply wp_Handler_Get|]. by rewrite URLParam_alias.
  - intros He. rewrite He in *. apply wp_write; [by intros m' resp Hc a ->; destruct Hc|].
    intros Hauth ctx' m'. eapply wp_weaken; [apply wp_Handler_Save|].
    + intros req Hd Hv. by apply Hp.
    + intros m2 resp Hr a Ha. destruct (Hr a Ha) as (req & ? & ? & ?). by exists req.
  - intros a He Ha. rewrite He in *. change (alias_of (URL_Path r) = Some a) in Ha.
    unfold path_alias in Hp. rewrite Ha in Hp.
    apply wp_write; [done|]. intros Hauth ctx' m'. apply (wp_Handler_Delete _ _ a); [exact (URLParam_alias r a)|].
    by apply Hp.
  - intros HG HS resp. simpl. destruct (endpoint_of r) as [[]|]; done.
Qed.

Lemma start_http_ok n ars sh : shared_ok sh -> Forall (fun ar => http_permitted (arr_request ar)) ars ->
  state_ok (fun ar => http_ok (arr_request ar)) (sh, start_http c s uint64_oob verifier n ars).
Proof.
  intros Hs Hqs. split; [done|]. apply Forall_fmap. eapply Forall_impl; [exact Hqs|].
  intros ar Har. by apply wp_http.
Qed.
End Discipline.

(** ** Who is told an alias, and how long a request can run *)

Section Runs.
Context (c : Cache) (s : Service.Service).
Context `{JWT, EngineSpec, MuxSpec, RequestIDsSpec, RecovererSpec, BodyDecoder SaveRequest}.
Context (uint64_oob : float64 -> Z) (verifier : Verifier).

#[local] Abbreviation http_prog := (http_prog c s uint64_oob verifier).

(** The request was to save a link, and it is told [a]. *)
Definition told_created (a : string) (ar : arrival) (resp : response) : Prop :=
  table_endpoint (Method (arr_request ar)) (URL_Path (arr_request ar)) = Some EpSave /\
  resp = created a.

Lemma clean_Handler_Save a r :
  clean a (fun resp => resp <> created a) (Handler_Save_prog c s r).
Proof.
  unfold Handler_Save_prog. cbv zeta. destruct (DecodeJSON _) as [req|e]; [|by intros [=]].
  destruct (validate_Struct _) as [[errs|e]|]; [by intros [=]..|].
  apply clean_bind, clean_bind. eapply clean_weaken; [apply clean_URLService_Save|].
  intros [[b|e]|] Ho; simpl.
  - intros ->%created_inj. by apply Ho.
  - apply (error_not_created e StatusInternalServerError "failed add url"
      [Case (SDomain ErrURLExist) StatusConflict "url already exists";
       Case (SDomain ErrInvalidURL) StatusBadRequest "url is required"] a); [done|].
    by repeat constructor.
  - by intros [=].
Qed.

Lemma clean_http n a ar : clean a (fun resp => ~ told_created a ar resp) (http_prog n ar).
Proof.
  destruct (http_routed c s uint64_oob verifier n ar) as [ctx ->].
  apply clean_recover; [|rewrite panic_answer_spec; by intros [_ [=]]]. unfold told_created.
  apply (route_shape c s uint64_oob verifier (clean a _));
    change (table_endpoint _ _) with
      (table_endpoint (Method (arr_request ar)) (URL_Path (arr_request ar))).
  - intros b He _. apply clean_true. rewrite He. by intros resp [[=] _].
  - intros He. apply (write_rule uint64_oob verifier (fun _ p => clean a _ p) 0); [|done|].
    + intros _ resp Hd [_ ->]. by destruct Hd.
    + intros token now claims ctx' _ _. eapply clean_weaken; [apply clean_Handler_Save|].
      by intros resp Hr [_ ?].
  - intros b He _. apply clean_true. rewrite He. by intros resp [[=] _].
  - intros _ HS resp [? _]. by apply HS.
Qed.

Lemma Handler_Save_calm r : calm (Handler_Save_prog c s r).
Proof.
  unfold Handler_Save_prog. cbv zeta. destruct (DecodeJSON _) as [req|e]; [|done].
  destruct (validate_Struct _) as [[errs|e]|]; [done..|].
  apply calm_bind; [by apply calm_bind; [apply URLService_Save_calm|]|by intros [b|e]].
Qed.

Lemma Handler_Get_calm r : calm (Handler_Get_prog c r).
Proof.
  unfold Handler_Get_prog. cbv zeta. case_bool_decide; [done|].
  apply calm_bind; [apply URLService_Get_calm|by intros [u|e]].
Qed.

Lemma Handler_Delete_calm r : calm (Handler_Delete_prog c r).
Proof.
  unfold Handler_Delete_prog. cbv zeta. case_bool_decide; [done|].
  apply calm_bind; [apply URLService_Delete_calm|by intros [e|]].
Qed.

Lemma http_calm n ar : calm (http_prog n ar).
Proof.
  destruct (http_routed c s uint64_oob verifier n ar) as [ctx ->]. apply calm_recover.
  apply (route_shape c s uint64_oob verifier calm); [|intros _|intros a _ _|done].
  - intros a _ _. apply Handler_Get_calm.
  - apply (write_rule uint64_oob verifier (fun _ p => calm p) 0); [done..|].
    intros. apply Handler_Save_calm.
  - apply (write_rule uint64_oob verifier (fun _ p => calm p) 0); [done..|].
    intros. apply Handler_Delete_calm.
Qed.

Lemma Handler_Save_steps r : steps_le (accesses s) (Handler_Save_prog c s r).
Proof.
  unfold Handler_Save_prog. cbv zeta. destruct (DecodeJSON _) as [req|e]; [|done].
  destruct (validate_Struct _) as [[errs|e]|]; [done..|].
  rewrite <- (Nat.add_0_r (accesses s)). apply steps_le_bind; [|by intros [b|e]].
  rewrite <- (Nat.add_0_r (accesses s)). apply steps_le_bind; [apply URLService_Save_steps|done].
Qed.

Lemma Handler_Get_steps r : steps_le (accesses s) (Handler_Get_prog c r).
Proof.
  unfold Handler_Get_prog. cbv zeta. case_bool_decide; [done|].
  rewrite <- (Nat.add_0_r (accesses s)).
  apply steps_le_bind; [apply URLService_Get_steps|by intros [u|e]].
Qed.

Lemma Handler_Delete_steps r : steps_le (accesses s) (Handler_Delete_prog c r).
Proof.
  unfold Handler_Delete_prog. cbv zeta. case_bool_decide; [done|].
  rewrite <- (Nat.add_0_r (accesses s)).
  apply steps_le_bind; [apply URLService_Delete_steps|by intros [e|]].
Qed.

Lemma http_steps n ar : steps_le (2 + accesses s) (http_prog n ar).
Proof.
  destruct (http_routed c s uint64_oob verifier n ar) as [ctx ->]. apply steps_recover.
  apply (route_shape c s uint64_oob verifier (steps_le (2 + accesses s))); [|intros _|intros a _ _|done].
  - intros a _ _. eapply steps_le_mono; [|apply Handler_Get_steps]. lia.
  - apply (write_rule uint64_oob verifier steps_le); [done..|]. intros. apply Handler_Save_steps.
  - apply (write_rule uint64_oob verifier steps_le); [done..|]. intros. apply Handler_Delete_steps.
Qed.
End Runs.

(** ** Posts without an alias *)

(** A post that leaves the alias to the generator. *)
Definition unnamed `{Mux, BodyDecoder SaveRequest} (ar : arrival) : bool :=
  match table_endpoint (Method (arr_request ar)) (URL_Path (arr_request ar)),
        DecodeJSON (save_body (arr_request ar)) with
  | Some EpSave, Ok req => bool_decide (Alias req = "")
  | _, _ => false
  end.

Section Unnamed.
Context (c : Cache) (s : Service.Service).
Context `{JWT, EngineSpec, MuxSpec, RequestIDsSpec, RecovererSpec, BodyDecoder SaveRequest}.
Context (uint64_oob : float64 -> Z) (verifier : Verifier).
#[local] Abbreviation http_prog := (http_prog c s uint64_oob verifier).

(** [ar] got through the authentication and the limiter. *)
Definition let_in (ar : arrival) : Prop :=
  arr_let_in ar = true /\ exists token now claims,
    Header_Get (arr_request ar) "Authorization" = "Bearer " +:+ token /\
    Verify uint64_oob verifier now token = Ok claims.

(** How such a post is answered when the generator panics. *)
Inductive refused (ar : arrival) : response -> Prop :=
| no_token : HasPrefix (Header_Get (arr_request ar) "Authorization") "Bearer " = false ->
    refused ar (Respond StatusUnauthorized (Error_response "missing bearer token"))
| bad_token token now e :
    Header_Get (arr_request ar) "Authorization" = "Bearer " +:+ token ->
    Verify uint64_oob verifier now token = Err e ->
    refused ar (Respond StatusUnauthorized (Error_response "invalid or expired token"))
| over_limit : arr_let_in ar = false ->
    refused ar (Respond StatusTooManyRequests (Error_response "rate limit exceeded"))
| invalid_post req errs : let_in ar -> DecodeJSON (save_body (arr_request ar)) = Ok req ->
    ~ valid_SaveRequest req -> complaints req errs ->
    refused ar (Respond StatusBadRequest (ValidationError errs))
| context_done req : let_in ar -> DecodeJSON (save_body (arr_request ar)) = Ok req ->
    valid_SaveRequest req ->
    refused ar (Respond StatusInternalServerError (Error_response "failed add url"))
| panicked req : let_in ar -> DecodeJSON (save_body (arr_request ar)) = Ok req ->
    valid_SaveRequest req -> refused ar (RespEmpty StatusInternalServerError).

(** The first round of the search asks the context, and panics. *)
Lemma unnamed_save_quiet n ctx u a (f : result string -> prog response) Q :
  n < 0 -> 0 < Service.MaxRetries (Service.cfg s) -> TrimSpace u <> "" -> TrimSpace a = "" ->
  (forall e, ctx_error (Some e) = true ->
     quiet Q (recover n panic_answer (f (Err (wrap_op Service.op_saveGenerated e))))) ->
  Q panic_answer ->
  quiet Q (recover n panic_answer (urls_Save c s ctx u a ≫= f)).
Proof.
  intros Hn Hm Hu Ha Hf Hp. unfold urls_Save, URLService_Save. cbv zeta.
  rewrite bool_decide_eq_false_2, bool_decide_eq_false_2 by (try done; by auto).
  destruct (Z.to_nat _) as [|fuel] eqn:Ef; [lia|]. cbn [saveGenerated_loop].
  rewrite (proj2 (Z.leb_le 1 _)) by lia. intros [e|] He; [by apply Hf|].
  simpl. by rewrite generator_panics_length, (proj2 (Z.ltb_lt n 0)).
Qed.

Lemma Handler_Save_quiet n r req Q : n < 0 -> 0 < Service.MaxRetries (Service.cfg s) ->
  DecodeJSON (save_body r) = Ok req -> Alias req = "" ->
  (forall errs, ~ valid_SaveRequest req -> complaints req errs ->
     Q (Respond StatusBadRequest (ValidationError errs))) ->
  (valid_SaveRequest req ->
     Q (Respond StatusInternalServerError (Error_response "failed add url")) /\ Q panic_answer) ->
  quiet Q (recover n panic_answer (Handler_Save_prog c s r)).
Proof.
  intros Hn Hm Ed Ha Hbad Hgood. unfold Handler_Save_prog. cbn [Body WithBody Context_of].
  fold (save_body r). rewrite Ed.
  destruct (Struct_SaveRequest req) as [[-> Hv]|(errs & -> & Hc & Hv)]; [|by apply Hbad].
  destruct (Hgood Hv) as [Hdone Hpanic]. apply unnamed_save_quiet; try done.
  - destruct Hv as (_ & _ & Hs & _). apply url_scheme_web, web_url_trim in Hs. by intros E; rewrite E in Hs.
  - by rewrite Ha.
  - intros e He. by destruct (ctx_error_cases _ He) as [[=]|[[= ->]|[= ->]]].
Qed.

Lemma http_quiet n ar : n < 0 -> 0 < Service.MaxRetries (Service.cfg s) -> unnamed ar = true ->
  quiet (refused ar) (http_prog n ar).
Proof.
  intros Hn Hm Hu. destruct (http_routed c s uint64_oob verifier n ar) as [ctx ->].
  unfold unnamed in Hu. set (r := arr_request ar) in *.
  destruct (table_endpoint (Method r) (URL_Path r)) as [[]|] eqn:He; try done.
  destruct (DecodeJSON (save_body r)) as [req|] eqn:Ed; [|done]. apply bool_decide_eq_true in Hu.
  apply (route_shape c s uint64_oob verifier (fun p => quiet (refused ar) (recover n panic_answer p)));
    change (table_endpoint _ _) with (table_endpoint (Method r) (URL_Path r)); try (by rewrite He).
  intros _. unfold Traffic.write_prog, RequireAuth_prog.
  change (Header_Get _ "Authorization") with (Header_Get r "Authorization").
  destruct (HasPrefix _ _) eqn:Hp; [|by apply no_token]. apply TrimPrefix_spec in Hp.
  intros now. simpl. destruct (Verify uint64_oob verifier now _) as [claims|e] eqn:Ev;
    [|by eapply bad_token].
  intros t. simpl. destruct (arr_let_in ar) eqn:Hl; [|by apply over_limit].
  assert (Hin : let_in ar) by (split; [done|by eexists _, now, claims]).
  apply (Handler_Save_quiet n _ req); try done.
  - intros errs Hv Hc. by eapply invalid_post.
  - intros Hv. split; [by eapply context_done|]. rewrite panic_answer_spec. by eapply panicked.
Qed.

(** The other requests do not get to the generator. *)
Lemma Handler_Save_genless r :
  (forall req, DecodeJSON (save_body r) = Ok req -> Alias req <> "") ->
  genless (Handler_Save_prog c s r).
Proof.
  intros Hne. unfold Handler_Save_prog. cbn [Body WithBody Context_of]. fold (save_body r).
  destruct (DecodeJSON (save_body r)) as [req|e]; [|done].
  destruct (Struct_SaveRequest req) as [[-> Hv]|(errs & -> & _)]; [|done].
  apply genless_bind; [apply genless_bind; [|done]|by intros [a|e]].
  apply URLService_Save_genless. destruct Hv as (_ & _ & _ & [Ha|[_ Ha]]); [by destruct (Hne req)|].
  by destruct (alias_trimmed _ Ha) as [? ->].
Qed.

Lemma Handler_Get_genless r : genless (Handler_Get_prog c r).
Proof.
  unfold Handler_Get_prog. cbv zeta. case_bool_decide; [done|].
  apply genless_bind; [apply URLService_Get_genless|by intros [u|e]].
Qed.

Lemma Handler_Delete_genless r : genless (Handler_Delete_prog c r).
Proof.
  unfold Handler_Delete_prog. cbv zeta. case_bool_decide; [done|].
  apply genless_bind; [apply URLService_Delete_genless|by intros [e|]].
Qed.

Lemma route_genless ar ctx : unnamed ar = false ->
  genless (route_prog c s uint64_oob verifier (arr_let_in ar) (arr_other ar)
             (WithContext (arr_request ar) ctx)).
Proof.
  intros Hu. unfold unnamed in Hu.
  apply (route_shape c s uint64_oob verifier genless);
    change (table_endpoint _ _) with
      (table_endpoint (Method (arr_request ar)) (URL_Path (arr_request ar))).
  - intros a _ _. apply Handler_Get_genless.
  - intros He. rewrite He in Hu.
    apply (write_rule uint64_oob verifier (fun _ => genless) 0); [done..|].
    intros token now claims ctx' _ _. apply Handler_Save_genless. intros req Hd.
    change (DecodeJSON (save_body (arr_request ar)) = Ok req) in Hd. rewrite Hd in Hu.
    by apply bool_decide_eq_false in Hu.
  - intros a _ _. apply (write_rule uint64_oob verifier (fun _ => genless) 0); [done..|].
    intros. apply Handler_Delete_genless.
  - done.
Qed.

Lemma http_named n n' ar : unnamed ar = false -> http_prog n ar = http_prog n' ar.
Proof.
  intros Hu. unfold Traffic.http_prog. destruct (routed_request (arr_request ar)) as [ctx ->].
  by rewrite !recover_genless by (by apply route_genless).
Qed.

(** Leaving the posts without an alias out leaves the other requests, and for
    them the length makes no difference. *)
Lemma others_start n n' ars :
  others unnamed (start_http c s uint64_oob verifier n ars) =
  start_http c s uint64_oob verifier n' (filter (fun ar => unnamed ar = false) ars).
Proof.
  unfold others, start_http. induction ars as [|ar ars IH]; [done|].
  rewrite fmap_cons, !filter_cons. case_decide as Hu; simpl in Hu;
    [rewrite decide_True by done|by rewrite decide_False].
  rewrite fmap_cons. f_equal; [|exact IH]. f_equal. by apply http_named.
Qed.
End Unnamed.

(** ** A request alone *)

Section Alone.
Context {W} `{Storage W, Redis W, Runtime W, !Singleflight (Z * W), !SingleflightSpec (Z * W)}.
Context `{!Service.AliasGenerator W, !AuthService (Z * W), !Pinger (Z * W)}.
Context `{JWT, EngineSpec, MailLib, MuxSpec, RequestIDsSpec, Recoverer}.
Context `{BodyDecoder SaveRequest, BodyDecoder registerRequest, BodyDecoder loginRequest,
          BodyDecoder refreshRequest}.
Context (c : Cache) (s : Service.Service) (uint64_oob : float64 -> Z) (verifier : Verifier).

#[local] Instance urls_storage : Storage (Z * W) := over_cache c.
#[local] Existing Instances over_runtime over_generator.
#[local] Instance urls_over_cache : URLService (Z * W) := ServiceURLs s.

(** What the limiter of the writes answers, asked after the verifier has read the
    clock. *)
Definition verdict (wl : Limiter) (v : Z * W) (r : request) : bool :=
  (RateLimit.allow wl (time_Now (time_Now v).2).1 (clientIP r)).1.

#[local] Hint Resolve models_URLService_Save models_URLService_Get models_URLService_Delete : models.

Lemma models_urls_Save ctx u a : models (W := W) (urls_Save c s ctx u a) (svc_Save ctx u a).
Proof. apply models_bind; [apply models_URLService_Save|]. intros r. apply models_ret. Qed.

Lemma models_urls_Get ctx a : models (W := W) (URLService_Get c ctx a) (svc_Get ctx a).
Proof. apply models_URLService_Get. Qed.

Lemma models_urls_Delete ctx a : models (W := W) (URLService_Delete c ctx a) (svc_Delete ctx a).
Proof. apply models_URLService_Delete. Qed.

#[local] Hint Resolve models_urls_Save models_urls_Get models_urls_Delete : models.

Lemma models_Handler_Save r : models (W := W) (Handler_Save_prog c s r) (Handler_Save r).
Proof. unfold Handler_Save_prog, Handler_Save. cbv zeta. follow. Qed.

Lemma models_Handler_Get r : models (W := W) (Handler_Get_prog c r) (Handler_Get r).
Proof. unfold Handler_Get_prog, Handler_Get. cbv zeta. destruct (bool_decide _); follow. Qed.

Lemma models_Handler_Delete r : models (W := W) (Handler_Delete_prog c r) (Handler_Delete r).
Proof. unfold Handler_Delete_prog, Handler_Delete. cbv zeta. destruct (bool_decide _); follow. Qed.

Lemma interp_Now {A} (k : Z -> prog A) (v : Z * W) :
  interp (Now k) v = interp (k (time_Now v).1) (time_Now v).2.
Proof.
  destruct v as [d w]. simpl. m_unfold.
  change (time_Now (W := Z * W) (d, w)) with (lift_snd (C := Z) time_Now (d, w)). unfold lift_snd.
  by destruct (time_Now w).
Qed.

(** A write alone. *)
Lemma serve_write_alone (p : request -> prog response) (h : Handler (Z * W)) r (al wl : Limiter) v :
  (forall r, models (W := W) (p r) (h r)) ->
  interp (write_prog uint64_oob verifier (verdict wl v r) p r) v =
    ((serve_write uint64_oob verifier h r (al, (wl, v))).1,
     (serve_write uint64_oob verifier h r (al, (wl, v))).2.2.2).
Proof.
  intros Hp. unfold serve_write, write_prog. rewrite lift_snd_eq. unfold RequireAuth, RequireAuth_prog.
  destruct (negb _); [done|]. rewrite !bind_eq.
  change (time_Now (W := Limiter * (Z * W)) (wl, v)) with
    (lift_snd (C := Limiter) time_Now (wl, v)). rewrite lift_snd_eq. cbn [fst snd].
  cbn [mbind prog_mbind prog_bind]. rewrite interp_Now.
  destruct (Verify _ _ _ _) as [claims|e]; [|done].
  set (r' := WithContext r _). unfold verdict, Limiter_prog.
  cbn [mbind prog_mbind prog_bind]. rewrite interp_Now, Limiter_Middleware_eq.
  change (clientIP r') with (clientIP r).
  destruct (RateLimit.allow wl _ (clientIP r)) as [[|] wl']; simpl; [|done].
  rewrite Hp. by destruct (h r' _).
Qed.

(** The endpoints that serve the links, or nothing. *)
Definition link_endpoint (r : request) : Prop :=
  table_endpoint (Method r) (URL_Path r) <> Some EpAuth /\
  table_endpoint (Method r) (URL_Path r) <> Some EpHealthz.

(** A check of these programs against Router: with an alias length that is not
    negative, a request on the links that runs alone does to the world what
    [NewRouter] does, the verdict of the limiter being the one of [allow]. *)
Lemma traffic_alone_is_router n ar (al wl : Limiter) (v : Z * W) :
  0 <= n -> link_endpoint (arr_request ar) -> arr_let_in ar = verdict wl v (arr_request ar) ->
  let '((resp, _), (_, (_, v'))) := NewRouter uint64_oob verifier (arr_request ar) (al, (wl, v)) in
  interp (http_prog c s uint64_oob verifier n ar) v = (resp, v').
Proof.
  intros Hn [Hauth Hhealth] Hok. unfold http_prog, NewRouter.
  destruct (routed_request (arr_request ar)) as [ctx ->]. set (r := arr_request ar) in *.
  unfold access_log. change (URL_Path (WithContext r ctx)) with (URL_Path r).
  assert (Hroute : interp (route_prog c s uint64_oob verifier (arr_let_in ar) (arr_other ar)
      (WithContext r ctx)) v =
    ((serve_route uint64_oob verifier (WithContext r ctx) (al, (wl, v))).1,
     (serve_route uint64_oob verifier (WithContext r ctx) (al, (wl, v))).2.2.2)).
  2:{ rewrite interp_recover, Hroute by done. destruct (bool_decide _); rewrite bind_eq;
        by destruct (serve_route _ _ _ _) as [resp [? [? ?]]]. }
  rewrite Hok. unfold route_prog, serve_route.
  set (r' := match alias_of _ with Some a => _ | None => _ end).
  assert (Hr' : Method r' = Method r /\ URL_Path r' = URL_Path r /\ clientIP r' = clientIP r)
    by (subst r'; by destruct (alias_of _)).
  destruct Hr' as (Hm & Hp & Hip). rewrite Hm, Hp.
  pose proof (find_routes (Method r) (URL_Path r)) as Hf.
  destruct (find_route routes _ _) as [rt|]; [|done].
  simpl in Hf. unfold verdict. rewrite <- Hip.
  destruct (rt_endpoint rt); try done; rewrite ?lift_snd_eq; cbn [fst snd].
  - by rewrite models_Handler_Get; destruct (Handler_Get r' v).
  - apply serve_write_alone, models_Handler_Save.
  - apply serve_write_alone, models_Handler_Delete.
Qed.
End Alone.

(** ** Properties *)

Section Properties.
Context (c : Cache) (s : Service.Service).
Context `{JWT, !JWTLaws, EngineSpec, MuxSpec, RequestIDsSpec, RecovererSpec, BodyDecoder SaveRequest}.
Context (uint64_oob : float64 -> Z) (verifier : Verifier).
Implicit Types (n : Z).

#[local] Abbreviation start_http := (start_http c s uint64_oob verifier).
#[local] Abbreviation endpoint_of ar :=
  (table_endpoint (Method (arr_request ar)) (URL_Path (arr_request ar))).

(** One of the requests posts the web address [u], with a token that is signed,
    under the alias [a] or under any. *)
Definition posted (ars : list arrival) (a u : string) : Prop :=
  exists ar req, ar ∈ ars /\ endpoint_of ar = Some EpSave /\
    asked verifier (arr_request ar) req /\ u = TrimSpace (URL req) /\ web_url u = true /\
    (Alias req <> "" -> a = Alias req).

(** Where a link may come from. *)
Definition origin (ars : list arrival) (sh : shared) (a u : string) : Prop :=
  store sh !! a = Some u \/ redis sh !! a = Some u \/ posted ars a u.

Lemma valid_posted ars ar req b : ar ∈ ars -> endpoint_of ar = Some EpSave ->
  asked verifier (arr_request ar) req -> TrimSpace (Alias req) = "" \/ b = TrimSpace (Alias req) ->
  posted ars b (TrimSpace (URL req)).
Proof.
  intros Hin He Ha Hb. exists ar, req. split_and!; [done..| |].
  - destruct Ha as (_ & _ & _ & _ & Hs & _). by apply web_url_trim, url_scheme_web.
  - destruct Ha as (_ & _ & _ & _ & _ & [->|[_ Hal]]); [done|]. intros Hne.
    destruct (alias_trimmed _ Hal) as [_ Ht]. rewrite Ht in Hb. by destruct Hb.
Qed.

(** C12: However the requests interleave, and whatever fails, no link appears from
    nowhere: what is stored, what Redis holds and where [GET /{alias}] redirects
    to was there under the alias, or is a web address that the bearer of a
    signed token posts, under the alias if the request names one. *)
Theorem traffic_safe n ars sh st : delivered sh = [] -> rtc step (sh, start_http n ars) st ->
  map_Forall (origin ars sh) (store st.1) /\ map_Forall (origin ars sh) (redis st.1) /\
  forall ar code u, endpoint_of ar = Some EpGet -> answered st ar (RespRedirect code u) ->
    code = StatusFound /\ origin ars sh (path_alias (arr_request ar)) u.
Proof.
  intros Hd Hst.
  destruct (state_answered (H := provenance (origin ars sh)) _
    (fun ar => http_ok_stable verifier (arr_request ar)) _ _ Hst) as [(Hs' & Hr' & _) Ha].
  - apply start_http_ok; [apply _..| |].
    + split_and!; [by intros a u Hu; left|by intros a u Hu; right; left|by rewrite Hd].
    + apply Forall_forall. intros ar Hin. unfold http_permitted.
      destruct (endpoint_of ar) as [[]|] eqn:He; try done.
      intros req Hreq b Hb. right; right. by eapply valid_posted.
  - split_and!; [done..|]. intros ar code u He Hu. specialize (Ha ar _ Hu).
    unfold http_ok in Ha. rewrite He in Ha. by apply Ha.
Qed.

(** C11: An alias [a] that no bearer of a signed token deletes belongs to one link,
    however the requests interleave and whatever fails.  A link that was there
    stays; Redis agrees with the storage; a [POST /url] that is answered with
    200 and [a] carried a signed token and has its URL stored under [a], and
    there is only one; and [GET] of [a] redirects to the URL that is stored. *)
Theorem traffic_keeps_links n a ars sh st :
  (forall u, redis sh !! a = Some u -> store sh !! a = Some u) -> delivered sh = [] ->
  (forall ar, ar ∈ ars -> endpoint_of ar = Some EpDelete ->
     authorized (secret verifier) (arr_request ar) -> path_alias (arr_request ar) <> a) ->
  rtc step (sh, start_http n ars) st ->
  (forall u, store sh !! a = Some u -> store st.1 !! a = Some u) /\
  (forall u, redis st.1 !! a = Some u -> store st.1 !! a = Some u) /\
  (forall ar, endpoint_of ar = Some EpSave -> answered st ar (created a) -> exists req,
     asked verifier (arr_request ar) req /\ store st.1 !! a = Some (TrimSpace (URL req))) /\
  (forall i j ar ar', st.2 !! i = Some (ar, Ret (created a)) -> endpoint_of ar = Some EpSave ->
     st.2 !! j = Some (ar', Ret (created a)) -> endpoint_of ar' = Some EpSave -> i = j) /\
  (forall ar code u, endpoint_of ar = Some EpGet -> path_alias (arr_request ar) = a ->
     answered st ar (RespRedirect code u) -> code = StatusFound /\ store st.1 !! a = Some u).
Proof.
  intros Hr Hd Hars Hst.
  pose proof (fun ar => http_ok_stable (H := undeleted a) verifier (arr_request ar)) as Hstable.
  assert (Hok : state_ok (H := undeleted a)
    (fun ar => http_ok (H := undeleted a) verifier (arr_request ar)) (sh, start_http n ars)).
  { apply start_http_ok; [apply _..| |].
    - split_and!; [done| |by rewrite Hd]. by intros k u Hk ->; apply Hr.
    - apply Forall_forall. intros ar Hin. unfold http_permitted.
      destruct (endpoint_of ar) as [[]|] eqn:He; try done.
      intros Hauth _. by apply Hars. }
  destruct (state_answered (H := undeleted a) _ Hstable _ _ Hst Hok) as [(_ & Hr' & _) Ha].
  split_and!.
  - intros u Hu. pose proof (steps_move (H := undeleted a) _ Hstable _ _ Hst Hok) as [Hn|Heq];
      simpl in *; congruence.
  - intros u Hu. by apply (Hr' a u Hu).
  - intros ar He Hc. specialize (Ha ar _ Hc). unfold http_ok in Ha. rewrite He in Ha.
    destruct (Ha a eq_refl) as (req & Hreq & Hf). exists req. split; [done|]. by apply Hf.
  - intros i j ar ar' Hi He Hj He'.
    eapply (one_winner a _ (told_created a) Hstable _ _ i j); [exact Hst|exact Hok| |by eauto..].
    apply Forall_fmap, Forall_true. intros x. apply clean_http; apply _.
  - intros ar code u He Hp Hu. specialize (Ha ar _ Hu). unfold http_ok in Ha. rewrite He, Hp in Ha.
    destruct (Ha code u eq_refl) as [-> Hf]. split; [done|]. by apply Hf.
Qed.

(** C19: With a negative alias length, which start-up accepts, and a positive number of
    retries, which it requires, every post without an alias that gets to the
    generator makes it panic, and the panics are contained.  A post without an alias is refused: by the Recoverer with its
    500 if it is let in and valid, unless its context is done before that, and
    otherwise as always.  The other requests never notice: they and the shared
    state run as they would with any other length and without those posts.
    And from wherever a run has got to, all requests can still be answered. *)
Theorem panics_contained n n' ars sh st :
  n < 0 -> 0 < Service.MaxRetries (Service.cfg s) -> flights sh = ∅ ->
  rtc step (sh, start_http n ars) st ->
  (forall ar resp, unnamed ar = true -> answered st ar resp ->
     refused uint64_oob verifier ar resp) /\
  rtc step (sh, start_http n' (filter (fun ar => unnamed ar = false) ars))
    (st.1, others unnamed st.2) /\
  exists st', rtc thread_step st st' /\ all_answered st'.
Proof.
  intros Hn Hm Hf Hst.
  destruct (run_others unnamed (refused uint64_oob verifier) _ _ Hst) as [Hq Hr].
  { apply Forall_fmap, Forall_true. intros ar Hu. by apply http_quiet; [apply _..| | |]. }
  split_and!.
  - intros ar resp Hu Hin. rewrite Forall_forall in Hq. exact (Hq _ Hin Hu).
  - simpl in Hr. by rewrite (others_start c s uint64_oob verifier n n') in Hr.
  - destruct (rtc_run _ _ Hst) as [k Hk]. unfold Traffic.start_http in Hk.
    eapply (pool_answered (2 + accesses s)); [exact Hf| |exact Hk].
    apply Forall_fmap, Forall_true. intros ar. split; [apply http_calm|apply http_steps]; apply _.
Qed.

(** C17: Every request is answered: at most fifteen accesses and eight for every retry
    allowed, no reachable state is stuck, and from wherever a run has got to
    there is a way to all the answers. *)
Theorem traffic_answered n ars sh k st :
  flights sh = ∅ -> run k (sh, start_http n ars) st ->
  (k <= (2 + accesses s) * length ars)%nat /\
  (all_answered st \/ exists st', thread_step st st') /\
  exists st', rtc thread_step st st' /\ all_answered st'.
Proof.
  intros Hf Hr. unfold Traffic.start_http in Hr.
  pose proof (pool_answered (2 + accesses s)
    ((fun ar => (ar, http_prog c s uint64_oob verifier n ar)) <$> ars) sh k st Hf) as Hp.
  rewrite length_fmap in Hp. apply Hp; [|exact Hr].
  apply Forall_fmap, Forall_true. intros ar. split; [apply http_calm|apply http_steps]; apply _.
Qed.
End Properties.

(** ** Instances *)

#[export] Instance demo_recoverer : Recoverer := RespEmpty StatusInternalServerError.
#[export] Instance demo_recoverer_ok : RecovererSpec.
Proof. done. Qed.

Definition arrival_of (r : request) : arrival :=
  {| arr_request := r; arr_let_in := true; arr_other := RespEmpty StatusOK |}.

(** A link is posted, and followed while the post is still under way. *)
Definition post_arrival : arrival := arrival_of (RouterDemo.request_of "POST" "/url" "Bearer tok").
Definition get_arrival : arrival := arrival_of (RouterDemo.request_of "GET" "/ABCDEF" "").
Definition two_arrivals : list arrival := [post_arrival; get_arrival].

Definition start_demo : list (thread arrival response) :=
  start_http (Cache.New Hour) two_rounds RouterDemo.oob TableJWT.verifier 6 two_arrivals.

Definition traffic_end : state arrival response :=
  ({| clock := 0; down := 0; store := {["ABCDEF" := "https://a"]};
      redis := {["ABCDEF" := "https://a"]}; flights := ∅;
      delivered := [("ABCDEF", Ok (AnyString "https://a"))] |},
   [(post_arrival, Ret (created "ABCDEF")); (get_arrival, Ret (RespRedirect 302 "https://a"))]).

Lemma traffic_run : rtc step (empty_shared, start_demo) traffic_end.
Proof.
  apply (schedule_sound [(0, Works); (0, Works); (0, Works); (0, Gives (Ok "ABCDEF")); (0, Works);
    (1, Works); (1, Works); (1, Works); (0, Works); (0, Works); (0, Works); (1, Works);
    (1, Works); (1, Works); (1, Works); (1, Works); (1, Works)]%nat).
  vm_compute. reflexivity.
Qed.

Lemma traffic_safe_witness :
  answered traffic_end get_arrival (RespRedirect 302 "https://a") /\
  posted TableJWT.verifier two_arrivals "ABCDEF" "https://a".
Proof.
  assert (Ha : answered traffic_end get_arrival (RespRedirect 302 "https://a"))
    by apply list_elem_of_further, list_elem_of_here.
  split; [exact Ha|].
  destruct (traffic_safe (Cache.New Hour) two_rounds RouterDemo.oob TableJWT.verifier 6 two_arrivals
    empty_shared traffic_end eq_refl traffic_run) as (_ & _ & Hget).
  destruct (Hget get_arrival 302 "https://a" eq_refl Ha) as [_ [Hs|[Hr|Hp]]];
    [discriminate Hs|discriminate Hr|exact Hp].
Defined.

Lemma traffic_keeps_links_witness :
  answered traffic_end post_arrival (created "ABCDEF") /\
  store traffic_end.1 !! "ABCDEF" = Some "https://a".
Proof.
  assert (Ha : answered traffic_end get_arrival (RespRedirect 302 "https://a"))
    by apply list_elem_of_further, list_elem_of_here.
  split; [apply list_elem_of_here|].
  destruct (traffic_keeps_links (Cache.New Hour) two_rounds RouterDemo.oob TableJWT.verifier 6 "ABCDEF"
    two_arrivals empty_shared traffic_end) as (_ & _ & _ & _ & Hget);
    [discriminate|reflexivity| |exact traffic_run|exact (proj2 (Hget get_arrival _ _ eq_refl eq_refl Ha))].
  intros ar Hin He. unfold two_arrivals in Hin. rewrite !elem_of_cons, elem_of_nil in Hin.
  destruct Hin as [->|[->|[]]]; vm_compute in He; discriminate He.
Defined.

(** The post has its token checked, and the lookup leads the flight. *)
Lemma traffic_under_way : exists st, run 6 (empty_shared, start_demo) st /\ ~ all_answered st.
Proof.
  refine (schedule_run [(0, Works); (1, Works); (1, Works); (1, Works); (1, Works); (0, Works)]%nat _ _).
  vm_compute. reflexivity.
Qed.

Lemma traffic_answered_witness : exists st, run 6 (empty_shared, start_demo) st /\
  ~ all_answered st /\ exists st', rtc thread_step st st' /\ all_answered st'.
Proof.
  destruct traffic_under_way as (st & Hr & Hno). exists st. split; [exact Hr|]. split; [exact Hno|].
  destruct (traffic_answered (Cache.New Hour) two_rounds RouterDemo.oob TableJWT.verifier 6 two_arrivals
    empty_shared 6 st eq_refl Hr) as (_ & _ & Hend).
  exact Hend.
Defined.

(** The accounts and the probe, of which nothing is asked. *)
#[local] Instance no_accounts : AuthService (Z * SimRedis.world) := {|
  sso_Register _ _ _ := mret (Ok 1); sso_Login _ _ _ := mret (Ok ("a", "r"));
  sso_RefreshTokens _ _ := mret (Ok ("a", "r")); sso_Logout _ _ := mret None |}.
#[local] Instance no_probe : Pinger (Z * SimRedis.world) :=
  {| db_Ping _ := mret None; redis_Ping _ := mret None |}.

(** Nothing stored, and every server up. *)
Definition fresh : Z * SimRedis.world :=
  (0, {| SimRedis.now := 0; SimRedis.tick := 0; SimRedis.db := ∅; SimRedis.keys := ∅;
         SimRedis.fails := [] |}).

(** The post alone, through the router: its link is in the storage and in Redis. *)
Lemma traffic_alone_is_router_witness :
  interp (http_prog (Cache.New Hour) two_rounds RouterDemo.oob TableJWT.verifier 6 post_arrival) fresh =
  (created "ABCDEF", (0, {| SimRedis.now := 0; SimRedis.tick := 0;
     SimRedis.db := {["ABCDEF" := "https://a"]}; SimRedis.keys := {["ABCDEF" := "https://a"]};
     SimRedis.fails := [] |})).
Proof.
  pose proof (traffic_alone_is_router (Cache.New Hour) two_rounds RouterDemo.oob TableJWT.verifier
    6 post_arrival authLimiter writeLimiter fresh) as Ht.
  match type of Ht with _ -> _ -> _ -> let '(_, _) := ?m in _ => destruct m as [[resp lvl] [al [wl v']]] eqn:E end.
  rewrite Ht; [|lia|split; vm_compute; discriminate|vm_compute; reflexivity].
  vm_compute in E. injection E as <- <- <- <- <-. vm_compute. reflexivity.
Defined.

(** A configured length of -1: the post panics while a link is followed, and is
    answered by the Recoverer. *)
Definition panic_start : shared :=
  {| clock := 0; down := 0; store := {["ABCDEF" := "https://a"]}; redis := ∅; flights := ∅;
     delivered := [] |}.

Definition panic_end : state arrival response :=
  ({| clock := 0; down := 0; store := {["ABCDEF" := "https://a"]};
      redis := {["ABCDEF" := "https://a"]}; flights := ∅;
      delivered := [("ABCDEF", Ok (AnyString "https://a"))] |},
   [(post_arrival, Ret (RespEmpty 500)); (get_arrival, Ret (RespRedirect 302 "https://a"))]).

Lemma panic_run : rtc step (panic_start, start_http (Cache.New Hour) two_rounds RouterDemo.oob
  TableJWT.verifier (-1) two_arrivals) panic_end.
Proof.
  apply (schedule_sound ((fun i => (i, Works)) <$> [0; 1; 1; 0; 1; 1; 0; 1; 1; 1; 1; 1]%nat)).
  vm_compute. reflexivity.
Qed.

Lemma panics_contained_witness :
  refused RouterDemo.oob TableJWT.verifier post_arrival (RespEmpty 500) /\
  rtc step (panic_start, start_http (Cache.New Hour) two_rounds RouterDemo.oob
    TableJWT.verifier 6 [get_arrival])
    (panic_end.1, [(get_arrival, Ret (RespRedirect 302 "https://a"))]).
Proof.
  destruct (panics_contained (Cache.New Hour) two_rounds RouterDemo.oob TableJWT.verifier (-1) 6
    two_arrivals panic_start panic_end) as (Hrefused & Hothers & _);
    [reflexivity|reflexivity|reflexivity|exact panic_run|].
  split; [|exact Hothers].
  apply Hrefused; [vm_compute; reflexivity|apply list_elem_of_here].
Defined.
